(* ===== verification/_CoqProject ===== *)
-Q . S2P
Prelude.v
GoStrings.v
Sha256.v
Base64.v
Libs.v
ApiTypes.v
SpireApi.v
Batch.v
ClientIface.v
SpireClient.v
SpireClientFacts.v
SpireReliable.v
GoFloat.v
Entries.v
EntriesFacts.v
EntriesState.v
EntriesStateFacts.v
World.v
Aws.v
Cluster.v
ClusterFacts.v
MainReconciler.v
ApplyFacts.v
DeclareFacts.v
ReconcileFacts.v
ConvergeFacts.v
ConnectFacts.v
Finalizer.v
Targeted.v
Deletion.v
Controllers.v
TargetedFacts.v
HintFacts.v
HandlerFacts.v
TestLibs.v
TestServer.v
TestKube.v
EntryProps.v
MainProps.v
TargetedProps.v
HandlerProps.v
ClusterProps.v
ClientProps.v
Reconciler.v
ByObject.v
Setup.v
WebhookManager.v
LoopProps.v
Interleave.v
CallFacts.v
PoolFacts.v
Mirror.v
MirrorFacts.v
InterleaveProps.v
Memory.v
DeepCopy.v
DeepCopyProps.v
MainProgram.v
StartupProps.v
