(* ===== verification/Prelude.v ===== *)
(** * Verification of the SPIRE EKS workload registrar

    The registrar is a Kubernetes controller written in Go.  It connects to a
    fleet of EKS clusters, watches their pods, and keeps one registration entry
    at a SPIRE server for every running pod that a WorkloadIdentity resource
    selects.  This library models the Go code under src/ function by function,
    under the names the code uses, and proves what each part does.

    ** The parts and where they are

    - pkg/spireapi/client.go: [SpireApi] has the data ([Entry], [Sel],
      [Status]) and the conversions to and from the messages of the server,
      [Batch] the loop [runBatch], [SpireClient] the operations over the entry
      service.  [ClientIface] is the Go interface [Client] with two classes of
      laws: [ClientSpec], of a client whose calls may fail in any way, and
      [ReliableClient], of one that does what it is asked.  [SpireClientFacts]
      and [SpireReliable] prove that the gRPC client meets both, from
      [ServiceSpec] and [ReliableService], which state what the entry service
      documents.
    - internal/spireentry: [Entries] (entries.go: [RenderEntry], the entry key
      and the comparison), [EntriesState] (state.go: current and declared
      entries, [GetChanges]) and [ByObject] (byobject.go), with lemmas in
      [EntriesFacts] and [EntriesStateFacts].
    - internal/aws and internal/cluster: [Aws] (the kubeconfig and the client
      cache), [Cluster] (the connections of [Manager] and the pod events, with
      the invariant [manager_wf]) and [ClusterFacts].
    - internal/controller: [MainReconciler] (main_reconciler.go), [Targeted]
      (targeted_reconciler.go), [Deletion] (deletion_controller.go) and
      [Controllers] (the controllers of the two resource types and the wiring
      of pod events).  [DeclareFacts], [ApplyFacts], [ReconcileFacts],
      [ConvergeFacts] and [ConnectFacts] treat the phases of the full cycle,
      [TargetedFacts] and [HintFacts] the handlers and the reading of hints,
      [HandlerFacts] the handlers as wholes.
    - The handlers side by side: [Interleave] runs the same definitions over a
      [wire], on which a handler waits at each call to the SPIRE server, in a
      pool that shares the server; [CallFacts] has what the handlers ask for,
      [PoolFacts] the invariant of a pool, [Mirror] and [MirrorFacts] that a
      handler does over a wire what it does over a server.
    - internal/reconciler: [Reconciler], the loop of [Run] and [Trigger] as a
      labelled step function; a list of labels is an interleaving.
    - pkg/finalizer and the two admission webhooks: [Finalizer].
    - pkg/webhookmanager: [WebhookManager].
    - api/v1alpha1: [ApiTypes] (the resource types and the Kubernetes objects
      beside them); [DeepCopy] (zz_generated.deepcopy.go) over the memory model
      of [Memory]: cells with pointers, slices and maps.
    - cmd/main.go: [Setup] (the configuration and its loader) and [MainProgram]
      (the process as a program over the operations it asks for, each recorded
      with its answer: calls, goroutines, registrations, deferred calls, exit).
    - The Go standard library as far as it is used: [GoStrings], [Sha256],
      [Base64], [GoFloat].
    - [Libs]: the other libraries the code calls (go-spiffe, label selectors,
      regular expressions) and the order in which Go visits a map, as classes.
    - [World]: the outside (Kubernetes, AWS, the clock) as the class [Kube],
      and the state of the program: the SPIRE server, the connections by
      cluster name, the cached clients by cluster name, and the stop channels.
    - [TestLibs], [TestServer], [TestKube]: executable instances of all these
      classes, which show that the laws can be met and on which the witnesses
      compute.
    - [EntryProps], [MainProps], [TargetedProps], [HandlerProps],
      [ClusterProps], [ClientProps], [LoopProps], [InterleaveProps],
      [DeepCopyProps], [StartupProps]: the properties, those with a hypothesis
      with a witness.

    ** How the code is modelled

    A Go function with effects is a [GoM W A]: from a world it returns a value,
    panics, or does not return, and gives the world after it.  Errors are
    values of [error] in a [result] or an [option].  A nil dereference, a
    failed index or a call on a nil interface is [Panic].  Integers have their
    width where it matters: statuses and TTLs are 32-bit, times subtract on 64
    bits; lengths and loop counters cannot reach their bounds and are plain.
    Log calls are left out, except where evaluating their arguments can panic.
    Maps are [gmap]s; where the code ranges over one, [range_map] is any order,
    and the theorems hold for all.  The entries a world has [registered] are
    those of the SPIRE server, by ID.

    A handler is a function from a world to a world, and most theorems are
    about one handler.  How handlers interleave is treated in two places.  In
    [Interleave] the handlers of all events run as threads and every call to
    the SPIRE server is a step, so that any two calls of a handler may have
    calls of others between them; each thread has its own view of Kubernetes,
    which may be any, and its own copy of the connections, so nothing is
    claimed there of two handlers that change the connections at once (the code
    guards them with a mutex, and a method that holds it is one step).  In
    [Reconciler] the steps of [Run], [Trigger], the ticker and the rest of the
    program interleave freely.  The outside may change at every call: [evolves]
    is the relation of the outside before a handler's calls to the outside after
    them.  Only the theorems about exact results ask for a [QuietKube], whose
    answers stay the same, and a [ReliableClient]; a reliable server still
    answers a creation with "already exists" when it keeps an entry with the
    same SPIFFE ID, parent and selectors under another ID ([taken]).

    Values are immutable in the model.  [DeepCopy_correct] is why that is
    faithful where the code copies: a generated copy has the same value and
    shares no memory with the original.

    ** Fuel

    [runBatch] runs with fuel for one round per element, which
    [runBatch_run_chunks] shows to be enough for every batch size.  The paging
    loop of [ListEntries] has no bound in the code; the client takes a bound on
    the number of pages the server hands out, and [client_ListEntries_pages]
    shows that any such bound gives the whole listing.  [Expand] and
    [pem_lines] run with the length of their text and consume at least one
    byte each round.  Every other loop is structural.

    ** What the theorems show

    - The full cycle: in every run, with every call free to fail, it keeps the
      manager's invariant and touches only its own entries, each of which ends
      as it was, deleted, or as rendered in this cycle for a running, scheduled
      pod of a connection's informer that an identity of the listing selects;
      it panics only when EKS describes an enabled cluster without a certificate
      authority ([reconcileAll_safe]).  With a quiet cluster state and a
      reliable server it brings the server exactly to the desired entries, less
      those of which the server keeps a like elsewhere
      ([reconcileEntries_converges]); these are a function of the cluster state
      that no order changes ([process_all_refines]), and a second cycle sends
      nothing ([second_cycle_no_changes]).  [GetChanges] is the exact three-way
      difference of states that are well formed however they are filled
      ([entriesState_well_formed]).
    - Several handlers at once: in every interleaving of their calls the
      server keeps what is not the registrar's, and each other ID holds what
      was there, nothing, or an entry of a running pod that the API of the
      entry's cluster served ([interleaving_safe]); what interleaving leaves
      behind, the next undisturbed cycle repairs ([cycle_repairs]).  Beside
      them, [handler_alone_is_sequential] shows that a handler left alone on
      the wire does what it does as a function, and
      [cycle_revives_deleted_pod] computes a run in which a cycle registers the
      entry of a pod whose deletion was handled meanwhile.
    - The client refines a store of entries by ID over any server that behaves
      as documented; conversions round-trip; batches and pages are complete.
    - Entries: what [RenderEntry] puts in each field, what the key depends on,
      what the comparison decides.
    - The cluster manager never loses a running informer and never closes a
      channel twice; the kubeconfig carries what EKS gave.
    - The targeted handlers and the deletion controller: what they register,
      what they delete and when the finalizer goes.  The events of an identity,
      a pod and a cluster register, one after the other ([register_all]), what
      the full cycle asks for in the part that concerns them, ignored namespaces
      apart, which only the cycle and the pod events leave out
      ([ReconcileWorkloadIdentity_agrees], [ReconcileSinglePod_agrees],
      [ReconcileEKSCluster_agrees]).
    - The loop serves what reaches it and is never stuck; certificates are
      rotated when half their life is over; start-up gives a reconciler with a
      non-empty prefix, and [main] does its operations in one order, of which
      the first that fails is the last, with code 1 and none of the clean-up
      ([main_correct]).
    - Where the code does something else than it means to, the theorem states
      what it does: equal entries that are updated in every cycle
      ([GetChanges_spurious_update]), owners matched by a prefix of the name,
      finalizers released although entries remain, hints and clusters that are
      never recognised, triggers that are lost, clients of old clusters that
      are reused, selectors that panic, entry IDs that collide, and an authority
      that is never renewed.

    ** What is not modelled

    What controller-runtime does behind the registrations of [main]: the
    delivery of watch events, work queues and retries, leader election; the
    decoding of configuration files and resources; the template language, label
    selector and regular expression syntax, cryptography other than SHA-256;
    the deep copies of apimachinery's own structs; log output; the tests.
    [AddOrUpdateCluster] calls [WaitForCacheSync] with the mutex held and
    without a timeout; in the model every call to the outside returns. *)

From stdpp Require Export prelude gmap strings sorting list.
From Stdlib Require Export ZArith Lia.
From Stdlib Require Ascii.
Export Stdlib.Strings.Ascii (ascii(..)).
Export (notations) Stdlib.Strings.Ascii.


(** Strings are Go strings: sequences of bytes. *)
Declare Scope go_scope.
Delimit Scope go_scope with go.

(** ** Errors and results

    A Go [error] value.  [ErrNew] is [errors.New] or [fmt.Errorf] without a
    wrapped error, [ErrWrap] is [fmt.Errorf("msg: %w", err)], and [ErrExt] is
    an error value built by code outside the repository. *)
Inductive error : Type :=
| ErrNew (msg : string)
| ErrWrap (msg : string) (e : error)
| ErrExt (what : string).

#[export] Instance error_eq_dec : EqDecision error.
Proof. solve_decision. Defined.

(** The pair [(T, error)] of a Go function that returns one or the other. *)
Inductive result (A : Type) : Type :=
| OK (a : A)
| ERR (e : error).
Arguments OK {A} a.
Arguments ERR {A} e.

#[export] Instance result_eq_dec `{EqDecision A} : EqDecision (result A).
Proof. solve_decision. Defined.

#[export] Instance result_ret : MRet result := λ A a, OK a.
#[export] Instance result_bind : MBind result := λ A B f r,
  match r with OK a => f a | ERR e => ERR e end.
#[export] Instance result_fmap : FMap result := λ A B f r,
  match r with OK a => OK (f a) | ERR e => ERR e end.

(** [if err != nil { return fmt.Errorf("msg: %w", err) }] *)
Definition wrap {A} (msg : string) (r : result A) : result A :=
  match r with OK a => OK a | ERR e => ERR (ErrWrap msg e) end.

Definition to_option {A} (r : result A) : option A :=
  match r with OK a => Some a | ERR _ => None end.

(** [for _, x := range l { y, err := f(x); if err != nil { return err }; out = append(out, y) }] *)
Fixpoint collect {A B} (f : A → result B) (l : list A) : result (list B) :=
  match l with
  | [] => OK []
  | x :: l => y ← f x; ys ← collect f l; OK (y :: ys)
  end.

Section collect.
Context {A B : Type}.
Implicit Types (f : A → result B) (l : list A).

Lemma collect_app f l1 l2 :
  collect f (l1 ++ l2) =
    (ys ← collect f l1; zs ← collect f l2; OK (ys ++ zs)).
Proof.
  induction l1 as [|x l1 IH]; simpl.
  - by destruct (collect f l2).
  - destruct (f x); simpl; [|done]. rewrite IH.
    destruct (collect f l1); simpl; [|done]. by destruct (collect f l2).
Qed.

Lemma collect_OK f l ys :
  collect f l = OK ys ↔ Forall2 (λ x y, f x = OK y) l ys.
Proof.
  revert ys. induction l as [|x l IH]; intros ys; simpl.
  - split; [by intros [= <-]|by intros ->%Forall2_nil_inv_l].
  - split.
    + destruct (f x) as [y|] eqn:Ex; simpl; [|done].
      destruct (collect f l) as [ys'|] eqn:El; simpl; [|done].
      intros [= <-]. constructor; [done|]. by apply IH.
    + intros (y & ys' & Hy & Hl & ->)%Forall2_cons_inv_l. rewrite Hy; simpl.
      apply IH in Hl. by rewrite Hl.
Qed.

(** An element that fails makes the whole loop fail. *)
Lemma collect_ERR f l x e :
  x ∈ l → f x = ERR e → ∃ e', collect f l = ERR e'.
Proof.
  induction l as [|y l IH]; intros Hx Hf; [set_solver|]. simpl.
  destruct (f y) as [b|e'] eqn:Ey; simpl; [|eauto].
  apply elem_of_cons in Hx as [->|Hx]; [congruence|].
  destruct (IH Hx Hf) as [e' ->]. simpl. eauto.
Qed.

Lemma collect_total (g : A → B) f l :
  (∀ x, x ∈ l → f x = OK (g x)) → collect f l = OK (g <$> l).
Proof.
  induction l as [|x l IH]; intros Hf; simpl; [done|].
  rewrite Hf by set_solver. simpl. by rewrite IH by set_solver.
Qed.
End collect.

(** ** Go computations with effects

    [GoM W A] is a computation over a world [W].  It returns, panics, or is
    still running when the fuel of one of its loops is used up; the effects
    made up to that point stay. *)
Inductive outcome (A : Type) : Type :=
| Ret (a : A)
| Panic
| Diverge.
Arguments Ret {A} a.
Arguments Panic {A}.
Arguments Diverge {A}.

Definition GoM (W A : Type) : Type := W → outcome A * W.

#[export] Instance GoM_ret {W} : MRet (GoM W) := λ A a w, (Ret a, w).
#[export] Instance GoM_bind {W} : MBind (GoM W) := λ A B f m w,
  match m w with
  | (Ret a, w') => f a w'
  | (Panic, w') => (Panic, w')
  | (Diverge, w') => (Diverge, w')
  end.

Lemma GoM_bind_assoc {W A B C} (m : GoM W A) (f : A → GoM W B) (g : B → GoM W C) :
  ∀ w, (a ← m; b ← f a; g b) w = (b ← (a ← m; f a); g b) w.
Proof. intros w. unfold mbind, GoM_bind. by destruct (m w) as [[]]. Qed.

Definition panic {W A} : GoM W A := λ w, (Panic, w).
Definition out_of_fuel {W A} : GoM W A := λ w, (Diverge, w).
Definition get_world {W} : GoM W W := λ w, (Ret w, w).
Definition modify_world {W} (f : W → W) : GoM W unit := λ w, (Ret tt, f w).

#[export] Instance outcome_ret : MRet outcome := λ A a, Ret a.
#[export] Instance outcome_bind : MBind outcome := λ A B f m,
  match m with Ret a => f a | Panic => Panic | Diverge => Diverge end.

(** A pure computation that may panic, run in any world. *)
Definition pure {W A} (o : outcome A) : GoM W A := λ w, (o, w).

(** [for _, x := range l { body }] *)
Fixpoint for_each {W A} (l : list A) (body : A → GoM W unit) : GoM W unit :=
  match l with
  | [] => mret tt
  | x :: l => body x;; for_each l body
  end.

(** A computation on a part [S] of the world, run on the whole world. *)
Definition lift {S W A} (get : W → S) (put : S → W → W) (m : GoM S A) : GoM W A :=
  λ w, let '(o, s) := m (get w) in (o, put s w).

(** ** Weakest preconditions

    [wp m Q w]: started in [w], [m] returns (no panic, no divergence) with a
    result and a world that satisfy [Q]. *)
Definition wp {W A} (m : GoM W A) (Q : A → W → Prop) (w : W) : Prop :=
  match m w with (Ret a, w') => Q a w' | _ => False end.

Section wp.
Context {W : Type}.
Implicit Types (w : W).

Lemma wp_ret {A} (a : A) Q w : wp (mret a : GoM W A) Q w ↔ Q a w.
Proof. done. Qed.

Lemma wp_bind {A B} (m : GoM W A) (f : A → GoM W B) Q w :
  wp (m ≫= f) Q w ↔ wp m (λ a, wp (f a) Q) w.
Proof. unfold wp, mbind, GoM_bind. by destruct (m w) as [[]]. Qed.

Lemma wp_assoc {A B C} (m : GoM W A) (f : A → GoM W B) (g : B → GoM W C) Q w :
  wp (b ← (a ← m; f a); g b) Q w → wp (a ← m; b ← f a; g b) Q w.
Proof. unfold wp. by rewrite GoM_bind_assoc. Qed.

Lemma wp_mono {A} (m : GoM W A) (P Q : A → W → Prop) w :
  wp m P w → (∀ a w', P a w' → Q a w') → wp m Q w.
Proof. unfold wp. destruct (m w) as [[]]; naive_solver. Qed.

Lemma wp_and {A} (m : GoM W A) (P Q : A → W → Prop) w :
  wp m P w → wp m Q w → wp m (λ a w', P a w' ∧ Q a w') w.
Proof. unfold wp. destruct (m w) as [[]]; naive_solver. Qed.

Lemma wp_run {A} (m : GoM W A) Q w :
  wp m Q w ↔ ∃ a w', m w = (Ret a, w') ∧ Q a w'.
Proof. unfold wp. destruct (m w) as [[a| |] w']; split.
  - eauto.
  - by intros (? & ? & [= <- <-] & ?).
  - done.
  - by intros (? & ? & ? & ?).
  - done.
  - by intros (? & ? & ? & ?).
Qed.

Lemma wp_lift {S A} (get : W → S) put (m : GoM S A) Q w :
  wp (lift get put m) Q w ↔ wp m (λ a s, Q a (put s w)) (get w).
Proof. unfold wp, lift. by destruct (m (get w)) as [[]]. Qed.

Lemma wp_modify (f : W → W) (Q : unit → W → Prop) w :
  wp (modify_world f) Q w ↔ Q tt (f w).
Proof. done. Qed.

Lemma wp_pure {A} (o : outcome A) (Q : A → W → Prop) w :
  wp (pure o) Q w ↔ match o with Ret a => Q a w | _ => False end.
Proof. by destruct o. Qed.

Lemma wp_get (Q : W → W → Prop) w : wp get_world Q w ↔ Q w w.
Proof. done. Qed.

(** The loop rule: an invariant indexed by the elements already visited. *)
Lemma wp_for_each {A} (I : list A → W → Prop) (l : list A) body w :
  I [] w →
  (∀ done x todo w', l = done ++ x :: todo → I done w' →
     wp (body x) (λ _ w'', I (done ++ [x]) w'') w') →
  wp (for_each l body) (λ _ w', I l w') w.
Proof.
  intros H0 Hstep.
  assert (∀ todo done w', l = done ++ todo → I done w' →
    wp (for_each todo body) (λ _ w'', I l w'') w') as Hgen; [|by apply (Hgen l [])].
  induction todo as [|x todo IH]; intros done w' -> HI; simpl.
  - apply wp_ret. by rewrite app_nil_r.
  - apply wp_bind. eapply wp_mono; [by apply (Hstep done x todo)|]. simpl.
    intros _ w'' HI'. apply (IH (done ++ [x])); [by rewrite <-app_assoc|done].
Qed.

(** The same with an invariant that does not depend on the progress made. *)
Lemma wp_for_each_inv {A} (I : W → Prop) (l : list A) body w :
  I w → (∀ x w', x ∈ l → I w' → wp (body x) (λ _ w'', I w'') w') →
  wp (for_each l body) (λ _ w', I w') w.
Proof.
  intros H0 Hstep. apply (wp_for_each (λ _, I)); [done|].
  intros ? x ? w' -> ?. apply Hstep; [|done]. set_solver.
Qed.

Lemma for_each_app {A} (l1 l2 : list A) (body : A → GoM W unit) w :
  for_each (l1 ++ l2) body w = (for_each l1 body;; for_each l2 body) w.
Proof.
  revert w. induction l1 as [|x l1 IH]; intros w; [done|].
  simpl. unfold mbind, GoM_bind.
  destruct (body x w) as [[] w']; [|done..].
  exact (IH w').
Qed.
End wp.

(** ** Computations that may panic

    [wpx m Q P w]: started in [w], [m] returns with a result and a world that
    satisfy [Q], or panics in a world that satisfies [P]. *)
Definition wpx {W A} (m : GoM W A) (Q : A → W → Prop) (P : W → Prop) (w : W) : Prop :=
  match m w with (Ret a, w') => Q a w' | (Panic, w') => P w' | (Diverge, _) => False end.

Section wpx.
Context {W : Type}.
Implicit Types (w : W) (P : W → Prop).

Lemma wpx_wp {A} (m : GoM W A) Q P w : wp m Q w → wpx m Q P w.
Proof. unfold wp, wpx. by destruct (m w) as [[]]. Qed.

Lemma wpx_ret {A} (a : A) Q P w : wpx (mret a : GoM W A) Q P w ↔ Q a w.
Proof. done. Qed.

Lemma wpx_bind {A B} (m : GoM W A) (f : A → GoM W B) Q P w :
  wpx (m ≫= f) Q P w ↔ wpx m (λ a, wpx (f a) Q P) P w.
Proof. unfold wpx, mbind, GoM_bind. by destruct (m w) as [[]]. Qed.

(** A first part that cannot panic. *)
Lemma wpx_bind_wp {A B} (m : GoM W A) (f : A → GoM W B) Q P w :
  wp m (λ a, wpx (f a) Q P) w → wpx (m ≫= f) Q P w.
Proof. intros Hm. by apply wpx_bind, wpx_wp. Qed.

Lemma wpx_assoc {A B C} (m : GoM W A) (f : A → GoM W B) (g : B → GoM W C) Q P w :
  wpx (b ← (a ← m; f a); g b) Q P w → wpx (a ← m; b ← f a; g b) Q P w.
Proof. unfold wpx. by rewrite GoM_bind_assoc. Qed.

Lemma wpx_mono {A} (m : GoM W A) (Q Q' : A → W → Prop) (P P' : W → Prop) w :
  wpx m Q P w → (∀ a w', Q a w' → Q' a w') → (∀ w', P w' → P' w') → wpx m Q' P' w.
Proof. unfold wpx. destruct (m w) as [[]]; naive_solver. Qed.

Lemma wpx_pure {A} (o : outcome A) (Q : A → W → Prop) P w :
  wpx (pure o) Q P w ↔ match o with Ret a => Q a w | Panic => P w | Diverge => False end.
Proof. by destruct o. Qed.

(** What holds of a run that is given. *)
Lemma wpx_run {A} (m : GoM W A) Q P w o w' :
  wpx m Q P w → m w = (o, w') →
  match o with Ret a => Q a w' | Panic => P w' | Diverge => False end.
Proof. unfold wpx. by intros Hm Hrun; rewrite Hrun in Hm. Qed.

Lemma wpx_for_each {A} (I : list A → W → Prop) P (l : list A) body w :
  I [] w →
  (∀ done x todo w', l = done ++ x :: todo → I done w' →
     wpx (body x) (λ _ w'', I (done ++ [x]) w'') P w') →
  wpx (for_each l body) (λ _ w', I l w') P w.
Proof.
  intros H0 Hstep.
  assert (∀ todo done w', l = done ++ todo → I done w' →
    wpx (for_each todo body) (λ _ w'', I l w'') P w') as Hgen; [|by apply (Hgen l [])].
  induction todo as [|x todo IH]; intros done w' -> HI; simpl.
  - apply wpx_ret. by rewrite app_nil_r.
  - apply wpx_bind. eapply wpx_mono; [by apply (Hstep done x todo)| |done]. simpl.
    intros _ w'' HI'. apply (IH (done ++ [x])); [by rewrite <-app_assoc|done].
Qed.
End wpx.

Create Rewrite HintDb wp.
#[export] Hint Rewrite @wp_ret @wp_bind @wp_lift @wp_modify @wp_get @wp_pure : wp.

(** Symbolic execution of the straight-line prefix of a [wp] goal. *)
Ltac wp_step := autorewrite with wp; simpl.
