(* ===== verification/GoStrings.v ===== *)
(** * The functions of Go's [strings] package that the registrar calls

    Strings are byte strings.  Every separator the registrar passes to
    [strings.Split] and [strings.SplitN] is one byte long, so the separator is
    an [ascii] here. *)

From S2P Require Export Prelude.

(** ** Definitions *)

Fixpoint HasPrefix (s prefix : string) {struct prefix} : bool :=
  match prefix, s with
  | EmptyString, _ => true
  | String a p, String b s => bool_decide (a = b) && HasPrefix s p
  | String _ _, EmptyString => false
  end.

Fixpoint Contains (s substr : string) : bool :=
  HasPrefix s substr ||
  match s with EmptyString => false | String _ s => Contains s substr end.

(** The slice [s[n:]], for [n <= len(s)]. *)
Fixpoint slice_from (n : nat) (s : string) : string :=
  match n, s with
  | O, _ => s
  | S n, String _ s => slice_from n s
  | S _, EmptyString => EmptyString
  end.

Definition TrimPrefix (s prefix : string) : string :=
  if HasPrefix s prefix then slice_from (String.length prefix) s else s.

(** [strings.Split(s, sep)] *)
Fixpoint Split (s : string) (sep : ascii) : list string :=
  match s with
  | EmptyString => [""]
  | String c s =>
      if bool_decide (c = sep) then "" :: Split s sep
      else match Split s sep with
           | [] => [String c ""]
           | w :: ws => String c w :: ws
           end
  end.

(** [strings.SplitN(s, sep, 2)]: at most one cut, at the first separator. *)
Fixpoint SplitN2 (s : string) (sep : ascii) : list string :=
  match s with
  | EmptyString => [""]
  | String c s =>
      if bool_decide (c = sep) then [""; s]
      else match SplitN2 s sep with
           | [] => [String c ""]
           | w :: ws => String c w :: ws
           end
  end.

(** [strings.Join(l, sep)], to state what [Split] inverts. *)
Fixpoint Join (l : list string) (sep : ascii) : string :=
  match l with
  | [] => ""
  | [w] => w
  | w :: l => w +:+ String sep (Join l sep)
  end.

(** [strconv.Quote], the verb %q: the text between double quotes, with the
    escapes of Go.  Bytes from 128 on, which Go escapes or keeps according to
    the tables of Unicode, are kept. *)
Definition dquote : ascii := Ascii.ascii_of_nat 34.
Definition backslash : ascii := Ascii.ascii_of_nat 92.

Definition lower_hex (n : nat) : ascii :=
  Ascii.ascii_of_nat (if (n <? 10)%nat then 48 + n else 87 + n).

Definition quote_char (c : ascii) : string :=
  let esc s := String backslash s in
  let n := Ascii.nat_of_ascii c in
  if (n =? 34)%nat || (n =? 92)%nat then esc (String c "")
  else match n with
  | 7%nat => esc "a" | 8%nat => esc "b" | 9%nat => esc "t" | 10%nat => esc "n"
  | 11%nat => esc "v" | 12%nat => esc "f" | 13%nat => esc "r"
  | _ => if (n <? 32)%nat || (n =? 127)%nat
         then esc (String "x" (String (lower_hex (n / 16)) (String (lower_hex (n mod 16)) "")))
         else String c ""
  end.

Fixpoint quote_chars (s : string) : string :=
  match s with EmptyString => "" | String c s => quote_char c +:+ quote_chars s end.

Definition Quote (s : string) : string := String dquote (quote_chars s +:+ String dquote "").

Fixpoint chars (s : string) : list ascii :=
  match s with EmptyString => [] | String c s => c :: chars s end.

(** [sort.Strings]: Go orders strings by their bytes.  The order is total and
    antisymmetric, so every sorting algorithm returns the same slice. *)
Definition sort_Strings (l : list string) : list string := merge_sort String.le l.

(** ** Lemmas *)

Lemma string_app_nil_r s : s +:+ "" = s.
Proof. induction s as [|c s IH]; [done|]. change (String c (s +:+ "") = String c s). by rewrite IH. Qed.

Lemma string_app_assoc s1 s2 s3 : s1 +:+ (s2 +:+ s3) = (s1 +:+ s2) +:+ s3.
Proof.
  induction s1 as [|c s1 IH]; [done|].
  change (String c (s1 +:+ (s2 +:+ s3)) = String c ((s1 +:+ s2) +:+ s3)). by rewrite IH.
Qed.

Lemma string_app_cons c s1 s2 : String c s1 +:+ s2 = String c (s1 +:+ s2).
Proof. done. Qed.

Lemma string_app_nil_l s : "" +:+ s = s.
Proof. done. Qed.

Lemma string_length_app s1 s2 :
  String.length (s1 +:+ s2) = String.length s1 + String.length s2.
Proof.
  induction s1 as [|c s1 IH]; [done|]. rewrite string_app_cons. simpl. by rewrite IH.
Qed.

Lemma chars_app s1 s2 : chars (s1 +:+ s2) = chars s1 ++ chars s2.
Proof.
  induction s1 as [|c s1 IH]; [done|]. rewrite string_app_cons. simpl. by rewrite IH.
Qed.

#[export] Instance chars_inj : Inj (=) (=) chars.
Proof.
  intros s1. induction s1 as [|c s1 IH]; intros [|c' s2]; simpl; intros; simplify_eq; [done|].
  f_equal. by apply IH.
Qed.

Lemma HasPrefix_app s p : HasPrefix s p = true ↔ ∃ t, s = (p +:+ t).
Proof.
  revert s. induction p as [|a p IH]; intros s; cbn [HasPrefix].
  - split; [by exists s|by destruct s].
  - destruct s as [|b s].
    + split; [done|]. intros [t Ht]. by rewrite string_app_cons in Ht.
    + rewrite andb_true_iff, bool_decide_eq_true, IH. split.
      * intros [-> [t ->]]. by exists t.
      * intros [t Ht]. rewrite string_app_cons in Ht. simplify_eq. eauto.
Qed.

Lemma HasPrefix_append p t : HasPrefix (p +:+ t) p = true.
Proof. apply HasPrefix_app. eauto. Qed.

Lemma slice_from_app p t : slice_from (String.length p) (p +:+ t) = t.
Proof. induction p as [|c p IH]; [by destruct t|]. by rewrite string_app_cons. Qed.

Lemma TrimPrefix_app p t : TrimPrefix (p +:+ t) p = t.
Proof. unfold TrimPrefix. by rewrite HasPrefix_append, slice_from_app. Qed.

Lemma Contains_app s t : Contains s t = true ↔ ∃ l r, s = (l +:+ t +:+ r).
Proof.
  induction s as [|c s IH].
  - simpl. rewrite orb_true_iff, HasPrefix_app. split.
    + intros [[r ->]|]; [|done]. by exists "", r.
    + intros (l & r & H). left. destruct l; [by exists r|by rewrite string_app_cons in H].
  - change (Contains (String c s) t) with (HasPrefix (String c s) t || Contains s t).
    rewrite orb_true_iff, HasPrefix_app, IH. split.
    + intros [[r ->]|(l & r & ->)]; [by exists "", r|by exists (String c l), r].
    + intros ([|c' l] & r & H); [left; by exists r|right].
      rewrite string_app_cons in H. simplify_eq. eauto.
Qed.

Lemma Contains_app_intro l t r : Contains (l +:+ t +:+ r) t = true.
Proof. apply Contains_app. eauto. Qed.

Lemma Contains_suffix l t : Contains (l +:+ t) t = true.
Proof. apply Contains_app. exists l, "". by rewrite string_app_nil_r. Qed.

(** [Split] never returns an empty slice. *)
Lemma Split_cons s sep : ∃ w ws, Split s sep = w :: ws.
Proof.
  induction s as [|c s IH]; simpl; [eauto|]. case_bool_decide; [eauto|].
  destruct IH as (w & ws & ->). eauto.
Qed.

Lemma Join_Split s sep : Join (Split s sep) sep = s.
Proof.
  induction s as [|c s IH]; [done|]. simpl.
  destruct (Split_cons s sep) as (w & ws & E). rewrite E in *.
  case_bool_decide as Hc.
  - subst c. by rewrite <-IH.
  - rewrite <-IH. by destruct ws.
Qed.

(** No piece of a split holds the separator. *)
Lemma Split_no_sep s sep w : w ∈ Split s sep → sep ∉ chars w.
Proof.
  revert w. induction s as [|c s IH]; intros w; simpl.
  - intros ->%list_elem_of_singleton. simpl. set_solver.
  - destruct (Split_cons s sep) as (v & ws & E). rewrite E in *.
    case_bool_decide as Hc; intros [->|Hw]%elem_of_cons; [simpl; set_solver|by apply IH|..].
    + simpl. intros [->|Hin]%elem_of_cons; [done|]. eapply IH; [by left|done].
    + apply IH. by right.
Qed.

Lemma Split_no_sep_single s sep : sep ∉ chars s → Split s sep = [s].
Proof.
  induction s as [|c s IH]; simpl; intros Hs; [done|].
  rewrite IH by set_solver. case_bool_decide; [set_solver|done].
Qed.

(** A separator-free word before the first separator is the first piece. *)
Lemma Split_app_sep w sep s :
  sep ∉ chars w → Split (w +:+ String sep s) sep = w :: Split s sep.
Proof.
  induction w as [|c w IH]; intros Hw.
  - simpl. by rewrite bool_decide_true.
  - rewrite string_app_cons. simpl in *. rewrite bool_decide_false by set_solver.
    by rewrite IH by set_solver.
Qed.

Lemma SplitN2_app_sep w sep s :
  sep ∉ chars w → SplitN2 (w +:+ String sep s) sep = [w; s].
Proof.
  induction w as [|c w IH]; intros Hw.
  - simpl. by rewrite bool_decide_true.
  - rewrite string_app_cons. simpl in *. rewrite bool_decide_false by set_solver.
    by rewrite IH by set_solver.
Qed.

(** [SplitN(s, sep, 2)] returns one piece when there is no separator, and
    otherwise cuts at the first one. *)
Lemma SplitN2_spec s sep :
  ((sep ∉ chars s) ∧ SplitN2 s sep = [s]) ∨
  (∃ l r, (s = l +:+ String sep r) ∧ (sep ∉ chars l) ∧ SplitN2 s sep = [l; r]).
Proof.
  induction s as [|c s IH]; simpl.
  - left. split; [set_solver|done].
  - case_bool_decide as Hc; subst.
    + right. exists "", s. split_and!; [done|apply not_elem_of_nil|done].
    + destruct IH as [[Hs ->]|(l & r & -> & Hl & ->)].
      * left. split; [|done]. by apply not_elem_of_cons.
      * right. exists (String c l), r. split_and!; [done| |done]. by apply not_elem_of_cons.
Qed.

(** ** Sorting *)

Lemma merge_sort_unique {A} (R : relation A) `{!RelDecision R, !Transitive R, !AntiSymm (=) R, !Total R}
    (l1 l2 : list A) :
  l1 ≡ₚ l2 → merge_sort R l1 = merge_sort R l2.
Proof.
  intros Hp. apply (Sorted_unique R); [by apply Sorted_merge_sort..|].
  by rewrite !merge_sort_Permutation.
Qed.

Lemma merge_sort_inj {A} (R : relation A) `{!RelDecision R} (l1 l2 : list A) :
  merge_sort R l1 = merge_sort R l2 → l1 ≡ₚ l2.
Proof.
  intros Heq. rewrite <-(merge_sort_Permutation R l1), Heq. apply merge_sort_Permutation.
Qed.

Lemma sort_Strings_perm l1 l2 : sort_Strings l1 = sort_Strings l2 ↔ l1 ≡ₚ l2.
Proof.
  split; [apply merge_sort_inj|apply merge_sort_unique; apply _].
Qed.
