(* ===== verification/Sha256.v ===== *)
(** * [crypto/sha256] and [encoding/hex]

    The SHA-256 function of FIPS 180-4 on byte strings and the lower-case
    hexadecimal encoding, as the Go standard library computes them.  Words are
    32-bit integers in [Z] with the wrap-around written out. *)

From S2P Require Export GoStrings.

Local Open Scope Z_scope.

Definition word (x : Z) : Z := x mod 2 ^ 32.
Definition wadd (x y : Z) : Z := word (x + y).
Definition rotr (n x : Z) : Z :=
  Z.lor (Z.shiftr x n) (word (Z.shiftl x (32 - n))).
Definition wnot (x : Z) : Z := Z.lxor x (Z.ones 32).

Definition Ch (x y z : Z) : Z := Z.lxor (Z.land x y) (Z.land (wnot x) z).
Definition Maj (x y z : Z) : Z :=
  Z.lxor (Z.land x y) (Z.lxor (Z.land x z) (Z.land y z)).
Definition Sigma0 (x : Z) : Z := Z.lxor (rotr 2 x) (Z.lxor (rotr 13 x) (rotr 22 x)).
Definition Sigma1 (x : Z) : Z := Z.lxor (rotr 6 x) (Z.lxor (rotr 11 x) (rotr 25 x)).
Definition sigma0 (x : Z) : Z := Z.lxor (rotr 7 x) (Z.lxor (rotr 18 x) (Z.shiftr x 3)).
Definition sigma1 (x : Z) : Z := Z.lxor (rotr 17 x) (Z.lxor (rotr 19 x) (Z.shiftr x 10)).

(** *** The constants

    FIPS 180-4 defines them: the first 32 bits of the fractional parts of the
    cube roots of the first 64 primes, and of the square roots of the first 8.
    They are computed here from that definition. *)
Definition is_prime (n : Z) : bool :=
  forallb (λ d, negb (bool_decide (n mod Z.of_nat d = 0))) (seq 2 (Z.to_nat n - 2)).
Definition first_primes : list Z :=
  take 64 (filter (λ n, is_prime n = true) (Z.of_nat <$> seq 2 310)).

(** The integer cube root of [n], one bit at a time from bit [k - 1] down. *)
Fixpoint cube_root_from (k : nat) (n r : Z) : Z :=
  match k with
  | O => r
  | S k =>
      let r' := r + 2 ^ Z.of_nat k in
      cube_root_from k n (if bool_decide (r' ^ 3 <= n) then r' else r)
  end.
Definition cube_root (n : Z) : Z := cube_root_from 40 n 0.

Definition sha256_k : list Z :=
  Eval vm_compute in (λ p, word (cube_root (p * 2 ^ 96))) <$> first_primes.
Definition sha256_init : list Z :=
  Eval vm_compute in (λ p, word (Z.sqrt (p * 2 ^ 64))) <$> take 8 first_primes.

Definition byte_of (c : ascii) : Z := Z.of_N (Ascii.N_of_ascii c).
Definition byte_to (b : Z) : ascii := Ascii.ascii_of_N (Z.to_N b).

(** The [n] low-order bytes of [x], most significant first. *)
Fixpoint be_bytes (n : nat) (x : Z) : list Z :=
  match n with
  | O => []
  | S n => (Z.shiftr x (8 * Z.of_nat n)) mod 256 :: be_bytes n x
  end.

Fixpoint be_words (bs : list Z) : list Z :=
  match bs with
  | a :: b :: c :: d :: bs =>
      (Z.shiftl a 24 + Z.shiftl b 16 + Z.shiftl c 8 + d) :: be_words bs
  | _ => []
  end.

(** Padding: a one bit, zeros up to 56 modulo 64, the bit length on 64 bits. *)
Definition sha256_pad (msg : list Z) : list Z :=
  let len := Z.of_nat (length msg) in
  msg ++ [0x80] ++ replicate (Z.to_nat ((55 - len) mod 64)) 0 ++ be_bytes 8 (8 * len).

(** The message schedule, newest word first. *)
Fixpoint schedule (n : nat) (ws : list Z) : list Z :=
  match n with
  | O => ws
  | S n =>
      let w i := nth i ws 0 in
      schedule n (wadd (wadd (sigma1 (w 1%nat)) (w 6%nat)) (wadd (sigma0 (w 14%nat)) (w 15%nat)) :: ws)
  end.

Definition sha_round (st : list Z) (kw : Z * Z) : list Z :=
  match st with
  | [a; b; c; d; e; f; g; h] =>
      let t1 := wadd (wadd h (Sigma1 e)) (wadd (Ch e f g) (wadd (fst kw) (snd kw))) in
      let t2 := wadd (Sigma0 a) (Maj a b c) in
      [wadd t1 t2; a; b; c; wadd d t1; e; f; g]
  | _ => st
  end.

Definition sha256_block (st block : list Z) : list Z :=
  let ws := rev (schedule 48 (rev block)) in
  zip_with wadd st (foldl sha_round st (zip sha256_k ws)).

(** [fuel] bounds the number of 16-word blocks. *)
Fixpoint sha256_blocks (fuel : nat) (st ws : list Z) : list Z :=
  match fuel with
  | O => st
  | S fuel =>
      match ws with
      | [] => st
      | _ => sha256_blocks fuel (sha256_block st (take 16 ws)) (drop 16 ws)
      end
  end.

Definition sha256_bytes (msg : list Z) : list Z :=
  let ws := be_words (sha256_pad msg) in
  mjoin (be_bytes 4 <$> sha256_blocks (length ws) sha256_init ws).

(** ** Hexadecimal *)

Definition hex_digit (x : Z) : ascii :=
  byte_to (if decide (x < 10) then 48 + x else 87 + x).

Fixpoint hex_EncodeToString (bs : list Z) : string :=
  match bs with
  | [] => ""
  | b :: bs =>
      String (hex_digit (b / 16)) (String (hex_digit (b mod 16)) (hex_EncodeToString bs))
  end.

(** [h := sha256.New(); io.WriteString(h, s); hex.EncodeToString(h.Sum(nil))] *)
Definition sha256_hex (s : string) : string :=
  hex_EncodeToString (sha256_bytes (byte_of <$> chars s)).

(** Known answers (FIPS 180-4 examples, and a message of two blocks). *)
Example sha256_empty :
  sha256_hex "" = "e3b0c44298fc1c149afbf4c8996fb92427ae41e4649b934ca495991b7852b855".
Proof. vm_compute. reflexivity. Qed.

Example sha256_abc :
  sha256_hex "abc" = "ba7816bf8f01cfea414140de5dae2223b00361a396177a9cb410ff61f20015ad".
Proof. vm_compute. reflexivity. Qed.

Example sha256_two_blocks :
  sha256_hex "abcdbcdecdefdefgefghfghighijhijkijkljklmklmnlmnomnopnopq"
  = "248d6a61d20638b8e5c026930c3e6039a33ce45964ff2167f6ecedd419db06c1".
Proof. vm_compute. reflexivity. Qed.

(** ** The shape of a digest *)

Lemma be_bytes_length n x : length (be_bytes n x) = n.
Proof. induction n as [|n IH]; simpl; [done|]. by rewrite IH. Qed.

Lemma be_bytes_range n x : Forall (λ b, 0 <= b < 256) (be_bytes n x).
Proof.
  induction n as [|n IH]; simpl; constructor; [|done]. by apply Z.mod_pos_bound.
Qed.

Lemma sha_round_length st kw : length (sha_round st kw) = length st.
Proof. by destruct st as [|a [|b [|c [|d [|e [|f [|g [|h [|]]]]]]]]]. Qed.

Lemma sha256_block_length st block :
  length (sha256_block st block) = length st.
Proof.
  unfold sha256_block. rewrite length_zip_with.
  assert (∀ l st', length (foldl sha_round st' l) = length st') as Hl.
  { induction l as [|x l IH]; intros st'; simpl; [done|]. by rewrite IH, sha_round_length. }
  rewrite Hl. lia.
Qed.

Lemma sha256_blocks_length fuel st ws :
  length (sha256_blocks fuel st ws) = length st.
Proof.
  revert st ws. induction fuel as [|fuel IH]; intros st ws; simpl; [done|].
  destruct ws; [done|]. by rewrite IH, sha256_block_length.
Qed.

Lemma sha256_bytes_length msg : length (sha256_bytes msg) = 32%nat.
Proof.
  unfold sha256_bytes.
  assert (∀ l, length (mjoin (be_bytes 4 <$> l)) = (4 * length l)%nat) as Hj.
  { induction l as [|x l IH]; [done|].
    change (length (be_bytes 4 x ++ mjoin (be_bytes 4 <$> l)) = (4 * length (x :: l))%nat).
    rewrite length_app, be_bytes_length, IH. simpl. lia. }
  by rewrite Hj, sha256_blocks_length.
Qed.

Lemma sha256_bytes_range msg : Forall (λ b, 0 <= b < 256) (sha256_bytes msg).
Proof.
  unfold sha256_bytes. induction (sha256_blocks _ _ _) as [|x l IH]; [constructor|].
  change (Forall (λ b, 0 <= b < 256) (be_bytes 4 x ++ mjoin (be_bytes 4 <$> l))).
  apply Forall_app. split; [apply be_bytes_range|done].
Qed.

Definition is_hex_digit (c : ascii) : Prop :=
  (48 <= byte_of c <= 57) ∨ (97 <= byte_of c <= 102).

Lemma byte_of_to b : 0 <= b < 256 → byte_of (byte_to b) = b.
Proof.
  intros Hb. unfold byte_of, byte_to.
  rewrite Ascii.N_ascii_embedding; lia.
Qed.

Lemma hex_digit_is_hex x : 0 <= x < 16 → is_hex_digit (hex_digit x).
Proof.
  intros Hx. unfold is_hex_digit, hex_digit. case_decide; rewrite byte_of_to; lia.
Qed.

Lemma hex_EncodeToString_length bs :
  String.length (hex_EncodeToString bs) = (2 * length bs)%nat.
Proof. induction bs as [|b bs IH]; simpl; [done|]. rewrite IH. lia. Qed.

Lemma hex_EncodeToString_digits bs :
  Forall (λ b, 0 <= b < 256) bs → Forall is_hex_digit (chars (hex_EncodeToString bs)).
Proof.
  induction 1 as [|b bs Hb _ IH]; simpl; [constructor|].
  constructor; [|constructor; [|done]]; apply hex_digit_is_hex.
  - split; [apply Z.div_pos; lia|apply Z.div_lt_upper_bound; lia].
  - by apply Z.mod_pos_bound.
Qed.

Lemma sha256_hex_length s : String.length (sha256_hex s) = 64%nat.
Proof. unfold sha256_hex. by rewrite hex_EncodeToString_length, sha256_bytes_length. Qed.

Lemma sha256_hex_digits s : Forall is_hex_digit (chars (sha256_hex s)).
Proof. apply hex_EncodeToString_digits, sha256_bytes_range. Qed.
