(* ===== verification/Base64.v ===== *)
(** * [encoding/base64]: the standard encoding with padding

    [StdEncoding.DecodeString] as the Go standard library computes it: line
    breaks are skipped, padding is required, the unused bits of the last digit
    are not looked at.  The encoder is here to state the round trip. *)

From S2P Require Export Sha256.

Local Open Scope Z_scope.

Definition pad_char : ascii := "="%char.

(** The value of a digit. *)
Definition base64_value (c : ascii) : option Z :=
  let n := byte_of c in
  if (65 <=? n) && (n <=? 90) then Some (n - 65)
  else if (97 <=? n) && (n <=? 122) then Some (n - 71)
  else if (48 <=? n) && (n <=? 57) then Some (n + 4)
  else if n =? 43 then Some 62
  else if n =? 47 then Some 63
  else None.

Definition base64_digit (v : Z) : ascii :=
  byte_to (if v <? 26 then v + 65 else if v <? 52 then v + 71
           else if v <? 62 then v - 4 else if v =? 62 then 43 else 47).

(** Four digits are 24 bits. *)
Definition group (a b c d : Z) : Z := a * 2 ^ 18 + b * 2 ^ 12 + c * 2 ^ 6 + d.
Definition byte_at (i g : Z) : ascii := byte_to (g / 2 ^ (8 * i) mod 256).

Fixpoint decode_chars (l : list ascii) : option (list ascii) :=
  match l with
  | [] => Some []
  | a :: b :: c :: d :: rest =>
      va ← base64_value a; vb ← base64_value b;
      if bool_decide (c = pad_char) then
        if bool_decide (d = pad_char ∧ rest = []) then Some [byte_at 2 (group va vb 0 0)] else None
      else
        vc ← base64_value c;
        if bool_decide (d = pad_char) then
          if bool_decide (rest = [])
          then let g := group va vb vc 0 in Some [byte_at 2 g; byte_at 1 g] else None
        else
          vd ← base64_value d; bs ← decode_chars rest;
          let g := group va vb vc vd in
          Some (byte_at 2 g :: byte_at 1 g :: byte_at 0 g :: bs)
  | _ => None
  end.

Definition is_line_break (c : ascii) : bool := (byte_of c =? 10) || (byte_of c =? 13).

Fixpoint of_chars (l : list ascii) : string :=
  match l with [] => "" | c :: l => String c (of_chars l) end.

(** The offset in the error text is left out. *)
Definition DecodeString (s : string) : result string :=
  match decode_chars (filter (λ c, is_line_break c = false) (chars s)) with
  | Some l => OK (of_chars l)
  | None => ERR (ErrNew "illegal base64 data")
  end.

Fixpoint encode_chars (l : list ascii) : list ascii :=
  let digit g i := base64_digit (g / 2 ^ (6 * i) mod 64) in
  match l with
  | [] => []
  | [x] => let g := byte_of x * 2 ^ 16 in [digit g 3; digit g 2; pad_char; pad_char]
  | [x; y] =>
      let g := byte_of x * 2 ^ 16 + byte_of y * 2 ^ 8 in
      [digit g 3; digit g 2; digit g 1; pad_char]
  | x :: y :: z :: l =>
      let g := byte_of x * 2 ^ 16 + byte_of y * 2 ^ 8 + byte_of z in
      digit g 3 :: digit g 2 :: digit g 1 :: digit g 0 :: encode_chars l
  end.

Definition EncodeToString (s : string) : string := of_chars (encode_chars (chars s)).

Example decode_example : DecodeString "Y2EtZGF0YQ==" = OK "ca-data".
Proof. reflexivity. Qed.

(** ** Round trip *)

Lemma byte_of_range c : 0 <= byte_of c < 256.
Proof.
  unfold byte_of. pose proof (Ascii.N_ascii_bounded c). lia.
Qed.

Lemma byte_to_of c : byte_to (byte_of c) = c.
Proof. unfold byte_to, byte_of. by rewrite N2Z.id, Ascii.ascii_N_embedding. Qed.

Lemma chars_of_chars l : chars (of_chars l) = l.
Proof. induction l as [|c l IH]; simpl; [done|by rewrite IH]. Qed.

Lemma of_chars_chars s : of_chars (chars s) = s.
Proof. induction s as [|c s IH]; simpl; [done|by rewrite IH]. Qed.

(** The 64 digits, checked one by one. *)
Lemma base64_digit_table :
  Forall (λ v, base64_value (base64_digit v) = Some v ∧ base64_digit v ≠ pad_char ∧
    is_line_break (base64_digit v) = false) (Z.of_nat <$> seq 0 64).
Proof. compute_done. Qed.

Lemma base64_digit_spec v :
  0 <= v < 64 → base64_value (base64_digit v) = Some v ∧ base64_digit v ≠ pad_char ∧
    is_line_break (base64_digit v) = false.
Proof.
  intros Hv. pose proof base64_digit_table as Ht. rewrite Forall_forall in Ht. apply Ht.
  apply list_elem_of_fmap. exists (Z.to_nat v). rewrite elem_of_seq. lia.
Qed.

(** A group is determined by its four digits, and gives back its three bytes. *)
Lemma group_digits g :
  0 <= g < 2 ^ 24 →
  group (g / 2 ^ (6 * 3) mod 64) (g / 2 ^ (6 * 2) mod 64) (g / 2 ^ (6 * 1) mod 64)
    (g / 2 ^ (6 * 0) mod 64) = g.
Proof.
  intros Hg. unfold group. change (2 ^ (6 * 0)) with 1. rewrite Z.div_1_r.
  change (2 ^ (6 * 1)) with 64. change (2 ^ (6 * 2)) with (64 * 64).
  change (2 ^ (6 * 3)) with (64 * 64 * 64). change (2 ^ 18) with (64 * 64 * 64).
  change (2 ^ 12) with (64 * 64). change (2 ^ 6) with 64. change (2 ^ 24) with (64 * 64 * 64 * 64) in Hg.
  Z.to_euclidean_division_equations. lia.
Qed.

Lemma byte_at_group x y z :
  let g := byte_of x * 2 ^ 16 + byte_of y * 2 ^ 8 + byte_of z in
  0 <= g < 2 ^ 24 ∧ byte_at 2 g = x ∧ byte_at 1 g = y ∧ byte_at 0 g = z.
Proof.
  pose proof (byte_of_range x). pose proof (byte_of_range y). pose proof (byte_of_range z).
  unfold byte_at. change (2 ^ (8 * 2)) with (256 * 256). change (2 ^ (8 * 1)) with 256.
  change (2 ^ (8 * 0)) with 1. change (2 ^ 16) with (256 * 256). change (2 ^ 8) with 256.
  change (2 ^ 24) with (256 * 256 * 256).
  split_and!; [lia|lia|..];
    (etransitivity; [|apply byte_to_of]); f_equal; Z.to_euclidean_division_equations; lia.
Qed.

Lemma digit_at_spec g i :
  let d := base64_digit (g / 2 ^ (6 * i) mod 64) in
  base64_value d = Some (g / 2 ^ (6 * i) mod 64) ∧ bool_decide (d = pad_char) = false ∧
    is_line_break d = false.
Proof.
  simpl. destruct (base64_digit_spec (g / 2 ^ (6 * i) mod 64)) as (? & ? & ?).
  { apply Z.mod_pos_bound. lia. }
  by rewrite bool_decide_false.
Qed.

(** The digits that padding replaces are zero. *)
Lemma digits_zero_1 x : byte_of x * 2 ^ 16 / 2 ^ (6 * 1) mod 64 = 0 ∧
  byte_of x * 2 ^ 16 / 2 ^ (6 * 0) mod 64 = 0.
Proof.
  change (2 ^ 16) with (1024 * 64). change (2 ^ (6 * 1)) with 64. change (2 ^ (6 * 0)) with 1.
  rewrite Z.mul_assoc, Z.div_mul, Z.div_1_r by done.
  split; [|by apply Z.mod_mul].
  replace (byte_of x * 1024) with (byte_of x * 16 * 64) by lia. by apply Z.mod_mul.
Qed.

Lemma digits_zero_2 x y :
  (byte_of x * 2 ^ 16 + byte_of y * 2 ^ 8) / 2 ^ (6 * 0) mod 64 = 0.
Proof.
  change (2 ^ (6 * 0)) with 1. rewrite Z.div_1_r.
  replace (byte_of x * 2 ^ 16 + byte_of y * 2 ^ 8)
    with ((byte_of x * 2 ^ 10 + byte_of y * 2 ^ 2) * 64) by lia.
  by apply Z.mod_mul.
Qed.

Fixpoint list_ind3 {A} (P : list A → Prop) (P0 : P []) (P1 : ∀ x, P [x]) (P2 : ∀ x y, P [x; y])
    (P3 : ∀ x y z l, P l → P (x :: y :: z :: l)) (l : list A) : P l :=
  match l with
  | [] => P0
  | [x] => P1 x
  | [x; y] => P2 x y
  | x :: y :: z :: l => P3 x y z l (list_ind3 P P0 P1 P2 P3 l)
  end.

Lemma decode_encode_chars l : decode_chars (encode_chars l) = Some l.
Proof.
  induction l as [|x|x y|x y z l IH] using list_ind3; [done|..];
    cbn [encode_chars decode_chars].
  - rewrite !(proj1 (digit_at_spec _ _)). cbn [mbind option_bind].
    rewrite !bool_decide_true by done.
    destruct (byte_at_group x "000" "000") as (Hg & Hx & _).
    change (byte_of "000") with 0 in Hg, Hx. rewrite Z.mul_0_l, !Z.add_0_r in Hg, Hx.
    rewrite <-(group_digits _ Hg), (proj1 (digits_zero_1 x)), (proj2 (digits_zero_1 x)) in Hx.
    by rewrite Hx.
  - rewrite !(proj1 (digit_at_spec _ _)). cbn [mbind option_bind].
    rewrite (proj1 (proj2 (digit_at_spec _ _))), !bool_decide_true by done.
    destruct (byte_at_group x y "000") as (Hg & Hx & Hy & _).
    change (byte_of "000") with 0 in Hg, Hx, Hy. rewrite !Z.add_0_r in Hg, Hx, Hy.
    rewrite <-(group_digits _ Hg), (digits_zero_2 x y) in Hx, Hy.
    by rewrite Hx, Hy.
  - rewrite !(proj1 (digit_at_spec _ _)). cbn [mbind option_bind].
    rewrite !(proj1 (proj2 (digit_at_spec _ _))).
    rewrite IH. cbn [mbind option_bind].
    destruct (byte_at_group x y z) as (Hg & Hx & Hy & Hz).
    by rewrite (group_digits _ Hg), Hx, Hy, Hz.
Qed.

Lemma encode_no_line_break l : Forall (λ c, is_line_break c = false) (encode_chars l).
Proof.
  assert (is_line_break pad_char = false) by done.
  induction l as [|x|x y|x y z l IH] using list_ind3; cbn [encode_chars];
    repeat constructor; try done; by apply digit_at_spec.
Qed.

Lemma filter_all {A} (P : A → Prop) `{!∀ x, Decision (P x)} l : Forall P l → filter P l = l.
Proof.
  induction 1 as [|x l Hx _ IH]; [done|]. by rewrite filter_cons_True, IH.
Qed.

(** Decoding what the encoder produced gives the bytes back. *)
Lemma DecodeString_EncodeToString s : DecodeString (EncodeToString s) = OK s.
Proof.
  unfold DecodeString, EncodeToString. rewrite chars_of_chars.
  rewrite (filter_all _ _ (encode_no_line_break _)), decode_encode_chars.
  by rewrite of_chars_chars.
Qed.
