(* ===== verification/Libs.v ===== *)
(** * The libraries the registrar calls, as interfaces

    Nothing here is code of the repository.  Each class lists the types and
    functions of a library that the registrar uses; the [...Laws] classes hold
    the documented behaviour that some theorems rely on.  The concrete
    instances used by the witnesses are in [TestLibs]. *)

From S2P Require Export GoStrings.

(** ** github.com/spiffe/go-spiffe/v2/spiffeid *)

Class SpiffeID := {
  ID : Type;
  TrustDomain : Type;
  #[global] ID_eq_dec :: EqDecision ID;
  #[global] TrustDomain_eq_dec :: EqDecision TrustDomain;
  ID_FromString : string → result ID;
  ID_String : ID → string;
  ID_TrustDomain : ID → TrustDomain;
  ID_Path : ID → string;
  (** [id.IsZero()]: the zero value of the struct, which denotes no identity. *)
  ID_IsZero : ID → bool;
  TrustDomainFromString : string → result TrustDomain;
  TrustDomain_String : TrustDomain → string;
  TrustDomain_IsZero : TrustDomain → bool;
}.

Class SpiffeIDLaws `{!SpiffeID} : Prop := {
  (** Parsing accepts a string only as the identity that prints as that string. *)
  ID_String_FromString s i : ID_FromString s = OK i → ID_String i = s;
  ID_FromString_nonzero s i : ID_FromString s = OK i → ID_IsZero i = false;
  (** An identity prints as its trust domain and path, and prints parseably. *)
  ID_String_parts i : ID_IsZero i = false →
    ID_String i = ("spiffe://" +:+ TrustDomain_String (ID_TrustDomain i) +:+ ID_Path i);
  ID_FromString_String i : ID_IsZero i = false → ID_FromString (ID_String i) = OK i;
  TrustDomainFromString_String td : TrustDomain_IsZero td = false →
    TrustDomainFromString (TrustDomain_String td) = OK td;
  TrustDomainFromString_nonzero s td : TrustDomainFromString s = OK td →
    TrustDomain_IsZero td = false;
  TrustDomain_String_inj td td' :
    TrustDomain_String td = TrustDomain_String td' → td = td';
}.

(** ** k8s.io/apimachinery: label selectors *)

Class LabelSelectors := {
  LabelSelector : Type;
  Selector : Type;
  (** [metav1.LabelSelectorAsSelector]; its argument is a pointer. *)
  LabelSelectorAsSelector : option LabelSelector → result Selector;
  Matches : Selector → gmap string string → bool;
}.

Class LabelSelectorsLaws `{!LabelSelectors} : Prop := {
  (** The documentation: "a nil label selector matches no objects". *)
  LabelSelectorAsSelector_nil :
    ∃ s, LabelSelectorAsSelector None = OK s ∧ ∀ labels, Matches s labels = false;
}.

(** ** regexp: compiled patterns, used for the ignored namespaces *)

Class Regexps := {
  Regexp : Type;
  Regexp_Compile : string → result Regexp;
  MatchString : Regexp → string → bool;
}.

(** ** The order in which Go visits a map

    The language leaves the order of [range] over a map open.  [range_map] is
    any choice of it; the laws say that every pair is visited once.  Go may
    choose again at every [range]; no function ranges over the same map twice
    and relies on the order, and the theorems hold for every choice. *)
Class MapOrder := {
  range_map : ∀ {V : Type}, gmap string V → list (string * V);
}.

Class MapOrderLaws `{!MapOrder} : Prop := {
  range_map_perm {V} (m : gmap string V) : range_map m ≡ₚ map_to_list m;
}.

Section map_order.
Context `{!MapOrder, !MapOrderLaws}.

Lemma elem_of_range_map {V} (m : gmap string V) k v :
  (k, v) ∈ range_map m ↔ m !! k = Some v.
Proof. by rewrite range_map_perm, elem_of_map_to_list. Qed.

Lemma NoDup_range_map_fst {V} (m : gmap string V) : NoDup (range_map m).*1.
Proof. rewrite range_map_perm. apply NoDup_fst_map_to_list. Qed.

Lemma length_range_map {V} (m : gmap string V) : length (range_map m) = size m.
Proof. rewrite range_map_perm. apply length_map_to_list. Qed.
End map_order.
