(* ===== verification/ApiTypes.v ===== *)
(** * The API types: api/v1alpha1 and the Kubernetes objects

    [WorkloadIdentity] and [EKSClusterRegistry] have the fields of their Go
    structs.  Of the Kubernetes structs they embed or sit beside ([ObjectMeta],
    [Pod], [Node], [Condition]) the records hold the fields the registrar reads
    or documents for its templates. *)

From S2P Require Export Libs.

Local Open Scope Z_scope.

(** ** Time

    A [time.Time] is its distance from the Unix epoch in nanoseconds. *)
Abbreviation Time := Z (only parsing).
(** The zero [time.Time], January 1 of year 1. *)
Definition zero_Time : Time := - (62135596800 * 10 ^ 9).

(** The method [IsZero] of [metav1.Time]: true of a nil pointer and of the zero time. *)
Definition Time_IsZero (t : option Time) : bool :=
  match t with None => true | Some t => bool_decide (t = zero_Time) end.

(** A [time.Duration]: nanoseconds on 64 bits. *)
Abbreviation Duration := Z (only parsing).
Definition Second : Duration := 10 ^ 9.
Definition Minute : Duration := 60 * Second.
Definition Hour : Duration := 60 * Minute.

(** Wrap-around of a signed [n]-bit integer. *)
Definition wrap_signed (n x : Z) : Z := (x + 2 ^ (n - 1)) mod 2 ^ n - 2 ^ (n - 1).
Definition int64 (x : Z) : Z := wrap_signed 64 x.

(** ** Kubernetes objects *)

Record ObjectMeta := {
  Name : string;
  Namespace : string;
  UID : string;
  CreationTimestamp : Time;
  DeletionTimestamp : option Time;
  Finalizers : list string;
  Labels : gmap string string;
}.

Definition set_Finalizers (fs : list string) (m : ObjectMeta) : ObjectMeta :=
  {| Name := Name m; Namespace := Namespace m; UID := UID m;
     CreationTimestamp := CreationTimestamp m; DeletionTimestamp := DeletionTimestamp m;
     Finalizers := fs; Labels := Labels m |}.

(** The zero value of an object's metadata. *)
Definition empty_ObjectMeta : ObjectMeta :=
  {| Name := ""; Namespace := ""; UID := ""; CreationTimestamp := zero_Time;
     DeletionTimestamp := None; Finalizers := []; Labels := ∅ |}.

Record PodSpec := { NodeName : string; ServiceAccountName : string }.
Definition PodRunning : string := "Running".
Record Pod := { Pod_ObjectMeta : ObjectMeta; Pod_Spec : PodSpec; Pod_Phase : string }.
Record NodeSpec := { ProviderID : string }.
Record Node := { Node_ObjectMeta : ObjectMeta; Node_Spec : NodeSpec }.

(** A [metav1.Condition]. *)
Record Condition := {
  Condition_Type : string;
  Condition_Status : string;
  Condition_Reason : string;
  Condition_Message : string;
  LastTransitionTime : Time;
  ObservedGeneration : Z;
}.
Definition ConditionTrue : string := "True".
Definition ConditionFalse : string := "False".

(** ** WorkloadIdentity *)

Section workload_identity.
Context `{!LabelSelectors}.

Record WorkloadIdentitySpec := {
  ApplicationName : string;
  Spec_Namespace : string;
  SPIFFEIDTemplate : string;
  ParentIDTemplate : string;
  PodSelector : option LabelSelector;
  TTL : Duration;
  JWTTTL : Duration;
  DNSNameTemplates : list string;
  WorkloadSelectorTemplates : list string;
  FederatesWith : list string;
  Admin : bool;
  Downstream : bool;
  AutoPopulateDNSNames : bool;
  ClusterSelector : option LabelSelector;
  Hint : string;
}.

Record WorkloadIdentityStats := {
  ClustersTargeted : Z;
  NamespacesFound : Z;
  PodsSelected : Z;
  EntriesRegistered : Z;
  EntryFailures : Z;
}.

Record WorkloadIdentityStatus := {
  Stats : WorkloadIdentityStats;
  LastReconciliation : option Time;
}.

Record WorkloadIdentity := {
  WI_ObjectMeta : ObjectMeta;
  WI_Spec : WorkloadIdentitySpec;
  WI_Status : WorkloadIdentityStatus;
}.

Definition empty_Stats : WorkloadIdentityStats :=
  {| ClustersTargeted := 0; NamespacesFound := 0; PodsSelected := 0;
     EntriesRegistered := 0; EntryFailures := 0 |}.

(** [&spirev1alpha1.WorkloadIdentity{}] *)
Definition empty_WorkloadIdentity : WorkloadIdentity :=
  {| WI_ObjectMeta := empty_ObjectMeta;
     WI_Spec := {| ApplicationName := ""; Spec_Namespace := ""; SPIFFEIDTemplate := "";
                   ParentIDTemplate := ""; PodSelector := None; TTL := 0; JWTTTL := 0;
                   DNSNameTemplates := []; WorkloadSelectorTemplates := [];
                   FederatesWith := []; Admin := false; Downstream := false;
                   AutoPopulateDNSNames := false; ClusterSelector := None; Hint := "" |};
     WI_Status := {| Stats := empty_Stats; LastReconciliation := None |} |}.

Definition WI_set_Finalizers (fs : list string) (w : WorkloadIdentity) : WorkloadIdentity :=
  {| WI_ObjectMeta := set_Finalizers fs (WI_ObjectMeta w);
     WI_Spec := WI_Spec w; WI_Status := WI_Status w |}.

Definition WI_set_Status (st : WorkloadIdentityStatus) (w : WorkloadIdentity) : WorkloadIdentity :=
  {| WI_ObjectMeta := WI_ObjectMeta w; WI_Spec := WI_Spec w; WI_Status := st |}.
End workload_identity.

(** ** EKSClusterRegistry *)

Record EKSClusterRegistrySpec := {
  ClusterName : string;
  Region : string;
  AccountID : string;
  Enabled : bool;
  AssumeRoleARN : string;
  Cluster_Labels : gmap string string;
}.

Record EKSClusterRegistryStatus := {
  LastSync : option Time;
  Conditions : list Condition;
  NamespaceCount : Z;
  Cluster_EntriesRegistered : Z;
}.

Record EKSClusterRegistry := {
  EKS_ObjectMeta : ObjectMeta;
  EKS_Spec : EKSClusterRegistrySpec;
  EKS_Status : EKSClusterRegistryStatus;
}.

(** [&spirev1alpha1.EKSClusterRegistry{}] *)
Definition empty_EKSClusterRegistry : EKSClusterRegistry :=
  {| EKS_ObjectMeta := empty_ObjectMeta;
     EKS_Spec := {| ClusterName := ""; Region := ""; AccountID := ""; Enabled := false;
                    AssumeRoleARN := ""; Cluster_Labels := ∅ |};
     EKS_Status := {| LastSync := None; Conditions := []; NamespaceCount := 0;
                      Cluster_EntriesRegistered := 0 |} |}.

Definition EKS_set_Finalizers (fs : list string) (c : EKSClusterRegistry) : EKSClusterRegistry :=
  {| EKS_ObjectMeta := set_Finalizers fs (EKS_ObjectMeta c);
     EKS_Spec := EKS_Spec c; EKS_Status := EKS_Status c |}.

Definition EKS_set_Status (st : EKSClusterRegistryStatus) (c : EKSClusterRegistry) : EKSClusterRegistry :=
  {| EKS_ObjectMeta := EKS_ObjectMeta c; EKS_Spec := EKS_Spec c; EKS_Status := st |}.

(** Names promoted from the embedded [ObjectMeta]. *)
Abbreviation WI_Name w := (Name (WI_ObjectMeta w)).
Abbreviation EKS_Name c := (Name (EKS_ObjectMeta c)).
Abbreviation Pod_UID p := (UID (Pod_ObjectMeta p)).
Abbreviation Pod_Namespace p := (Namespace (Pod_ObjectMeta p)).

(** [pod.Status.Phase == corev1.PodRunning && pod.DeletionTimestamp == nil] and that
    [pod.Spec.NodeName] is not empty, the test the controllers repeat. *)
Definition pod_is_placed (p : Pod) : bool :=
  bool_decide (Pod_Phase p = PodRunning) &&
  bool_decide (DeletionTimestamp (Pod_ObjectMeta p) = None) &&
  negb (bool_decide (NodeName (Pod_Spec p) = "")).

Lemma int64_small x : - 2 ^ 63 <= x < 2 ^ 63 → int64 x = x.
Proof. intros Hx. unfold int64, wrap_signed. rewrite Z.mod_small; lia. Qed.

Lemma int64_range x : - 2 ^ 63 <= int64 x < 2 ^ 63.
Proof.
  unfold int64, wrap_signed.
  pose proof (Z.mod_pos_bound (x + 2 ^ (64 - 1)) (2 ^ 64) ltac:(lia)). lia.
Qed.
