(* ===== verification/SpireApi.v ===== *)
(** * pkg/spireapi: entries, statuses, conversions and batching

    The data of [client.go] and its functions that do not talk to the server.
    [SpireClient] holds the client itself. *)

From S2P Require Export ApiTypes.

Local Open Scope Z_scope.

(** ** Entries *)

Record Sel := { Sel_Type : string; Sel_Value : string }.
#[export] Instance Sel_eq_dec : EqDecision Sel.
Proof. solve_decision. Defined.

(** The protobuf messages [types.SPIFFEID], [types.Entry] and [types.Status]. *)
Record ApiSPIFFEID := { Api_TrustDomain : string; Api_Path : string }.

Record ApiEntry := {
  Api_Id : string;
  Api_SpiffeId : option ApiSPIFFEID;
  Api_ParentId : option ApiSPIFFEID;
  Api_Selectors : list Sel;
  Api_X509SvidTtl : Z;
  Api_JwtSvidTtl : Z;
  Api_FederatesWith : list string;
  Api_Admin : bool;
  Api_Downstream : bool;
  Api_DnsNames : list string;
  Api_Hint : string;
}.

Record ApiStatus := { Api_Code : Z; Api_Message : string }.

(** [Status]: a code and a message.  [codes.Code] is an unsigned 32-bit type. *)
Record Status := { Code : Z; Message : string }.
Definition codes_OK : Z := 0.
Definition codes_Unknown : Z := 2.
(** Status code 6, "similar entry already exists". *)
Definition codes_AlreadyExists : Z := 6.

Definition statusFromAPI (in_ : option ApiStatus) : Status :=
  match in_ with
  | None => {| Code := codes_Unknown; Message := "status is nil" |}
  | Some s => {| Code := Api_Code s mod 2 ^ 32; Message := Api_Message s |}
  end.

Section entries.
Context `{!SpiffeID}.

Record Entry := {
  Entry_ID : string;
  SPIFFEID : ID;
  ParentID : ID;
  Selectors : list Sel;
  X509SVIDTTL : Z;
  JWTSVIDTTL : Z;
  Entry_FederatesWith : list TrustDomain;
  Entry_Admin : bool;
  Entry_Downstream : bool;
  DNSNames : list string;
  Entry_Hint : string;
}.

#[global] Instance Entry_eq_dec : EqDecision Entry.
Proof. solve_decision. Defined.

(** [entry.ID = id] on a copy of [entry]. *)
Definition set_ID (id : string) (e : Entry) : Entry :=
  {| Entry_ID := id; SPIFFEID := SPIFFEID e; ParentID := ParentID e;
     Selectors := Selectors e; X509SVIDTTL := X509SVIDTTL e; JWTSVIDTTL := JWTSVIDTTL e;
     Entry_FederatesWith := Entry_FederatesWith e; Entry_Admin := Entry_Admin e;
     Entry_Downstream := Entry_Downstream e; DNSNames := DNSNames e;
     Entry_Hint := Entry_Hint e |}.

Definition api_id (i : ID) : ApiSPIFFEID :=
  {| Api_TrustDomain := TrustDomain_String (ID_TrustDomain i); Api_Path := ID_Path i |}.

Definition toAPIEntry (entry : Entry) : ApiEntry :=
  {| Api_Id := Entry_ID entry;
     Api_SpiffeId := Some (api_id (SPIFFEID entry));
     Api_ParentId := Some (api_id (ParentID entry));
     Api_Selectors := Selectors entry;
     Api_X509SvidTtl := X509SVIDTTL entry;
     Api_JwtSvidTtl := JWTSVIDTTL entry;
     Api_FederatesWith := TrustDomain_String <$> Entry_FederatesWith entry;
     Api_Admin := Entry_Admin entry;
     Api_Downstream := Entry_Downstream entry;
     Api_DnsNames := DNSNames entry;
     Api_Hint := Entry_Hint entry |}.

Definition entriesToAPI (entries : list Entry) : list ApiEntry := toAPIEntry <$> entries.

(** [spiffeid.FromString(fmt.Sprintf("spiffe://%s%s", id.TrustDomain, id.Path))];
    the field access panics when the message has no identity. *)
Definition id_from_api (i : option ApiSPIFFEID) : outcome (result ID) :=
  match i with
  | None => Panic
  | Some i => Ret (ID_FromString ("spiffe://" +:+ Api_TrustDomain i +:+ Api_Path i))
  end.

Definition fromAPIEntry (e : ApiEntry) : outcome (result Entry) :=
  spiffeID ← id_from_api (Api_SpiffeId e);
  match spiffeID with ERR err => Ret (ERR err) | OK spiffeID =>
  parentID ← id_from_api (Api_ParentId e);
  match parentID with ERR err => Ret (ERR err) | OK parentID =>
  match collect TrustDomainFromString (Api_FederatesWith e) with
  | ERR err => Ret (ERR err)
  | OK federatesWith =>
      Ret (OK {| Entry_ID := Api_Id e; SPIFFEID := spiffeID; ParentID := parentID;
                 Selectors := Api_Selectors e; X509SVIDTTL := Api_X509SvidTtl e;
                 JWTSVIDTTL := Api_JwtSvidTtl e; Entry_FederatesWith := federatesWith;
                 Entry_Admin := Api_Admin e; Entry_Downstream := Api_Downstream e;
                 DNSNames := Api_DnsNames e; Entry_Hint := Api_Hint e |})
  end end end.

(** The entries the server can represent: no zero identity or trust domain. *)
Definition entry_valid (e : Entry) : bool :=
  negb (ID_IsZero (SPIFFEID e)) && negb (ID_IsZero (ParentID e)) &&
  forallb (λ td, negb (TrustDomain_IsZero td)) (Entry_FederatesWith e).

Context `{!SpiffeIDLaws}.

Lemma id_from_api_id i : ID_IsZero i = false → id_from_api (Some (api_id i)) = Ret (OK i).
Proof.
  intros Hi. unfold id_from_api, api_id; simpl.
  rewrite <-ID_String_parts by done. by rewrite ID_FromString_String.
Qed.

(** Sending an entry and reading it back loses nothing. *)
Lemma fromAPIEntry_toAPIEntry (e : Entry) :
  entry_valid e = true → fromAPIEntry (toAPIEntry e) = Ret (OK e).
Proof.
  unfold entry_valid. rewrite !andb_true_iff, !negb_true_iff.
  intros [[Hs Hp] Hf]. unfold fromAPIEntry.
  cbn [toAPIEntry Api_SpiffeId Api_ParentId Api_FederatesWith].
  rewrite !id_from_api_id by done. cbn [mbind outcome_bind].
  rewrite (proj2 (collect_OK _ _ (Entry_FederatesWith e))); [by destruct e|].
  apply Forall2_fmap_l, Forall_Forall2_diag, Forall_forall.
  rewrite forallb_forall in Hf. intros td Htd.
  apply TrustDomainFromString_String. apply negb_true_iff, Hf. by apply list_elem_of_In.
Qed.

(** What the server returned is a valid entry once it has been converted. *)
Lemma fromAPIEntry_valid a e : fromAPIEntry a = Ret (OK e) → entry_valid e = true.
Proof.
  unfold fromAPIEntry, id_from_api. intros Hfrom.
  destruct (Api_SpiffeId a) as [s|]; simplify_eq/=.
  destruct (ID_FromString _) as [i|] eqn:Ei in Hfrom; simplify_eq/=.
  destruct (Api_ParentId a) as [p|]; simplify_eq/=.
  destruct (ID_FromString _) as [j|] eqn:Ej in Hfrom; simplify_eq/=.
  destruct (collect _ _) as [tds|] eqn:Ec in Hfrom; simplify_eq/=.
  unfold entry_valid; simpl.
  rewrite (ID_FromString_nonzero _ _ Ei), (ID_FromString_nonzero _ _ Ej); simpl.
  apply forallb_forall. intros td Htd%list_elem_of_In.
  apply collect_OK in Ec. apply list_elem_of_lookup in Htd as [k Hk].
  destruct (Forall2_lookup_r _ _ _ _ _ Ec Hk) as (s' & _ & Hs').
  by rewrite (TrustDomainFromString_nonzero _ _ Hs').
Qed.

Lemma fromAPIEntry_ID a e : fromAPIEntry a = Ret (OK e) → Entry_ID e = Api_Id a.
Proof.
  unfold fromAPIEntry, id_from_api. intros Hfrom.
  destruct (Api_SpiffeId a) as [s|]; simplify_eq/=.
  destruct (ID_FromString _) as [i|] in Hfrom; simplify_eq/=.
  destruct (Api_ParentId a) as [p|]; simplify_eq/=.
  destruct (ID_FromString _) as [j|] in Hfrom; simplify_eq/=.
  by destruct (collect _ _) as [tds|] in Hfrom; simplify_eq/=.
Qed.
End entries.
