(* ===== verification/Batch.v ===== *)
(** * Batching: [runBatch] of pkg/spireapi/client.go

    The loop that cuts [0, size) into consecutive ranges and calls a function
    on each.  Sizes and indices are Go [int]s; the loop never leaves
    [0, size], so no wrap-around can occur and they are plain [Z]s. *)

From S2P Require Export Prelude.

Local Open Scope Z_scope.

(** The Go slice expression [l[start:end]]. *)
Definition slice {A} (start end_ : Z) (l : list A) : list A :=
  take (Z.to_nat (end_ - start)) (drop (Z.to_nat start) l).

Section runBatch.
Context {W : Type}.
Implicit Types (fn : Z → Z → GoM W (option error)).

(** One call per iteration of [for i := 0; i < size; { ... }]. *)
Fixpoint runBatch_loop (fuel : nat) (size batch i : Z) fn : GoM W (option error) :=
  match fuel with
  | O => out_of_fuel
  | S fuel =>
      if bool_decide (i < size) then
        let n := if bool_decide (size - i > batch) then batch else size - i in
        err ← fn i (i + n);
        match err with
        | Some e => mret (Some e)
        | None => runBatch_loop fuel size batch (i + n) fn
        end
      else mret None
  end.

(** Every iteration advances [i] by one or more, so [size + 1] units of fuel
    reach the exit test. *)
Definition runBatch (size batch : Z) fn : GoM W (option error) :=
  let batch := if bool_decide (batch < 1) then size else batch in
  runBatch_loop (S (Z.to_nat size)) size batch 0 fn.
End runBatch.

(** ** Reference: the ranges as a list *)

Definition chunks (size batch : Z) : list (Z * Z) :=
  let batch := if bool_decide (batch < 1) then size else batch in
  (λ k, (Z.of_nat k * batch, Z.min size ((Z.of_nat k + 1) * batch)))
    <$> seq 0 (Z.to_nat ((size + batch - 1) / batch)).

(** Calls on the ranges of a list, up to the first error. *)
Fixpoint run_chunks {W} (cs : list (Z * Z)) (fn : Z → Z → GoM W (option error)) :
    GoM W (option error) :=
  match cs with
  | [] => mret None
  | (s, e) :: cs =>
      err ← fn s e;
      match err with Some err => mret (Some err) | None => run_chunks cs fn end
  end.

(** The same on the slices themselves. *)
Fixpoint run_lists {W A} (ls : list (list A)) (fn : list A → GoM W (option error)) :
    GoM W (option error) :=
  match ls with
  | [] => mret None
  | l :: ls =>
      err ← fn l;
      match err with Some err => mret (Some err) | None => run_lists ls fn end
  end.

Section facts.
Context {W : Type}.
Implicit Types (fn : Z → Z → GoM W (option error)).

(** The number of ranges left from the [k]-th one on. *)
Lemma runBatch_loop_chunks fn size batch k n fuel w :
  1 <= batch →
  Z.of_nat k + Z.of_nat n = (size + batch - 1) / batch →
  (n < fuel)%nat →
  runBatch_loop fuel size batch (Z.min size (Z.of_nat k * batch)) fn w =
  run_chunks ((λ k, (Z.of_nat k * batch, Z.min size ((Z.of_nat k + 1) * batch)))
                <$> seq k n) fn w.
Proof.
  intros Hb. revert k fuel w. induction n as [|n IH]; intros k fuel w Hk Hf.
  - destruct fuel as [|fuel]; [lia|]. cbn [runBatch_loop].
    rewrite bool_decide_false; [done|].
    assert ((size + batch - 1) / batch * batch > size - 1); [|nia].
    pose proof (Z.mod_pos_bound (size + batch - 1) batch ltac:(lia)).
    pose proof (Z.div_mod (size + batch - 1) batch ltac:(lia)). nia.
  - destruct fuel as [|fuel]; [lia|]. cbn [runBatch_loop seq fmap list_fmap run_chunks].
    assert (Z.of_nat k * batch < size) as Hlt.
    { pose proof (Z.mod_pos_bound (size + batch - 1) batch ltac:(lia)).
      pose proof (Z.div_mod (size + batch - 1) batch ltac:(lia)). nia. }
    rewrite (Z.min_r size (Z.of_nat k * batch)) by lia.
    rewrite bool_decide_true by done.
    assert (Z.of_nat k * batch +
      (if bool_decide (size - Z.of_nat k * batch > batch) then batch
       else size - Z.of_nat k * batch) = Z.min size ((Z.of_nat k + 1) * batch)) as ->.
    { case_bool_decide; nia. }
    unfold mbind, GoM_bind.
    destruct (fn (Z.of_nat k * batch) (Z.min size ((Z.of_nat k + 1) * batch)) w)
      as [[[e|]| |] w']; try done.
    specialize (IH (S k) fuel w'). rewrite <-IH; [|lia..].
    by replace (Z.of_nat (S k)) with (Z.of_nat k + 1) by lia.
Qed.

(** The loop visits the ranges of [chunks], in order, up to the first error. *)
Lemma runBatch_run_chunks fn size batch w :
  0 <= size → runBatch size batch fn w = run_chunks (chunks size batch) fn w.
Proof.
  intros Hs. unfold runBatch, chunks.
  set (b := if bool_decide (batch < 1) then size else batch).
  destruct (decide (size = 0)) as [->|].
  { assert ((0 + b - 1) / b <= 0) as Hle.
    { subst b. case_bool_decide; [done|]. rewrite Z.add_0_l.
      apply Z.lt_succ_r, Z.div_lt_upper_bound; lia. }
    replace (Z.to_nat ((0 + b - 1) / b)) with 0%nat by lia. done. }
  assert (1 <= b) by (subst b; case_bool_decide; lia).
  rewrite <-(runBatch_loop_chunks fn size b 0 _ (S (Z.to_nat size))).
  - by rewrite Z.mul_0_l, Z.min_r by lia.
  - done.
  - rewrite Z2Nat.id; [lia|]. apply Z.div_pos; lia.
  - assert ((size + b - 1) / b <= size); [|lia].
    apply Z.div_le_upper_bound; nia.
Qed.

(** The ranges are consecutive, non-empty and at most [batch] long. *)
Lemma chunks_bounds size batch s e :
  0 <= size → (s, e) ∈ chunks size batch →
  0 <= s < e ∧ e <= size ∧ e - s <= (if bool_decide (batch < 1) then size else batch).
Proof.
  intros Hs. unfold chunks.
  set (b := if bool_decide (batch < 1) then size else batch).
  intros (k & [= -> ->] & Hk%elem_of_seq)%list_elem_of_fmap.
  assert (1 <= b).
  { subst b. case_bool_decide; [|lia]. destruct (decide (size = 0)) as [->|]; [|lia].
    rewrite Z.div_0_r in Hk. lia. }
  assert (Z.of_nat k * b < size); [|nia].
  pose proof (Z.mod_pos_bound (size + b - 1) b ltac:(lia)).
  pose proof (Z.div_mod (size + b - 1) b ltac:(lia)).
  assert (0 <= (size + b - 1) / b) by (apply Z.div_pos; lia).
  assert (Z.of_nat k + 1 <= (size + b - 1) / b) by lia. nia.
Qed.

Lemma chunks_cover_gen {A} (l : list A) b n :
  1 <= b → Z.of_nat (length l) <= Z.of_nat n * b →
  mjoin ((λ k, slice (Z.of_nat k * b) (Z.min (Z.of_nat (length l)) ((Z.of_nat k + 1) * b)) l)
           <$> seq 0 n) = l.
Proof.
  intros Hb. set (sz := Z.of_nat (length l)).
  assert (∀ m, mjoin ((λ k, slice (Z.of_nat k * b) (Z.min sz ((Z.of_nat k + 1) * b)) l)
           <$> seq 0 m) = take (Z.to_nat (Z.of_nat m * b)) l) as Hgen.
  { induction m as [|m IH]; [done|].
    rewrite seq_S, fmap_app, join_app, IH. cbn [fmap list_fmap mjoin list_join].
    rewrite app_nil_r. unfold slice. rewrite Nat.add_0_l, take_take_drop.
    destruct (decide ((Z.of_nat m + 1) * b <= sz)).
    - f_equal. nia.
    - rewrite !take_ge; [done|unfold sz in *; nia..]. }
  intros Hn. rewrite Hgen. apply take_ge. lia.
Qed.

(** Concatenated, the slices at the ranges give back the list. *)
Lemma chunks_cover {A} (l : list A) batch :
  mjoin ((λ '(s, e), slice s e l) <$> chunks (Z.of_nat (length l)) batch) = l.
Proof.
  unfold chunks. set (sz := Z.of_nat (length l)).
  set (b := if bool_decide (batch < 1) then sz else batch).
  rewrite <-list_fmap_compose.
  destruct (decide (sz = 0)) as [Hz|].
  { assert (l = []) as -> by (apply nil_length_inv; lia).
    assert (∀ cs : list nat, mjoin ((λ '(s, e), slice s e []) ∘
      (λ k, (Z.of_nat k * b, Z.min sz ((Z.of_nat k + 1) * b))) <$> cs) = @nil A) as Hnil.
    { induction cs as [|c cs IH]; [done|]. cbn. unfold slice at 1. by rewrite drop_nil, take_nil. }
    apply Hnil. }
  assert (1 <= b) by (subst b; case_bool_decide; lia).
  apply (chunks_cover_gen l b); [done|].
  rewrite Z2Nat.id by (apply Z.div_pos; lia).
  pose proof (Z.mod_pos_bound (sz + b - 1) b ltac:(lia)).
  pose proof (Z.div_mod (sz + b - 1) b ltac:(lia)). fold sz. nia.
Qed.

(** A batched loop over a slice runs over pieces that make up the slice, each
    of them non-empty and at most [batch] long. *)
Lemma runBatch_lists {A} (l : list A) batch (fn : list A → GoM W (option error)) :
  ∃ ls, mjoin ls = l ∧
    (1 <= batch → Forall (λ p, 0 < Z.of_nat (length p) <= batch) ls) ∧
    ∀ w, runBatch (Z.of_nat (length l)) batch (λ s e, fn (slice s e l)) w
         = run_lists ls fn w.
Proof.
  exists ((λ '(s, e), slice s e l) <$> chunks (Z.of_nat (length l)) batch).
  split; [apply chunks_cover|]. split.
  - intros Hb. apply Forall_fmap, Forall_forall. intros [s e] Hse.
    apply chunks_bounds in Hse as (? & ? & Hle); [|lia].
    rewrite bool_decide_false in Hle by lia. simpl. unfold slice.
    rewrite length_take, length_drop. lia.
  - intros w. rewrite runBatch_run_chunks by lia. revert w.
    induction (chunks _ _) as [|[s e] cs IH]; intros w; [done|].
    cbn [run_chunks fmap list_fmap run_lists]. unfold mbind, GoM_bind.
    destruct (fn (slice s e l) w) as [[[]| |] w']; done.
Qed.
End facts.
