(* ===== verification/ClientIface.v ===== *)
(** * The [Client] interface of pkg/spireapi

    What the reconcilers are given: the operations of the Go interface
    [Client], and two classes that state what an implementation promises about
    the entries registered at the SPIRE server.  [ClientSpec] holds with a
    server that may refuse or fail any call; [ReliableClient] adds that calls
    succeed from a healthy world.  [SpireClient] discharges both for the gRPC
    client. *)

From S2P Require Export SpireApi.

Local Open Scope Z_scope.

Class Client `{!SpiffeID} (W : Type) := {
  ListEntries : GoM W (result (list Entry));
  CreateEntry : Entry → GoM W (option error);
  UpdateEntry : Entry → GoM W (option error);
  DeleteEntry : string → GoM W (option error);
  BatchCreateEntries : list Entry → GoM W (list Status * option error);
  BatchUpdateEntries : list Entry → GoM W (list Status * option error);
  BatchDeleteEntries : list string → GoM W (list Status * option error);
  Close : GoM W (option error);
}.

(** The entry may be sent to the server: it has an ID and valid identities. *)
Definition sendable `{!SpiffeID} (e : Entry) : Prop :=
  Entry_ID e ≠ "" ∧ entry_valid e = true.

(** What a batch deletion did to the registered entries. *)
Definition batch_deleted {V} (m : gmap string V) (ids : list string)
    (statuses : list Status) (m' : gmap string V) : Prop :=
  (∀ k, k ∉ ids → m' !! k = m !! k) ∧
  (∀ k, m' !! k = m !! k ∨ m' !! k = None) ∧
  (∀ i id st, ids !! i = Some id → statuses !! i = Some st → Code st = codes_OK →
     m' !! id = None).

Class ClientSpec `{!SpiffeID} (W : Type) `{!Client W} := {
  (** The entries registered at the server, by ID. *)
  store : W → gmap string Entry;
  store_ids w k e : store w !! k = Some e → Entry_ID e = k;
  store_valid w k e : store w !! k = Some e → entry_valid e = true;
  ListEntries_spec w :
    wp ListEntries (λ r w', store w' = store w ∧
      ∀ es, r = OK es → es ≡ₚ (map_to_list (store w)).*2) w;
  CreateEntry_spec e w : sendable e →
    wp (CreateEntry e) (λ r w', store w' = store w ∨
      (store w !! Entry_ID e = None ∧ store w' = <[Entry_ID e := e]> (store w))) w;
  UpdateEntry_spec e w : sendable e →
    wp (UpdateEntry e) (λ r w',
      (store w' = store w ∨
       (is_Some (store w !! Entry_ID e) ∧ store w' = <[Entry_ID e := e]> (store w))) ∧
      (r = None → store w' !! Entry_ID e = Some e)) w;
  DeleteEntry_spec id w :
    wp (DeleteEntry id) (λ r w',
      (store w' = store w ∨ store w' = delete id (store w)) ∧
      (r = None → store w' !! id = None)) w;
  BatchDeleteEntries_spec ids w :
    wp (BatchDeleteEntries ids) (λ r w',
      batch_deleted (store w) ids r.1 (store w') ∧
      (r.2 = None → length r.1 = length ids)) w;
}.

(** Two entries the server regards as the same registration: it does not keep
    both. *)
Definition similar `{!SpiffeID} (a b : Entry) : Prop :=
  SPIFFEID a = SPIFFEID b ∧ ParentID a = ParentID b ∧ Selectors a ≡ₚ Selectors b.

(** The server already keeps a registration like [e]. *)
Definition taken `{!SpiffeID} (e : Entry) (m : gmap string Entry) : Prop :=
  ∃ k e', m !! k = Some e' ∧ similar e e'.

#[export] Instance similar_dec `{!SpiffeID} (a b : Entry) : Decision (similar a b).
Proof. unfold similar. apply _. Defined.

#[export] Instance taken_dec `{!SpiffeID} (e : Entry) (m : gmap string Entry) : Decision (taken e m).
Proof.
  refine (cast_if (decide (Exists (λ p, similar e p.2) (map_to_list m)))).
  - abstract (apply Exists_exists in e0 as ([k e'] & Hin%elem_of_map_to_list & Hs); by exists k, e').
  - abstract (intros (k & e' & Hk & Hs); apply n, Exists_exists; exists (k, e');
      by rewrite elem_of_map_to_list).
Defined.

Lemma similar_trans `{!SpiffeID} (a b c : Entry) : similar a b → similar b c → similar a c.
Proof. intros (? & ? & ?) (? & ? & ?). split_and!; etransitivity; done. Qed.

Lemma similar_sym `{!SpiffeID} (a b : Entry) : similar a b → similar b a.
Proof. by intros (? & ? & ?). Qed.

(** A server that does what it is asked: it lists, updates and deletes what is
    there, and creates an entry unless there is one like it, for which it
    answers that it already exists and changes nothing. *)
Class ReliableClient `{!SpiffeID} (W : Type) `{!Client W, !ClientSpec W} := {
  healthy : W → Prop;
  ListEntries_ok w : healthy w →
    wp ListEntries (λ r w', healthy w' ∧ store w' = store w ∧
      ∃ es, r = OK es ∧ es ≡ₚ (map_to_list (store w)).*2) w;
  CreateEntry_ok e w : healthy w → sendable e → store w !! Entry_ID e = None →
    ¬ taken e (store w) →
    wp (CreateEntry e) (λ r w', healthy w' ∧ r = None ∧
      store w' = <[Entry_ID e := e]> (store w)) w;
  CreateEntry_taken e w : healthy w → sendable e → store w !! Entry_ID e = None →
    taken e (store w) →
    wp (CreateEntry e) (λ r w', healthy w' ∧ r = None ∧ store w' = store w) w;
  UpdateEntry_ok e w : healthy w → sendable e → is_Some (store w !! Entry_ID e) →
    wp (UpdateEntry e) (λ r w', healthy w' ∧ r = None ∧
      store w' = <[Entry_ID e := e]> (store w)) w;
  DeleteEntry_ok id w : healthy w → is_Some (store w !! id) →
    wp (DeleteEntry id) (λ r w', healthy w' ∧ r = None ∧ store w' = delete id (store w)) w;
}.
