(* ===== verification/SpireClient.v ===== *)
(** * The gRPC client: pkg/spireapi/client.go

    Each operation of [client] over the entry service of the SPIRE server.
    The service is not code of the repository: [EntryService] is its API. *)

From S2P Require Export ClientIface Batch.

Local Open Scope Z_scope.

(** The result of one entry of a batch creation. *)
Record CreateResult := { Result_Status : option ApiStatus; Result_Entry : option ApiEntry }.

(** [entryv1.EntryClient], and closing the connection it uses *)
Class EntryService (W : Type) := {
  rpc_ListEntries : string → Z → GoM W (result (list ApiEntry * string));
  rpc_BatchCreateEntry : list ApiEntry → GoM W (result (list CreateResult));
  rpc_BatchUpdateEntry : list ApiEntry → GoM W (result (list (option ApiStatus)));
  rpc_BatchDeleteEntry : list string → GoM W (result (list (option ApiStatus)));
  conn_Close : GoM W (option error);
}.

Definition entryCreateBatchSize : Z := 50.
Definition entryUpdateBatchSize : Z := 50.
Definition entryDeleteBatchSize : Z := 200.

(** ** Choosing the address: [NewClient] *)

(** [target[0]] panics on the empty string. *)
Definition NewClient_target (target : string) : outcome string :=
  let isAbs := HasPrefix target "/" in
  match target with
  | EmptyString => Panic
  | String c _ =>
      Ret (if isAbs || bool_decide (c = "."%char) || bool_decide (c = "/"%char)
           then if isAbs then "unix://" +:+ target else "unix:" +:+ target
           else target)
  end.

(** [dial] is [grpc.Dial] with the transport the client asks for. *)
Definition NewClient {C} (dial : string → result C) (target : string) : outcome (result C) :=
  target ← NewClient_target target;
  Ret (wrap "failed to dial SPIRE server" (dial target)).

Section client.
Context `{!SpiffeID} {W : Type} `{!EntryService W}.

(** [for _, e := range resp.Entries { ... }]: convert a page, stop at the
    first entry that does not convert. *)
Fixpoint convert_page (es : list ApiEntry) : outcome (result (list Entry)) :=
  match es with
  | [] => Ret (OK [])
  | e :: es =>
      r ← fromAPIEntry e;
      match r with
      | ERR err => Ret (ERR err)
      | OK entry =>
          rs ← convert_page es;
          Ret (match rs with OK entries => OK (entry :: entries) | ERR err => ERR err end)
      end
  end.

Fixpoint ListEntries_loop (fuel : nat) (pageToken : string) (entries : list Entry) :
    GoM W (result (list Entry)) :=
  match fuel with
  | O => out_of_fuel
  | S fuel =>
      resp ← rpc_ListEntries pageToken 1000;
      match resp with
      | ERR err => mret (ERR (ErrWrap "failed to list entries" err))
      | OK (page, next) =>
          r ← pure (convert_page page);
          match r with
          | ERR err => mret (ERR err)
          | OK es =>
              if bool_decide (next = "") then mret (OK (entries ++ es))
              else ListEntries_loop fuel next (entries ++ es)
          end
      end
  end.

(** The loop has no bound in the code; [fuel] pages are fetched at most. *)
Definition client_ListEntries (fuel : nat) : GoM W (result (list Entry)) :=
  ListEntries_loop fuel "" [].

(** The error of the first status of a response, if there is a response
    element; reading the code of a missing status panics. *)
Definition client_CreateEntry (entry : Entry) : GoM W (option error) :=
  resp ← rpc_BatchCreateEntry [toAPIEntry entry];
  match resp with
  | ERR err => mret (Some (ErrWrap "failed to create entry" err))
  | OK [] => mret None
  | OK (r :: _) =>
      match Result_Status r with
      | None => panic
      | Some st =>
          if bool_decide (Api_Code st ≠ 0) then
            if bool_decide (Api_Code st = codes_AlreadyExists) then mret None
            else mret (Some (ErrNew ("failed to create entry: " +:+ Api_Message st)))
          else mret None
      end
  end.

Definition first_status_error (msg : string) (statuses : list (option ApiStatus)) :
    outcome (option error) :=
  match statuses with
  | [] => Ret None
  | None :: _ => Panic
  | Some st :: _ =>
      Ret (if bool_decide (Api_Code st ≠ 0)
           then Some (ErrNew (msg +:+ ": " +:+ Api_Message st)) else None)
  end.

Definition client_UpdateEntry (entry : Entry) : GoM W (option error) :=
  resp ← rpc_BatchUpdateEntry [toAPIEntry entry];
  match resp with
  | ERR err => mret (Some (ErrWrap "failed to update entry" err))
  | OK statuses => pure (first_status_error "failed to update entry" statuses)
  end.

Definition client_DeleteEntry (id : string) : GoM W (option error) :=
  resp ← rpc_BatchDeleteEntry [id];
  match resp with
  | ERR err => mret (Some (ErrWrap "failed to delete entry" err))
  | OK statuses => pure (first_status_error "failed to delete entry" statuses)
  end.

(** *** Batches

    The function passed to [runBatch] is a closure over the slice
    [statuses], so its world is the server and that slice. *)

Definition on_server {A} (m : GoM W A) : GoM (W * list Status) A :=
  lift fst (λ w s, (w, s.2)) m.

Definition append_status (st : Status) : GoM (W * list Status) unit :=
  modify_world (λ s, (s.1, s.2 ++ [st])).

(** The indexing [batch[i]] in the log calls: it panics out of range. *)
Definition index_check {A} (i : nat) (batch : list A) : GoM (W * list Status) unit :=
  if bool_decide (i < length batch)%nat then mret tt else panic.

Definition enumerate {A} (l : list A) : list (nat * A) := zip (seq 0 (length l)) l.

Definition create_batch (batchEntries : list Entry) : GoM (W * list Status) (option error) :=
  resp ← on_server (rpc_BatchCreateEntry (entriesToAPI batchEntries));
  match resp with
  | ERR err => mret (Some err)
  | OK results =>
      for_each (enumerate results) (λ '(i, r),
        let status := statusFromAPI (Result_Status r) in
        append_status status;;
        if bool_decide (Code status = codes_OK)
        then match Result_Entry r with
             | Some _ => index_check i batchEntries
             | None => mret tt
             end
        else index_check i batchEntries);;
      mret None
  end.

Definition update_batch (batchEntries : list Entry) : GoM (W * list Status) (option error) :=
  resp ← on_server (rpc_BatchUpdateEntry (entriesToAPI batchEntries));
  match resp with
  | ERR err => mret (Some err)
  | OK results =>
      for_each (enumerate results) (λ '(i, r),
        append_status (statusFromAPI r);; index_check i batchEntries);;
      mret None
  end.

Definition delete_batch (batchIDs : list string) : GoM (W * list Status) (option error) :=
  resp ← on_server (rpc_BatchDeleteEntry batchIDs);
  match resp with
  | ERR err => mret (Some err)
  | OK results =>
      for_each (enumerate results) (λ '(i, r),
        append_status (statusFromAPI r);; index_check i batchIDs);;
      mret None
  end.

(** [statuses := make(...); err := runBatch(...); return statuses, err] *)
Definition run_batches {A} (size : Z) (l : list A)
    (fn : list A → GoM (W * list Status) (option error)) :
    GoM W (list Status * option error) := λ w,
  let '(o, (w', statuses)) :=
    runBatch (Z.of_nat (length l)) size (λ s e, fn (slice s e l)) (w, []) in
  (err ← o; Ret (statuses, err), w').

Definition client_BatchCreateEntries (entries : list Entry) :=
  run_batches entryCreateBatchSize entries create_batch.
Definition client_BatchUpdateEntries (entries : list Entry) :=
  run_batches entryUpdateBatchSize entries update_batch.
Definition client_BatchDeleteEntries (ids : list string) :=
  run_batches entryDeleteBatchSize ids delete_batch.

Definition client_Close : GoM W (option error) := conn_Close.
End client.

(** The client as an implementation of the interface; [fuel] is any bound on
    the number of pages of a listing. *)
Definition client_instance `{!SpiffeID} {W} `{!EntryService W} (fuel : W → nat) : Client W := {|
  ListEntries := λ w, client_ListEntries (fuel w) w;
  CreateEntry := client_CreateEntry;
  UpdateEntry := client_UpdateEntry;
  DeleteEntry := client_DeleteEntry;
  BatchCreateEntries := client_BatchCreateEntries;
  BatchUpdateEntries := client_BatchUpdateEntries;
  BatchDeleteEntries := client_BatchDeleteEntries;
  Close := client_Close;
|}.
