(* ===== verification/SpireClientFacts.v ===== *)
(** * The gRPC client meets the [Client] interface

    [ServiceSpec] states what the entry service of the SPIRE server documents;
    from it the client of [SpireClient] satisfies [ClientSpec]. *)

From S2P Require Export SpireClient.

Local Open Scope Z_scope.

Section service.
Context `{!SpiffeID} {W : Type} `{!EntryService W}.

Definition convertible (a : ApiEntry) : Prop := ∃ e, fromAPIEntry a = Ret (OK e).

(** [paged tok w n r w']: following the page tokens from [tok] takes [n]
    calls and yields [r]. *)
Inductive paged : string → W → nat → result (list ApiEntry) → W → Prop :=
| paged_err tok w e w' :
    rpc_ListEntries tok 1000 w = (Ret (ERR e), w') → paged tok w 1 (ERR e) w'
| paged_last tok w es w' :
    rpc_ListEntries tok 1000 w = (Ret (OK (es, "")), w') → paged tok w 1 (OK es) w'
| paged_more tok w es tok' w' n r w'' :
    rpc_ListEntries tok 1000 w = (Ret (OK (es, tok')), w') → tok' ≠ "" →
    paged tok' w' n r w'' → paged tok w (S n) (app es <$> r) w''.
End service.

(** The documented behaviour of the service: a listing ends and returns the
    registered entries, a status is returned for every element of a batch, a
    status of code 0 means that the element was applied. *)
Class ServiceSpec `{!SpiffeID} (W : Type) `{!EntryService W} := {
  svc_store : W → gmap string ApiEntry;
  svc_pages : W → nat;
  svc_ids w k a : svc_store w !! k = Some a → Api_Id a = k;
  svc_convertible w k a : svc_store w !! k = Some a → convertible a;
  svc_list w : ∃ n r w', paged "" w n r w' ∧ (n ≤ svc_pages w)%nat ∧
    svc_store w' = svc_store w ∧
    ∀ es, r = OK es → es ≡ₚ (map_to_list (svc_store w)).*2;
  svc_list_convertible tok w es tok' w' :
    rpc_ListEntries tok 1000 w = (Ret (OK (es, tok')), w') → Forall convertible es;
  svc_create a w : Api_Id a ≠ "" → convertible a →
    wp (rpc_BatchCreateEntry [a]) (λ r w',
      (svc_store w' = svc_store w ∨
       svc_store w !! Api_Id a = None ∧ svc_store w' = <[Api_Id a := a]> (svc_store w)) ∧
      ∀ rs, r = OK rs → ∃ st e, rs = [{| Result_Status := Some st; Result_Entry := e |}]) w;
  svc_update a w : Api_Id a ≠ "" → convertible a →
    wp (rpc_BatchUpdateEntry [a]) (λ r w',
      (svc_store w' = svc_store w ∨
       is_Some (svc_store w !! Api_Id a) ∧ svc_store w' = <[Api_Id a := a]> (svc_store w)) ∧
      ∀ rs, r = OK rs → ∃ st, rs = [Some st] ∧
        (Api_Code st = 0 → svc_store w' !! Api_Id a = Some a)) w;
  svc_delete ids w :
    wp (rpc_BatchDeleteEntry ids) (λ r w',
      (∀ k, k ∉ ids → svc_store w' !! k = svc_store w !! k) ∧
      (∀ k, svc_store w' !! k = svc_store w !! k ∨ svc_store w' !! k = None) ∧
      ∀ rs, r = OK rs → length rs = length ids ∧
        ∀ i id, ids !! i = Some id → ∃ st, rs !! i = Some (Some st) ∧
          - 2 ^ 31 <= Api_Code st < 2 ^ 31 ∧
          (Api_Code st = 0 → svc_store w' !! id = None)) w;
}.

Section conversion.
Context `{!SpiffeID, !SpiffeIDLaws}.

Definition conv (a : ApiEntry) : option Entry :=
  match fromAPIEntry a with Ret (OK e) => Some e | _ => None end.

Lemma conv_Some a e : conv a = Some e ↔ fromAPIEntry a = Ret (OK e).
Proof. unfold conv. by destruct (fromAPIEntry a) as [[]| |]; split; intros; simplify_eq. Qed.

Lemma conv_toAPIEntry e : entry_valid e = true → conv (toAPIEntry e) = Some e.
Proof. intros. by apply conv_Some, fromAPIEntry_toAPIEntry. Qed.

Lemma convertible_toAPIEntry e : entry_valid e = true → convertible (toAPIEntry e).
Proof. intros. eexists. by apply fromAPIEntry_toAPIEntry. Qed.

Lemma convert_page_convertible es :
  Forall convertible es → convert_page es = Ret (OK (omap conv es)).
Proof.
  induction 1 as [|a es [e Ha] _ IH]; [done|]. simpl. rewrite Ha. simpl.
  rewrite IH. simpl. by rewrite (proj2 (conv_Some a e) Ha).
Qed.

Lemma map_to_list_omap_values {A B} (f : A → option B) (m : gmap string A) :
  (map_to_list (omap f m)).*2 ≡ₚ omap f (map_to_list m).*2.
Proof.
  induction m as [|k x m Hk IH] using map_ind.
  - by rewrite omap_empty, !map_to_list_empty.
  - rewrite (map_to_list_insert m) by done. simpl.
    destruct (f x) as [y|] eqn:Ef.
    + rewrite (omap_insert_Some _ _ _ _ y) by done.
      rewrite map_to_list_insert by (by rewrite lookup_omap, Hk).
      simpl. by f_equiv.
    + rewrite omap_insert_None by done.
      by rewrite delete_id by (by rewrite lookup_omap, Hk).
Qed.
End conversion.

(** ** The operations *)

Section spec.
Context `{!SpiffeID, !SpiffeIDLaws} {W : Type} `{!EntryService W, !ServiceSpec W}.

(** The registered entries as the client sees them. *)
Definition client_store (w : W) : gmap string Entry := omap conv (svc_store w).

Lemma client_store_insert w w' e :
  entry_valid e = true →
  svc_store w' = <[Entry_ID e := toAPIEntry e]> (svc_store w) →
  client_store w' = <[Entry_ID e := e]> (client_store w).
Proof.
  intros He Hw. unfold client_store. rewrite Hw.
  by apply omap_insert_Some, conv_toAPIEntry.
Qed.

Lemma client_store_None w k : client_store w !! k = None ↔ svc_store w !! k = None.
Proof.
  unfold client_store. rewrite lookup_omap. destruct (svc_store w !! k) as [a|] eqn:Ea; [|done].
  destruct (svc_convertible w k a Ea) as [e He]. simpl.
  by rewrite (proj2 (conv_Some a e) He).
Qed.

Lemma client_store_is_Some w k : is_Some (client_store w !! k) ↔ is_Some (svc_store w !! k).
Proof. rewrite <-!not_eq_None_Some. by rewrite client_store_None. Qed.

Lemma client_store_ids w k e : client_store w !! k = Some e → Entry_ID e = k.
Proof.
  unfold client_store. intros (a & He & Ha)%lookup_omap_Some.
  apply conv_Some, fromAPIEntry_ID in He. rewrite He. by eapply svc_ids.
Qed.

Lemma client_store_valid w k e : client_store w !! k = Some e → entry_valid e = true.
Proof.
  unfold client_store. intros (a & He & Ha)%lookup_omap_Some.
  by apply conv_Some, fromAPIEntry_valid in He.
Qed.

Lemma client_store_lookup_eq w w' k :
  svc_store w' !! k = svc_store w !! k → client_store w' !! k = client_store w !! k.
Proof. unfold client_store. rewrite !lookup_omap. by intros ->. Qed.

Lemma client_store_ext w w' : svc_store w' = svc_store w → client_store w' = client_store w.
Proof. unfold client_store. by intros ->. Qed.

(** Following the tokens, the loop returns every page converted, in order. *)
Lemma ListEntries_loop_paged tok w n r w' acc fuel :
  paged tok w n r w' → (n ≤ fuel)%nat →
  ListEntries_loop fuel tok acc w =
    (Ret (match r with
          | OK es => OK (acc ++ omap conv es)
          | ERR e => ERR (ErrWrap "failed to list entries" e)
          end), w').
Proof.
  intros Hp. revert acc fuel.
  induction Hp as [tok w e w' Hr|tok w es w' Hr|tok w es tok' w' n r w'' Hr Htok _ IH];
    intros acc [|fuel] Hn; try lia; cbn [ListEntries_loop];
    unfold mbind, GoM_bind; rewrite Hr; [done| |].
  - unfold pure. by rewrite convert_page_convertible by (by eapply svc_list_convertible).
  - unfold pure. rewrite convert_page_convertible by (by eapply svc_list_convertible).
    rewrite bool_decide_false by done. rewrite IH by lia.
    destruct r as [es'|]; simpl; [|done]. by rewrite omap_app, app_assoc.
Qed.

Lemma client_ListEntries_spec (fuel : nat) w :
  (svc_pages w ≤ fuel)%nat →
  wp (client_ListEntries fuel) (λ r w',
    svc_store w' = svc_store w ∧
    ∀ es, r = OK es → es ≡ₚ (map_to_list (client_store w)).*2) w.
Proof.
  intros Hf. destruct (svc_list w) as (n & r & w' & Hp & Hn & Hst & Hr).
  unfold client_ListEntries. apply wp_run.
  rewrite (ListEntries_loop_paged _ _ _ _ _ [] fuel Hp) by lia.
  eexists _, _. split; [done|]. split; [done|].
  destruct r as [es|]; [|done]. intros es' [= <-]. simpl.
  unfold client_store. rewrite map_to_list_omap_values. by rewrite Hr.
Qed.

Lemma client_CreateEntry_spec e w :
  sendable e →
  wp (client_CreateEntry e) (λ r w', client_store w' = client_store w ∨
    (client_store w !! Entry_ID e = None ∧
     client_store w' = <[Entry_ID e := e]> (client_store w))) w.
Proof.
  intros [Hid Hv]. unfold client_CreateEntry. wp_step.
  eapply wp_mono; [by apply (svc_create (toAPIEntry e)); [|apply convertible_toAPIEntry]|].
  simpl. intros r w' [Hst Hrs].
  assert (client_store w' = client_store w ∨ (client_store w !! Entry_ID e = None ∧
     client_store w' = <[Entry_ID e := e]> (client_store w))) as Hgoal.
  { destruct Hst as [Hst|[Hnone Hst]]; [left; by apply client_store_ext|right].
    split; [by apply client_store_None|by apply client_store_insert]. }
  destruct r as [rs|]; [|done]. destruct (Hrs rs eq_refl) as (st & e' & ->). simpl.
  by do 2 try case_bool_decide.
Qed.

Lemma client_UpdateEntry_spec e w :
  sendable e →
  wp (client_UpdateEntry e) (λ r w',
    (client_store w' = client_store w ∨
     (is_Some (client_store w !! Entry_ID e) ∧
      client_store w' = <[Entry_ID e := e]> (client_store w))) ∧
    (r = None → client_store w' !! Entry_ID e = Some e)) w.
Proof.
  intros [Hid Hv]. unfold client_UpdateEntry. wp_step.
  eapply wp_mono; [by apply (svc_update (toAPIEntry e)); [|apply convertible_toAPIEntry]|].
  simpl. intros r w' [Hst Hrs].
  assert (client_store w' = client_store w ∨ (is_Some (client_store w !! Entry_ID e) ∧
     client_store w' = <[Entry_ID e := e]> (client_store w))) as Hgoal.
  { destruct Hst as [Hst|[Hsome Hst]]; [left; by apply client_store_ext|right].
    split; [by apply client_store_is_Some|by apply client_store_insert]. }
  destruct r as [rs|]; [|by split]. destruct (Hrs rs eq_refl) as (st & -> & Hok).
  apply wp_pure. simpl. split; [done|]. case_bool_decide as Hc; [done|]. intros _.
  unfold client_store. rewrite lookup_omap, Hok by lia. simpl.
  by apply conv_toAPIEntry.
Qed.

Lemma svc_delete_one w w' id :
  (∀ k, k ∉ [id] → svc_store w' !! k = svc_store w !! k) →
  (∀ k, svc_store w' !! k = svc_store w !! k ∨ svc_store w' !! k = None) →
  client_store w' = client_store w ∨ client_store w' = delete id (client_store w).
Proof.
  intros Hne Hor. destruct (Hor id) as [Heq|Hnone].
  - left. apply map_eq. intros k. apply client_store_lookup_eq.
    destruct (decide (k = id)) as [->|]; [done|].
    apply Hne. by rewrite list_elem_of_singleton.
  - right. apply map_eq. intros k. destruct (decide (k = id)) as [->|].
    + rewrite lookup_delete_eq. by apply client_store_None.
    + rewrite lookup_delete_ne by done. apply client_store_lookup_eq, Hne.
      by rewrite list_elem_of_singleton.
Qed.

Lemma client_DeleteEntry_spec id w :
  wp (client_DeleteEntry id) (λ r w',
    (client_store w' = client_store w ∨ client_store w' = delete id (client_store w)) ∧
    (r = None → client_store w' !! id = None)) w.
Proof.
  unfold client_DeleteEntry. wp_step.
  eapply wp_mono; [apply svc_delete|]. simpl. intros r w' (Hne & Hor & Hrs).
  pose proof (svc_delete_one w w' id Hne Hor) as Hgoal.
  destruct r as [rs|]; [|by split]. destruct (Hrs rs eq_refl) as [Hlen Hst].
  destruct (Hst 0%nat id eq_refl) as (st & Hlk & _ & Hok).
  destruct rs as [|r0 rs]; simplify_eq/=. apply wp_pure. simpl. split; [done|].
  case_bool_decide as Hc; [done|]. intros _.
  apply client_store_None, Hok. lia.
Qed.
End spec.

(** ** Batch deletion *)

Section batch_deleted.
Context {V : Type}.
Implicit Types (m : gmap string V).

Lemma batch_deleted_nil m : batch_deleted m [] [] m.
Proof. split_and!; [done|by left|done]. Qed.

Lemma batch_deleted_app m0 m1 m2 ids1 ids2 sts1 sts2 :
  length sts1 = length ids1 →
  batch_deleted m0 ids1 sts1 m1 → batch_deleted m1 ids2 sts2 m2 →
  batch_deleted m0 (ids1 ++ ids2) (sts1 ++ sts2) m2.
Proof.
  intros Hlen (Ha1 & Hb1 & Hc1) (Ha2 & Hb2 & Hc2). split_and!.
  - intros k [Hk1 Hk2]%not_elem_of_app. by rewrite Ha2, Ha1.
  - intros k. destruct (Hb2 k) as [->|]; [apply Hb1|by right].
  - intros i id st Hid Hst Hcode.
    destruct (decide (i < length ids1)%nat) as [Hi|Hi].
    + rewrite lookup_app_l in Hid by done. rewrite lookup_app_l in Hst by lia.
      destruct (Hb2 id) as [->|]; [by eapply Hc1|done].
    + rewrite lookup_app_r in Hid by lia. rewrite lookup_app_r, Hlen in Hst by lia.
      by eapply Hc2.
Qed.

(** Identifiers that were not reached change nothing. *)
Lemma batch_deleted_more m0 m1 ids more sts :
  (length sts ≤ length ids)%nat →
  batch_deleted m0 ids sts m1 → batch_deleted m0 (ids ++ more) sts m1.
Proof.
  intros Hlen (Ha & Hb & Hc). split_and!.
  - intros k [Hk _]%not_elem_of_app. by apply Ha.
  - done.
  - intros i id st Hid Hst. pose proof (lookup_lt_Some _ _ _ Hst).
    rewrite lookup_app_l in Hid by lia. by apply (Hc i _ st).
Qed.
End batch_deleted.

Section batch_spec.
Context `{!SpiffeID, !SpiffeIDLaws} {W : Type} `{!EntryService W, !ServiceSpec W}.

(** The loop over the statuses of one response appends them all; it does not
    index out of the batch when there are as many as elements sent. *)
Lemma append_statuses_run {A} (batch : list A) (results : list (option ApiStatus)) w sts :
  (length results ≤ length batch)%nat →
  for_each (enumerate results) (λ '(i, r),
    append_status (statusFromAPI r);; index_check (W:=W) i batch) (w, sts)
  = (Ret tt, (w, sts ++ (statusFromAPI <$> results))).
Proof.
  unfold enumerate. intros Hlen.
  assert (∀ k rs sts', (k + length rs ≤ length batch)%nat →
    for_each (zip (seq k (length rs)) rs) (λ '(i, r),
      append_status (statusFromAPI r);; index_check (W:=W) i batch) (w, sts')
    = (Ret tt, (w, sts' ++ (statusFromAPI <$> rs)))) as Hgen; [|by apply Hgen].
  intros k rs. revert k. induction rs as [|r rs IH]; intros k sts' Hk; simpl in *.
  - by rewrite app_nil_r.
  - unfold mbind, GoM_bind, append_status, modify_world, index_check. simpl.
    rewrite bool_decide_true by lia. simpl.
    rewrite IH by lia. by rewrite <-app_assoc.
Qed.

Lemma statusFromAPI_OK st :
  - 2 ^ 31 <= Api_Code st < 2 ^ 31 →
  Code (statusFromAPI (Some st)) = codes_OK → Api_Code st = 0.
Proof.
  intros Hr. simpl. unfold codes_OK. intros Hz.
  destruct (decide (0 <= Api_Code st)); [rewrite Z.mod_small in Hz; lia|].
  rewrite <-(Z.mod_add _ 1), Z.mod_small in Hz; lia.
Qed.

Lemma delete_batch_spec ids w sts :
  wp (delete_batch ids) (λ r s', ∃ new, s'.2 = sts ++ new ∧
    batch_deleted (svc_store w) ids new (svc_store s'.1) ∧
    (length new ≤ length ids)%nat ∧ (r = None → length new = length ids)) (w, sts).
Proof.
  unfold delete_batch. apply wp_bind. unfold on_server. apply wp_lift. simpl.
  eapply wp_mono; [apply svc_delete|]. simpl. intros r w' (Hne & Hor & Hrs).
  destruct r as [rs|e].
  - destruct (Hrs rs eq_refl) as [Hlen Hst]. apply wp_bind, wp_run.
    rewrite append_statuses_run by lia. eexists _, _. split; [done|].
    apply wp_ret. simpl. exists (statusFromAPI <$> rs). split; [done|].
    rewrite length_fmap. split; [|split; [lia|done]]. split_and!; [done..|].
    intros i id st Hid Hlk Hcode. rewrite list_lookup_fmap in Hlk.
    destruct (Hst i id Hid) as (st' & Hrs' & Hrange & Hok).
    rewrite Hrs' in Hlk. simplify_eq/=. by apply Hok, statusFromAPI_OK.
  - apply wp_ret. exists []. rewrite app_nil_r. split; [done|].
    split; [by split_and!|]. simpl. split; [lia|done].
Qed.

Lemma run_lists_delete m0 ls ids w sts :
  batch_deleted m0 ids sts (svc_store w) → length sts = length ids →
  wp (run_lists ls delete_batch) (λ r s',
    batch_deleted m0 (ids ++ mjoin ls) s'.2 (svc_store s'.1) ∧
    (r = None → length s'.2 = length (ids ++ mjoin ls))) (w, sts).
Proof.
  revert ids w sts. induction ls as [|l ls IH]; intros ids w sts Hd Hlen; simpl.
  - apply wp_ret. by rewrite app_nil_r.
  - apply wp_bind. eapply wp_mono; [apply delete_batch_spec|].
    intros r [w' sts'] (new & Heq & Hd' & Hle & Hr). simpl in *. subst sts'.
    pose proof (batch_deleted_app _ _ _ _ _ _ _ Hlen Hd Hd') as Hd''.
    change (mjoin (l :: ls)) with (l ++ mjoin ls).
    rewrite app_assoc. destruct r as [e|].
    + apply wp_ret. simpl. split; [|done].
      apply batch_deleted_more; [|done]. rewrite !length_app. lia.
    + apply IH; [done|]. rewrite !length_app, Hr by done. lia.
Qed.

Lemma client_BatchDeleteEntries_spec ids w :
  wp (client_BatchDeleteEntries ids) (λ r w',
    batch_deleted (client_store w) ids r.1 (client_store w') ∧
    (r.2 = None → length r.1 = length ids)) w.
Proof.
  unfold client_BatchDeleteEntries, run_batches, wp.
  destruct (runBatch_lists ids entryDeleteBatchSize delete_batch) as (ls & Hls & _ & Hrun).
  rewrite Hrun.
  pose proof (run_lists_delete (svc_store w) ls [] w [] (batch_deleted_nil _) eq_refl) as Hwp.
  apply wp_run in Hwp as (r & [w' sts] & -> & Hd & Hr). simpl in *. rewrite Hls in *.
  split; [|done]. destruct Hd as (Ha & Hb & Hc). split_and!.
  - intros k Hk. by apply client_store_lookup_eq, Ha.
  - intros k. destruct (Hb k); [left; by apply client_store_lookup_eq|right].
    by apply client_store_None.
  - intros i id st Hid Hst Hcode. by eapply client_store_None, Hc.
Qed.

(** The gRPC client satisfies the interface the reconcilers rely on. *)
Definition client_spec (fuel : W → nat) (Hfuel : ∀ w, (svc_pages w ≤ fuel w)%nat) :
  @ClientSpec _ W (client_instance fuel).
Proof.
  refine (@Build_ClientSpec _ W (client_instance fuel) client_store
    client_store_ids client_store_valid _
    client_CreateEntry_spec client_UpdateEntry_spec client_DeleteEntry_spec
    client_BatchDeleteEntries_spec).
  intros w. eapply wp_mono; [by apply (client_ListEntries_spec (fuel w))|].
  intros r w' [Hst Hr]. split; [by apply client_store_ext|done].
Defined.
End batch_spec.
