(* ===== verification/SpireReliable.v ===== *)
(** * The gRPC client over a service that does what it is asked

    [ReliableService] adds to [ServiceSpec] that calls succeed in a healthy
    world; the client then satisfies [ReliableClient]. *)

From S2P Require Export SpireClientFacts.

Local Open Scope Z_scope.

(** The text of an identity in a message. *)
Definition api_uri (i : ApiSPIFFEID) : string := "spiffe://" +:+ Api_TrustDomain i +:+ Api_Path i.

(** The service keeps one entry for a SPIFFE ID, parent ID and selectors. *)
Definition api_similar (a b : ApiEntry) : Prop :=
  api_uri <$> Api_SpiffeId a = api_uri <$> Api_SpiffeId b ∧
  api_uri <$> Api_ParentId a = api_uri <$> Api_ParentId b ∧
  Api_Selectors a ≡ₚ Api_Selectors b.

Class ReliableService `{!SpiffeID} (W : Type) `{!EntryService W, !ServiceSpec W} := {
  svc_healthy : W → Prop;
  svc_list_ok w : svc_healthy w → ∃ n es w', paged "" w n (OK es) w' ∧ (n ≤ svc_pages w)%nat ∧
    svc_healthy w' ∧ svc_store w' = svc_store w ∧ es ≡ₚ (map_to_list (svc_store w)).*2;
  svc_create_ok a w : svc_healthy w → Api_Id a ≠ "" → convertible a →
    svc_store w !! Api_Id a = None →
    (∀ k b, svc_store w !! k = Some b → ¬ api_similar a b) →
    wp (rpc_BatchCreateEntry [a]) (λ r w', svc_healthy w' ∧
      svc_store w' = <[Api_Id a := a]> (svc_store w) ∧
      ∃ st e, r = OK [{| Result_Status := Some st; Result_Entry := e |}] ∧ Api_Code st = 0) w;
  (** "If a similar entry already exists, ALREADY_EXISTS is returned". *)
  svc_create_taken a w : svc_healthy w → Api_Id a ≠ "" → convertible a →
    svc_store w !! Api_Id a = None →
    (∃ k b, svc_store w !! k = Some b ∧ api_similar a b) →
    wp (rpc_BatchCreateEntry [a]) (λ r w', svc_healthy w' ∧ svc_store w' = svc_store w ∧
      ∃ st e, r = OK [{| Result_Status := Some st; Result_Entry := e |}] ∧
        Api_Code st = codes_AlreadyExists) w;
  svc_update_ok a w : svc_healthy w → Api_Id a ≠ "" → convertible a →
    is_Some (svc_store w !! Api_Id a) →
    wp (rpc_BatchUpdateEntry [a]) (λ r w', svc_healthy w' ∧
      svc_store w' = <[Api_Id a := a]> (svc_store w) ∧
      ∃ st, r = OK [Some st] ∧ Api_Code st = 0) w;
  svc_delete_ok id w : svc_healthy w → is_Some (svc_store w !! id) →
    wp (rpc_BatchDeleteEntry [id]) (λ r w', svc_healthy w' ∧
      svc_store w' = delete id (svc_store w) ∧
      ∃ st, r = OK [Some st] ∧ Api_Code st = 0) w;
}.

Section reliable.
Context `{!SpiffeID, !SpiffeIDLaws} {W : Type} `{!EntryService W, !ServiceSpec W, !ReliableService W}.

(** The service and the client agree on which entries are the same. *)
Lemma fromAPIEntry_ids a b ea eb :
  fromAPIEntry a = Ret (OK ea) → fromAPIEntry b = Ret (OK eb) → api_similar a b ↔ similar ea eb.
Proof.
  unfold fromAPIEntry, id_from_api, api_similar, similar. intros Ha Hb.
  destruct (Api_SpiffeId a) as [s|]; simplify_eq/=.
  destruct (ID_FromString _) as [i|] eqn:Hs in Ha; simplify_eq/=.
  destruct (Api_ParentId a) as [p|]; simplify_eq/=.
  destruct (ID_FromString _) as [j|] eqn:Hp in Ha; simplify_eq/=.
  destruct (collect _ (Api_FederatesWith a)); simplify_eq/=.
  destruct (Api_SpiffeId b) as [s'|]; simplify_eq/=.
  destruct (ID_FromString _) as [i'|] eqn:Hs' in Hb; simplify_eq/=.
  destruct (Api_ParentId b) as [p'|]; simplify_eq/=.
  destruct (ID_FromString _) as [j'|] eqn:Hp' in Hb; simplify_eq/=.
  destruct (collect _ (Api_FederatesWith b)); simplify_eq/=.
  pose proof (ID_String_FromString _ _ Hs) as Ei. pose proof (ID_String_FromString _ _ Hs') as Ei'.
  pose proof (ID_String_FromString _ _ Hp) as Ej. pose proof (ID_String_FromString _ _ Hp') as Ej'.
  split.
  - intros (Heq%(inj Some) & Heq'%(inj Some) & Hsel). unfold api_uri in Heq, Heq'.
    rewrite Heq in Hs. rewrite Heq' in Hp. split_and!; congruence.
  - intros (-> & -> & Hsel). split_and!; [f_equal; unfold api_uri; congruence..|done].
Qed.

(** The service has an entry like [e] exactly when the client's view has. *)
Lemma taken_at_service e w :
  entry_valid e = true →
  taken e (client_store w) ↔ ∃ k b, svc_store w !! k = Some b ∧ api_similar (toAPIEntry e) b.
Proof.
  intros Hv. apply fromAPIEntry_toAPIEntry in Hv. unfold taken, client_store. split.
  - intros (k & e' & (b & Hb%conv_Some & Hk)%lookup_omap_Some & Hsim). exists k, b.
    split; [done|]. by eapply fromAPIEntry_ids.
  - intros (k & b & Hk & Hsim). destruct (svc_convertible w k b Hk) as [e' He'].
    exists k, e'. rewrite lookup_omap, Hk. split; [by apply conv_Some|]. by eapply fromAPIEntry_ids.
Qed.

Lemma client_store_delete w w' id :
  svc_store w' = delete id (svc_store w) → client_store w' = delete id (client_store w).
Proof. intros Hw. unfold client_store. by rewrite Hw, omap_delete. Qed.

Lemma client_ListEntries_ok (fuel : nat) w :
  (svc_pages w ≤ fuel)%nat → svc_healthy w →
  wp (client_ListEntries fuel) (λ r w', svc_healthy w' ∧ client_store w' = client_store w ∧
    ∃ es, r = OK es ∧ es ≡ₚ (map_to_list (client_store w)).*2) w.
Proof.
  intros Hf Hh. destruct (svc_list_ok w Hh) as (n & es & w' & Hp & Hn & Hh' & Hst & Hes).
  unfold client_ListEntries. apply wp_run.
  rewrite (ListEntries_loop_paged _ _ _ _ _ [] fuel Hp) by lia.
  eexists _, _. split; [done|]. split; [done|]. split; [by apply client_store_ext|].
  eexists. split; [done|]. unfold client_store. by rewrite map_to_list_omap_values, Hes.
Qed.

Lemma client_CreateEntry_ok e w :
  svc_healthy w → sendable e → client_store w !! Entry_ID e = None →
  ¬ taken e (client_store w) →
  wp (client_CreateEntry e) (λ r w', svc_healthy w' ∧ r = None ∧
    client_store w' = <[Entry_ID e := e]> (client_store w)) w.
Proof.
  intros Hh [Hid Hv] Hnone Hsim. unfold client_CreateEntry. wp_step.
  eapply wp_mono.
  - apply (svc_create_ok (toAPIEntry e)); [done|done|by apply convertible_toAPIEntry|..].
    + by apply client_store_None.
    + intros k b Hk Hab. apply Hsim, taken_at_service; eauto.
  - simpl. intros r w' (Hh' & Hst & st & a & -> & Hcode). simpl.
    rewrite bool_decide_false by lia. apply wp_ret. split_and!; [done..|].
    by apply client_store_insert.
Qed.

(** The status for an entry that is there already is no error. *)
Lemma client_CreateEntry_taken e w :
  svc_healthy w → sendable e → client_store w !! Entry_ID e = None → taken e (client_store w) →
  wp (client_CreateEntry e) (λ r w', svc_healthy w' ∧ r = None ∧
    client_store w' = client_store w) w.
Proof.
  intros Hh [Hid Hv] Hnone Htaken. unfold client_CreateEntry. wp_step.
  eapply wp_mono.
  - apply (svc_create_taken (toAPIEntry e)); [done|done|by apply convertible_toAPIEntry|..].
    + by apply client_store_None.
    + by apply taken_at_service.
  - simpl. intros r w' (Hh' & Hst & st & a & -> & Hcode). simpl. rewrite Hcode.
    apply wp_ret. split_and!; [done..|]. by apply client_store_ext.
Qed.

Lemma client_UpdateEntry_ok e w :
  svc_healthy w → sendable e → is_Some (client_store w !! Entry_ID e) →
  wp (client_UpdateEntry e) (λ r w', svc_healthy w' ∧ r = None ∧
    client_store w' = <[Entry_ID e := e]> (client_store w)) w.
Proof.
  intros Hh [Hid Hv] Hsome. unfold client_UpdateEntry. wp_step.
  eapply wp_mono.
  - apply (svc_update_ok (toAPIEntry e)); [done|done|by apply convertible_toAPIEntry|].
    by apply client_store_is_Some.
  - simpl. intros r w' (Hh' & Hst & st & -> & Hcode). apply wp_pure. simpl.
    rewrite bool_decide_false by lia. split_and!; [done..|]. by apply client_store_insert.
Qed.

Lemma client_DeleteEntry_ok id w :
  svc_healthy w → is_Some (client_store w !! id) →
  wp (client_DeleteEntry id) (λ r w', svc_healthy w' ∧ r = None ∧
    client_store w' = delete id (client_store w)) w.
Proof.
  intros Hh Hsome. unfold client_DeleteEntry. wp_step.
  eapply wp_mono; [apply svc_delete_ok; [done|by apply client_store_is_Some]|].
  simpl. intros r w' (Hh' & Hst & st & -> & Hcode). apply wp_pure. simpl.
  rewrite bool_decide_false by lia. split_and!; [done..|]. by apply client_store_delete.
Qed.

Definition client_reliable (fuel : W → nat) (Hfuel : ∀ w, (svc_pages w ≤ fuel w)%nat) :
    @ReliableClient _ W (client_instance fuel) (client_spec fuel Hfuel) :=
  @Build_ReliableClient _ W (client_instance fuel) (client_spec fuel Hfuel) svc_healthy
    (λ w, client_ListEntries_ok (fuel w) w (Hfuel w))
    client_CreateEntry_ok client_CreateEntry_taken client_UpdateEntry_ok client_DeleteEntry_ok.
End reliable.
