(* ===== verification/GoFloat.v ===== *)
(** * [time.Duration.Seconds] and the conversion of a [float64] to [int32]

    Binary64 arithmetic as the standard library's executable specification of
    IEEE 754 ([SpecFloat]) computes it. *)

From S2P Require Export ApiTypes.
From Stdlib Require Import SpecFloat.

Local Open Scope Z_scope.

Abbreviation float64 := spec_float.
Definition float64_of_int (x : Z) : float64 := binary_normalize 53 1024 x 0 false.
Definition float64_add : float64 → float64 → float64 := SFadd 53 1024.
Definition float64_div : float64 → float64 → float64 := SFdiv 53 1024.

(** [func (d Duration) Seconds() float64]: whole seconds and the rest apart,
    with Go's truncated division. *)
Definition Seconds (d : Duration) : float64 :=
  let sec := Z.quot d Second in
  let nsec := Z.rem d Second in
  float64_add (float64_of_int sec) (float64_div (float64_of_int nsec) (float64_of_int (10 ^ 9))).

(** The integer part, towards zero; [None] for infinities and NaN. *)
Definition float64_trunc (f : float64) : option Z :=
  match f with
  | S754_zero _ => Some 0
  | S754_finite s m e =>
      let a := if bool_decide (0 <= e) then Zpos m * 2 ^ e else Zpos m / 2 ^ (- e) in
      Some (if s then - a else a)
  | _ => None
  end.

(** [int32(f)].  Go leaves the result open when the value does not fit. *)
Class FloatToInt := { int32_out_of_range : float64 → Z }.

Definition int32_of_float64 `{!FloatToInt} (f : float64) : Z :=
  match float64_trunc f with
  | Some z => if bool_decide (- 2 ^ 31 <= z < 2 ^ 31) then z else int32_out_of_range f
  | None => int32_out_of_range f
  end.

(** ** Whole seconds are converted exactly *)

Lemma iter_xO m p : Zpos (Pos.iter xO m p) = Zpos m * 2 ^ Zpos p.
Proof.
  induction p as [|p IH] using Pos.peano_ind.
  - simpl. lia.
  - rewrite Pos.iter_succ, Pos2Z.inj_succ, Z.pow_succ_r by lia.
    change (Zpos (xO (Pos.iter xO m p))) with (2 * Zpos (Pos.iter xO m p)). lia.
Qed.

Lemma digits2_iter_xO m p :
  Zpos (digits2_pos (Pos.iter xO m p)) = Zpos (digits2_pos m) + Zpos p.
Proof.
  induction p as [|p IH] using Pos.peano_ind.
  - simpl. lia.
  - rewrite Pos.iter_succ. simpl. lia.
Qed.

Lemma digits2_pos_bound m : 2 ^ (Zpos (digits2_pos m) - 1) <= Zpos m.
Proof.
  induction m as [m IH|m IH|]; simpl; [..|done];
    rewrite Pos2Z.inj_succ, Z.sub_1_r, Z.pred_succ in *;
    replace (Zpos (digits2_pos m)) with (Z.succ (Zpos (digits2_pos m) - 1)) by lia;
    rewrite Z.pow_succ_r by lia; lia.
Qed.

Lemma float64_of_int_pos m :
  Zpos (digits2_pos m) < 53 →
  float64_of_int (Zpos m) =
    S754_finite false (Pos.iter xO m (Z.to_pos (53 - Zpos (digits2_pos m))))
      (Zpos (digits2_pos m) - 53).
Proof.
  intros Hd. unfold float64_of_int. simpl binary_normalize. unfold binary_round.
  set (d := Zpos (digits2_pos m)) in *. rewrite Z.add_0_r.
  assert (fexp 53 1024 d = d - 53) as Hf by (unfold fexp, emin; lia).
  rewrite Hf. unfold shl_align.
  replace (d - 53 - 0) with (Zneg (Z.to_pos (53 - d))) by lia.
  set (m' := Pos.iter xO m (Z.to_pos (53 - d))).
  assert (Zdigits2 (Zpos m') = 53) as Hdig.
  { unfold m'. simpl. rewrite digits2_iter_xO. fold d. lia. }
  unfold binary_round_aux, shr_fexp at 1. rewrite Hdig.
  replace (fexp 53 1024 (53 + (d - 53)) - (d - 53)) with 0 by (unfold fexp, emin; lia).
  cbn [shr shr_record_of_loc shr_m loc_of_shr_record round_nearest_even].
  unfold shr_fexp. rewrite Hdig.
  replace (fexp 53 1024 (53 + (d - 53)) - (d - 53)) with 0 by (unfold fexp, emin; lia).
  cbn [shr shr_record_of_loc shr_m].
  replace (d - 53 <=? 1024 - 53) with true; [done|].
  symmetry. apply Z.leb_le. lia.
Qed.

Lemma Seconds_whole_pos m :
  Zpos (digits2_pos m) < 53 → Seconds (Zpos m * Second) = float64_of_int (Zpos m).
Proof.
  intros Hd. unfold Seconds. rewrite Z.quot_mul, Z.rem_mul by done.
  change (float64_div (float64_of_int 0) (float64_of_int (10 ^ 9))) with (S754_zero false).
  by rewrite float64_of_int_pos.
Qed.

Lemma int32_Seconds_whole `{!FloatToInt} s :
  0 <= s < 2 ^ 31 → int32_of_float64 (Seconds (s * Second)) = s.
Proof.
  intros Hs. destruct s as [|m|m]; [done| |lia].
  assert (Zpos (digits2_pos m) <= 31) as Hd.
  { pose proof (digits2_pos_bound m).
    destruct (decide (Zpos (digits2_pos m) <= 31)) as [|Hn]; [done|exfalso].
    assert (2 ^ 31 <= 2 ^ (Zpos (digits2_pos m) - 1)) by (apply Z.pow_le_mono_r; lia). lia. }
  rewrite Seconds_whole_pos, float64_of_int_pos by lia.
  unfold int32_of_float64, float64_trunc.
  rewrite (bool_decide_false (0 <= _)) by lia. rewrite iter_xO.
  set (d := Zpos (digits2_pos m)) in *.
  replace (Zpos (Z.to_pos (53 - d))) with (53 - d) by lia.
  replace (- (d - 53)) with (53 - d) by lia.
  rewrite Z.div_mul by (apply Z.pow_nonzero; lia).
  by rewrite bool_decide_true by lia.
Qed.

(** A duration just under a whole second can round up: the sum of two
    [float64]s is not exact. *)
Example Seconds_rounds_up :
  float64_trunc (Seconds (1073741823 * Second + 999999999)) = Some 1073741824.
Proof. vm_compute. reflexivity. Qed.

Example Seconds_truncates : float64_trunc (Seconds (90 * Minute + 999999999)) = Some 5400.
Proof. vm_compute. reflexivity. Qed.
