(* ===== verification/Entries.v ===== *)
(** * internal/spireentry/entries.go: rendering, keys and comparison

    The functions that turn a pod into a registration entry, name an entry by
    the hash of what identifies it, and compare two entries. *)

From S2P Require Export SpireApi Sha256 GoFloat.

Local Open Scope Z_scope.

Record TemplateData := {
  TD_TrustDomain : string;
  TD_ClusterName : string;
  TD_ApplicationName : string;
  TD_AccountID : string;
  TD_Region : string;
  TD_InstanceID : string;
  PodMeta : ObjectMeta;
  TD_PodSpec : PodSpec;
  NodeMeta : ObjectMeta;
  TD_NodeSpec : NodeSpec;
}.

(** [text/template], used through [Parse] and [Execute].  The template language
    itself is left open: a template is whatever [Parse] returns. *)
Class Templates := {
  Template : Type;
  Template_Parse : string → result Template;
  Template_Execute : Template → TemplateData → result string;
  (** [template.Must(template.New(...).Parse(s))] in a package variable: a
      parse error stops the program before [main] runs. *)
  Template_Must_Parse : string → Template;
}.

Class TemplatesLaws `{!Templates} : Prop := {
  Template_Must_Parse_OK s t : Template_Parse s = OK t → Template_Must_Parse s = t;
}.

Definition extractInstanceID (providerID : string) : string :=
  match last (Split providerID "/") with Some p => p | None => "" end.

Section render.
Context `{!SpiffeID, !LabelSelectors, !Templates, !FloatToInt}.

(** The package variable of the same name. *)
Definition defaultParentIDTemplate : Template :=
  Template_Must_Parse "spiffe://{{ .TrustDomain }}/spire/agent/k8s_psat/{{ .ClusterName }}/{{ .NodeMeta.UID }}".

Definition template_data (identity : WorkloadIdentity) (cluster : EKSClusterRegistry)
    (pod : Pod) (node : Node) (trustDomain : string) : TemplateData :=
  {| TD_TrustDomain := trustDomain;
     TD_ClusterName := EKS_Name cluster;
     TD_ApplicationName := ApplicationName (WI_Spec identity);
     TD_AccountID := AccountID (EKS_Spec cluster);
     TD_Region := Region (EKS_Spec cluster);
     PodMeta := Pod_ObjectMeta pod;
     TD_PodSpec := Pod_Spec pod;
     NodeMeta := Node_ObjectMeta node;
     TD_NodeSpec := Node_Spec node;
     TD_InstanceID := extractInstanceID (ProviderID (Node_Spec node)) |}.

Definition pod_uid_selector (pod : Pod) : Sel :=
  {| Sel_Type := "k8s"; Sel_Value := "pod-uid:" +:+ Pod_UID pod |}.

(** One round of the loop over the selector templates: the selectors it
    appends (none when the text holds no colon). *)
Definition render_selector (data : TemplateData) (tmplStr : string) : result (list Sel) :=
  tmpl ← wrap "failed to parse selector template" (Template_Parse tmplStr);
  text ← wrap "failed to render selector" (Template_Execute tmpl data);
  OK match SplitN2 text ":" with
     | [t; v] => [{| Sel_Type := t; Sel_Value := v |}]
     | _ => []
     end.

Definition render_dnsName (data : TemplateData) (tmplStr : string) : result string :=
  tmpl ← wrap "failed to parse DNS name template" (Template_Parse tmplStr);
  wrap "failed to render DNS name" (Template_Execute tmpl data).

Definition parse_trust_domain (td : string) : result TrustDomain :=
  wrap ("invalid trust domain " +:+ td) (TrustDomainFromString td).

Definition ownerInfo (identity : WorkloadIdentity) : string :=
  "owner:WorkloadIdentity/" +:+ WI_Name identity.

Definition entry_hint (identity : WorkloadIdentity) (cluster : EKSClusterRegistry) : string :=
  let hint := Hint (WI_Spec identity) in
  if bool_decide (hint = "")
  then "workloadidentity:" +:+ WI_Name identity +:+ ":" +:+ EKS_Name cluster +:+ ";" +:+
       ownerInfo identity
  else hint +:+ ";" +:+ ownerInfo identity.

Definition RenderEntry (identity : WorkloadIdentity) (cluster : EKSClusterRegistry)
    (pod : Pod) (node : Node) (trustDomain : string) : result Entry :=
  let spec := WI_Spec identity in
  spiffeIDTmpl ← wrap "failed to parse SPIFFE ID template"
                   (Template_Parse (SPIFFEIDTemplate spec));
  parentIDTmpl ← (if bool_decide (ParentIDTemplate spec ≠ "")
                  then wrap "failed to parse parent ID template"
                         (Template_Parse (ParentIDTemplate spec))
                  else OK defaultParentIDTemplate);
  let data := template_data identity cluster pod node trustDomain in
  spiffeIDText ← wrap "failed to render SPIFFE ID" (Template_Execute spiffeIDTmpl data);
  spiffeID ← wrap "invalid SPIFFE ID" (ID_FromString spiffeIDText);
  parentIDText ← wrap "failed to render parent ID" (Template_Execute parentIDTmpl data);
  parentID ← wrap "invalid parent ID" (ID_FromString parentIDText);
  selectors ← collect (render_selector data) (WorkloadSelectorTemplates spec);
  dnsNames ← collect (render_dnsName data) (DNSNameTemplates spec);
  federatesWith ← collect parse_trust_domain (FederatesWith spec);
  OK {| Entry_ID := "";
        SPIFFEID := spiffeID;
        ParentID := parentID;
        Selectors := pod_uid_selector pod :: mjoin selectors;
        X509SVIDTTL := int32_of_float64 (Seconds (TTL spec));
        JWTSVIDTTL := int32_of_float64 (Seconds (JWTTTL spec));
        Entry_FederatesWith := federatesWith;
        Entry_Admin := Admin spec;
        Entry_Downstream := Downstream spec;
        DNSNames := dnsNames;
        Entry_Hint := entry_hint identity cluster |}.

(** *** Helpers of the package *)

Definition renderTemplate (tmpl : Template) (data : TemplateData) : result string :=
  wrap "failed to execute template" (Template_Execute tmpl data).

Definition renderSPIFFEID (tmpl : Template) (data : TemplateData) (expectTD : TrustDomain) :
    result ID :=
  rendered ← renderTemplate tmpl data;
  id ← wrap "invalid SPIFFE ID" (ID_FromString rendered);
  if bool_decide (ID_TrustDomain id ≠ expectTD)
  then ERR (ErrNew ("invalid SPIFFE ID: expected trust domain " +:+
                    Quote (TrustDomain_String expectTD) +:+ " but got " +:+
                    Quote (TrustDomain_String (ID_TrustDomain id))))
  else OK id.
End render.

Definition parseSelector (selector : string) : result Sel :=
  match SplitN2 selector ":" with
  | [_] => ERR (ErrNew "expected at least one colon to separate type from value")
  | t :: v :: _ =>
      if bool_decide (t = "") then ERR (ErrNew "type cannot be empty")
      else if bool_decide (v = "") then ERR (ErrNew "value cannot be empty")
      else OK {| Sel_Type := t; Sel_Value := v |}
  | [] => ERR (ErrNew "")
  end.

Definition parseSelectors (selectors : list string) : result (list Sel) :=
  collect parseSelector selectors.

(** The slice and the set are both updated by the call. *)
Fixpoint appendIfNotExists (slice : list string) (sliceSet : gset string) (items : list string) :
    list string * gset string :=
  match items with
  | [] => (slice, sliceSet)
  | item :: items =>
      if decide (item ∈ sliceSet) then appendIfNotExists slice sliceSet items
      else appendIfNotExists (slice ++ [item]) ({[item]} ∪ sliceSet) items
  end.

(** The names of one endpoints object, given as its name and namespace. *)
Definition endpoint_names (clusterDomain : string) (endpoint : string * string) : list string :=
  let '(name, namespace) := endpoint in
  [name; name +:+ "." +:+ namespace; name +:+ "." +:+ namespace +:+ ".svc"] ++
  (if bool_decide (clusterDomain ≠ "")
   then [name +:+ "." +:+ namespace +:+ ".svc." +:+ clusterDomain] else []).

Definition dnsNamesFromEndpoints (endpoints : list (string * string)) (clusterDomain : string) :
    list string :=
  sort_Strings (mjoin (endpoint_names clusterDomain <$> endpoints)).

(** ** Entry keys *)

(** The [less] function given to [sort.Slice]. *)
Definition selector_less (a b : Sel) : bool :=
  if String.ltb (Sel_Type a) (Sel_Type b) then true
  else if String.ltb (Sel_Type b) (Sel_Type a) then false
  else String.ltb (Sel_Value a) (Sel_Value b).

Definition selector_le (a b : Sel) : Prop := selector_less b a = false.
#[export] Instance selector_le_dec : RelDecision selector_le.
Proof. unfold selector_le. solve_decision. Defined.

Definition sortSelectors (unsorted : list Sel) : list Sel := merge_sort selector_le unsorted.

Fixpoint selectors_text (l : list Sel) : string :=
  match l with
  | [] => ""
  | s :: l => Sel_Type s +:+ Sel_Value s +:+ selectors_text l
  end.

Section keys.
Context `{!SpiffeID}.

(** What [makeEntryKey] writes to the hash. *)
Definition key_text (entry : Entry) : string :=
  ID_String (SPIFFEID entry) +:+ ID_String (ParentID entry) +:+
  selectors_text (sortSelectors (Selectors entry)).

Definition makeEntryKey (entry : Entry) : string := sha256_hex (key_text entry).
Definition MakeEntryKey (entry : Entry) : string := makeEntryKey entry.
Definition EntryKey (entry : Entry) : string := makeEntryKey entry.

(** ** Comparison *)

(** [for i := range a { if a[i] != b[i] { return false } }; return true] *)
Fixpoint same_elements (a b : list string) : bool :=
  match a, b with
  | x :: a, y :: b => bool_decide (x = y) && same_elements a b
  | _, _ => true
  end.

Definition stringsMatch (a b : list string) : bool :=
  if bool_decide (length a ≠ length b) then false
  else same_elements (sort_Strings a) (sort_Strings b).

Definition trustDomainsMatch (a b : list TrustDomain) : bool :=
  if bool_decide (length a ≠ length b) then false
  else same_elements (sort_Strings (TrustDomain_String <$> a))
                     (sort_Strings (TrustDomain_String <$> b)).

Definition getOutdatedEntryFields (newEntry oldEntry : Entry) : list string :=
  (if bool_decide (X509SVIDTTL oldEntry ≠ X509SVIDTTL newEntry) then ["X509SVIDTTL"] else []) ++
  (if bool_decide (JWTSVIDTTL oldEntry ≠ JWTSVIDTTL newEntry) then ["JWTSVIDTTL"] else []) ++
  (if trustDomainsMatch (Entry_FederatesWith oldEntry) (Entry_FederatesWith newEntry)
   then [] else ["FederatesWith"]) ++
  (if bool_decide (Entry_Admin oldEntry ≠ Entry_Admin newEntry) then ["Admin"] else []) ++
  (if bool_decide (Entry_Downstream oldEntry ≠ Entry_Downstream newEntry)
   then ["Downstream"] else []) ++
  (if stringsMatch (DNSNames oldEntry) (DNSNames newEntry) then [] else ["DNSNames"]) ++
  (if bool_decide (Entry_Hint oldEntry ≠ Entry_Hint newEntry) then ["Hint"] else []).

Definition GetOutdatedEntryFields (newEntry oldEntry : Entry) : list string :=
  getOutdatedEntryFields newEntry oldEntry.
End keys.
