(* ===== verification/EntriesFacts.v ===== *)
(** * Facts about entries: keys, comparison, rendering *)

From S2P Require Export Entries.

Local Open Scope Z_scope.

(** ** The order of selectors *)

Lemma ltb_leb s t : String.ltb s t = negb (String.leb t s).
Proof.
  unfold String.ltb, String.leb.
  rewrite String.compare_antisym. by destruct (String.compare t s).
Qed.

Lemma ltb_le s t : String.ltb s t = false ↔ String.le t s.
Proof. rewrite ltb_leb, negb_false_iff. unfold String.le. by destruct (String.leb t s). Qed.

(** [selector_le] is the lexicographic order on type and value. *)
Lemma selector_le_lex a b :
  selector_le a b ↔ String.le (Sel_Type a) (Sel_Type b) ∧
    (Sel_Type a = Sel_Type b → String.le (Sel_Value a) (Sel_Value b)).
Proof.
  unfold selector_le, selector_less.
  destruct (String.ltb (Sel_Type b) (Sel_Type a)) eqn:Hba.
  - split; [done|]. intros [Hle _]. apply ltb_le in Hle. congruence.
  - apply ltb_le in Hba. destruct (String.ltb (Sel_Type a) (Sel_Type b)) eqn:Hab.
    + split; [|done]. intros _. split; [done|]. intros Heq. rewrite Heq in Hab.
      assert (String.ltb (Sel_Type b) (Sel_Type b) = false) by (by apply ltb_le). congruence.
    + apply ltb_le in Hab. rewrite ltb_le. split; [|intros [_ Hv]; by apply Hv, (anti_symm String.le)].
      intros Hv. by split.
Qed.

#[export] Instance selector_le_trans : Transitive selector_le.
Proof.
  intros a b c. rewrite !selector_le_lex. intros [H1 H2] [H3 H4]. split; [by etrans|].
  intros Heq. rewrite Heq in H1.
  assert (Sel_Type b = Sel_Type c) as Hbc by (by apply (anti_symm String.le)).
  etrans; [apply H2; congruence|by apply H4].
Qed.

#[export] Instance selector_le_antisymm : AntiSymm (=) selector_le.
Proof.
  intros [t v] [t' v']. rewrite !selector_le_lex. simpl. intros [H1 H2] [H3 H4].
  assert (t = t') as -> by (by apply (anti_symm String.le)).
  f_equal. apply (anti_symm String.le); auto.
Qed.

#[export] Instance selector_le_total : Total selector_le.
Proof.
  intros a b. rewrite !selector_le_lex.
  destruct (decide (Sel_Type a = Sel_Type b)) as [Heq|Hne].
  - rewrite Heq. destruct (total String.le (Sel_Value a) (Sel_Value b)); [left|right]; by split.
  - destruct (total String.le (Sel_Type a) (Sel_Type b)); [left|right]; (split; [done|]);
      intros; congruence.
Qed.

Lemma sortSelectors_perm l1 l2 : sortSelectors l1 = sortSelectors l2 ↔ l1 ≡ₚ l2.
Proof. split; [apply merge_sort_inj|apply merge_sort_unique; apply _]. Qed.

Lemma sortSelectors_Permutation l : sortSelectors l ≡ₚ l.
Proof. apply merge_sort_Permutation. Qed.

Lemma sortSelectors_Sorted l : Sorted selector_le (sortSelectors l).
Proof. apply Sorted_merge_sort. apply _. Qed.

(** ** Matching of string and trust-domain lists *)

Lemma same_elements_eq a b : length a = length b → same_elements a b = true ↔ a = b.
Proof.
  revert b. induction a as [|x a IH]; intros [|y b] Hlen; try done.
  cbn [same_elements]. rewrite andb_true_iff, bool_decide_eq_true, IH by (simpl in Hlen; lia).
  split; [by intros [-> ->]|by intros [= -> ->]].
Qed.

Lemma sort_Strings_length l : length (sort_Strings l) = length l.
Proof. apply Permutation_length, merge_sort_Permutation. Qed.

Lemma stringsMatch_perm a b : stringsMatch a b = true ↔ a ≡ₚ b.
Proof.
  unfold stringsMatch. case_bool_decide as Hlen.
  - split; [done|]. intros Hp%Permutation_length. done.
  - rewrite same_elements_eq, sort_Strings_perm; [done|]. rewrite !sort_Strings_length. lia.
Qed.

Section facts.
Context `{!SpiffeID}.

Lemma trustDomainsMatch_strings a b :
  trustDomainsMatch a b = true ↔ (TrustDomain_String <$> a) ≡ₚ (TrustDomain_String <$> b).
Proof.
  rewrite <-stringsMatch_perm. unfold trustDomainsMatch, stringsMatch.
  by rewrite !length_fmap.
Qed.

#[local] Instance TrustDomain_String_Inj `{!SpiffeIDLaws} : Inj (=) (=) TrustDomain_String.
Proof. intros x y. apply TrustDomain_String_inj. Qed.

Lemma trustDomainsMatch_perm `{!SpiffeIDLaws} a b :
  trustDomainsMatch a b = true ↔ a ≡ₚ b.
Proof.
  rewrite trustDomainsMatch_strings. split; [|by intros ->].
  intros (l & Heq & Hl)%(Permutation_map_inv TrustDomain_String _).
  rewrite Hl. apply reflexive_eq.
  apply (inj (fmap (M:=list) TrustDomain_String)), Heq.
Qed.

(** ** Outdated fields *)

(** The fields the comparison covers, up to the order of the two lists. *)
Definition same_fields (a b : Entry) : Prop :=
  X509SVIDTTL a = X509SVIDTTL b ∧ JWTSVIDTTL a = JWTSVIDTTL b ∧
  (TrustDomain_String <$> Entry_FederatesWith a) ≡ₚ (TrustDomain_String <$> Entry_FederatesWith b) ∧
  Entry_Admin a = Entry_Admin b ∧ Entry_Downstream a = Entry_Downstream b ∧
  DNSNames a ≡ₚ DNSNames b ∧ Entry_Hint a = Entry_Hint b.

Lemma if_ne_nil {A B} `{EqDecision B} (x y : B) (z : A) :
  (if bool_decide (x ≠ y) then [z] else []) = [] ↔ x = y.
Proof. case_bool_decide; naive_solver. Qed.
Lemma if_nil_iff' {A} (b : bool) (x : A) : (if b then [] else [x]) = [] ↔ b = true.
Proof. by destruct b. Qed.

Lemma getOutdatedEntryFields_nil new old :
  getOutdatedEntryFields new old = [] ↔ same_fields old new.
Proof.
  unfold getOutdatedEntryFields, same_fields.
  rewrite !app_nil, !if_ne_nil, !if_nil_iff'.
  by rewrite stringsMatch_perm, trustDomainsMatch_strings.
Qed.

Lemma same_fields_refl e : same_fields e e.
Proof. by split_and!. Qed.

(** ** Keys *)

Lemma makeEntryKey_length e : String.length (makeEntryKey e) = 64%nat.
Proof. apply sha256_hex_length. Qed.

Lemma makeEntryKey_nonempty e : makeEntryKey e ≠ "".
Proof. intros Heq. pose proof (makeEntryKey_length e) as Hl. by rewrite Heq in Hl. Qed.

Lemma makeEntryKey_set_ID id e : makeEntryKey (set_ID id e) = makeEntryKey e.
Proof. done. Qed.

Lemma makeEntryKey_perm e1 e2 :
  SPIFFEID e1 = SPIFFEID e2 → ParentID e1 = ParentID e2 → Selectors e1 ≡ₚ Selectors e2 →
  makeEntryKey e1 = makeEntryKey e2.
Proof.
  unfold makeEntryKey, key_text. intros -> -> Hp.
  by rewrite (proj2 (sortSelectors_perm _ _) Hp).
Qed.
End facts.

(** ** Rendering *)

Section render_facts.
Context `{!SpiffeID, !SpiffeIDLaws, !LabelSelectors, !Templates, !FloatToInt}.
Implicit Types (identity : WorkloadIdentity) (cluster : EKSClusterRegistry).

Lemma wrap_OK {A} msg (r : result A) a : wrap msg r = OK a → r = OK a.
Proof. by destruct r; simpl; intros; simplify_eq. Qed.

Lemma result_bind_OK {A B} (r : result A) (f : A → result B) b :
  r ≫= f = OK b ↔ ∃ a, r = OK a ∧ f a = OK b.
Proof. destruct r; simpl; split; [eauto|by intros (? & [= <-] & ?)|done|by intros (? & ? & ?)]. Qed.

(** What a successful rendering consists of. *)
Lemma RenderEntry_OK identity cluster pod node td e :
  RenderEntry identity cluster pod node td = OK e →
  ∃ sid_text pid_text sels,
    ID_FromString sid_text = OK (SPIFFEID e) ∧
    ID_FromString pid_text = OK (ParentID e) ∧
    collect (render_selector (template_data identity cluster pod node td))
      (WorkloadSelectorTemplates (WI_Spec identity)) = OK sels ∧
    collect parse_trust_domain (FederatesWith (WI_Spec identity)) =
      OK (Entry_FederatesWith e) ∧
    collect (render_dnsName (template_data identity cluster pod node td))
      (DNSNameTemplates (WI_Spec identity)) = OK (DNSNames e) ∧
    e = {| Entry_ID := ""; SPIFFEID := SPIFFEID e; ParentID := ParentID e;
           Selectors := pod_uid_selector pod :: mjoin sels;
           X509SVIDTTL := int32_of_float64 (Seconds (TTL (WI_Spec identity)));
           JWTSVIDTTL := int32_of_float64 (Seconds (JWTTTL (WI_Spec identity)));
           Entry_FederatesWith := Entry_FederatesWith e;
           Entry_Admin := Admin (WI_Spec identity);
           Entry_Downstream := Downstream (WI_Spec identity);
           DNSNames := DNSNames e; Entry_Hint := entry_hint identity cluster |}.
Proof.
  unfold RenderEntry. intros Hr.
  apply result_bind_OK in Hr as (t1 & _ & Hr). apply result_bind_OK in Hr as (t2 & _ & Hr).
  apply result_bind_OK in Hr as (s1 & _ & Hr).
  apply result_bind_OK in Hr as (i1 & Hi1%wrap_OK & Hr).
  apply result_bind_OK in Hr as (s2 & _ & Hr).
  apply result_bind_OK in Hr as (i2 & Hi2%wrap_OK & Hr).
  apply result_bind_OK in Hr as (sels & Hsels & Hr).
  apply result_bind_OK in Hr as (dns & Hdns & Hr).
  apply result_bind_OK in Hr as (tds & Htds & Hr). simplify_eq/=.
  by exists s1, s2, sels.
Qed.

Lemma RenderEntry_valid identity cluster pod node td e :
  RenderEntry identity cluster pod node td = OK e → entry_valid e = true.
Proof.
  intros (? & ? & ? & Hs & Hp & _ & Htd & _)%RenderEntry_OK.
  unfold entry_valid.
  rewrite (ID_FromString_nonzero _ _ Hs), (ID_FromString_nonzero _ _ Hp). simpl.
  apply forallb_forall. intros t Ht%list_elem_of_In.
  apply collect_OK in Htd. apply list_elem_of_lookup in Ht as [k Hk].
  destruct (Forall2_lookup_r _ _ _ _ _ Htd Hk) as (s & _ & Hst%wrap_OK).
  by rewrite (TrustDomainFromString_nonzero _ _ Hst).
Qed.

Lemma RenderEntry_hint identity cluster pod node td e :
  RenderEntry identity cluster pod node td = OK e → Entry_Hint e = entry_hint identity cluster.
Proof. by intros (? & ? & ? & _ & _ & _ & _ & _ & ->)%RenderEntry_OK. Qed.

Lemma RenderEntry_pod_selector identity cluster pod node td e :
  RenderEntry identity cluster pod node td = OK e → pod_uid_selector pod ∈ Selectors e.
Proof. intros (? & ? & ? & _ & _ & _ & _ & _ & ->)%RenderEntry_OK. by left. Qed.
End render_facts.
