(* ===== verification/EntriesState.v ===== *)
(** * internal/spireentry/state.go: the difference between what is registered
    and what should be

    [entriesState] collects the entries registered at the server and the ones
    the cluster state calls for, both by ID, and [GetChanges] computes the
    difference. *)

From S2P Require Export EntriesFacts.

Section state.
Context `{!SpiffeID}.

Record entriesState := {
  current : gmap string Entry;
  declared : gmap string Entry;
  entryPrefix : string;
}.

Definition NewEntriesStateWithPrefix (prefix : string) : entriesState :=
  {| current := ∅; declared := ∅; entryPrefix := prefix |}.

Definition NewEntriesState : entriesState := NewEntriesStateWithPrefix "".

Definition AddCurrent (entry : Entry) (s : entriesState) : entriesState :=
  {| current := <[Entry_ID entry := entry]> (current s);
     declared := declared s; entryPrefix := entryPrefix s |}.

(** The ID given to a declared entry. *)
Definition declared_ID (prefix : string) (entry : Entry) : string :=
  let key := MakeEntryKey entry in
  if bool_decide (prefix ≠ "") then prefix +:+ key else key.

(** The identity, cluster and pod of the Go signature are not used. *)
Definition AddDeclared (entry : Entry) (s : entriesState) : entriesState :=
  let entry := set_ID (declared_ID (entryPrefix s) entry) entry in
  {| current := current s;
     declared := <[Entry_ID entry := entry]> (declared s);
     entryPrefix := entryPrefix s |}.

(** The map from selector type to value the comparison builds: a later
    selector of a type replaces an earlier one. *)
Definition selectorMap (l : list Sel) : gmap string string :=
  foldl (λ m sel, <[Sel_Type sel := Sel_Value sel]> m) ∅ l.

Definition entriesEqual (a b : Entry) : bool :=
  if bool_decide (SPIFFEID a ≠ SPIFFEID b) || bool_decide (ParentID a ≠ ParentID b) then false
  else if bool_decide (length (Selectors a) ≠ length (Selectors b)) then false
  else if negb (forallb (λ sel,
                  bool_decide (selectorMap (Selectors a) !! Sel_Type sel = Some (Sel_Value sel)))
                (Selectors b)) then false
  else bool_decide (length (getOutdatedEntryFields b a) = 0).

(** One round of the loop over the declared entries. *)
Definition classify (s : entriesState) (p : string * Entry)
    (acc : list Entry * list Entry) : list Entry * list Entry :=
  let '(id, d) := p in
  let '(toCreate, toUpdate) := acc in
  match current s !! id with
  | None => (toCreate ++ [d], toUpdate)
  | Some c =>
      if negb (entriesEqual c d) then (toCreate, toUpdate ++ [set_ID (Entry_ID c) d])
      else (toCreate, toUpdate)
  end.

Context `{!MapOrder}.

Definition GetChanges (s : entriesState) : list Entry * list Entry * list Entry :=
  let '(toCreate, toUpdate) :=
    foldl (λ acc p, classify s p acc) ([], []) (range_map (declared s)) in
  let toDelete :=
    foldl (λ acc '(id, c),
      match declared s !! id with None => acc ++ [c] | Some _ => acc end)
      [] (range_map (current s)) in
  (toCreate, toUpdate, toDelete).

(** *** Invariant *)

Record state_wf (s : entriesState) : Prop := {
  wf_current k c : current s !! k = Some c → Entry_ID c = k;
  wf_declared k d : declared s !! k = Some d →
    Entry_ID d = k ∧ k = declared_ID (entryPrefix s) d;
}.

Lemma declared_ID_set_ID prefix id e : declared_ID prefix (set_ID id e) = declared_ID prefix e.
Proof. done. Qed.

Lemma declared_ID_prefix prefix e : HasPrefix (declared_ID prefix e) prefix = true.
Proof.
  unfold declared_ID. case_bool_decide as Hp; [apply HasPrefix_append|].
  by rewrite Hp.
Qed.

Lemma declared_ID_nonempty prefix e : declared_ID prefix e ≠ "".
Proof.
  intros Heq. apply (f_equal String.length) in Heq. unfold declared_ID in Heq.
  case_bool_decide; rewrite ?string_length_app in Heq; unfold MakeEntryKey in Heq;
    rewrite makeEntryKey_length in Heq; simpl in Heq; lia.
Qed.

Lemma state_wf_new prefix : state_wf (NewEntriesStateWithPrefix prefix).
Proof. split; intros k ?; simpl; by rewrite lookup_empty. Qed.

Lemma state_wf_AddCurrent e s : state_wf s → state_wf (AddCurrent e s).
Proof.
  intros [Hc Hd]. split; simpl; [|done].
  intros k c [[<- <-]|[_ Hk]]%lookup_insert_Some; [done|by apply Hc].
Qed.

Lemma state_wf_AddDeclared e s : state_wf s → state_wf (AddDeclared e s).
Proof.
  intros [Hc Hd]. split; simpl; [done|].
  intros k d [[<- <-]|[_ Hk]]%lookup_insert_Some; [done|by apply Hd].
Qed.

(** *** The loops of [GetChanges]

    What one visited pair contributes to each of the three results. *)

Definition to_create (s : entriesState) (p : string * Entry) : option Entry :=
  match current s !! p.1 with None => Some p.2 | Some _ => None end.
Definition to_update (s : entriesState) (p : string * Entry) : option Entry :=
  match current s !! p.1 with
  | None => None
  | Some c => if entriesEqual c p.2 then None else Some (set_ID (Entry_ID c) p.2)
  end.
Definition to_delete (s : entriesState) (p : string * Entry) : option Entry :=
  match declared s !! p.1 with None => Some p.2 | Some _ => None end.

Lemma foldl_classify s (l : list (string * Entry)) acc :
  foldl (λ acc p, classify s p acc) acc l =
    (acc.1 ++ omap (to_create s) l, acc.2 ++ omap (to_update s) l).
Proof.
  revert acc. induction l as [|[id d] l IH]; intros [cr up]; simpl; [by rewrite !app_nil_r|].
  rewrite IH. unfold to_create at 2, to_update at 2. simpl.
  destruct (current s !! id) as [c|]; simpl.
  - destruct (entriesEqual c d); simpl; [done|]. by rewrite <-app_assoc.
  - by rewrite <-app_assoc.
Qed.

Lemma foldl_delete s (l : list (string * Entry)) acc :
  foldl (λ acc '(id, c), match declared s !! id with None => acc ++ [c] | Some _ => acc end)
    acc l = acc ++ omap (to_delete s) l.
Proof.
  revert acc. induction l as [|[id c] l IH]; intros acc; simpl; [by rewrite app_nil_r|].
  rewrite IH. unfold to_delete at 2. simpl.
  destruct (declared s !! id); simpl; [done|]. by rewrite <-app_assoc.
Qed.

Lemma GetChanges_eq s :
  GetChanges s =
    (omap (to_create s) (range_map (declared s)), omap (to_update s) (range_map (declared s)),
     omap (to_delete s) (range_map (current s))).
Proof. unfold GetChanges. by rewrite foldl_classify, foldl_delete. Qed.

Context `{!MapOrderLaws}.

Lemma elem_of_toCreate s e :
  state_wf s →
  e ∈ (GetChanges s).1.1 ↔ declared s !! Entry_ID e = Some e ∧ current s !! Entry_ID e = None.
Proof.
  intros [_ Hd]. rewrite GetChanges_eq. simpl. rewrite list_elem_of_omap. split.
  - intros ([k d] & Hin%elem_of_range_map & Hc). unfold to_create in Hc. simpl in Hc.
    destruct (current s !! k) eqn:Hk; simplify_eq. by destruct (Hd k e Hin) as [<- _].
  - intros [Hin Hk]. exists (Entry_ID e, e). rewrite elem_of_range_map. split; [done|].
    unfold to_create. simpl. by rewrite Hk.
Qed.

Lemma elem_of_toDelete s e :
  state_wf s →
  e ∈ (GetChanges s).2 ↔ current s !! Entry_ID e = Some e ∧ declared s !! Entry_ID e = None.
Proof.
  intros [Hc _]. rewrite GetChanges_eq. simpl. rewrite list_elem_of_omap. split.
  - intros ([k c] & Hin%elem_of_range_map & Hd). unfold to_delete in Hd. simpl in Hd.
    destruct (declared s !! k) eqn:Hk; simplify_eq. by rewrite (Hc k e Hin).
  - intros [Hin Hk]. exists (Entry_ID e, e). rewrite elem_of_range_map. split; [done|].
    unfold to_delete. simpl. by rewrite Hk.
Qed.

Lemma set_ID_id e : set_ID (Entry_ID e) e = e.
Proof. by destruct e. Qed.

Lemma elem_of_toUpdate s e :
  state_wf s →
  e ∈ (GetChanges s).1.2 ↔ declared s !! Entry_ID e = Some e ∧
    ∃ c, current s !! Entry_ID e = Some c ∧ entriesEqual c e = false.
Proof.
  intros [Hc Hd]. rewrite GetChanges_eq. simpl. rewrite list_elem_of_omap. split.
  - intros ([k d] & Hin%elem_of_range_map & Hu). unfold to_update in Hu. simpl in Hu.
    destruct (current s !! k) as [c|] eqn:Hk; [|done].
    destruct (entriesEqual c d) eqn:Heq; simplify_eq.
    destruct (Hd k d Hin) as [Hid _]. rewrite (Hc k c Hk).
    replace (set_ID k d) with d by (by rewrite <-Hid, set_ID_id).
    rewrite Hid. eauto.
  - intros (Hin & c & Hk & Heq). exists (Entry_ID e, e). rewrite elem_of_range_map.
    split; [done|]. unfold to_update. simpl. rewrite Hk, Heq, (Hc _ _ Hk). by rewrite set_ID_id.
Qed.

(** No ID is visited twice. *)
Lemma NoDup_omap_ids (f : string * Entry → option Entry) (l : list (string * Entry)) :
  NoDup l.*1 → (∀ p e, p ∈ l → f p = Some e → Entry_ID e = p.1) →
  NoDup (Entry_ID <$> omap f l).
Proof.
  induction l as [|p l IH]; intros Hnd Hf; [constructor|]. cbn in Hnd.
  apply NoDup_cons in Hnd as [Hp Hnd]. simpl.
  assert (NoDup (Entry_ID <$> omap f l)) as Hl.
  { apply IH; [done|]. intros q e Hq. apply Hf. by right. }
  destruct (f p) as [e|] eqn:Hfp; [|done]. cbn. apply NoDup_cons. split; [|done].
  rewrite (Hf p e) by (by left || done).
  intros (e' & He' & (q & Hq & Hfq)%list_elem_of_omap)%list_elem_of_fmap.
  apply Hp. rewrite He', (Hf q e') by (by right || done). by apply list_elem_of_fmap_2.
Qed.

Lemma GetChanges_NoDup s :
  state_wf s →
  NoDup (Entry_ID <$> (GetChanges s).1.1) ∧ NoDup (Entry_ID <$> (GetChanges s).1.2) ∧
  NoDup (Entry_ID <$> (GetChanges s).2).
Proof.
  intros [Hc Hd]. rewrite GetChanges_eq. simpl.
  split_and!; (apply NoDup_omap_ids; [apply NoDup_range_map_fst|]);
    intros [k e] e' Hin%elem_of_range_map; simpl.
  - unfold to_create. simpl. destruct (current s !! k); intros; simplify_eq.
    by apply Hd.
  - unfold to_update. simpl. destruct (current s !! k) as [c|] eqn:Hk; [|done].
    destruct (entriesEqual c e); intros; simplify_eq. simpl. by apply Hc.
  - unfold to_delete. simpl. destruct (declared s !! k); intros; simplify_eq.
    by apply Hc.
Qed.
End state.
