(* ===== verification/EntriesStateFacts.v ===== *)
(** * When two entries are equal, and when a difference is empty *)

From S2P Require Export EntriesState.

(** Selectors of one type all have the same value: the map [entriesEqual]
    builds loses nothing. *)
Definition selectors_functional (l : list Sel) : Prop :=
  ∀ s1 s2, s1 ∈ l → s2 ∈ l → Sel_Type s1 = Sel_Type s2 → Sel_Value s1 = Sel_Value s2.

Section selector_map.
Lemma selectorMap_snoc l s :
  selectorMap (l ++ [s]) = <[Sel_Type s := Sel_Value s]> (selectorMap l).
Proof. unfold selectorMap. by rewrite foldl_app. Qed.

Lemma selectorMap_Some l t v :
  selectorMap l !! t = Some v → {| Sel_Type := t; Sel_Value := v |} ∈ l.
Proof.
  induction l as [|s l IH] using rev_ind; [done|]. rewrite selectorMap_snoc.
  intros [[<- <-]|[_ Hl]]%lookup_insert_Some; apply elem_of_app.
  - right. destruct s. by left.
  - left. by apply IH.
Qed.

Lemma selectorMap_is_Some l s : s ∈ l → is_Some (selectorMap l !! Sel_Type s).
Proof.
  induction l as [|s' l IH] using rev_ind; [by intros ?%not_elem_of_nil|].
  rewrite selectorMap_snoc. intros Hs. apply lookup_insert_is_Some.
  apply elem_of_app in Hs as [Hs|Hs%list_elem_of_singleton]; [|by subst; left].
  destruct (decide (Sel_Type s' = Sel_Type s)); [by left|right; auto].
Qed.

Lemma selectorMap_functional l :
  selectors_functional l ↔ ∀ s, s ∈ l → selectorMap l !! Sel_Type s = Some (Sel_Value s).
Proof.
  split.
  - intros Hf s Hs. destruct (selectorMap_is_Some l s Hs) as [v Hv]. rewrite Hv.
    f_equal. by apply selectorMap_Some in Hv; apply (Hf _ _ Hv Hs).
  - intros Hm s1 s2 H1 H2 Ht. pose proof (Hm s1 H1) as E1. pose proof (Hm s2 H2) as E2.
    rewrite Ht in E1. congruence.
Qed.
End selector_map.

Section facts.
Context `{!SpiffeID}.
Implicit Types (a b e : Entry).

Lemma entriesEqual_iff a b :
  entriesEqual a b = true ↔
    SPIFFEID a = SPIFFEID b ∧ ParentID a = ParentID b ∧
    length (Selectors a) = length (Selectors b) ∧
    (∀ s, s ∈ Selectors b → selectorMap (Selectors a) !! Sel_Type s = Some (Sel_Value s)) ∧
    same_fields a b.
Proof.
  rewrite <-getOutdatedEntryFields_nil, <-length_zero_iff_nil. unfold entriesEqual.
  assert (forallb (λ sel, bool_decide (selectorMap (Selectors a) !! Sel_Type sel =
            Some (Sel_Value sel))) (Selectors b) = true ↔
    ∀ s, s ∈ Selectors b → selectorMap (Selectors a) !! Sel_Type s = Some (Sel_Value s)) as <-.
  { rewrite forallb_forall. setoid_rewrite bool_decide_eq_true.
    by setoid_rewrite <-list_elem_of_In. }
  destruct (forallb _ _); repeat case_bool_decide; simpl; intuition congruence.
Qed.

(** An entry compares equal to itself exactly when its selectors of one type
    agree. *)
Lemma entriesEqual_refl_iff e :
  entriesEqual e e = true ↔ selectors_functional (Selectors e).
Proof.
  rewrite entriesEqual_iff, selectorMap_functional. split; [by intros (_ & _ & _ & Hs & _)|].
  intros Hs. by split_and!.
Qed.

(** For entries with at most one selector of a type, equality is equality of
    the identities, the selectors and the other fields, up to order. *)
Lemma entriesEqual_sound a b :
  NoDup (Sel_Type <$> Selectors b) → entriesEqual a b = true →
  SPIFFEID a = SPIFFEID b ∧ ParentID a = ParentID b ∧ Selectors a ≡ₚ Selectors b ∧
  same_fields a b.
Proof.
  intros Hnd (Hs & Hp & Hlen & Hsel & Hf)%entriesEqual_iff. split_and!; try done.
  symmetry. apply submseteq_length_Permutation; [|lia].
  apply NoDup_submseteq; [by eapply NoDup_fmap_1|].
  intros [t v] Hin. by apply selectorMap_Some, (Hsel _ Hin).
Qed.

Lemma entriesEqual_complete a b :
  selectors_functional (Selectors a) →
  SPIFFEID a = SPIFFEID b → ParentID a = ParentID b → Selectors a ≡ₚ Selectors b →
  same_fields a b → entriesEqual a b = true.
Proof.
  intros Hfun Hs Hp Hsel Hf. apply entriesEqual_iff. split_and!; try done.
  - by rewrite Hsel.
  - intros s. rewrite <-Hsel. by apply selectorMap_functional.
Qed.

(** The same identities, selectors up to order and other fields. *)
Definition same_content (a b : Entry) : Prop :=
  SPIFFEID a = SPIFFEID b ∧ ParentID a = ParentID b ∧ Selectors a ≡ₚ Selectors b ∧ same_fields a b.

Lemma entriesEqual_decides a b :
  NoDup (Sel_Type <$> Selectors a) → NoDup (Sel_Type <$> Selectors b) →
  entriesEqual a b = true ↔ same_content a b.
Proof.
  intros Ha Hb. split; [by apply entriesEqual_sound|].
  intros (? & ? & ? & ?). apply entriesEqual_complete; [|done..].
  intros s1 s2 [i Hi]%list_elem_of_lookup [j Hj]%list_elem_of_lookup Ht.
  assert (i = j) as ->; [|congruence].
  eapply (NoDup_lookup (Sel_Type <$> Selectors a)); [done|..];
    rewrite list_lookup_fmap; [by rewrite Hi|by rewrite Hj, Ht].
Qed.
End facts.

(** ** States built by a cycle *)

Section built.
Context `{!SpiffeID}.

(** What is done to a state between its creation and the difference. *)
Inductive state_call :=
  | Current (e : Entry)
  | Declared (e : Entry).
Definition after_call (s : entriesState) (c : state_call) : entriesState :=
  match c with Current e => AddCurrent e s | Declared e => AddDeclared e s end.
Definition built (prefix : string) (calls : list state_call) : entriesState :=
  foldl after_call (NewEntriesStateWithPrefix prefix) calls.

(** The last entry a list of calls gives under an ID. *)
Definition last_current (calls : list state_call) (k : string) : option Entry :=
  last (omap (λ c, match c with
    | Current e => if decide (Entry_ID e = k) then Some e else None
    | Declared _ => None end) calls).
Definition last_declared (prefix : string) (calls : list state_call) (k : string) : option Entry :=
  last (omap (λ c, match c with
    | Current _ => None
    | Declared e => if decide (declared_ID prefix e = k) then Some e else None end) calls).

Lemma built_spec prefix calls :
  let s := built prefix calls in
  state_wf s ∧ entryPrefix s = prefix ∧
  ∀ k, current s !! k = last_current calls k ∧
    declared s !! k = set_ID k <$> last_declared prefix calls k.
Proof.
  unfold built. induction calls as [|c calls (Hwf & Hp & IH)] using rev_ind.
  - split_and!; [apply state_wf_new|done|]. intros k. simpl. by rewrite !lookup_empty.
  - rewrite foldl_app. simpl. split_and!.
    + destruct c; [by apply state_wf_AddCurrent|by apply state_wf_AddDeclared].
    + by destruct c.
    + intros k. destruct (IH k) as [IHc IHd]. unfold last_current, last_declared in *.
      rewrite !omap_app, !last_app. destruct c as [e|e]; simpl.
      * split; [|exact IHd]. case_decide as Hk; simpl; [by rewrite <-Hk, lookup_insert_eq|].
        by rewrite lookup_insert_ne.
      * rewrite Hp. split; [exact IHc|].
        case_decide as Hk; simpl; [by rewrite <-Hk, lookup_insert_eq|by rewrite lookup_insert_ne].
Qed.
End built.
