(* ===== verification/World.v ===== *)
(** * The world of the controllers

    [Kube] lists what the registrar asks of the outside apart from SPIRE: the
    Kubernetes API that serves its two resource types, the API servers and pod
    informers of the workload clusters, AWS, and the clock.  Calls always
    return; what they return, and how they change the outside, is open.

    [World] puts this together with the SPIRE server and the state the program
    keeps itself: the connections of the cluster manager and the clients of the
    AWS manager. *)

From S2P Require Export ClientIface EntriesState.

Local Open Scope Z_scope.

(** ** Data of the libraries *)

(** The objects a pod informer hands out: pods, tombstones of deleted objects,
    and anything else. *)
Inductive object :=
| ObjPod (pod : Pod)
| ObjDeletedFinalStateUnknown (obj : object)
| ObjOther.

(** [eks.Cluster]: its pointers may be nil. *)
Record Certificate := { Data : option string }.
Record EksCluster := { Endpoint : option string; CertificateAuthority : option Certificate }.

(** [clientcmd/api.Config] *)
Record api_Cluster := { Server : string; CertificateAuthorityData : string }.
Record api_Context := { Context_Cluster : string; AuthInfo : string }.
Record ExecConfig := {
  Exec_APIVersion : string;
  Command : string;
  Args : list string;
  InteractiveMode : string;
}.
Record api_Config := {
  Config_APIVersion : string;
  Kind : string;
  api_Clusters : gmap string api_Cluster;
  Contexts : gmap string api_Context;
  CurrentContext : string;
  AuthInfos : gmap string ExecConfig;
}.

(** ** The outside *)

Class Kube `{!LabelSelectors} (K : Type) := {
  (** [kubernetes.Interface], [cache.SharedIndexInformer], [rest.Config] *)
  Interface : Type;
  SharedIndexInformer : Type;
  RestConfig : Type;
  (** The resources of the registrar. *)
  List_EKSClusterRegistries : K → result (list EKSClusterRegistry) * K;
  List_WorkloadIdentities : K → result (list WorkloadIdentity) * K;
  Get_EKSClusterRegistry : string → K → result EKSClusterRegistry * K;
  Get_WorkloadIdentity : string → K → result WorkloadIdentity * K;
  IsNotFound : error → bool;
  Update_EKSClusterRegistry : EKSClusterRegistry → K → option error * K;
  Update_WorkloadIdentity : WorkloadIdentity → K → option error * K;
  Status_Update_EKSClusterRegistry : EKSClusterRegistry → K → option error * K;
  Status_Update_WorkloadIdentity : WorkloadIdentity → K → option error * K;
  (** Workload clusters.  An informer is made for a client and carries the
      cluster name its event handlers were given. *)
  Nodes_Get : Interface → string → K → result Node * K;
  NewSharedIndexInformer : Interface → string → K → SharedIndexInformer * K;
  Informer_Run : SharedIndexInformer → nat → K → unit * K;
  WaitForCacheSync : nat → SharedIndexInformer → K → bool * K;
  Store_List : SharedIndexInformer → K → list object * K;
  (** AWS, and clients from a configuration. *)
  DescribeCluster : string → string → K → result EksCluster * K;
  ClientConfig : api_Config → K → result RestConfig * K;
  NewForConfig : RestConfig → K → result Interface * K;
  (** [time.Now] *)
  Now : K → Time * K;
}.

(** Looking does not change what is there, and nothing else does meanwhile. *)
Class QuietKube `{!LabelSelectors} (K : Type) `{!Kube K} : Prop := {
  quiet_Nodes_Get c n (k : K) : (Nodes_Get c n k).2 = k;
  quiet_Store_List i (k : K) : (Store_List i k).2 = k;
  quiet_Now (k : K) : (Now k).2 = k;
  quiet_List_EKS (k : K) : (List_EKSClusterRegistries k).2 = k;
  quiet_List_WI (k : K) : (List_WorkloadIdentities k).2 = k;
}.

(** ** How the outside moves

    One call takes the outside from one state to the next; [evolves] is any
    number of them. *)
Inductive kube_step `{!LabelSelectors} {K : Type} `{!Kube K} : K → K → Prop :=
| step_List_EKS k : kube_step k (List_EKSClusterRegistries k).2
| step_List_WI k : kube_step k (List_WorkloadIdentities k).2
| step_Get_EKS n k : kube_step k (Get_EKSClusterRegistry n k).2
| step_Get_WI n k : kube_step k (Get_WorkloadIdentity n k).2
| step_Update_EKS c k : kube_step k (Update_EKSClusterRegistry c k).2
| step_Update_WI i k : kube_step k (Update_WorkloadIdentity i k).2
| step_Status_EKS c k : kube_step k (Status_Update_EKSClusterRegistry c k).2
| step_Status_WI i k : kube_step k (Status_Update_WorkloadIdentity i k).2
| step_Nodes_Get c n k : kube_step k (Nodes_Get c n k).2
| step_NewInformer c n k : kube_step k (NewSharedIndexInformer c n k).2
| step_Run i ch k : kube_step k (Informer_Run i ch k).2
| step_Sync ch i k : kube_step k (WaitForCacheSync ch i k).2
| step_Store_List i k : kube_step k (Store_List i k).2
| step_Describe region n k : kube_step k (DescribeCluster region n k).2
| step_ClientConfig c k : kube_step k (ClientConfig c k).2
| step_NewForConfig c k : kube_step k (NewForConfig c k).2
| step_Now k : kube_step k (Now k).2.
#[export] Hint Constructors kube_step : evolves.

Definition evolves `{!LabelSelectors} {K : Type} `{!Kube K} : K → K → Prop := rtc kube_step.

(** ** The program's own state and the world *)

Section world.
Context `{!LabelSelectors} {K S : Type} `{!Kube K}.

(** internal/cluster [ClusterConnection]; a stop channel is its number. *)
Record ClusterConnection := {
  Cluster : EKSClusterRegistry;
  K8sClient : Interface;
  PodInformer : SharedIndexInformer;
  StopCh : nat;
  LastConnected : Time;
}.

(** internal/aws [clusterClient] *)
Record clusterClient := { Client_Interface : Interface; lastUsed : Time }.

Record World := {
  kube : K;
  spire : S;
  (** [cluster.Manager.clusters] *)
  clusters : gmap string ClusterConnection;
  (** [aws.Manager.clients] *)
  clients : gmap string clusterClient;
  (** The channels made so far are the numbers below [next_ch]. *)
  next_ch : nat;
  closed : gset nat;
}.

Definition set_kube (k : K) (w : World) : World :=
  {| kube := k; spire := spire w; clusters := clusters w; clients := clients w;
     next_ch := next_ch w; closed := closed w |}.
Definition set_spire (s : S) (w : World) : World :=
  {| kube := kube w; spire := s; clusters := clusters w; clients := clients w;
     next_ch := next_ch w; closed := closed w |}.
Definition set_clusters (m : gmap string ClusterConnection) (w : World) : World :=
  {| kube := kube w; spire := spire w; clusters := m; clients := clients w;
     next_ch := next_ch w; closed := closed w |}.
Definition set_clients (m : gmap string clusterClient) (w : World) : World :=
  {| kube := kube w; spire := spire w; clusters := clusters w; clients := m;
     next_ch := next_ch w; closed := closed w |}.
Definition set_channels (n : nat) (c : gset nat) (w : World) : World :=
  {| kube := kube w; spire := spire w; clusters := clusters w; clients := clients w;
     next_ch := n; closed := c |}.

(** A call to the outside, and a call to the SPIRE client. *)
Definition outside {A} (f : K → A * K) : GoM World A :=
  λ w, let '(a, k) := f (kube w) in (Ret a, set_kube k w).
Definition on_spire {A} (m : GoM S A) : GoM World A := lift spire set_spire m.

(** [make(chan struct{})] and [close(ch)]; closing twice panics. *)
Definition make_chan : GoM World nat := λ w,
  (Ret (next_ch w), set_channels (Datatypes.S (next_ch w)) (closed w) w).
Definition close_chan (ch : nat) : GoM World unit := λ w,
  if bool_decide (ch ∈ closed w) then (Panic, w)
  else (Ret tt, set_channels (next_ch w) ({[ch]} ∪ closed w) w).

(** *** Rules *)

Lemma wp_outside {A} (f : K → A * K) (Q : A → World → Prop) w :
  wp (outside f) Q w ↔ Q (f (kube w)).1 (set_kube (f (kube w)).2 w).
Proof. unfold wp, outside. by destruct (f (kube w)). Qed.

Lemma wp_on_spire {A} (m : GoM S A) (Q : A → World → Prop) w :
  wp (on_spire m) Q w ↔ wp m (λ a s, Q a (set_spire s w)) (spire w).
Proof. apply wp_lift. Qed.

Lemma set_kube_id w : set_kube (kube w) w = w.
Proof. by destruct w. Qed.
Lemma set_spire_id w : set_spire (spire w) w = w.
Proof. by destruct w. Qed.
Lemma set_spire_twice s s' w : set_spire s (set_spire s' w) = set_spire s w.
Proof. by destruct w. Qed.
Lemma set_kube_twice k k' w : set_kube k (set_kube k' w) = set_kube k w.
Proof. by destruct w. Qed.

(** *** Computations whose effects on the outside are calls to it *)

Definition moves {A} (m : GoM World A) : Prop := ∀ w, evolves (kube w) (kube (m w).2).

Lemma moves_ret {A} (a : A) : moves (mret a).
Proof. intros w. apply rtc_refl. Qed.
Lemma moves_pure {A} (o : outcome A) : moves (pure o).
Proof. intros w. apply rtc_refl. Qed.
Lemma moves_get : moves get_world.
Proof. intros w. apply rtc_refl. Qed.
Lemma moves_bind {A B} (m : GoM World A) (f : A → GoM World B) :
  moves m → (∀ a, moves (f a)) → moves (m ≫= f).
Proof.
  intros Hm Hf w. specialize (Hm w). unfold mbind, GoM_bind.
  destruct (m w) as [[a| |] w1]; [|done..]. etransitivity; [exact Hm|apply Hf].
Qed.
Lemma moves_outside {A} (f : K → A * K) : (∀ k, kube_step k (f k).2) → moves (outside f).
Proof. intros Hf w. unfold outside. specialize (Hf (kube w)). destruct (f _). by apply rtc_once. Qed.
Lemma moves_on_spire {A} (m : GoM S A) : moves (on_spire m).
Proof. intros w. unfold on_spire, lift. destruct (m _). apply rtc_refl. Qed.
Lemma moves_modify f : (∀ w, kube (f w) = kube w) → moves (modify_world f).
Proof. intros Hf w. simpl. rewrite Hf. apply rtc_refl. Qed.
Lemma moves_make_chan : moves make_chan.
Proof. intros w. apply rtc_refl. Qed.
Lemma moves_close_chan ch : moves (close_chan ch).
Proof. intros w. unfold close_chan. case_bool_decide; apply rtc_refl. Qed.
Lemma moves_for_each {A} (l : list A) body : (∀ x, moves (body x)) → moves (for_each l body).
Proof. intros Hb. induction l; simpl; [apply moves_ret|by apply moves_bind]. Qed.

(** A property of the result together with the way there. *)
Lemma wp_moves {A} (m : GoM World A) (Q : A → World → Prop) w :
  moves m → wp m Q w → wp m (λ a w', Q a w' ∧ evolves (kube w) (kube w')) w.
Proof. intros Hm. specialize (Hm w). unfold wp. by destruct (m w) as [[]]. Qed.
Lemma wpx_moves {A} (m : GoM World A) (Q : A → World → Prop) P w :
  moves m → wpx m Q P w →
  wpx m (λ a w', Q a w' ∧ evolves (kube w) (kube w')) (λ w', P w' ∧ evolves (kube w) (kube w')) w.
Proof. intros Hm. specialize (Hm w). unfold wpx. by destruct (m w) as [[]]. Qed.

(** The program's own state is the same in both worlds. *)
Definition same_manager (w w' : World) : Prop :=
  clusters w' = clusters w ∧ clients w' = clients w ∧ next_ch w' = next_ch w ∧
  closed w' = closed w.

#[export] Instance same_manager_equiv : Equivalence same_manager.
Proof.
  split; unfold same_manager.
  - done.
  - intros x y (? & ? & ? & ?). split_and!; congruence.
  - intros x y z (? & ? & ? & ?) (? & ? & ? & ?). split_and!; congruence.
Qed.
End world.

Arguments World {_} K S {_}.

#[export] Hint Rewrite @wp_outside @wp_on_spire : wp.
#[export] Hint Resolve moves_ret moves_pure moves_get moves_on_spire moves_make_chan
  moves_close_chan : moves.

Section fold_each.
Context {W A T : Type}.

(** [for _, x := range l { body }] where the body updates the variable [t]. *)
Fixpoint fold_each (l : list A) (t : T) (body : A → T → GoM W T) : GoM W T :=
  match l with
  | [] => mret t
  | x :: l => t ← body x t; fold_each l t body
  end.

(** The loop rule, with an invariant over the elements visited so far. *)
Lemma wp_fold_each (I : list A → T → W → Prop) l t body w :
  I [] t w →
  (∀ done x todo t w', l = done ++ x :: todo → I done t w' →
     wp (body x t) (λ t' w'', I (done ++ [x]) t' w'') w') →
  wp (fold_each l t body) (λ t' w', I l t' w') w.
Proof.
  intros Hinit Hstep.
  assert (∀ todo done t w', l = done ++ todo → I done t w' →
    wp (fold_each todo t body) (λ t' w'', I l t' w'') w') as Hgen; [|by apply (Hgen l [])].
  induction todo as [|x todo IH]; intros done t' w' -> HI; simpl.
  - apply wp_ret. by rewrite app_nil_r.
  - apply wp_bind. eapply wp_mono; [by apply (Hstep done x todo)|]. simpl.
    intros t'' w'' HI'. apply (IH (done ++ [x])); [by rewrite <-app_assoc|done].
Qed.
End fold_each.

Lemma moves_fold_each `{!LabelSelectors} {K S A T} `{!Kube K} (l : list A) (t : T) body :
  (∀ x t, moves (body x t)) → moves (K:=K) (S:=S) (fold_each l t body).
Proof.
  intros Hb. revert t. induction l as [|x l IH]; intros t; simpl; [apply moves_ret|].
  by apply moves_bind.
Qed.

(** [moves] goals, by the shape of the program. *)
Ltac solve_moves :=
  repeat first
    [ progress intros
    | solve [eauto with moves nocore]
    | apply moves_outside; intros; constructor
    | apply moves_modify; intros; reflexivity
    | apply moves_bind
    | apply moves_for_each
    | apply moves_fold_each
    | case_match ].
