(* ===== verification/Aws.v ===== *)
(** * internal/aws: clients of the workload clusters

    The kubeconfig built for a cluster (kubeconfig.go) and the manager that
    keeps one client per cluster name (client.go). *)

From S2P Require Export World Base64.

Local Open Scope Z_scope.

(** [aws.StringValue]: the empty string for a nil pointer. *)
Definition StringValue (p : option string) : string := default "" p.

(** ** kubeconfig.go *)

Definition buildAwsArgs (cluster : EKSClusterRegistry) : list string :=
  let args := ["eks"; "get-token"; "--cluster-name"; ClusterName (EKS_Spec cluster)] in
  let args := if bool_decide (Region (EKS_Spec cluster) ≠ "")
              then args ++ ["--region"; Region (EKS_Spec cluster)] else args in
  if bool_decide (AssumeRoleARN (EKS_Spec cluster) ≠ "")
  then args ++ ["--role-arn"; AssumeRoleARN (EKS_Spec cluster)] else args.

(** The field access panics when the cluster has no certificate authority. *)
Definition NewKubeConfigForCluster (cluster : EKSClusterRegistry) (eksCluster : EksCluster) :
    outcome (result api_Config) :=
  match CertificateAuthority eksCluster with
  | None => Panic
  | Some ca =>
      let name := ClusterName (EKS_Spec cluster) in
      Ret (caData ← wrap "failed to decode CA data" (DecodeString (StringValue (Data ca)));
           OK {| Config_APIVersion := "v1";
                 Kind := "Config";
                 api_Clusters := {[ name := {| Server := StringValue (Endpoint eksCluster);
                                               CertificateAuthorityData := caData |} ]};
                 Contexts := {[ name := {| Context_Cluster := name;
                                           AuthInfo := "spire-server-sa" |} ]};
                 CurrentContext := name;
                 AuthInfos := {[ "spire-server-sa" :=
                   {| Exec_APIVersion := "client.authentication.k8s.io/v1beta1";
                      Command := "aws"; Args := buildAwsArgs cluster;
                      InteractiveMode := "Never" |} ]} |})
  end.

(** ** client.go *)

Section aws.
Context `{!LabelSelectors} {K S : Type} `{!Kube K}.

Definition createClusterClient (cluster : EKSClusterRegistry) : GoM (World K S) (result Interface) :=
  describeResp ← outside (DescribeCluster (Region (EKS_Spec cluster)) (ClusterName (EKS_Spec cluster)));
  match wrap "failed to describe cluster" describeResp with ERR err => mret (ERR err) | OK eksCluster =>
  kubeConfig ← pure (NewKubeConfigForCluster cluster eksCluster);
  match wrap "failed to create kubeconfig" kubeConfig with ERR err => mret (ERR err) | OK kubeConfig =>
  config ← outside (ClientConfig kubeConfig);
  match wrap "failed to build client config" config with ERR err => mret (ERR err) | OK config =>
  outside (NewForConfig config)
  end end end.

Definition put_client (name : string) (c : Interface) (now : Time) : GoM (World K S) unit :=
  modify_world (λ w, set_clients
    (<[name := {| Client_Interface := c; lastUsed := now |}]> (clients w)) w).

(** A cached client is returned whatever the cluster's settings are. *)
Definition GetClusterClient (cluster : EKSClusterRegistry) : GoM (World K S) (result Interface) :=
  w ← get_world;
  match clients w !! EKS_Name cluster with
  | Some client =>
      now ← outside Now;
      put_client (EKS_Name cluster) (Client_Interface client) now;;
      mret (OK (Client_Interface client))
  | None =>
      client ← createClusterClient cluster;
      match client with
      | ERR err => mret (ERR err)
      | OK client =>
          now ← outside Now;
          put_client (EKS_Name cluster) client now;;
          mret (OK client)
      end
  end.

Definition GenerateKubeConfig {Y} (clientcmd_Write : api_Config → result Y)
    (cluster : EKSClusterRegistry) : GoM (World K S) (result Y) :=
  describeResp ← outside (DescribeCluster (Region (EKS_Spec cluster)) (ClusterName (EKS_Spec cluster)));
  match wrap "failed to describe cluster" describeResp with ERR err => mret (ERR err) | OK eksCluster =>
  kubeConfig ← pure (NewKubeConfigForCluster cluster eksCluster);
  match wrap "failed to create kubeconfig" kubeConfig with ERR err => mret (ERR err) | OK kubeConfig =>
  mret (clientcmd_Write kubeConfig)
  end end.

(** Clients that have not been used for thirty minutes are dropped. *)
Definition CleanupStaleClients : GoM (World K S) unit :=
  now ← outside Now;
  let cutoff := now - 30 * Minute in
  modify_world (λ w,
    set_clients (filter (λ p : string * clusterClient, ¬ lastUsed p.2 < cutoff) (clients w)) w).

(** *** Rules *)

Lemma wp_put_client name c now (Q : unit → World K S → Prop) w :
  wp (put_client name c now) Q w ↔
    Q tt (set_clients (<[name := {| Client_Interface := c; lastUsed := now |}]> (clients w)) w).
Proof. done. Qed.
#[local] Hint Rewrite wp_put_client : wp.

Lemma createClusterClient_moves cluster : moves (S:=S) (createClusterClient cluster).
Proof. unfold createClusterClient. solve_moves. Qed.
Lemma GetClusterClient_moves cluster : moves (S:=S) (GetClusterClient cluster).
Proof.
  unfold GetClusterClient, put_client. pose proof createClusterClient_moves as Hc. solve_moves.
Qed.

(** EKS answers for the cluster, at [k], without a certificate authority. *)
Definition described_without_CA cluster (k : K) : Prop :=
  ∃ e, (DescribeCluster (Region (EKS_Spec cluster)) (ClusterName (EKS_Spec cluster)) k).1 = OK e ∧
    CertificateAuthority e = None.

(** Only the outside is changed, and the client cache. *)
Definition same_but_clients (w w' : World K S) : Prop :=
  spire w' = spire w ∧ clusters w' = clusters w ∧ next_ch w' = next_ch w ∧ closed w' = closed w.

(** Getting a client changes the outside and the cache only, in the cache only
    the entry of the cluster, and the client that is returned is in it.  It
    panics exactly where a cluster is described without an authority. *)
Lemma GetClusterClient_spec cluster (w : World K S) :
  wpx (GetClusterClient cluster) (λ r w',
    same_but_clients w w' ∧
    (∀ name, name ≠ EKS_Name cluster → clients w' !! name = clients w !! name) ∧
    (∀ c, r = OK c → Client_Interface <$> clients w' !! EKS_Name cluster = Some c) ∧
    (∀ c, clients w !! EKS_Name cluster = Some c → r = OK (Client_Interface c)) ∧
    (clients w !! EKS_Name cluster = None → ¬ described_without_CA cluster (kube w)))
    (λ w', same_but_clients w w' ∧ clients w' = clients w ∧
       clients w !! EKS_Name cluster = None ∧ described_without_CA cluster (kube w)) w.
Proof.
  unfold GetClusterClient, same_but_clients. apply wpx_bind_wp, wp_get.
  destruct (clients w !! EKS_Name cluster) as [c|] eqn:Ec.
  - apply wpx_wp. wp_step. split_and!; try done; intros; simplify_eq; [by rewrite lookup_insert_ne|..|done].
    by rewrite lookup_insert_eq.
  - unfold createClusterClient. apply wpx_bind, wpx_bind_wp, wp_outside.
    destruct (DescribeCluster (Region (EKS_Spec cluster)) (ClusterName (EKS_Spec cluster)) (kube w))
      as [d k1] eqn:Ed. simpl.
    destruct d as [e|err]; simpl.
    2: { apply wpx_wp. wp_step. split_and!; try done. intros _ (e & He & _). by rewrite Ed in He. }
    unfold NewKubeConfigForCluster. destruct (CertificateAuthority e) as [ca|] eqn:Hca; simpl.
    2: { apply wpx_bind, wpx_pure. unfold described_without_CA. rewrite Ed.
         split_and!; try done. eauto. }
    assert (¬ described_without_CA cluster (kube w)) as Hno.
    { intros (e' & He & Hca'). rewrite Ed in He. simpl in He. congruence. }
    apply wpx_wp. wp_step.
    destruct (DecodeString _) as [data|err]; simpl; [|by split_and!]. wp_step.
    destruct (ClientConfig _ _) as [[cfg|err] k2]; simpl; [|by split_and!]. wp_step.
    destruct (NewForConfig cfg k2) as [[c|err] k3]; simpl; [|by split_and!].
    apply wpx_wp. wp_step. split_and!; try done; intros; simplify_eq; [by rewrite lookup_insert_ne|].
    by rewrite lookup_insert_eq.
Qed.
End aws.

#[export] Hint Resolve GetClusterClient_moves : moves.
