(* ===== verification/Cluster.v ===== *)
(** * internal/cluster: the connections to the workload clusters

    [Manager] keeps one connection per registered cluster.  Its methods hold
    the mutex throughout, so each is one step from a world to the next. *)

From S2P Require Export Aws.

Local Open Scope Z_scope.

Section cluster.
Context `{!LabelSelectors, !MapOrder} {K S : Type} `{!Kube K}.
Implicit Types (w : World K S) (conn : ClusterConnection) (cluster : EKSClusterRegistry).

Definition set_Cluster cluster conn : ClusterConnection :=
  {| Cluster := cluster; K8sClient := K8sClient conn; PodInformer := PodInformer conn;
     StopCh := StopCh conn; LastConnected := LastConnected conn |}.

(** [m.clusters[name] = conn] and [delete(m.clusters, name)] *)
Definition put_conn (name : string) conn : GoM (World K S) unit :=
  modify_world (λ w, set_clusters (<[name := conn]> (clusters w)) w).
Definition delete_conn (name : string) : GoM (World K S) unit :=
  modify_world (λ w, set_clusters (delete name (clusters w)) w).

Definition stopClusterConnection conn : GoM (World K S) unit := close_chan (StopCh conn).

Definition createK8sClient cluster : GoM (World K S) (result Interface) := GetClusterClient cluster.

(** The informer's event handlers call [handlePodChange] with this cluster name. *)
Definition createPodInformer (k8sClient : Interface) (clusterName : string) :
    GoM (World K S) SharedIndexInformer :=
  outside (NewSharedIndexInformer k8sClient clusterName).

Definition createClusterConnection cluster : GoM (World K S) (result ClusterConnection) :=
  k8sClient ← createK8sClient cluster;
  match k8sClient with
  | ERR err => mret (ERR err)
  | OK k8sClient =>
      podInformer ← createPodInformer k8sClient (EKS_Name cluster);
      ch ← make_chan;
      now ← outside Now;
      mret (OK {| Cluster := cluster; K8sClient := k8sClient; PodInformer := podInformer;
                  StopCh := ch; LastConnected := now |})
  end.

(** The settings a change of which makes the manager reconnect. *)
Definition sameConfig (a b : EKSClusterRegistry) : bool :=
  bool_decide (ClusterName (EKS_Spec a) = ClusterName (EKS_Spec b)) &&
  bool_decide (Region (EKS_Spec a) = Region (EKS_Spec b)) &&
  bool_decide (AssumeRoleARN (EKS_Spec a) = AssumeRoleARN (EKS_Spec b)).

Definition AddOrUpdateCluster cluster : GoM (World K S) (option error) :=
  w ← get_world;
  unchanged ← match clusters w !! EKS_Name cluster with
    | Some existing =>
        if sameConfig (Cluster existing) cluster
        then put_conn (EKS_Name cluster) (set_Cluster cluster existing);; mret true
        else stopClusterConnection existing;; delete_conn (EKS_Name cluster);; mret false
    | None => mret false
    end;
  if unchanged : bool then mret None
  else if negb (Enabled (EKS_Spec cluster)) then mret None
  else
    conn ← createClusterConnection cluster;
    match conn with
    | ERR err => mret (Some (ErrWrap "failed to create cluster connection" err))
    | OK conn =>
        put_conn (EKS_Name cluster) conn;;
        outside (Informer_Run (PodInformer conn) (StopCh conn));;
        synced ← outside (WaitForCacheSync (StopCh conn) (PodInformer conn));
        if negb synced then mret (Some (ErrNew "failed to sync pod cache")) else mret None
    end.

Definition RemoveCluster (clusterName : string) : GoM (World K S) unit :=
  w ← get_world;
  match clusters w !! clusterName with
  | Some conn => stopClusterConnection conn;; delete_conn clusterName
  | None => mret tt
  end.

Definition GetClusterConnection (clusterName : string) : GoM (World K S) (option ClusterConnection) :=
  w ← get_world; mret (clusters w !! clusterName).

Definition GetAllConnections : GoM (World K S) (list ClusterConnection) :=
  w ← get_world; mret (range_map (clusters w)).*2.

Definition IsConnected (clusterName : string) : GoM (World K S) bool :=
  w ← get_world; mret (bool_decide (is_Some (clusters w !! clusterName))).

(** A pod, directly or in a tombstone. *)
Definition pod_of_event (obj : object) : option Pod :=
  match obj with
  | ObjPod pod => Some pod
  | ObjDeletedFinalStateUnknown (ObjPod pod) => Some pod
  | _ => None
  end.

(** The two interface values of the manager that pod events go to; both may
    be nil.  [main] passes the triggerer and sets the pod reconciler later. *)
Record Receivers := {
  podReconciler : option (Pod → EKSClusterRegistry → string → GoM (World K S) unit);
  triggerer : option (GoM (World K S) unit);
}.

Definition NewManager_receivers (t : option (GoM (World K S) unit)) : Receivers :=
  {| podReconciler := None; triggerer := t |}.

Definition SetPodReconciler
    (reconciler : option (Pod → EKSClusterRegistry → string → GoM (World K S) unit))
    (m : Receivers) : Receivers :=
  {| podReconciler := reconciler; triggerer := triggerer m |}.

Definition handlePodChange (m : Receivers) (action : string) (obj : object) (clusterName : string) :
    GoM (World K S) unit :=
  match pod_of_event obj with
  | None => mret tt
  | Some pod =>
      match podReconciler m, triggerer m with
      | Some ReconcileSinglePod, _ =>
          conn ← GetClusterConnection clusterName;
          match conn with
          | Some conn => ReconcileSinglePod pod (Cluster conn) action
          | None => mret tt
          end
      | None, Some Trigger => Trigger
      | None, None => mret tt
      end
  end.

(** The goroutine of [StartCleanupLoop], for as many ticks of thirty minutes as
    come before the context is done. *)
Definition StartCleanupLoop (ticks : nat) : GoM (World K S) unit :=
  for_each (replicate ticks tt) (λ _, CleanupStaleClients).

Definition Shutdown : GoM (World K S) unit :=
  w ← get_world;
  for_each (range_map (clusters w)).*2 stopClusterConnection;;
  modify_world (set_clusters ∅).

(** ** The invariant

    Connections are stored under their cluster's name; each has a stop channel
    of its own that is open; and every open channel belongs to a connection, so
    no informer runs that the manager has lost. *)
Record manager_wf w : Prop := {
  wf_name k c : clusters w !! k = Some c → EKS_Name (Cluster c) = k;
  wf_open k c : clusters w !! k = Some c → StopCh c ∉ closed w;
  wf_made k c : clusters w !! k = Some c → (StopCh c < next_ch w)%nat;
  wf_own k k' c c' : clusters w !! k = Some c → clusters w !! k' = Some c' →
    StopCh c = StopCh c' → k = k';
  wf_closed ch : ch ∈ closed w → (ch < next_ch w)%nat;
  wf_no_leak ch : (ch < next_ch w)%nat → ch ∉ closed w →
    ∃ k c, clusters w !! k = Some c ∧ StopCh c = ch;
}.

Lemma wp_make_chan (Q : nat → World K S → Prop) w :
  wp make_chan Q w ↔ Q (next_ch w) (set_channels (Datatypes.S (next_ch w)) (closed w) w).
Proof. done. Qed.

Lemma wp_close_chan ch (Q : unit → World K S → Prop) w :
  ch ∉ closed w →
  wp (close_chan ch) Q w ↔ Q tt (set_channels (next_ch w) ({[ch]} ∪ closed w) w).
Proof. intros Hch. unfold wp, close_chan. by rewrite bool_decide_false. Qed.

(** Only the fields the invariant reads matter. *)
Lemma manager_wf_ext w w' :
  clusters w' = clusters w → next_ch w' = next_ch w → closed w' = closed w →
  manager_wf w → manager_wf w'.
Proof. intros Hc Hn Hd []. split; rewrite ?Hc, ?Hn, ?Hd; done. Qed.

(** Stopping and dropping a connection. *)
Lemma manager_wf_remove w name conn :
  manager_wf w → clusters w !! name = Some conn →
  manager_wf (set_clusters (delete name (clusters w))
                (set_channels (next_ch w) ({[StopCh conn]} ∪ closed w) w)).
Proof.
  intros [Hname Hopen Hmade Hown Hcl Hleak] Hconn. split; simpl.
  - intros k c [_ ?]%lookup_delete_Some. by apply Hname.
  - intros k c [Hne Hk]%lookup_delete_Some. apply not_elem_of_union. split; [|by eapply Hopen].
    rewrite elem_of_singleton. intros Heq. by eapply Hne, Hown.
  - intros k c [_ ?]%lookup_delete_Some. by eapply Hmade.
  - intros k k' c c' [_ ?]%lookup_delete_Some [_ ?]%lookup_delete_Some. by apply Hown.
  - intros ch [->%elem_of_singleton|?]%elem_of_union; [by eapply Hmade|by apply Hcl].
  - intros ch Hlt [Hne Hch]%not_elem_of_union. rewrite elem_of_singleton in Hne.
    destruct (Hleak ch Hlt Hch) as (k & c & Hk & Heq). exists k, c.
    split; [|done]. apply lookup_delete_Some. split; [|done]. intros ->. by simplify_eq.
Qed.

(** Storing a connection made with a new channel. *)
Lemma manager_wf_add w name conn :
  manager_wf w → clusters w !! name = None → EKS_Name (Cluster conn) = name →
  StopCh conn = next_ch w →
  manager_wf (set_clusters (<[name := conn]> (clusters w))
                (set_channels (Datatypes.S (next_ch w)) (closed w) w)).
Proof.
  intros [Hname Hopen Hmade Hown Hcl Hleak] Hnone Hn Hch. split; simpl.
  - intros k c [[<- <-]|[_ ?]]%lookup_insert_Some; [done|by apply Hname].
  - intros k c [[<- <-]|[_ ?]]%lookup_insert_Some; [|by eapply Hopen].
    intros Hin%Hcl. lia.
  - intros k c [[<- <-]|[_ Hk]]%lookup_insert_Some; [lia|]. pose proof (Hmade _ _ Hk). lia.
  - intros k k' c c' [[<- <-]|[_ Hk]]%lookup_insert_Some [[<- <-]|[_ Hk']]%lookup_insert_Some Heq.
    + done.
    + pose proof (Hmade _ _ Hk'). lia.
    + pose proof (Hmade _ _ Hk). lia.
    + by eapply Hown.
  - intros ch Hin%Hcl. lia.
  - intros ch Hlt Hin. destruct (decide (ch = next_ch w)) as [->|Hne].
    + exists name, conn. by rewrite lookup_insert_eq.
    + destruct (Hleak ch) as (k & c & Hk & Heq); [lia|done|]. exists k, c. split; [|done].
      rewrite lookup_insert_ne; [done|]. intros <-. congruence.
Qed.

(** Replacing the cluster object of a connection. *)
Lemma manager_wf_refresh w cluster conn :
  manager_wf w → clusters w !! EKS_Name cluster = Some conn →
  manager_wf (set_clusters (<[EKS_Name cluster := set_Cluster cluster conn]> (clusters w)) w).
Proof.
  intros [Hname Hopen Hmade Hown Hcl Hleak] Hconn.
  assert (∀ k c, <[EKS_Name cluster := set_Cluster cluster conn]> (clusters w) !! k = Some c →
    ∃ c0, clusters w !! k = Some c0 ∧ StopCh c0 = StopCh c) as Hback.
  { intros k c [[<- <-]|[_ ?]]%lookup_insert_Some; eauto. }
  split; simpl.
  - intros k c [[<- <-]|[_ ?]]%lookup_insert_Some; [done|by apply Hname].
  - intros k c (c0 & Hk & <-)%Hback. by eapply Hopen.
  - intros k c (c0 & Hk & <-)%Hback. by eapply Hmade.
  - intros k k' c c' (c0 & Hk & <-)%Hback (c0' & Hk' & <-)%Hback. by apply Hown.
  - done.
  - intros ch Hlt Hch. destruct (Hleak ch Hlt Hch) as (k & c & Hk & <-).
    destruct (decide (k = EKS_Name cluster)) as [->|Hne].
    + exists (EKS_Name cluster), (set_Cluster cluster conn). rewrite lookup_insert_eq.
      split; [done|]. simpl. by simplify_eq.
    + exists k, c. by rewrite lookup_insert_ne.
Qed.
End cluster.
