(* ===== verification/ClusterFacts.v ===== *)
(** * The methods of the cluster manager keep its invariant *)

From S2P Require Export Cluster.

Section facts.
Context `{!LabelSelectors, !MapOrder} {K S : Type} `{!Kube K}.
Implicit Types (w : World K S) (conn : ClusterConnection) (cluster : EKSClusterRegistry).

(** The old connection after [name] has been dropped is stopped. *)
Definition stopped (name : string) w w' : Prop :=
  ∀ c, clusters w !! name = Some c → StopCh c ∈ closed w'.

Lemma wp_drop w name conn (Q : unit → World K S → Prop) :
  manager_wf w → clusters w !! name = Some conn →
  Q tt (set_clusters (delete name (clusters w))
          (set_channels (next_ch w) ({[StopCh conn]} ∪ closed w) w)) →
  wp (stopClusterConnection conn;; delete_conn name) Q w.
Proof.
  intros Hwf Hconn HQ. unfold stopClusterConnection, delete_conn. apply wp_bind, wp_close_chan.
  - by eapply wf_open.
  - by apply wp_modify.
Qed.

Lemma RemoveCluster_wp name w :
  manager_wf w →
  wp (RemoveCluster name) (λ _ w', manager_wf w' ∧ spire w' = spire w ∧ kube w' = kube w ∧
    clients w' = clients w ∧ clusters w' = delete name (clusters w) ∧ stopped name w w') w.
Proof.
  intros Hwf. unfold RemoveCluster, stopped. apply wp_bind, wp_get.
  destruct (clusters w !! name) as [conn|] eqn:Hconn.
  - apply wp_drop; [done..|]. split; [by apply manager_wf_remove|]. split_and!; try done.
    intros c [= <-]. simpl. set_solver.
  - apply wp_ret. split_and!; try done. by rewrite delete_id.
Qed.

(** *** Connecting *)

(** What the connection [c] of a cluster is after an update in [w]: the one
    there was, if its settings are the same, or a new one with an informer made
    for the cluster's name. *)
Definition connection_of cluster w conn : Prop :=
  Cluster conn = cluster ∧
  ((∃ conn0, clusters w !! EKS_Name cluster = Some conn0 ∧
     sameConfig (Cluster conn0) cluster = true ∧ conn = set_Cluster cluster conn0) ∨
   ∃ k, evolves (kube w) k ∧
     PodInformer conn = (NewSharedIndexInformer (K8sClient conn) (EKS_Name cluster) k).1).

(** Only the connection of [cluster] is touched, and if its settings have
    changed, the old one is stopped. *)
Definition only_cluster cluster w w' : Prop :=
  manager_wf w' ∧ spire w' = spire w ∧ closed w ⊆ closed w' ∧
  (∀ k, k ≠ EKS_Name cluster → clusters w' !! k = clusters w !! k) ∧
  (∀ conn, clusters w' !! EKS_Name cluster = Some conn → connection_of cluster w conn) ∧
  (∀ conn, clusters w !! EKS_Name cluster = Some conn → sameConfig (Cluster conn) cluster = false →
     StopCh conn ∈ closed w').

(** The case in which an update panics: the cluster is to be connected, no
    client is cached for it, and EKS gives no certificate authority. *)
Definition lacks_CA cluster w : Prop :=
  Enabled (EKS_Spec cluster) = true ∧ clients w !! EKS_Name cluster = None ∧
  described_without_CA cluster (kube w) ∧
  ∀ conn, clusters w !! EKS_Name cluster = Some conn → sameConfig (Cluster conn) cluster = false.

(** The second half of [AddOrUpdateCluster]. *)
Definition connect cluster : GoM (World K S) (option error) :=
  conn ← createClusterConnection cluster;
  match conn with
  | ERR err => mret (Some (ErrWrap "failed to create cluster connection" err))
  | OK conn =>
      put_conn (EKS_Name cluster) conn;;
      outside (Informer_Run (PodInformer conn) (StopCh conn));;
      synced ← outside (WaitForCacheSync (StopCh conn) (PodInformer conn));
      if negb synced then mret (Some (ErrNew "failed to sync pod cache")) else mret None
  end.

Lemma createClusterConnection_moves cluster : moves (S:=S) (createClusterConnection cluster).
Proof.
  unfold createClusterConnection, createK8sClient, createPodInformer. solve_moves.
Qed.

Lemma AddOrUpdateCluster_moves cluster : moves (S:=S) (AddOrUpdateCluster cluster).
Proof.
  unfold AddOrUpdateCluster, put_conn, stopClusterConnection, delete_conn.
  pose proof createClusterConnection_moves. solve_moves.
Qed.

Lemma RemoveCluster_moves name : moves (S:=S) (RemoveCluster name).
Proof. unfold RemoveCluster, stopClusterConnection, delete_conn. solve_moves. Qed.

Lemma connect_wp cluster w :
  manager_wf w → clusters w !! EKS_Name cluster = None →
  wpx (connect cluster)
    (λ r w', only_cluster cluster w w' ∧ closed w' = closed w ∧
      (clients w !! EKS_Name cluster = None → ¬ described_without_CA cluster (kube w)) ∧
      (r = None → is_Some (clusters w' !! EKS_Name cluster)))
    (λ w', manager_wf w' ∧ same_but_clients w w' ∧ clients w' = clients w ∧
      clients w !! EKS_Name cluster = None ∧ described_without_CA cluster (kube w)) w.
Proof.
  intros Hwf Hnone. unfold connect, createClusterConnection, createK8sClient.
  rewrite wpx_bind. apply wpx_bind.
  eapply wpx_mono; [apply wpx_moves; [apply GetClusterClient_moves|apply GetClusterClient_spec]|..].
  2: { intros w' [(Hsame & ? & ? & ?) _]. split_and!; try done. destruct Hsame as (_ & ? & ? & ?).
       by eapply manager_wf_ext; [| | |exact Hwf]. }
  intros res w1 [((Hs & Hc & Hn & Hd) & _ & _ & _ & Hno) Hev].
  refine (proj1 (wpx_bind _ _ _ _ _) _). apply wpx_wp. unfold only_cluster.
  destruct res as [c|err]; simpl.
  2: { apply wp_ret, wp_ret. rewrite Hs, Hd, Hc, Hnone.
       split; [|done]. split_and!; try done. by eapply manager_wf_ext; [| | |exact Hwf]. }
  unfold createPodInformer, put_conn. wp_step. rewrite wp_make_chan. wp_step.
  set (inf := NewSharedIndexInformer c (EKS_Name cluster) (kube w1)).
  set (conn := {| Cluster := cluster; K8sClient := c; PodInformer := inf.1; StopCh := next_ch w1;
                  LastConnected := (Now inf.2).1 |}).
  assert (∀ (res : option error) (k : K), let w2 := set_kube k
      (set_clusters (<[EKS_Name cluster := conn]> (clusters w1))
        (set_channels (Datatypes.S (next_ch w1)) (closed w1) w1)) in
    (manager_wf w2 ∧ spire w2 = spire w ∧ closed w ⊆ closed w2 ∧
      (∀ k, k ≠ EKS_Name cluster → clusters w2 !! k = clusters w !! k) ∧
      (∀ conn, clusters w2 !! EKS_Name cluster = Some conn → connection_of cluster w conn) ∧
      ∀ conn, clusters w !! EKS_Name cluster = Some conn → sameConfig (Cluster conn) cluster = false →
        StopCh conn ∈ closed w2) ∧ closed w2 = closed w ∧
    (clients w !! EKS_Name cluster = None → ¬ described_without_CA cluster (kube w)) ∧
    (res = None → is_Some (clusters w2 !! EKS_Name cluster))) as Hpost.
  { intros res k w2. simpl. rewrite Hs, Hd, Hc, lookup_insert_eq, Hnone. split_and!; try done.
    - eapply (manager_wf_ext (set_clusters (<[EKS_Name cluster := conn]> (clusters w1))
          (set_channels (Datatypes.S (next_ch w1)) (closed w1) w1))); [simpl; by rewrite ?Hc, ?Hd..|].
      apply manager_wf_add; [|by rewrite Hc|done|done]. by eapply manager_wf_ext; [| | |exact Hwf].
    - intros k' Hk'. by rewrite lookup_insert_ne.
    - intros c0 [= <-]. split; [done|]. right. by exists (kube w1). }
  match goal with |- context [if negb ?b then _ else _] => destruct b end; apply wp_ret, Hpost.
Qed.

(** The cases of [AddOrUpdateCluster]. *)
Lemma AddOrUpdateCluster_wp cluster w :
  manager_wf w →
  wpx (AddOrUpdateCluster cluster)
    (λ r w', only_cluster cluster w w' ∧ ¬ lacks_CA cluster w ∧
      (r = None → Enabled (EKS_Spec cluster) = true → is_Some (clusters w' !! EKS_Name cluster)))
    (λ w', only_cluster cluster w w' ∧ lacks_CA cluster w ∧
      clusters w' !! EKS_Name cluster = None) w.
Proof.
  intros Hwf. unfold AddOrUpdateCluster. apply wpx_bind_wp, wp_get, wpx_bind.
  assert (∀ w1 : World K S, manager_wf w1 → spire w1 = spire w → closed w ⊆ closed w1 →
    kube w1 = kube w → clients w1 = clients w →
    clusters w1 = delete (EKS_Name cluster) (clusters w) →
    (∀ c, clusters w !! EKS_Name cluster = Some c → sameConfig (Cluster c) cluster = false) →
    (∀ c, clusters w !! EKS_Name cluster = Some c → StopCh c ∈ closed w1) →
    wpx (if negb (Enabled (EKS_Spec cluster)) then mret None else connect cluster)
      (λ r w', only_cluster cluster w w' ∧ ¬ lacks_CA cluster w ∧
        (r = None → Enabled (EKS_Spec cluster) = true → is_Some (clusters w' !! EKS_Name cluster)))
      (λ w', only_cluster cluster w w' ∧ lacks_CA cluster w ∧
        clusters w' !! EKS_Name cluster = None) w1) as Hrest.
  { intros w1 Hwf1 Hs1 Hd1 Hk1 Hcl1 Hc1 Hdiff Hold. unfold only_cluster, lacks_CA.
    assert (clusters w1 !! EKS_Name cluster = None) as Hnone by (by rewrite Hc1, lookup_delete_eq).
    destruct (Enabled (EKS_Spec cluster)); simpl.
    - eapply wpx_mono; [by apply connect_wp|..].
      + intros res w' [(Hwf' & Hs' & _ & Hk & Hthis & _) (Hd' & Hno & Hr)]. rewrite Hd'.
        rewrite Hcl1, Hk1 in Hno. split; [|split; [naive_solver|by auto]].
        split_and!; try done; [congruence|..|by auto].
        * intros k Hne. by rewrite Hk, Hc1, lookup_delete_ne.
        * intros c Hc. destruct (Hthis c Hc) as [Hcl [(c0 & Hc0 & _)|Hnew]]; [congruence|].
          rewrite Hk1 in Hnew. split; [done|by right].
      + intros w' (Hwf' & (Hs' & Hc' & _ & Hd') & _ & Hcl & Hca).
        rewrite Hd', Hc', Hnone, <-Hcl1, <-Hk1. split_and!; try done; [congruence|..|by auto].
        intros k Hne. by rewrite Hc1, lookup_delete_ne.
    - apply wpx_ret. rewrite Hnone. split_and!; try done; [|by auto|by intros [? _]].
      intros k Hne. by rewrite Hc1, lookup_delete_ne. }
  destruct (clusters w !! EKS_Name cluster) as [conn|] eqn:Hconn.
  - destruct (sameConfig (Cluster conn) cluster) eqn:Hsame.
    + unfold put_conn. apply wpx_wp. wp_step. apply wpx_ret. unfold only_cluster. simpl. rewrite lookup_insert_eq.
      split; [|split; [|by eauto]].
      2: { intros (_ & _ & _ & Hdiff). rewrite (Hdiff _ Hconn) in Hsame. done. }
      split_and!; try done.
      * by apply manager_wf_refresh.
      * intros k Hne. by rewrite lookup_insert_ne.
      * intros c [= <-]. split; [done|]. left. by exists conn.
      * intros c Hc. simplify_eq. congruence.
    + apply wpx_bind_wp, wp_close_chan; [by eapply wf_open|].
      apply wpx_bind_wp, wp_modify, wpx_ret, Hrest; simpl; try done.
      * by apply manager_wf_remove.
      * set_solver.
      * intros c Hc. by simplify_eq.
      * intros c Hc. simplify_eq. set_solver.
  - apply wpx_ret, Hrest; try done. by rewrite delete_id.
Qed.

Lemma GetAllConnections_wp w (Q : list ClusterConnection → World K S → Prop) :
  wp GetAllConnections Q w ↔ Q (range_map (clusters w)).*2 w.
Proof. done. Qed.

Lemma GetClusterConnection_wp name w (Q : option ClusterConnection → World K S → Prop) :
  wp (GetClusterConnection name) Q w ↔ Q (clusters w !! name) w.
Proof. done. Qed.

(** Closing distinct open channels one after the other. *)
Lemma stop_all_wp conns w :
  NoDup (StopCh <$> conns) → (∀ c, c ∈ conns → StopCh c ∉ closed w) →
  wp (for_each conns stopClusterConnection) (λ _ w', spire w' = spire w ∧ kube w' = kube w ∧
    clients w' = clients w ∧ next_ch w' = next_ch w ∧
    closed w' = list_to_set (StopCh <$> conns) ∪ closed w) w.
Proof.
  revert w. induction conns as [|c conns IH]; intros w Hnd Hopen; simpl.
  { apply wp_ret. split_and!; try done. set_solver. }
  rewrite fmap_cons in Hnd. apply NoDup_cons in Hnd as [Hc Hnd].
  apply wp_bind, wp_close_chan; [apply Hopen; set_solver|].
  eapply wp_mono; [apply IH; [done|]|].
  - intros c' Hc'. simpl. apply not_elem_of_union. split; [|apply Hopen; set_solver].
    rewrite elem_of_singleton. intros Heq. apply Hc. rewrite <-Heq. by apply list_elem_of_fmap_2.
  - simpl. intros _ w' (? & ? & ? & ? & ->). split_and!; try done. set_solver.
Qed.
End facts.

#[export] Hint Resolve createClusterConnection_moves AddOrUpdateCluster_moves RemoveCluster_moves : moves.
