(* ===== verification/MainReconciler.v ===== *)
(** * internal/controller/main_reconciler.go: the full reconciliation

    Log messages, and the counters that only reach log messages, are left out. *)

From S2P Require Export ClusterFacts.

Local Open Scope Z_scope.

(** The settings of [MainReconciler]. *)
Record MainReconciler `{!SpiffeID, !Regexps} := {
  MR_TrustDomain : TrustDomain;
  MR_ClusterName : string;
  IgnoreNamespaces : list Regexp;
  EntryIDPrefix : string;
  GCInterval : Duration;
}.

Section main_reconciler.
Context `{!SpiffeID, !LabelSelectors, !Regexps, !MapOrder, !Templates, !FloatToInt}.
Context {K S : Type} `{!Kube K, !Client S}.
Variable r : MainReconciler.
Implicit Types (identity : WorkloadIdentity) (cluster : EKSClusterRegistry) (pod : Pod)
  (state : entriesState) (conn : ClusterConnection).

(** ** Selection *)

Definition shouldProcessIdentity identity cluster : bool :=
  match ClusterSelector (WI_Spec identity) with
  | None => true
  | Some s =>
      match LabelSelectorAsSelector (Some s) with
      | ERR _ => false
      | OK selector => Matches selector (Cluster_Labels (EKS_Spec cluster))
      end
  end.

Definition shouldProcessEntry (entry : Entry) : bool :=
  if bool_decide (EntryIDPrefix r = "") then true
  else HasPrefix (Entry_ID entry) (EntryIDPrefix r).

Fixpoint matches_any (regexes : list Regexp) (s : string) : bool :=
  match regexes with
  | [] => false
  | regex :: regexes => if MatchString regex s then true else matches_any regexes s
  end.
Definition isNamespaceIgnored (namespace : string) : bool :=
  matches_any (IgnoreNamespaces r) namespace.

(** The pods of the informer's store in the identity's namespace that match
    its pod selector. *)
Definition select_pods identity (podSelector : Selector) (objs : list object) : list Pod :=
  omap (λ obj, match obj with
               | ObjPod pod =>
                   if bool_decide (Pod_Namespace pod ≠ Spec_Namespace (WI_Spec identity)) then None
                   else if negb (Matches podSelector (Labels (Pod_ObjectMeta pod))) then None
                   else Some pod
               | _ => None
               end) objs.

(** On success [LabelSelectorAsSelector] never gives a nil selector. *)
Definition getPodsFromInformer conn identity : GoM (World K S) (result (list Pod)) :=
  match LabelSelectorAsSelector (PodSelector (WI_Spec identity)) with
  | ERR err => mret (ERR err)
  | OK podSelector =>
      objs ← outside (Store_List (PodInformer conn));
      mret (OK (select_pods identity podSelector objs))
  end.

(** ** From clusters and identities to declared entries *)

(** One round of the loop over the pods. *)
Definition processPod identity conn pod state : GoM (World K S) entriesState :=
  if bool_decide (Pod_Phase pod ≠ PodRunning) ||
     bool_decide (DeletionTimestamp (Pod_ObjectMeta pod) ≠ None) then mret state
  else if bool_decide (NodeName (Pod_Spec pod) = "") then mret state
  else
    node ← outside (Nodes_Get (K8sClient conn) (NodeName (Pod_Spec pod)));
    match node with
    | ERR _ => mret state
    | OK node =>
        match RenderEntry identity (Cluster conn) pod node (TrustDomain_String (MR_TrustDomain r)) with
        | ERR _ => mret state
        | OK entry => mret (AddDeclared entry state)
        end
    end.

Definition processWorkloadIdentity identity conn state : GoM (World K S) entriesState :=
  if isNamespaceIgnored (Spec_Namespace (WI_Spec identity)) then mret state
  else
    pods ← getPodsFromInformer conn identity;
    match pods with
    | ERR _ => mret state
    | OK pods => fold_each pods state (processPod identity conn)
    end.

Definition processCluster conn (identities : list WorkloadIdentity) state :
    GoM (World K S) entriesState :=
  fold_each identities state (λ identity state,
    if negb (shouldProcessIdentity identity (Cluster conn)) then mret state
    else processWorkloadIdentity identity conn state).

(** ** Applying the changes *)

Definition applyEntryChanges state : GoM (World K S) unit :=
  let '(toCreate, toUpdate, toDelete) := GetChanges state in
  for_each toDelete (λ entry, on_spire (DeleteEntry (Entry_ID entry));; mret tt);;
  for_each toCreate (λ entry, on_spire (CreateEntry entry);; mret tt);;
  for_each toUpdate (λ entry, on_spire (UpdateEntry entry);; mret tt).

(** ** Statuses *)

Definition count_pods (pods : list Pod) : Z := Z.of_nat (length (filter (λ p, pod_is_placed p = true) pods)).

Definition calculateIdentityStats identity (clusters : list EKSClusterRegistry) state :
    GoM (World K S) WorkloadIdentityStats :=
  let targeted := Z.of_nat (length (filter (λ c,
    Enabled (EKS_Spec c) && shouldProcessIdentity identity c = true) clusters)) in
  connections ← GetAllConnections;
  selected ← fold_each connections 0 (λ conn n,
    if shouldProcessIdentity identity (Cluster conn) then
      pods ← getPodsFromInformer conn identity;
      match pods with ERR _ => mret n | OK pods => mret (n + count_pods pods) end
    else mret n);
  let '(toCreate, toUpdate, _) := GetChanges state in
  mret {| ClustersTargeted := targeted; NamespacesFound := 0; PodsSelected := selected;
          EntriesRegistered := Z.of_nat (length toCreate + length toUpdate); EntryFailures := 0 |}.

Definition calculateClusterEntries state : Z :=
  let '(toCreate, toUpdate, _) := GetChanges state in
  Z.of_nat (length toCreate + length toUpdate).

Definition new_ready_condition : Condition :=
  {| Condition_Type := "Ready"; Condition_Status := ""; Condition_Reason := "";
     Condition_Message := ""; LastTransitionTime := zero_Time; ObservedGeneration := 0 |}.

(** The assignments through the pointer [readyCondition]. *)
Definition set_readiness (connected : bool) (now : Time) (c : Condition) : Condition :=
  {| Condition_Type := Condition_Type c;
     Condition_Status := if connected then ConditionTrue else ConditionFalse;
     Condition_Reason := if connected then "Connected" else "NotConnected";
     Condition_Message := if connected then "Successfully connected to cluster"
                          else "Unable to connect to cluster";
     LastTransitionTime := now;
     ObservedGeneration := ObservedGeneration c |}.

(** [f] on the first condition of type Ready, which is appended when missing. *)
Fixpoint update_ready (f : Condition → Condition) (conditions : list Condition) : list Condition :=
  match conditions with
  | [] => [f new_ready_condition]
  | c :: conditions =>
      if bool_decide (Condition_Type c = "Ready") then f c :: conditions
      else c :: update_ready f conditions
  end.

Definition updateClusterConditions (connected : bool) (conditions : list Condition) :
    GoM (World K S) (list Condition) :=
  now ← outside Now;
  mret (update_ready (set_readiness connected now) conditions).

Definition updateStatuses (identities : list WorkloadIdentity)
    (clusters : list EKSClusterRegistry) state : GoM (World K S) unit :=
  for_each identities (λ identity,
    stats ← calculateIdentityStats identity clusters state;
    now ← outside Now;
    outside (Status_Update_WorkloadIdentity
      (WI_set_Status {| Stats := stats; LastReconciliation := Some now |} identity));;
    mret tt);;
  for_each clusters (λ cluster,
    let entriesRegistered := calculateClusterEntries state in
    lastSync ← (if Enabled (EKS_Spec cluster) then now ← outside Now; mret (Some now)
                else mret (LastSync (EKS_Status cluster)));
    connected ← IsConnected (EKS_Name cluster);
    conditions ← updateClusterConditions connected (Conditions (EKS_Status cluster));
    outside (Status_Update_EKSClusterRegistry
      (EKS_set_Status {| LastSync := lastSync; Conditions := conditions;
                         NamespaceCount := NamespaceCount (EKS_Status cluster);
                         Cluster_EntriesRegistered := entriesRegistered |} cluster));;
    mret tt).

(** ** The cycle *)

Definition add_current_entries (entries : list Entry) state : entriesState :=
  foldl (λ s entry, if shouldProcessEntry entry then AddCurrent entry s else s) state entries.

(** [existingClusters[name]] *)
Definition existingClusters (clusters : list EKSClusterRegistry) (name : string) : bool :=
  existsb (λ c, Enabled (EKS_Spec c) && bool_decide (EKS_Name c = name)) clusters.

(** The connections of clusters that are gone or disabled are removed. *)
Definition remove_stale_clusters (clusters : list EKSClusterRegistry) : GoM (World K S) unit :=
  connections ← GetAllConnections;
  for_each connections (λ conn,
    if negb (existingClusters clusters (EKS_Name (Cluster conn)))
    then RemoveCluster (EKS_Name (Cluster conn)) else mret tt).

(** The second half of the cycle: from the connections to the entries and the
    statuses. *)
Definition reconcileEntries (clusters : list EKSClusterRegistry) : GoM (World K S) unit :=
  identities ← outside List_WorkloadIdentities;
  match identities with ERR _ => mret tt | OK identities =>
  currentEntries ← on_spire ListEntries;
  match currentEntries with ERR _ => mret tt | OK currentEntries =>
  let state := add_current_entries currentEntries (NewEntriesStateWithPrefix (EntryIDPrefix r)) in
  connections ← GetAllConnections;
  state ← fold_each connections state (λ conn state, processCluster conn identities state);
  applyEntryChanges state;;
  updateStatuses identities clusters state
  end end.

Definition reconcileAll : GoM (World K S) unit :=
  clusters ← outside List_EKSClusterRegistries;
  match clusters with
  | ERR _ => mret tt
  | OK clusters =>
      for_each clusters (λ cluster, AddOrUpdateCluster cluster;; mret tt);;
      remove_stale_clusters clusters;;
      reconcileEntries clusters
  end.
End main_reconciler.
