(* ===== verification/ApplyFacts.v ===== *)
(** * What [applyEntryChanges] does to the registered entries

    With a server that may fail ([ClientSpec]) and with one that does what it
    is asked ([ReliableClient]). *)

From S2P Require Export MainReconciler.

Section apply.
Context `{!SpiffeID, !LabelSelectors, !Regexps, !MapOrder, !Templates, !FloatToInt}.
Context {K S : Type} `{!Kube K, !Client S, !ClientSpec S}.
Implicit Types (w : World K S) (l : list Entry) (m : gmap string Entry).

(** The entries registered in a world. *)
Definition registered w : gmap string Entry := store (spire w).

(** [w'] differs from [w] at the SPIRE server only. *)
Definition only_spire w w' : Prop := w' = set_spire (spire w') w.

Lemma only_spire_refl w : only_spire w w.
Proof. unfold only_spire. by rewrite set_spire_id. Qed.

Lemma only_spire_trans w1 w2 w3 : only_spire w1 w2 → only_spire w2 w3 → only_spire w1 w3.
Proof. unfold only_spire. intros Hw Hw'. rewrite Hw', Hw. by destruct w1. Qed.

Lemma only_spire_set s w : only_spire w (set_spire s w).
Proof. by destruct w. Qed.

(** A loop of calls to the client, one for each element. *)
Lemma wp_for_each_spire {A} (I : list A → S → Prop) (l : list A) (f : A → GoM S (option error)) w :
  I [] (spire w) →
  (∀ done x todo s, l = done ++ x :: todo → I done s → wp (f x) (λ _ s', I (done ++ [x]) s') s) →
  wp (for_each l (λ x, on_spire (f x);; mret tt))
    (λ _ w', I l (spire w') ∧ only_spire w w') w.
Proof.
  intros Hinit Hstep.
  apply (wp_for_each (λ xs w', I xs (spire w') ∧ only_spire w w')).
  - split; [done|apply only_spire_refl].
  - intros done x todo w' -> [HI Hw]. apply wp_bind, wp_on_spire.
    eapply wp_mono; [by apply (Hstep done x todo)|]. simpl. intros _ s' HI'. apply wp_ret.
    split; [done|]. eapply only_spire_trans; [done|apply only_spire_set].
Qed.

(** ** A server that may fail *)

(** Each key of [l] holds what it held or, if allowed, what [f] says. *)
Definition may_change (f : Entry → option Entry) l m m' : Prop :=
  ∀ k, m' !! k = m !! k ∨ ∃ e, e ∈ l ∧ Entry_ID e = k ∧ m' !! k = f e.

Lemma may_change_nil f m : may_change f [] m m.
Proof. by left. Qed.

Lemma may_change_snoc f l e m m' m'' :
  may_change f l m m' →
  (m'' = m' ∨ m'' !! Entry_ID e = f e ∧ ∀ k, k ≠ Entry_ID e → m'' !! k = m' !! k) →
  may_change f (l ++ [e]) m m''.
Proof.
  intros Hm Hstep k. destruct (Hm k) as [Hk|(e' & He' & <- & Hk)], Hstep as [->|[Hid Hne]].
  - by left.
  - destruct (decide (k = Entry_ID e)) as [->|]; [right; exists e; set_solver|].
    left. by rewrite Hne.
  - right. exists e'. set_solver.
  - right. destruct (decide (Entry_ID e' = Entry_ID e)) as [Heq|].
    + exists e. rewrite Heq. set_solver.
    + exists e'. rewrite Hne by done. set_solver.
Qed.

Lemma delete_each_wp l w :
  wp (for_each l (λ e, on_spire (DeleteEntry (Entry_ID e));; mret tt))
    (λ _ w', may_change (λ _, None) l (registered w) (registered w') ∧ only_spire w w') w.
Proof.
  apply (wp_for_each_spire (λ l s, may_change (λ _, None) l (registered w) (store s))).
  - apply may_change_nil.
  - intros done e todo s _ Hs. eapply wp_mono; [apply DeleteEntry_spec|]. simpl.
    intros _ s' [Hstore _]. eapply may_change_snoc; [done|]. destruct Hstore as [->| ->]; [by left|right].
    rewrite lookup_delete_eq. split; [done|]. intros. by rewrite lookup_delete_ne.
Qed.

Lemma put_change_snoc l e m m' m'' :
  may_change Some l m m' → (m'' = m' ∨ m'' = <[Entry_ID e := e]> m') →
  may_change Some (l ++ [e]) m m''.
Proof.
  intros Hm Hstep. eapply may_change_snoc; [done|]. destruct Hstep as [->| ->]; [by left|right].
  rewrite lookup_insert_eq. split; [done|]. intros. by rewrite lookup_insert_ne.
Qed.

Lemma create_each_wp l w :
  Forall sendable l →
  wp (for_each l (λ e, on_spire (CreateEntry e);; mret tt))
    (λ _ w', may_change Some l (registered w) (registered w') ∧ only_spire w w') w.
Proof.
  intros Hl. apply (wp_for_each_spire (λ l s, may_change Some l (registered w) (store s))).
  - apply may_change_nil.
  - intros done e todo s -> Hs. eapply wp_mono; [apply CreateEntry_spec|].
    + rewrite Forall_app, Forall_cons in Hl. naive_solver.
    + simpl. intros _ s' Hstore. eapply put_change_snoc; [done|]. naive_solver.
Qed.

Lemma update_each_wp l w :
  Forall sendable l →
  wp (for_each l (λ e, on_spire (UpdateEntry e);; mret tt))
    (λ _ w', may_change Some l (registered w) (registered w') ∧ only_spire w w') w.
Proof.
  intros Hl. apply (wp_for_each_spire (λ l s, may_change Some l (registered w) (store s))).
  - apply may_change_nil.
  - intros done e todo s -> Hs. eapply wp_mono; [apply UpdateEntry_spec|].
    + rewrite Forall_app, Forall_cons in Hl. naive_solver.
    + simpl. intros _ s' [Hstore _]. eapply put_change_snoc; [done|]. naive_solver.
Qed.

(** *** The three loops together *)

(** Whatever fails, a key holds what it held, or what is declared for it, or
    nothing if it is registered, managed and not declared. *)
Definition changed_safely (s : entriesState) m m' : Prop :=
  ∀ k, m' !! k = m !! k ∨
    (∃ d, declared s !! k = Some d ∧ m' !! k = Some d) ∨
    (is_Some (current s !! k) ∧ declared s !! k = None ∧ m' !! k = None).

Definition declared_sendable (s : entriesState) : Prop :=
  map_Forall (λ _ d, sendable d) (declared s).

Context `{!MapOrderLaws}.

Lemma toCreate_sendable s : state_wf s → declared_sendable s → Forall sendable (GetChanges s).1.1.
Proof.
  intros Hwf Hs. apply Forall_forall. intros e [Hd _]%elem_of_toCreate; [|done]. by eapply Hs.
Qed.

Lemma toUpdate_sendable s : state_wf s → declared_sendable s → Forall sendable (GetChanges s).1.2.
Proof.
  intros Hwf Hs. apply Forall_forall. intros e [Hd _]%elem_of_toUpdate; [|done]. by eapply Hs.
Qed.

Lemma applyEntryChanges_wp s w :
  state_wf s → declared_sendable s →
  wp (applyEntryChanges s)
    (λ _ w', changed_safely s (registered w) (registered w') ∧ only_spire w w') w.
Proof.
  intros Hwf Hsend. unfold applyEntryChanges.
  pose proof (toCreate_sendable s Hwf Hsend) as Hcs.
  pose proof (toUpdate_sendable s Hwf Hsend) as Hus.
  pose proof (elem_of_toCreate s) as Hc. pose proof (elem_of_toUpdate s) as Hu.
  pose proof (elem_of_toDelete s) as Hd. destruct (GetChanges s) as [[cr up] de]. simpl in *.
  apply wp_bind. eapply wp_mono; [apply delete_each_wp|]. simpl. intros _ w1 [Hm1 Ho1].
  apply wp_bind. eapply wp_mono; [by apply create_each_wp|]. simpl. intros _ w2 [Hm2 Ho2].
  eapply wp_mono; [by apply update_each_wp|]. simpl. intros _ w3 [Hm3 Ho3].
  split; [|by eauto using only_spire_trans].
  intros k. destruct (Hm3 k) as [->|(e & He & <- & ->)].
  - destruct (Hm2 k) as [->|(e & He & <- & ->)].
    + destruct (Hm1 k) as [->|(e & He & <- & ->)]; [by left|]. right; right.
      apply Hd in He as [Hcur Hdec]; [|done]. eauto.
    + right; left. exists e. apply Hc in He as [? _]; done.
  - right; left. exists e. apply Hu in He as [? _]; done.
Qed.
End apply.

(** ** A server that does what it is asked *)

Section reliable.
Context `{!SpiffeID, !LabelSelectors, !Regexps, !MapOrder, !Templates, !FloatToInt}.
Context {K S : Type} `{!Kube K, !Client S, !ClientSpec S, !ReliableClient S}.
Implicit Types (w : World K S) (l : list Entry) (m : gmap string Entry).

(** The entries of [l] by their ID. *)
Definition by_id l : gmap string Entry := list_to_map ((λ e, (Entry_ID e, e)) <$> l).

Lemma by_id_nil : by_id [] = ∅.
Proof. done. Qed.

Lemma lookup_by_id l k e :
  NoDup (Entry_ID <$> l) → by_id l !! k = Some e ↔ e ∈ l ∧ Entry_ID e = k.
Proof.
  intros Hnd. unfold by_id. rewrite <-elem_of_list_to_map.
  - rewrite list_elem_of_fmap. naive_solver.
  - by rewrite <-list_fmap_compose.
Qed.

Lemma lookup_by_id_None l k : by_id l !! k = None ↔ k ∉ Entry_ID <$> l.
Proof.
  unfold by_id. rewrite <-not_elem_of_list_to_map. by rewrite <-list_fmap_compose.
Qed.

Lemma by_id_snoc l e : Entry_ID e ∉ Entry_ID <$> l → by_id (l ++ [e]) = <[Entry_ID e := e]> (by_id l).
Proof.
  intros Hid. unfold by_id. rewrite fmap_app, list_to_map_app. simpl.
  rewrite insert_empty. apply map_eq. intros k.
  destruct (decide (k = Entry_ID e)) as [->|Hne].
  - rewrite lookup_insert_eq. apply lookup_union_Some_raw. right.
    rewrite lookup_singleton_eq. split; [|done]. by apply lookup_by_id_None.
  - rewrite lookup_insert_ne by done. rewrite lookup_union_l; [done|].
    by rewrite lookup_singleton_ne.
Qed.

(** In a list without repeated IDs, the ID after [done] is new. *)
Lemma NoDup_ids_middle done e todo :
  NoDup (Entry_ID <$> done ++ e :: todo) → Entry_ID e ∉ Entry_ID <$> done.
Proof.
  rewrite fmap_app, fmap_cons. intros (_ & Hd & _)%NoDup_app Hin. by apply (Hd _ Hin); left.
Qed.

Lemma delete_each_ok l w :
  NoDup (Entry_ID <$> l) → healthy (spire w) → (∀ e, e ∈ l → is_Some (registered w !! Entry_ID e)) →
  wp (for_each l (λ e, on_spire (DeleteEntry (Entry_ID e));; mret tt))
    (λ _ w', (healthy (spire w') ∧ registered w' = registered w ∖ by_id l) ∧ only_spire w w') w.
Proof.
  intros Hnd Hh Hl.
  apply (wp_for_each_spire (λ l s, healthy s ∧ store s = registered w ∖ by_id l)).
  - split; [done|]. by rewrite by_id_nil, map_difference_empty.
  - intros done e todo s -> [Hs Hst]. pose proof (NoDup_ids_middle _ _ _ Hnd) as Hnew.
    eapply wp_mono; [apply DeleteEntry_ok; [done|]|].
    + rewrite Hst. destruct (Hl e) as [e' He']; [set_solver|]. exists e'.
      apply lookup_difference_Some. split; [done|]. by apply lookup_by_id_None.
    + simpl. intros _ s' (? & _ & ->). split; [done|]. rewrite by_id_snoc by done.
      rewrite Hst. apply map_eq. intros k. apply option_eq. intros e'.
      rewrite lookup_delete_Some, !lookup_difference_Some, lookup_insert_None. naive_solver.
Qed.

(** The precondition of creating the entries of [l] in a store [m]. *)
Definition creatable l m : Prop :=
  Forall sendable l ∧ NoDup (Entry_ID <$> l) ∧
  (∀ e, e ∈ l → m !! Entry_ID e = None) ∧
  (∀ e e', e ∈ l → e' ∈ l → similar e e' → e = e').

(** The entries of [l] that [m] has nothing like. *)
Definition fresh_entries l m : list Entry := filter (λ e, ¬ taken e m) l.

Lemma fresh_entries_NoDup l m : NoDup (Entry_ID <$> l) → NoDup (Entry_ID <$> fresh_entries l m).
Proof. intros Hnd. eapply sublist_NoDup; [exact Hnd|]. apply fmap_sublist, sublist_filter. Qed.

Lemma create_each_ok l w :
  creatable l (registered w) → healthy (spire w) →
  wp (for_each l (λ e, on_spire (CreateEntry e);; mret tt))
    (λ _ w', (healthy (spire w') ∧
      registered w' = by_id (fresh_entries l (registered w)) ∪ registered w) ∧ only_spire w w') w.
Proof.
  intros (Hsend & Hnd & Hnew & Hdist) Hh.
  apply (wp_for_each_spire (λ l s, healthy s ∧
    store s = by_id (fresh_entries l (registered w)) ∪ registered w)).
  - split; [done|]. unfold fresh_entries. by rewrite filter_nil, by_id_nil, (left_id_L ∅ (∪)).
  - intros done e todo s -> [Hs Hst]. pose proof (NoDup_ids_middle _ _ _ Hnd) as Hid.
    assert (NoDup (Entry_ID <$> done)) as Hnd'.
    { rewrite fmap_app in Hnd. by apply NoDup_app in Hnd as [? _]. }
    assert (Entry_ID e ∉ Entry_ID <$> fresh_entries done (registered w)) as Hid'.
    { intros (d & Hd & [_ Hin]%list_elem_of_filter)%list_elem_of_fmap. apply Hid. rewrite Hd.
      by apply list_elem_of_fmap_2. }
    assert (sendable e) as Hse by (rewrite Forall_app, Forall_cons in Hsend; naive_solver).
    assert (store s !! Entry_ID e = None) as Hnone.
    { rewrite Hst, lookup_union_None. split; [by apply lookup_by_id_None|]. apply Hnew. set_solver. }
    unfold fresh_entries. rewrite filter_app, filter_cons, filter_nil.
    destruct (decide (taken e (registered w))) as [(k & e' & Hk & Hse')|Hfree].
    + rewrite decide_False by (intros Hno; apply Hno; by exists k, e'). rewrite app_nil_r.
      eapply wp_mono; [apply CreateEntry_taken; [done..|]|].
      * exists k, e'. split; [|done]. rewrite Hst. apply lookup_union_Some_raw. right.
        split; [|done]. apply lookup_by_id_None.
        intros (d & -> & [_ Hin]%list_elem_of_filter)%list_elem_of_fmap.
        rewrite (Hnew d) in Hk; [done|set_solver].
      * simpl. intros _ s' (? & _ & ->). done.
    + rewrite decide_True by done. eapply wp_mono; [apply CreateEntry_ok; [done..|]|].
      * intros (k & e' & Hk & Hsim). rewrite Hst in Hk.
        apply lookup_union_Some_raw in Hk as [Hk|[_ Hk]]; [|by apply Hfree; exists k, e'].
        apply lookup_by_id in Hk as [[_ Hin]%list_elem_of_filter _]; [|by apply fresh_entries_NoDup].
        apply Hid. rewrite (Hdist e e') by set_solver. by apply list_elem_of_fmap_2.
      * simpl. intros _ s' (? & _ & ->). split; [done|].
        rewrite by_id_snoc by done. by rewrite Hst, insert_union_l.
Qed.

Lemma update_each_ok l w :
  Forall sendable l → NoDup (Entry_ID <$> l) → (∀ e, e ∈ l → is_Some (registered w !! Entry_ID e)) →
  healthy (spire w) →
  wp (for_each l (λ e, on_spire (UpdateEntry e);; mret tt))
    (λ _ w', (healthy (spire w') ∧ registered w' = by_id l ∪ registered w) ∧ only_spire w w') w.
Proof.
  intros Hsend Hnd Hreg Hh.
  apply (wp_for_each_spire (λ l s, healthy s ∧ store s = by_id l ∪ registered w)).
  - split; [done|]. by rewrite by_id_nil, (left_id_L ∅ (∪)).
  - intros done e todo s -> [Hs Hst]. pose proof (NoDup_ids_middle _ _ _ Hnd) as Hid.
    eapply wp_mono; [apply UpdateEntry_ok; [done|..]|].
    + rewrite Forall_app, Forall_cons in Hsend. naive_solver.
    + rewrite Hst. apply lookup_union_is_Some. right. apply Hreg. set_solver.
    + simpl. intros _ s' (? & _ & ->). split; [done|]. rewrite by_id_snoc by done.
      by rewrite Hst, insert_union_l.
Qed.

(** *** The three loops together *)

(** What is left of [m] when the entries that are current and not declared are
    deleted. *)
Definition undeleted (s : entriesState) m : gmap string Entry :=
  filter (λ p, current s !! p.1 = None ∨ is_Some (declared s !! p.1)) m.

(** What is registered under [k] afterwards: a managed key holds what is
    declared, or the entry already there when it is equal, or nothing, when the
    server kept an entry like the one declared under another ID; any other key
    holds what it held. *)
Definition target (s : entriesState) m (k : string) : option Entry :=
  match declared s !! k, current s !! k with
  | Some d, Some c => Some (if entriesEqual c d then c else d)
  | Some d, None => if decide (taken d (undeleted s m)) then None else Some d
  | None, Some _ => None
  | None, None => m !! k
  end.

(** The state describes the server: what is current is registered, what is
    declared and not current is not. *)
Definition describes (s : entriesState) m : Prop :=
  (∀ k c, current s !! k = Some c → m !! k = Some c) ∧
  (∀ k, is_Some (declared s !! k) → current s !! k = None → m !! k = None).

Lemma similar_declared s k k' d d' :
  state_wf s → declared s !! k = Some d → declared s !! k' = Some d' → similar d d' → d = d'.
Proof.
  intros Hwf Hd Hd' (Hs & Hp & Hsel).
  destruct (wf_declared _ Hwf _ _ Hd) as [_ Hk], (wf_declared _ Hwf _ _ Hd') as [_ Hk'].
  assert (k = k') as ->; [|congruence]. rewrite Hk, Hk'. unfold declared_ID, MakeEntryKey.
  by rewrite (makeEntryKey_perm d d').
Qed.

Context `{!MapOrderLaws}.

Lemma by_id_toUpdate s k :
  state_wf s → by_id (GetChanges s).1.2 !! k =
    match declared s !! k, current s !! k with
    | Some d, Some c => if entriesEqual c d then None else Some d
    | _, _ => None
    end.
Proof.
  intros Hwf. destruct (GetChanges_NoDup s Hwf) as (_ & Hnd & _). apply option_eq. intros e.
  rewrite lookup_by_id, elem_of_toUpdate by done. split.
  - intros [(Hd & c & Hc & Heq) <-]. by rewrite Hd, Hc, Heq.
  - destruct (declared s !! k) as [d|] eqn:Hd; [|done].
    destruct (wf_declared _ Hwf _ _ Hd) as [<- _].
    destruct (current s !! Entry_ID d) as [c|] eqn:Hc; [|done].
    destruct (entriesEqual c d) eqn:Heq; [done|]. intros [= <-]. eauto.
Qed.

Lemma by_id_toDelete s k :
  state_wf s → by_id (GetChanges s).2 !! k =
    match declared s !! k with None => current s !! k | Some _ => None end.
Proof.
  intros Hwf. destruct (GetChanges_NoDup s Hwf) as (_ & _ & Hnd). apply option_eq. intros e.
  rewrite lookup_by_id, elem_of_toDelete by done. split.
  - intros [[Hc Hd] <-]. by rewrite Hd.
  - destruct (declared s !! k) eqn:Hd; [done|]. intros Hc.
    by rewrite (wf_current _ Hwf _ _ Hc).
Qed.

Lemma undeleted_difference s m :
  state_wf s → m ∖ by_id (GetChanges s).2 = undeleted s m.
Proof.
  intros Hwf. apply map_eq. intros k. apply option_eq. intros e. unfold undeleted.
  rewrite lookup_difference_Some, map_lookup_filter_Some, by_id_toDelete by done. simpl.
  destruct (declared s !! k) as [d|]; [naive_solver|].
  split; intros [? Hc]; (split; [done|]); [by left|]. destruct Hc as [?|[? ?]]; done.
Qed.

(** Deleting first frees the registrations the new entries may collide with. *)
Lemma creatable_toCreate s m :
  state_wf s → declared_sendable s → describes s m → creatable (GetChanges s).1.1 (undeleted s m).
Proof.
  intros Hwf Hsend (Hcur & Hnew). destruct (GetChanges_NoDup s Hwf) as (Hnd & _).
  split_and!; [by apply toCreate_sendable|done|..].
  - intros e [Hd Hc]%elem_of_toCreate; [|done]. apply map_lookup_filter_None. left. eauto.
  - intros e e' [Hd _]%elem_of_toCreate [Hd' _]%elem_of_toCreate; [|done..].
    by eapply similar_declared.
Qed.

Lemma by_id_fresh s m k :
  state_wf s → by_id (fresh_entries (GetChanges s).1.1 m) !! k =
    match declared s !! k, current s !! k with
    | Some d, None => if decide (taken d m) then None else Some d
    | _, _ => None
    end.
Proof.
  intros Hwf. destruct (GetChanges_NoDup s Hwf) as (Hnd & _). apply option_eq. intros e.
  rewrite lookup_by_id by (by apply fresh_entries_NoDup). unfold fresh_entries.
  rewrite list_elem_of_filter, elem_of_toCreate by done. split.
  - intros [(Hfree & Hd & Hc) <-]. by rewrite Hc, Hd, decide_False.
  - destruct (declared s !! k) as [d|] eqn:Hd; [|done].
    destruct (current s !! k) eqn:Hc; [done|]. case_decide as Hfree; [done|]. intros [= <-].
    destruct (wf_declared _ Hwf _ _ Hd) as [Hid _]. by rewrite Hid.
Qed.

Lemma applyEntryChanges_ok s w :
  state_wf s → declared_sendable s → describes s (registered w) → healthy (spire w) →
  wp (applyEntryChanges s)
    (λ _ w', (healthy (spire w') ∧ ∀ k, registered w' !! k = target s (registered w) k) ∧
      only_spire w w') w.
Proof.
  intros Hwf Hsend Hdesc Hh. unfold applyEntryChanges.
  pose proof (creatable_toCreate s _ Hwf Hsend Hdesc) as Hcr.
  pose proof (toUpdate_sendable s Hwf Hsend) as Hus.
  destruct (GetChanges_NoDup s Hwf) as (_ & Hnu & Hnd).
  pose proof (λ m k, by_id_fresh s m k Hwf) as Hbc. pose proof (λ k, by_id_toUpdate s k Hwf) as Hbu.
  pose proof (λ k, by_id_toDelete s k Hwf) as Hbd.
  pose proof (undeleted_difference s (registered w) Hwf) as Hund.
  pose proof (elem_of_toUpdate s) as Hu. pose proof (elem_of_toDelete s) as Hd.
  destruct (GetChanges s) as [[cr up] de]. simpl in *. destruct Hdesc as (Hcur & Hnew).
  apply wp_bind. eapply wp_mono; [apply delete_each_ok; [done..|]|].
  { intros e He. apply Hd in He as [He _]; eauto. }
  simpl. intros _ w1 [[Hh1 Hr1] Ho1]. rewrite Hund in Hr1.
  apply wp_bind. eapply wp_mono; [apply create_each_ok; [by rewrite Hr1|done]|].
  simpl. intros _ w2 [[Hh2 Hr2] Ho2].
  eapply wp_mono; [apply update_each_ok; [done..| |done]|].
  { intros e He. apply Hu in He as (Hde & c & Hc & _); [|done]. rewrite Hr2, Hr1.
    apply lookup_union_is_Some. right. exists c. apply map_lookup_filter_Some. eauto. }
  simpl. intros _ w3 [[Hh3 Hr3] Ho3].
  split; [|by eauto using only_spire_trans]. split; [done|]. intros k.
  assert (undeleted s (registered w) !! k =
    match (match declared s !! k with None => current s !! k | Some _ => None end) with
    | None => registered w !! k | Some _ => None end) as Hund'
    by (by rewrite <-Hund, lookup_difference, Hbd).
  rewrite Hr3, Hr2, Hr1, !lookup_union, Hbu, Hbc, Hund'. unfold target.
  destruct (declared s !! k) as [d|] eqn:Hdk, (current s !! k) as [c|] eqn:Hck.
  - rewrite (Hcur _ _ Hck). by destruct (entriesEqual c d).
  - rewrite (Hnew k) by eauto. by case_decide.
  - done.
  - by destruct (registered w !! k).
Qed.
End reliable.
