(* ===== verification/DeclareFacts.v ===== *)
(** * From pods to declared entries

    What the nested loops of the full reconciliation declare: in any world,
    entries rendered for a selected pod ([declarable]); in a world that stays
    as it is meanwhile, exactly those of [desired_entries], a function of the
    cluster state. *)

From S2P Require Export ApplyFacts.

Section declare.
Context `{!SpiffeID, !LabelSelectors, !Regexps, !MapOrder, !Templates, !FloatToInt}.
Context {K S : Type} `{!Kube K, !Client S}.
Variable r : MainReconciler.
Implicit Types (w : World K S) (identity : WorkloadIdentity) (pod : Pod)
  (state : entriesState) (conn : ClusterConnection).

(** [w'] differs from [w] at the outside only. *)
Definition only_kube w w' : Prop := w' = set_kube (kube w') w.

Lemma only_kube_refl w : only_kube w w.
Proof. unfold only_kube. by rewrite set_kube_id. Qed.

Lemma only_kube_trans w1 w2 w3 : only_kube w1 w2 → only_kube w2 w3 → only_kube w1 w3.
Proof. unfold only_kube. intros Hw Hw'. rewrite Hw', Hw. by destruct w1. Qed.

Lemma only_kube_set k w : only_kube w (set_kube k w).
Proof. by destruct w. Qed.

(** Declaring the entries of a list one after the other. *)
Definition add_all (es : list Entry) state : entriesState :=
  foldl (λ s e, AddDeclared e s) state es.

Lemma add_all_app es es' state : add_all (es ++ es') state = add_all es' (add_all es state).
Proof. apply foldl_app. Qed.

(** ** In any world *)

(** [e] is what the identity asks, while the outside goes from [k0] to [k1], for
    a pod it selects in the cluster: the pod is in the informer's store, runs,
    is not being deleted and has a node, which is then looked up, and [e] is
    rendered for them. *)
Record entry_for (k0 k1 : K) identity conn (e : Entry) : Prop := {
  for_cluster : shouldProcessIdentity identity (Cluster conn) = true;
  for_namespace : isNamespaceIgnored r (Spec_Namespace (WI_Spec identity)) = false;
  for_pod : ∃ podSelector pod node kp kn,
    LabelSelectorAsSelector (PodSelector (WI_Spec identity)) = OK podSelector ∧
    evolves k0 kp ∧ evolves kp kn ∧ evolves kn k1 ∧
    ObjPod pod ∈ (Store_List (PodInformer conn) kp).1 ∧
    Pod_Namespace pod = Spec_Namespace (WI_Spec identity) ∧
    Matches podSelector (Labels (Pod_ObjectMeta pod)) = true ∧
    pod_is_placed pod = true ∧
    (Nodes_Get (K8sClient conn) (NodeName (Pod_Spec pod)) kn).1 = OK node ∧
    RenderEntry identity (Cluster conn) pod node (TrustDomain_String (MR_TrustDomain r)) = OK e;
}.

Lemma entry_for_mono k0 k1 k0' k1' identity conn e :
  evolves k0' k0 → evolves k1 k1' → entry_for k0 k1 identity conn e →
  entry_for k0' k1' identity conn e.
Proof.
  intros Hlo Hhi [? ? (sel & pod & node & kp & kn & ? & ? & ? & ? & ?)]. split; [done..|].
  exists sel, pod, node, kp, kn. split_and!; try naive_solver; by etransitivity.
Qed.

Definition declarable (conns : list ClusterConnection) (identities : list WorkloadIdentity)
    (k0 k1 : K) (e : Entry) : Prop :=
  ∃ conn identity, conn ∈ conns ∧ identity ∈ identities ∧ entry_for k0 k1 identity conn e.

(** A computation that declares entries with property [P], which may refer to
    the state of the outside that is reached. *)
Definition declares (P : K → Entry → Prop) state w : entriesState → World K S → Prop :=
  λ state' w', only_kube w w' ∧ evolves (kube w) (kube w') ∧
    ∃ es, Forall (P (kube w')) es ∧ state' = add_all es state.

(** What has been seen stays seen. *)
Definition persistent (P : K → Entry → Prop) : Prop := ∀ k k' e, evolves k k' → P k e → P k' e.

Lemma entry_for_persistent k0 identity conn : persistent (λ k1, entry_for k0 k1 identity conn).
Proof. intros k k' e Hk. by apply entry_for_mono; [apply rtc_refl|]. Qed.

Lemma declarable_persistent conns identities k0 : persistent (declarable conns identities k0).
Proof.
  intros k k' e Hk (conn & identity & ? & ? & Hfor). exists conn, identity.
  split_and!; [done..|]. by eapply entry_for_persistent.
Qed.

Lemma declares_nothing P state w : declares P state w state w.
Proof. split; [apply only_kube_refl|]. split; [apply rtc_refl|]. by exists []. Qed.

Lemma declares_impl (P Q : K → Entry → Prop) state w state' w' :
  (∀ e, P (kube w') e → Q (kube w') e) → declares P state w state' w' → declares Q state w state' w'.
Proof.
  intros HPQ (Ho & Hk & es & Hes & ->). split_and!; [done..|]. exists es. split; [|done].
  eapply Forall_impl; [done|]. apply HPQ.
Qed.

Lemma wp_fold_declares {A} (P : K → Entry → Prop) (l : list A) body state w :
  persistent P →
  (∀ x state w', x ∈ l → evolves (kube w) (kube w') →
     wp (body x state) (declares P state w') w') →
  wp (fold_each l state body) (declares P state w) w.
Proof.
  intros HP Hbody. apply (wp_fold_each (λ _ state' w', declares P state w state' w')).
  - apply declares_nothing.
  - intros done x todo state1 w1 -> (Ho & Hk & es1 & H1' & ->).
    eapply wp_mono; [apply Hbody; [set_solver|done]|]. intros state2 w2 (Ho2 & Hk2 & es2 & H2' & ->).
    split; [by eapply only_kube_trans|]. split; [by etransitivity|]. exists (es1 ++ es2).
    rewrite Forall_app, add_all_app. split; [|done]. split; [|done].
    eapply Forall_impl; [done|]. intros e. by apply HP.
Qed.

Lemma elem_of_select_pods identity podSelector objs pod :
  pod ∈ select_pods identity podSelector objs ↔ ObjPod pod ∈ objs ∧
    Pod_Namespace pod = Spec_Namespace (WI_Spec identity) ∧
    Matches podSelector (Labels (Pod_ObjectMeta pod)) = true.
Proof.
  unfold select_pods. rewrite list_elem_of_omap. split.
  - intros (obj & Hobj & Hsel). destruct obj as [p| |]; [|done..].
    case_bool_decide as Hns; [done|]. destruct (Matches _ _) eqn:Hm; [|done].
    simplify_eq/=. done.
  - intros (Hin & Hns & Hm). exists (ObjPod pod). split; [done|].
    by rewrite bool_decide_false, Hm by (intros Hne; apply Hne, Hns).
Qed.

(** The entry a pod gets, given the outside at the moment the node is read. *)
Definition pod_entry (k : K) identity conn pod : option Entry :=
  if pod_is_placed pod then
    node ← to_option (Nodes_Get (K8sClient conn) (NodeName (Pod_Spec pod)) k).1;
    to_option (RenderEntry identity (Cluster conn) pod node (TrustDomain_String (MR_TrustDomain r)))
  else None.

(** One round of the loop over the pods declares that entry. *)
Lemma processPod_run identity conn pod state w :
  processPod r identity conn pod state w =
    (Ret (add_all (option_list (pod_entry (kube w) identity conn pod)) state),
     if pod_is_placed pod
     then set_kube (Nodes_Get (K8sClient conn) (NodeName (Pod_Spec pod)) (kube w)).2 w else w).
Proof.
  unfold processPod, pod_entry, pod_is_placed. rewrite !bool_decide_not.
  destruct (bool_decide (Pod_Phase pod = PodRunning)); [|done]. simpl.
  destruct (bool_decide (DeletionTimestamp (Pod_ObjectMeta pod) = None)); [|done]. simpl.
  destruct (bool_decide (NodeName (Pod_Spec pod) = "")); [done|]. simpl.
  unfold mbind, GoM_bind, outside. destruct (Nodes_Get _ _ _) as [[node|err] k]; simpl; [|done].
  by destruct (RenderEntry _ _ _ _ _).
Qed.

Lemma pod_entry_Some k identity conn pod e :
  pod_entry k identity conn pod = Some e →
  pod_is_placed pod = true ∧ ∃ node,
    (Nodes_Get (K8sClient conn) (NodeName (Pod_Spec pod)) k).1 = OK node ∧
    RenderEntry identity (Cluster conn) pod node (TrustDomain_String (MR_TrustDomain r)) = OK e.
Proof.
  unfold pod_entry. destruct (pod_is_placed pod); [|done].
  destruct (Nodes_Get _ _ _).1 as [node|err]; simpl; [|done].
  destruct (RenderEntry _ _ _ _ _) eqn:He; intros; simplify_eq/=; eauto.
Qed.

(** An entry of a pod that the store held at [kp] and whose node is looked up
    at [kn]. *)
Lemma pod_entry_for k0 kp kn k1 identity conn podSelector pod e :
  shouldProcessIdentity identity (Cluster conn) = true →
  isNamespaceIgnored r (Spec_Namespace (WI_Spec identity)) = false →
  LabelSelectorAsSelector (PodSelector (WI_Spec identity)) = OK podSelector →
  pod ∈ select_pods identity podSelector (Store_List (PodInformer conn) kp).1 →
  evolves k0 kp → evolves kp kn → evolves kn k1 →
  pod_entry kn identity conn pod = Some e → entry_for k0 k1 identity conn e.
Proof.
  intros Hsh Hns Hsel (Hin & Hpns & Hm)%elem_of_select_pods Hp Hn Hend
    (Hplaced & node & Hnode & He)%pod_entry_Some.
  split; [done..|]. by exists podSelector, pod, node, kp, kn.
Qed.

Lemma processWorkloadIdentity_wp k0 identity conn state w :
  evolves k0 (kube w) → shouldProcessIdentity identity (Cluster conn) = true →
  wp (processWorkloadIdentity r identity conn state)
    (declares (λ k1, entry_for k0 k1 identity conn) state w) w.
Proof.
  intros Hk0 Hshould. unfold processWorkloadIdentity, getPodsFromInformer.
  destruct (isNamespaceIgnored _ _) eqn:Hns; [apply declares_nothing|].
  destruct (LabelSelectorAsSelector _) as [podSelector|err] eqn:Hsel;
    [|apply wp_bind, wp_ret, declares_nothing].
  apply wp_bind, wp_bind, wp_outside, wp_ret. set (w1 := set_kube _ w).
  assert (evolves (kube w) (kube w1)) as Hk1 by (apply rtc_once, step_Store_List).
  eapply wp_mono.
  - apply (wp_fold_declares (λ k1, entry_for k0 k1 identity conn)); [apply entry_for_persistent|].
    intros pod state' w2 Hpod Hk2. unfold wp. rewrite processPod_run. split; [|split].
    + destruct (pod_is_placed pod); [apply only_kube_set|apply only_kube_refl].
    + destruct (pod_is_placed pod); [apply rtc_once, step_Nodes_Get|apply rtc_refl].
    + eexists. split; [|done]. apply Forall_forall. intros e He.
      destruct (pod_entry _ _ _ _) as [e'|] eqn:He'; [|by apply not_elem_of_nil in He].
      apply list_elem_of_singleton in He as ->.
      eapply (pod_entry_for k0 (kube w) (kube w2)); [done..|by etransitivity| |done].
      destruct (pod_is_placed pod); [apply rtc_once, step_Nodes_Get|apply rtc_refl].
  - intros state' w' (Ho & Hk & Hes).
    split; [eapply only_kube_trans; [apply only_kube_set|done]|]. split; [by etransitivity|done].
Qed.

Lemma processCluster_wp k0 conn identities state w :
  evolves k0 (kube w) →
  wp (processCluster r conn identities state) (declares (declarable [conn] identities k0) state w) w.
Proof.
  intros Hk0. apply wp_fold_declares; [apply declarable_persistent|]. intros identity state' w' Hin Hk.
  destruct (shouldProcessIdentity _ _) eqn:Hshould; simpl; [|apply declares_nothing].
  eapply wp_mono; [apply (processWorkloadIdentity_wp k0); [by etransitivity|done]|].
  intros state'' w''. apply declares_impl. intros e He. exists conn, identity. set_solver.
Qed.

Lemma process_all_wp k0 conns identities state w :
  evolves k0 (kube w) →
  wp (fold_each conns state (λ conn state, processCluster r conn identities state))
    (declares (declarable conns identities k0) state w) w.
Proof.
  intros Hk0. apply wp_fold_declares; [apply declarable_persistent|]. intros conn state' w' Hin Hk.
  eapply wp_mono; [apply (processCluster_wp k0); by etransitivity|].
  intros state'' w''. apply declares_impl. intros e (c & identity & ->%list_elem_of_singleton & ? & ?).
  by exists conn, identity.
Qed.

(** ** In a world that stays as it is *)

(** The entries the cluster state asks for. *)
Definition identity_entries (k : K) conn identity : list Entry :=
  if isNamespaceIgnored r (Spec_Namespace (WI_Spec identity)) then []
  else match LabelSelectorAsSelector (PodSelector (WI_Spec identity)) with
       | ERR _ => []
       | OK podSelector =>
           omap (pod_entry k identity conn)
             (select_pods identity podSelector (Store_List (PodInformer conn) k).1)
       end.

Definition cluster_entries (k : K) (identities : list WorkloadIdentity) conn : list Entry :=
  mjoin (identity_entries k conn <$>
    filter (λ identity, shouldProcessIdentity identity (Cluster conn) = true) identities).

Definition desired_entries (k : K) (conns : list ClusterConnection)
    (identities : list WorkloadIdentity) : list Entry :=
  mjoin (cluster_entries k identities <$> conns).

(** A loop whose rounds declare [f x] and leave the world alone. *)
Lemma fold_each_quiet {A} (f : A → list Entry) (l : list A) body state w :
  (∀ x state, x ∈ l → body x state w = (Ret (add_all (f x) state), w)) →
  fold_each l state body w = (Ret (add_all (mjoin (f <$> l)) state), w).
Proof.
  revert state. induction l as [|x l IH]; intros state Hbody; [done|].
  cbn [fold_each]. unfold mbind, GoM_bind. rewrite Hbody by set_solver.
  rewrite fmap_cons. cbn [mjoin list_join]. rewrite add_all_app.
  apply IH. intros. apply Hbody. set_solver.
Qed.

Lemma mjoin_option_list {A B} (f : A → option B) (l : list A) :
  mjoin ((λ x, option_list (f x)) <$> l) = omap f l.
Proof. induction l as [|x l IH]; [done|]. csimpl. rewrite IH. by destruct (f x). Qed.

Lemma mjoin_filter {A B} (b : A → bool) (f : A → list B) (l : list A) :
  mjoin ((λ x, if b x then f x else []) <$> l) = mjoin (f <$> filter (λ x, b x = true) l).
Proof.
  induction l as [|x l IH]; [done|]. csimpl. rewrite filter_cons, IH.
  destruct (b x) eqn:Hb; [by rewrite decide_True|by rewrite decide_False].
Qed.

Context `{!QuietKube K}.

Lemma processWorkloadIdentity_quiet identity conn state w :
  processWorkloadIdentity r identity conn state w =
    (Ret (add_all (identity_entries (kube w) conn identity) state), w).
Proof.
  unfold processWorkloadIdentity, identity_entries, getPodsFromInformer.
  destruct (isNamespaceIgnored _ _); [done|].
  destruct (LabelSelectorAsSelector _) as [podSelector|err]; [|done].
  unfold mbind, GoM_bind, outside, mret, GoM_ret.
  pose proof (quiet_Store_List (PodInformer conn) (kube w)) as Hq.
  destruct (Store_List _ _) as [objs k]. simpl in *. subst k. rewrite set_kube_id.
  rewrite <-mjoin_option_list. apply fold_each_quiet. intros pod state' _.
  rewrite processPod_run. destruct (pod_is_placed pod); [|done].
  by rewrite quiet_Nodes_Get, set_kube_id.
Qed.

Lemma process_all_quiet conns identities state w :
  fold_each conns state (λ conn state, processCluster r conn identities state) w =
    (Ret (add_all (desired_entries (kube w) conns identities) state), w).
Proof.
  unfold desired_entries. apply fold_each_quiet. intros conn state' _.
  unfold processCluster, cluster_entries. rewrite <-mjoin_filter. apply fold_each_quiet.
  intros identity state'' _. destruct (shouldProcessIdentity _ _); simpl; [|done].
  apply processWorkloadIdentity_quiet.
Qed.

(** ** The order of the loops *)

Lemma mjoin_fmap_perm {A B} (f g : A → list B) (l l' : list A) :
  l ≡ₚ l' → (∀ x, f x ≡ₚ g x) → mjoin (f <$> l) ≡ₚ mjoin (g <$> l').
Proof.
  intros Hl Hfg. rewrite Hl. clear l Hl. induction l' as [|x l IH]; [done|]. csimpl.
  by rewrite Hfg, IH.
Qed.

Lemma desired_entries_perm (k : K) conns conns' identities identities' :
  conns' ≡ₚ conns → identities' ≡ₚ identities →
  desired_entries k conns' identities' ≡ₚ desired_entries k conns identities.
Proof.
  intros Hc Hi. apply mjoin_fmap_perm; [done|]. intros conn. unfold cluster_entries. by rewrite Hi.
Qed.

(** Entries with the same ID, under the prefix [p], are the same. *)
Definition distinct_IDs (p : string) (es : list Entry) : Prop :=
  ∀ e e', e ∈ es → e' ∈ es → declared_ID p e = declared_ID p e' → e = e'.

Lemma AddDeclared_comm e e' state :
  (declared_ID (entryPrefix state) e = declared_ID (entryPrefix state) e' → e = e') →
  AddDeclared e (AddDeclared e' state) = AddDeclared e' (AddDeclared e state).
Proof.
  intros Heq. unfold AddDeclared. simpl. f_equal.
  destruct (decide (declared_ID (entryPrefix state) e = declared_ID (entryPrefix state) e')) as [Hid|Hne].
  - by rewrite (Heq Hid).
  - by rewrite insert_insert_ne.
Qed.

Lemma add_all_perm es es' state :
  es ≡ₚ es' → distinct_IDs (entryPrefix state) es → add_all es state = add_all es' state.
Proof.
  intros Hp. revert state. induction Hp as [|e l l' _ IH|e e' l|l l' l'' Hp IH _ IH']; intros state Hd.
  - done.
  - simpl. apply IH. intros x y Hx Hy. apply Hd; by right.
  - simpl. rewrite AddDeclared_comm; [done|]. apply Hd; set_solver.
  - rewrite IH by done. apply IH'. intros x y. rewrite <-Hp. apply Hd.
Qed.
End declare.
