(* ===== verification/ReconcileFacts.v ===== *)
(** * The parts of the full reconciliation, put together *)

From S2P Require Export DeclareFacts.

Section state.
Context `{!SpiffeID, !Regexps}.
Variable r : MainReconciler.
Implicit Types (e c d : Entry) (es : list Entry) (s : entriesState).

(** The IDs the registrar regards as its own. *)
Definition managed (k : string) : bool :=
  if bool_decide (EntryIDPrefix r = "") then true else HasPrefix k (EntryIDPrefix r).

Lemma shouldProcessEntry_managed e : shouldProcessEntry r e = managed (Entry_ID e).
Proof. done. Qed.

Lemma managed_declared_ID e : managed (declared_ID (EntryIDPrefix r) e) = true.
Proof. unfold managed. case_bool_decide; [done|]. apply declared_ID_prefix. Qed.

(** ** The current entries *)

Lemma add_current_entries_keeps es s :
  declared (add_current_entries r es s) = declared s ∧
  entryPrefix (add_current_entries r es s) = entryPrefix s ∧
  (state_wf s → state_wf (add_current_entries r es s)).
Proof.
  revert s. induction es as [|e es IH]; intros s; [done|]. simpl.
  destruct (IH (if shouldProcessEntry r e then AddCurrent e s else s)) as (Hd & Hp & Hw).
  destruct (shouldProcessEntry r e); [|done].
  split_and!; [done..|]. intros. by apply Hw, state_wf_AddCurrent.
Qed.

Lemma current_add_current_entries es s k :
  NoDup (Entry_ID <$> es) →
  (∀ e, e ∈ es → current s !! Entry_ID e = None) →
  ∀ c, current (add_current_entries r es s) !! k = Some c ↔
    current s !! k = Some c ∨ (c ∈ es ∧ Entry_ID c = k ∧ managed k = true).
Proof.
  revert s. induction es as [|e es IH]; intros s Hnd Hnew c; simpl; [set_solver|].
  rewrite fmap_cons in Hnd. apply NoDup_cons in Hnd as [He Hnd].
  rewrite IH; [|done|].
  - rewrite shouldProcessEntry_managed. destruct (managed (Entry_ID e)) eqn:Hm; simpl.
    + rewrite lookup_insert_Some, elem_of_cons. split.
      * intros [[[<- <-]|[Hne Hc]]|Hin]; [by right; auto|by left|by right; naive_solver].
      * intros [Hc|([->|Hin] & <- & Hk)]; [|by left; left|by right].
        left; right. split; [|done]. intros <-.
        by rewrite Hnew in Hc by set_solver.
    + rewrite elem_of_cons. split; [naive_solver|].
      intros [Hc|([->|Hin] & <- & Hk)]; [by left|congruence|by right].
  - intros e' He'. rewrite shouldProcessEntry_managed.
    destruct (managed (Entry_ID e)); [|apply Hnew; set_solver]. simpl.
    rewrite lookup_insert_ne; [apply Hnew; set_solver|].
    intros Heq. apply He. rewrite Heq. by apply list_elem_of_fmap_2.
Qed.

(** An entry of a complete listing is the one registered under its ID. *)
Lemma elem_of_listing (m : gmap string Entry) es e :
  (∀ k e, m !! k = Some e → Entry_ID e = k) → es ≡ₚ (map_to_list m).*2 →
  e ∈ es ↔ m !! Entry_ID e = Some e.
Proof.
  intros Hids Hes. rewrite Hes, list_elem_of_fmap. split.
  - intros ([k e'] & -> & Hin%elem_of_map_to_list). simpl. by rewrite (Hids _ _ Hin).
  - intros Hin. exists (Entry_ID e, e). by rewrite elem_of_map_to_list.
Qed.

Lemma NoDup_listing (m : gmap string Entry) es :
  (∀ k e, m !! k = Some e → Entry_ID e = k) → es ≡ₚ (map_to_list m).*2 →
  NoDup (Entry_ID <$> es).
Proof.
  intros Hids Hes. rewrite Hes, <-list_fmap_compose.
  rewrite (list_fmap_ext (Entry_ID ∘ snd) fst (map_to_list m)).
  - apply NoDup_fst_map_to_list.
  - intros i [k e] Hi%list_elem_of_lookup_2%elem_of_map_to_list. simpl. by apply Hids.
Qed.

(** The state built from a complete listing holds the managed entries. *)
Lemma current_of_listing (m : gmap string Entry) es k :
  (∀ k e, m !! k = Some e → Entry_ID e = k) → es ≡ₚ (map_to_list m).*2 →
  current (add_current_entries r es (NewEntriesStateWithPrefix (EntryIDPrefix r))) !! k =
    if managed k then m !! k else None.
Proof.
  intros Hids Hes. apply option_eq. intros c.
  rewrite current_add_current_entries by (by eapply NoDup_listing || done). simpl.
  rewrite lookup_empty. split.
  - intros [?|(Hin & <- & Hk)]; [done|]. rewrite Hk. by eapply elem_of_listing.
  - destruct (managed k) eqn:Hk; [|done]. intros Hc. right. pose proof (Hids _ _ Hc) as <-.
    split_and!; [by eapply elem_of_listing|done..].
Qed.

(** ** The declared entries *)

Lemma add_all_keeps es s :
  current (add_all es s) = current s ∧ entryPrefix (add_all es s) = entryPrefix s ∧
  (state_wf s → state_wf (add_all es s)).
Proof.
  revert s. induction es as [|e es IH]; intros s; [done|]. simpl.
  destruct (IH (AddDeclared e s)) as (Hc & Hp & Hw). split_and!; [done..|].
  intros. by apply Hw, state_wf_AddDeclared.
Qed.

Lemma declared_add_all es s k d :
  declared (add_all es s) !! k = Some d →
  declared s !! k = Some d ∨
  ∃ e, e ∈ es ∧ k = declared_ID (entryPrefix s) e ∧ d = set_ID k e.
Proof.
  revert s. induction es as [|e es IH]; intros s; simpl; [by left|].
  intros [Hd|(e' & ? & ? & ?)]%IH; [|right; set_solver]. simpl in *.
  apply lookup_insert_Some in Hd as [[<- <-]|[_ ?]]; [right|by left].
  exists e. set_solver.
Qed.

Lemma declared_add_all_is_Some es s k :
  is_Some (declared s !! k) ∨ (∃ e, e ∈ es ∧ k = declared_ID (entryPrefix s) e) →
  is_Some (declared (add_all es s) !! k).
Proof.
  revert s. induction es as [|e es IH]; intros s Hk; simpl; [set_solver|].
  apply IH. simpl. destruct Hk as [Hk|(e' & [->|He']%elem_of_cons & ->)].
  - left. apply lookup_insert_is_Some'. by right.
  - left. rewrite lookup_insert_eq. eauto.
  - right. eauto.
Qed.
End state.

Section cycle.
Context `{!SpiffeID, !LabelSelectors, !Regexps, !MapOrder, !Templates, !FloatToInt}.
Context {K S : Type} `{!Kube K, !Client S}.
Variable r : MainReconciler.
Implicit Types (w : World K S) (s : entriesState).

(** ** The status updates write to the outside only *)

Lemma wp_outside_only_kube {A} (f : K → A * K) w0 w :
  only_kube w0 w → wp (outside f) (λ _ w', only_kube w0 w') w.
Proof. intros Hw. apply wp_outside. eapply only_kube_trans; [done|apply only_kube_set]. Qed.

Lemma getPodsFromInformer_only_kube conn identity w0 w :
  only_kube w0 w → wp (getPodsFromInformer conn identity) (λ _ w', only_kube w0 w') w.
Proof.
  intros Hw. unfold getPodsFromInformer. destruct (LabelSelectorAsSelector _); [|done].
  apply wp_bind. eapply wp_mono; [by apply wp_outside_only_kube|]. done.
Qed.

Lemma calculateIdentityStats_only_kube identity cls s w0 w :
  only_kube w0 w → wp (calculateIdentityStats identity cls s) (λ _ w', only_kube w0 w') w.
Proof.
  intros Hw. unfold calculateIdentityStats. apply wp_bind, GetAllConnections_wp, wp_bind.
  eapply wp_mono.
  - apply (wp_fold_each (λ _ _ w', only_kube w0 w')); [done|].
    intros _ conn _ n w' _ Hw'. destruct (shouldProcessIdentity _ _); [|done].
    apply wp_bind. eapply wp_mono; [by apply getPodsFromInformer_only_kube|].
    by intros [pods|err] w'' Hw''.
  - intros n w' Hw'. by destruct (GetChanges s) as [[cr up] de].
Qed.

(** One call to the outside in front of a goal about [only_kube]. *)
Local Ltac kube_step :=
  apply wp_bind; eapply wp_mono; [apply wp_outside_only_kube; eassumption|cbn beta; intros ? ? ?].

Lemma updateStatuses_only_kube identities cls s w :
  wp (updateStatuses identities cls s) (λ _ w', only_kube w w') w.
Proof.
  unfold updateStatuses. apply wp_bind. eapply wp_mono.
  - apply (wp_for_each_inv (only_kube w)); [apply only_kube_refl|]. intros identity w' _ Hw'.
    apply wp_bind. eapply wp_mono; [by apply calculateIdentityStats_only_kube|]. cbn beta.
    intros stats w1 Hw1. kube_step. by kube_step.
  - cbn beta. intros _ w' Hw'. apply (wp_for_each_inv (only_kube w)); [done|]. intros cluster w1 _ Hw1.
    apply wp_bind. eapply (wp_mono _ (λ _ w2, only_kube w w2)).
    { destruct (Enabled _); [|done]. by kube_step. }
    intros lastSync w2 Hw2. apply wp_bind, wp_bind, wp_get, wp_ret, wp_bind.
    kube_step. apply wp_ret. by kube_step.
Qed.

Lemma getPodsFromInformer_moves conn identity : moves (S:=S) (getPodsFromInformer conn identity).
Proof. unfold getPodsFromInformer. solve_moves. Qed.

Lemma updateStatuses_moves identities cls s : moves (S:=S) (updateStatuses identities cls s).
Proof.
  unfold updateStatuses, calculateIdentityStats, updateClusterConditions, IsConnected, GetAllConnections.
  pose proof getPodsFromInformer_moves. solve_moves.
Qed.

Lemma only_kube_manager w w' : only_kube w w' → same_manager w w' ∧ spire w' = spire w.
Proof. by intros ->. Qed.
Lemma only_spire_manager w w' : only_spire w w' → same_manager w w' ∧ kube w' = kube w.
Proof. by intros ->. Qed.

Lemma same_manager_wf w w' : same_manager w w' → manager_wf w → manager_wf w'.
Proof. intros (Hc & _ & Hn & Hd). by apply manager_wf_ext. Qed.

(** ** The cycle with a server that may fail *)

Context `{!SpiffeIDLaws, !MapOrderLaws, !ClientSpec S}.

Lemma entry_for_sendable k0 k1 identity conn e id :
  entry_for r k0 k1 identity conn e → id ≠ "" → sendable (set_ID id e).
Proof.
  intros [_ _ (? & ? & ? & ? & ? & _ & _ & _ & _ & _ & _ & _ & _ & _ & He)] Hid. split; [done|].
  exact (RenderEntry_valid _ _ _ _ _ _ He).
Qed.

(** The state before the changes are applied, for a listing [es] and declared
    entries [ds]. *)
Definition cycle_state (es ds : list Entry) : entriesState :=
  add_all ds (add_current_entries r es (NewEntriesStateWithPrefix (EntryIDPrefix r))).

Lemma cycle_state_keeps es ds :
  state_wf (cycle_state es ds) ∧ entryPrefix (cycle_state es ds) = EntryIDPrefix r ∧
  current (cycle_state es ds) =
    current (add_current_entries r es (NewEntriesStateWithPrefix (EntryIDPrefix r))).
Proof.
  unfold cycle_state. set (s0 := NewEntriesStateWithPrefix (EntryIDPrefix r)).
  destruct (add_current_entries_keeps r es s0) as (_ & Hp & Hwf).
  destruct (add_all_keeps ds (add_current_entries r es s0)) as (Hc & Hp' & Hwf').
  split_and!; [apply Hwf', Hwf, state_wf_new|by rewrite Hp', Hp|done].
Qed.

Lemma declared_cycle_state es ds k d :
  declared (cycle_state es ds) !! k = Some d →
  ∃ e, e ∈ ds ∧ k = declared_ID (EntryIDPrefix r) e ∧ d = set_ID k e.
Proof.
  unfold cycle_state. set (s0 := NewEntriesStateWithPrefix (EntryIDPrefix r)).
  destruct (add_current_entries_keeps r es s0) as (Hd0 & Hp & _).
  intros [Hd|Hd]%declared_add_all; [rewrite Hd0 in Hd; unfold s0 in Hd; simpl in Hd; by rewrite lookup_empty in Hd|]. by rewrite Hp in Hd.
Qed.

(** What is declared does not depend on what is registered. *)
Lemma declared_add_all_ext es s1 s2 :
  declared s1 = declared s2 → entryPrefix s1 = entryPrefix s2 →
  declared (add_all es s1) = declared (add_all es s2).
Proof.
  revert s1 s2. induction es as [|e es IH]; intros s1 s2 Hd Hp; [done|]. simpl.
  apply IH; simpl; [by rewrite Hd, Hp|done].
Qed.

Lemma declared_cycle_state_eq es es' ds :
  declared (cycle_state es ds) = declared (cycle_state es' ds).
Proof.
  set (s0 := NewEntriesStateWithPrefix (EntryIDPrefix r)).
  destruct (add_current_entries_keeps r es s0) as (Hd & Hp & _).
  destruct (add_current_entries_keeps r es' s0) as (Hd' & Hp' & _).
  apply declared_add_all_ext; fold s0; congruence.
Qed.

Lemma declared_cycle_state_is_Some es ds e :
  e ∈ ds → is_Some (declared (cycle_state es ds) !! declared_ID (EntryIDPrefix r) e).
Proof.
  intros He. apply declared_add_all_is_Some. right. exists e. split; [done|].
  by rewrite (proj1 (proj2 (add_current_entries_keeps r es _))).
Qed.

Lemma cycle_state_sendable es ds :
  Forall (λ e, ∃ k0 k1 identity conn, entry_for r k0 k1 identity conn e) ds →
  declared_sendable (cycle_state es ds).
Proof.
  intros Hds k d (e & He & -> & ->)%declared_cycle_state.
  rewrite Forall_forall in Hds. destruct (Hds e He) as (k0 & k1 & identity & conn & Hfor).
  eapply entry_for_sendable; [done|]. apply declared_ID_nonempty.
Qed.

(** What a cycle may leave under a key: what was there; if the key is managed,
    nothing or an entry with [P]. *)
Definition cycle_safe (P : Entry → Prop) (m m' : gmap string Entry) : Prop :=
  ∀ k, m' !! k = m !! k ∨ (managed r k = true ∧ (m' !! k = None ∨
    ∃ e, P e ∧ k = declared_ID (EntryIDPrefix r) e ∧ m' !! k = Some (set_ID k e))).

Lemma cycle_safe_refl P m : cycle_safe P m m.
Proof. by left. Qed.

Lemma cycle_safe_mono (P Q : Entry → Prop) m m' :
  (∀ e, P e → Q e) → cycle_safe P m m' → cycle_safe Q m m'.
Proof.
  intros HPQ Hs k. destruct (Hs k) as [?|[? [?|(e & ? & ? & ?)]]]; [by left|right; eauto..].
  split; [done|]. right. exists e. eauto.
Qed.

(** An entry that a cycle over [conns] renders while the outside goes from [k0]
    to [k1]: for an identity of the listing it reads on the way. *)
Definition asked_by_cycle (k0 k1 : K) (conns : list ClusterConnection) (e : Entry) : Prop :=
  ∃ kl identities, evolves k0 kl ∧ (List_WorkloadIdentities kl).1 = OK identities ∧
    declarable r conns identities kl k1 e.

Lemma asked_by_cycle_mono k0 k1 k0' k1' conns e :
  evolves k0' k0 → evolves k1 k1' → asked_by_cycle k0 k1 conns e → asked_by_cycle k0' k1' conns e.
Proof.
  intros Hlo Hhi (kl & identities & Hl & Hlist & Hd). exists kl, identities.
  split_and!; [by etransitivity|done|]. by eapply declarable_persistent.
Qed.

Lemma changed_safely_cycle_safe (P : Entry → Prop) es ds m m' :
  es ≡ₚ (map_to_list m).*2 → (∀ k e, m !! k = Some e → Entry_ID e = k) → Forall P ds →
  changed_safely (cycle_state es ds) m m' → cycle_safe P m m'.
Proof.
  intros Hes Hids Hds Hch k. destruct (Hch k) as [?|[(d & Hd & Hk)|(Hcur & _ & Hk)]]; [by left|..].
  - right. apply declared_cycle_state in Hd as (e & He & -> & ->).
    split; [apply managed_declared_ID|]. right. rewrite Forall_forall in Hds.
    exists e. auto.
  - right. split; [|by left]. destruct (cycle_state_keeps es ds) as (_ & _ & Hc).
    rewrite Hc, (current_of_listing r m es k Hids Hes) in Hcur.
    destruct (managed r k); [done|]. by destruct Hcur.
Qed.

Lemma reconcileEntries_wp cls w :
  wp (reconcileEntries r cls)
    (λ _ w', cycle_safe (asked_by_cycle (kube w) (kube w') (range_map (clusters w)).*2)
        (registered w) (registered w') ∧
      same_manager w w' ∧ evolves (kube w) (kube w')) w.
Proof.
  unfold reconcileEntries. apply wp_bind, wp_outside.
  assert (evolves (kube w) (List_WorkloadIdentities (kube w)).2) as Hk1 by (apply rtc_once; constructor).
  destruct (List_WorkloadIdentities (kube w)) as [[identities|err] k1] eqn:Hlist; simpl in *;
    [|apply wp_ret; split_and!; [apply cycle_safe_refl|done..]].
  apply wp_bind, wp_on_spire. eapply wp_mono; [apply ListEntries_spec|].
  intros res s1 [Hs1 Hres]. destruct res as [es|err]; simpl.
  2: { apply wp_ret. split_and!; [|done..]. unfold registered. simpl. rewrite Hs1. apply cycle_safe_refl. }
  specialize (Hres es eq_refl). apply wp_bind, GetAllConnections_wp, wp_bind.
  eapply wp_mono; [by apply (process_all_wp r (kube w))|]. intros s w1 (Ho1 & Hk2 & ds & Hds & ->).
  fold (cycle_state es ds). apply only_kube_manager in Ho1 as [Hm1 Hsp1].
  apply wp_bind. eapply wp_mono.
  - apply applyEntryChanges_wp; [apply cycle_state_keeps|]. apply cycle_state_sendable.
    eapply Forall_impl; [done|]. intros e (conn & identity & _ & _ & He). eauto.
  - simpl. intros _ w2 [Hch [Hm2 Hk3]%only_spire_manager].
    eapply wp_mono; [apply wp_moves; [apply updateStatuses_moves|apply updateStatuses_only_kube]|].
    simpl. intros _ w3 [[Hm3 Hsp3]%only_kube_manager Hk4]. rewrite Hk3 in Hk4.
    assert (evolves (kube w) (kube w3)) as Hk5 by 
      by (etransitivity; [exact Hk1|]; etransitivity; [exact Hk2|exact Hk4]).
    assert (same_manager w w3) as Hm.
    { etransitivity; [exact Hm1|]. by etransitivity. }
    split_and!; [|done|done].
    unfold registered in *. rewrite Hsp3, Hsp1 in *. simpl in *. rewrite Hs1 in Hch.
    eapply changed_safely_cycle_safe; [done|apply store_ids| |done].
    eapply Forall_impl; [exact Hds|]. intros e He. exists (kube w), identities.
    rewrite Hlist. split_and!; [apply rtc_refl|done|].
    eapply declarable_persistent; [exact Hk4|exact He].
Qed.
End cycle.
