(* ===== verification/ConvergeFacts.v ===== *)
(** * Convergence of the full reconciliation *)

From S2P Require Export ReconcileFacts.

Section converge.
Context `{!SpiffeID, !LabelSelectors, !Regexps, !MapOrder, !Templates, !FloatToInt}.
Context {K S : Type} `{!Kube K, !Client S}.
Context `{!SpiffeIDLaws, !MapOrderLaws, !ClientSpec S, !ReliableClient S, !QuietKube K}.
Variable r : MainReconciler.
Implicit Types (w : World K S) (m : gmap string Entry) (ds es : list Entry).

Abbreviation ID_of d := (declared_ID (EntryIDPrefix r) d).

(** The server keeps an entry like [d] that the cycle does not delete: one the
    registrar does not manage, or one under the ID of a desired entry. *)
Definition taken_elsewhere m ds d : Prop :=
  ∃ k e, m !! k = Some e ∧ similar d e ∧
    (managed r k = false ∨ ∃ d', d' ∈ ds ∧ ID_of d' = k).

(** The managed part of [m'] is what [ds] asks for, as far as the server keeps
    no entry like it elsewhere; the rest is that of [m]. *)
Definition converged m ds m' : Prop :=
  ∀ k, (managed r k = false → m' !! k = m !! k) ∧
    (managed r k = true →
     match m' !! k with
     | None => (∀ d, d ∈ ds → ID_of d ≠ k) ∨
         m !! k = None ∧ ∃ d, d ∈ ds ∧ ID_of d = k ∧ taken_elsewhere m ds d
     | Some e => ∃ d, d ∈ ds ∧ ID_of d = k ∧
         (e = set_ID k d ∧ (m !! k = None → ¬ taken_elsewhere m ds d) ∨
          m !! k = Some e ∧ entriesEqual e (set_ID k d) = true)
     end).

Lemma cycle_state_current m es ds k :
  (∀ k e, m !! k = Some e → Entry_ID e = k) → es ≡ₚ (map_to_list m).*2 →
  current (cycle_state r es ds) !! k = if managed r k then m !! k else None.
Proof.
  intros Hids Hes. destruct (cycle_state_keeps r es ds) as (_ & _ & ->). by apply current_of_listing.
Qed.

Lemma cycle_state_describes m es ds :
  (∀ k e, m !! k = Some e → Entry_ID e = k) → es ≡ₚ (map_to_list m).*2 →
  describes (cycle_state r es ds) m.
Proof.
  intros Hids Hes. split.
  - intros k c. rewrite (cycle_state_current m) by done. by destruct (managed r k).
  - intros k [d Hd]. rewrite (cycle_state_current m) by done.
    apply declared_cycle_state in Hd as (e & _ & -> & _). by rewrite managed_declared_ID.
Qed.

Lemma taken_undeleted m es ds d :
  (∀ k e, m !! k = Some e → Entry_ID e = k) → es ≡ₚ (map_to_list m).*2 →
  taken d (undeleted (cycle_state r es ds) m) ↔ taken_elsewhere m ds d.
Proof.
  intros Hids Hes. unfold taken, taken_elsewhere. apply exist_proper. intros k.
  apply exist_proper. intros e. unfold undeleted. rewrite map_lookup_filter_Some. simpl.
  rewrite (cycle_state_current m) by done.
  assert (is_Some (declared (cycle_state r es ds) !! k) ↔ ∃ d', d' ∈ ds ∧ ID_of d' = k) as ->.
  { split.
    - intros [d' (d0 & Hd0 & -> & _)%declared_cycle_state]. eauto.
    - intros (d' & Hd' & <-). by apply declared_cycle_state_is_Some. }
  split.
  - intros [[Hk Hor] Hs]. rewrite Hk in Hor. split_and!; [done..|].
    destruct (managed r k); [destruct Hor as [?|?]; [done|by right]|by left].
  - intros (Hk & Hs & Hor). rewrite Hk.
    destruct (managed r k); [destruct Hor as [?|?]; [done|split_and!; [done|by right|done]]|].
    split_and!; [done|by left|done].
Qed.

Lemma target_converged m es ds m' :
  (∀ k e, m !! k = Some e → Entry_ID e = k) → es ≡ₚ (map_to_list m).*2 →
  (∀ k, m' !! k = target (cycle_state r es ds) m k) → converged m ds m'.
Proof.
  intros Hids Hes Ht k. rewrite Ht. unfold target. rewrite (cycle_state_current m) by done.
  destruct (declared (cycle_state r es ds) !! k) as [d|] eqn:Hd.
  - apply declared_cycle_state in Hd as (d0 & Hd0 & -> & ->). rewrite managed_declared_ID.
    split; [done|]. intros _.
    destruct (m !! _) as [c|] eqn:Hm.
    + destruct (entriesEqual c _) eqn:Heq; exists d0; naive_solver.
    + destruct (decide _) as [Htaken%taken_undeleted|Hfree]; [|done..|].
      * right. split; [done|]. by exists d0.
      * exists d0. split_and!; [done..|]. left. split; [done|]. intros _ Hel.
        by apply Hfree, taken_undeleted.
  - destruct (managed r k) eqn:Hm; [|done]. split; [done|]. intros _.
    assert (∀ d, d ∈ ds → ID_of d ≠ k) as Hnone.
    { intros d Hin <-. destruct (declared_cycle_state_is_Some r es ds d Hin). congruence. }
    destruct (m !! k); by left.
Qed.

(** What the cluster state seen in [w] asks for. *)
Definition desired w (identities : list WorkloadIdentity) : list Entry :=
  desired_entries r (kube w) (range_map (clusters w)).*2 identities.

Lemma desired_entry_for w identities e :
  e ∈ desired w identities →
  declarable r (range_map (clusters w)).*2 identities (kube w) (kube w) e.
Proof.
  unfold desired, desired_entries. intros He.
  apply list_elem_of_join in He as (l & He & (conn & -> & Hc)%list_elem_of_fmap).
  apply list_elem_of_join in He as (l & He & (identity & -> & Hid)%list_elem_of_fmap).
  apply list_elem_of_filter in Hid as [Hshould Hid]. exists conn, identity. split_and!; [done..|].
  unfold identity_entries in He. destruct (isNamespaceIgnored _ _) eqn:Hns; [set_solver|].
  destruct (LabelSelectorAsSelector _) as [sel|err] eqn:Hsel; [|set_solver].
  apply list_elem_of_omap in He as (pod & Hpod & He).
  by eapply (pod_entry_for r (kube w) (kube w) (kube w)); try apply rtc_refl.
Qed.

Lemma desired_sendable es w identities : declared_sendable (cycle_state r es (desired w identities)).
Proof.
  apply cycle_state_sendable; [apply _|]. apply Forall_forall. intros e Hd%desired_entry_for; destruct Hd as (conn & identity & _ & _ & He).
  eauto.
Qed.

(** The cycle is what it does between the listing of the entries and the
    statuses. *)
Lemma reconcileEntries_ok cls identities w :
  healthy (spire w) → (List_WorkloadIdentities (kube w)).1 = OK identities →
  wp (reconcileEntries r cls) (λ _ w',
    healthy (spire w') ∧ same_manager w w' ∧ ∃ es, es ≡ₚ (map_to_list (registered w)).*2 ∧
    ∀ k, registered w' !! k = target (cycle_state r es (desired w identities)) (registered w) k) w.
Proof.
  intros Hh Hlist. unfold reconcileEntries. apply wp_bind, wp_outside. rewrite Hlist.
  rewrite (quiet_List_WI (kube w)), set_kube_id. apply wp_bind, wp_on_spire.
  eapply wp_mono; [by apply ListEntries_ok|].
  intros res s1 (Hh1 & Hs1 & es & -> & Hes). apply wp_bind, GetAllConnections_wp, wp_bind.
  unfold wp at 1. rewrite process_all_quiet by apply _. fold (cycle_state r es (desired w identities)).
  assert (registered (set_spire s1 w) = registered w) as Hreg by exact Hs1.
  change (desired_entries _ _ _ _) with (desired w identities).
  change (add_all _ _) with (cycle_state r es (desired w identities)).
  apply wp_bind. eapply wp_mono.
  - apply applyEntryChanges_ok; [apply cycle_state_keeps|apply desired_sendable| |done].
    rewrite Hreg. by apply cycle_state_describes; [apply store_ids|].
  - simpl. intros _ w2 [[Hh2 Ht] [Hm2 _]%only_spire_manager].
    eapply wp_mono; [apply updateStatuses_only_kube|]. simpl.
    intros _ w3 [Hm3 Hsp3]%only_kube_manager. rewrite Hsp3. split_and!; [done|..].
    + change (same_manager w w3). etransitivity; [exact Hm2|exact Hm3].
    + assert (registered w3 = registered w2) as -> by (unfold registered; by rewrite Hsp3).
      exists es. split; [exact Hes|]. intros k. by rewrite Ht, Hreg.
Qed.

(** When the state it computes asks for no changes, the cycle only lists. *)
Lemma reconcileEntries_idle cls identities w :
  healthy (spire w) → (List_WorkloadIdentities (kube w)).1 = OK identities →
  (∀ es, es ≡ₚ (map_to_list (registered w)).*2 →
     GetChanges (cycle_state r es (desired w identities)) = ([], [], [])) →
  wp (reconcileEntries r cls) (λ _ w',
    spire w' = (ListEntries (spire w)).2 ∧ registered w' = registered w) w.
Proof.
  intros Hh Hlist Hidle. unfold reconcileEntries. apply wp_bind, wp_outside. rewrite Hlist.
  rewrite (quiet_List_WI (kube w)), set_kube_id. apply wp_bind, wp_on_spire.
  pose proof (ListEntries_ok (spire w) Hh) as Hl. unfold wp in Hl.
  unfold wp at 1. destruct (ListEntries (spire w)) as [[res| |] s1]; [|done..].
  destruct Hl as (Hh1 & Hs1 & es & -> & Hes). apply wp_bind, GetAllConnections_wp, wp_bind.
  unfold wp at 1. rewrite process_all_quiet by apply _. fold (cycle_state r es (desired w identities)).
  change (desired_entries _ _ _ _) with (desired w identities).
  change (add_all _ _) with (cycle_state r es (desired w identities)).
  apply wp_bind. unfold applyEntryChanges. rewrite (Hidle es Hes).
  apply wp_bind, wp_ret, wp_bind, wp_ret, wp_ret.
  eapply wp_mono; [apply updateStatuses_only_kube|]. simpl.
  intros _ w3 [_ Hsp3]%only_kube_manager. unfold registered. by rewrite Hsp3.
Qed.

Lemma reconcileEntries_converged cls identities w :
  healthy (spire w) → (List_WorkloadIdentities (kube w)).1 = OK identities →
  wp (reconcileEntries r cls) (λ _ w',
    healthy (spire w') ∧ same_manager w w' ∧
    converged (registered w) (desired w identities) (registered w')) w.
Proof.
  intros Hh Hlist. eapply wp_mono; [by apply reconcileEntries_ok|].
  intros _ w' (? & ? & es & Hes & Ht). split_and!; [done..|].
  eapply target_converged; [apply store_ids|exact Hes|exact Ht].
Qed.
End converge.
