(* ===== verification/ConnectFacts.v ===== *)
(** * The connection phase of the full reconciliation *)

From S2P Require Export ConvergeFacts.

Section connect.
Context `{!SpiffeID, !LabelSelectors, !Regexps, !MapOrder, !Templates, !FloatToInt}.
Context {K S : Type} `{!Kube K, !Client S, !MapOrderLaws}.
Variable r : MainReconciler.
Implicit Types (w : World K S) (cls : list EKSClusterRegistry).

(** The connection of a processed cluster, if there is one, holds the cluster
    as it was listed. *)
Definition refreshed cls w : Prop :=
  ∀ cl c, cl ∈ cls → clusters w !! EKS_Name cl = Some c → Cluster c = cl.

(** Between two states of the outside, EKS described an enabled cluster of the
    list without a certificate authority. *)
Definition some_lacks_CA cls (k0 k1 : K) : Prop :=
  ∃ cl k, cl ∈ cls ∧ Enabled (EKS_Spec cl) = true ∧ evolves k0 k ∧ evolves k k1 ∧
    described_without_CA cl k.

(** What is left when the connection phase panics: the manager is in order and
    nothing has been sent to the SPIRE server. *)
Definition connecting_panicked cls w w' : Prop :=
  manager_wf w' ∧ spire w' = spire w ∧ some_lacks_CA cls (kube w) (kube w').

Lemma connect_all_wp cls w :
  NoDup ((λ cl, EKS_Name cl) <$> cls) → manager_wf w →
  wpx (for_each cls (λ cluster, AddOrUpdateCluster cluster;; mret tt))
    (λ _ w', manager_wf w' ∧ spire w' = spire w ∧ refreshed cls w' ∧ evolves (kube w) (kube w'))
    (connecting_panicked cls w) w.
Proof.
  intros Hnd Hwf. apply (wpx_for_each (λ cls w', manager_wf w' ∧ spire w' = spire w ∧
    refreshed cls w' ∧ evolves (kube w) (kube w'))).
  - split_and!; [done..| |apply rtc_refl]. intros cl c Hin. set_solver.
  - intros done cl todo w1 -> (Hwf1 & Hs1 & Hr1 & Hev). apply wpx_bind.
    eapply wpx_mono;
      [apply wpx_moves; [apply AddOrUpdateCluster_moves|by apply AddOrUpdateCluster_wp]|..].
    + intros res w2 [((Hwf2 & Hs2 & _ & Hother & Hthis & _) & _) Hev2]. apply wpx_ret.
      split_and!; [done|congruence| |by etransitivity].
      intros cl' c [Hin| ->%list_elem_of_singleton]%elem_of_app Hc; [|by apply Hthis].
      rewrite fmap_app, fmap_cons in Hnd. apply NoDup_app in Hnd as (_ & Hd & _).
      apply Hr1; [done|]. rewrite <-Hother; [done|]. intros Heq.
      apply (Hd (EKS_Name cl')); [by apply (list_elem_of_fmap_2 (λ cl, EKS_Name cl))|].
      rewrite Heq. by left.
    + intros w2 [((Hwf2 & Hs2 & _) & (Hen & _ & Hca & _) & _) Hev2].
      split_and!; [done|congruence|]. exists cl, (kube w1). by split_and!; [set_solver|..].
Qed.

Lemma existingClusters_true cls name :
  existingClusters cls name = true ↔
    ∃ cl, cl ∈ cls ∧ Enabled (EKS_Spec cl) = true ∧ EKS_Name cl = name.
Proof.
  unfold existingClusters. rewrite existsb_exists. split.
  - intros (cl & Hin%list_elem_of_In & [He Hn%bool_decide_eq_true]%andb_true_iff). eauto.
  - intros (cl & Hin & He & Hn). exists cl. rewrite <-list_elem_of_In, He, bool_decide_true; done.
Qed.

Lemma same_if {A} (b b' : bool) (x y : A) : b = b' → (if b then x else y) = (if b' then x else y).
Proof. by intros ->. Qed.

Lemma remove_stale_clusters_wp cls w :
  manager_wf w →
  wp (remove_stale_clusters cls) (λ _ w', manager_wf w' ∧ spire w' = spire w ∧ kube w' = kube w ∧
    ∀ k, clusters w' !! k = if existingClusters cls k then clusters w !! k else None) w.
Proof.
  intros Hwf. unfold remove_stale_clusters. apply wp_bind, GetAllConnections_wp.
  eapply wp_mono.
  - apply (wp_for_each (λ done w', manager_wf w' ∧ spire w' = spire w ∧ kube w' = kube w ∧
      ∀ k, clusters w' !! k =
        if bool_decide (existingClusters cls k = false ∧ k ∈ (λ c, EKS_Name (Cluster c)) <$> done)
        then None else clusters w !! k)).
    + split_and!; [done..|]. intros k. rewrite bool_decide_false; [done|]. set_solver.
    + intros done c todo w1 Hl (Hwf1 & Hs1 & Hk1 & Hc1). rewrite fmap_app. cbn [fmap list_fmap].
      destruct (existingClusters cls (EKS_Name (Cluster c))) eqn:He; simpl.
      * apply wp_ret. split_and!; [done..|]. intros k. rewrite Hc1.
        apply same_if, bool_decide_ext. rewrite elem_of_app, list_elem_of_singleton.
        naive_solver congruence.
      * eapply wp_mono; [by apply RemoveCluster_wp|]. simpl.
        intros _ w2 (Hwf2 & Hs2 & Hk2 & _ & Hc2 & _).
        split_and!; [done|congruence|congruence|]. intros k. rewrite Hc2.
        destruct (decide (k = EKS_Name (Cluster c))) as [->|Hne].
        -- rewrite lookup_delete_eq, bool_decide_true; [done|]. set_solver.
        -- rewrite lookup_delete_ne, Hc1 by done. apply same_if, bool_decide_ext. set_solver.
  - intros _ w' (Hwf' & Hs' & Hk' & Hc'). split_and!; [done..|]. intros k. rewrite Hc'.
    destruct (existingClusters cls k) eqn:He; [by rewrite bool_decide_false by naive_solver|].
    case_bool_decide as Hin; [done|]. apply eq_None_not_Some. intros [c Hc]. apply Hin.
    split; [done|]. rewrite <-(wf_name _ Hwf _ _ Hc).
    apply (list_elem_of_fmap_2 (λ c, EKS_Name (Cluster c))), list_elem_of_fmap.
    exists (k, c). by rewrite elem_of_range_map.
Qed.

(** After the connection phase every connection is for an enabled cluster of
    the listing, and holds it. *)
Definition connections_current cls w : Prop :=
  ∀ k c, clusters w !! k = Some c →
    Cluster c ∈ cls ∧ Enabled (EKS_Spec (Cluster c)) = true ∧ EKS_Name (Cluster c) = k.

Lemma connect_phase_wp cls w :
  NoDup ((λ cl, EKS_Name cl) <$> cls) → manager_wf w →
  wpx (for_each cls (λ cluster, AddOrUpdateCluster cluster;; mret tt);; remove_stale_clusters cls)
    (λ _ w', manager_wf w' ∧ spire w' = spire w ∧ connections_current cls w' ∧
      evolves (kube w) (kube w'))
    (connecting_panicked cls w) w.
Proof.
  intros Hnd Hwf. apply wpx_bind. eapply wpx_mono; [by apply connect_all_wp| |done].
  intros _ w1 (Hwf1 & Hs1 & Hr1 & Hev). apply wpx_wp.
  eapply wp_mono; [by apply remove_stale_clusters_wp|].
  intros _ w2 (Hwf2 & Hs2 & Hk2 & Hc2). split_and!; [done|congruence| |by rewrite Hk2].
  intros k c. rewrite Hc2. destruct (existingClusters cls k) eqn:He; [|done].
  apply existingClusters_true in He as (cl & Hin & Hen & <-). intros Hc.
  by rewrite (Hr1 cl c Hin Hc).
Qed.
End connect.
