(* ===== verification/Finalizer.v ===== *)
(** * pkg/finalizer and the finalizer webhooks of api/v1alpha1 *)

From S2P Require Export ApiTypes.

Definition SPIRECleanupFinalizer : string := "spire.spiffe.io/cleanup".

Definition ContainsFinalizer (finalizers : list string) (finalizer : string) : bool :=
  bool_decide (finalizer ∈ finalizers).

Definition AddFinalizer (finalizers : list string) (finalizer : string) : list string :=
  if negb (ContainsFinalizer finalizers finalizer) then finalizers ++ [finalizer] else finalizers.

(** [slices.DeleteFunc] moves the kept elements to the front of the slice's own
    array and returns it shortened.  Every caller stores the result where the
    slice came from, in an object it owns, so only the result is observed. *)
Definition RemoveFinalizer (finalizers : list string) (finalizer : string) : list string :=
  filter (λ s, s ≠ finalizer) finalizers.

(** ** The defaulting webhooks *)

Section webhooks.
Context `{!LabelSelectors}.

(** A [runtime.Object], with the name of its type when it is another one. *)
Inductive runtime_Object :=
| OWorkloadIdentity (i : WorkloadIdentity)
| OEKSClusterRegistry (c : EKSClusterRegistry)
| OOther (type_name : string).

Definition type_name (obj : runtime_Object) : string :=
  match obj with
  | OWorkloadIdentity _ => "*v1alpha1.WorkloadIdentity"
  | OEKSClusterRegistry _ => "*v1alpha1.EKSClusterRegistry"
  | OOther n => n
  end.

(** [Default] changes the object in place; the result is the object after it. *)
Definition WorkloadIdentity_Default (obj : runtime_Object) : result runtime_Object :=
  match obj with
  | OWorkloadIdentity entry =>
      OK (OWorkloadIdentity
        (if Time_IsZero (DeletionTimestamp (WI_ObjectMeta entry))
         then WI_set_Finalizers
                (AddFinalizer (Finalizers (WI_ObjectMeta entry)) SPIRECleanupFinalizer) entry
         else entry))
  | _ => ERR (ErrNew ("expected WorkloadIdentity, got " +:+ type_name obj))
  end.

Definition EKSClusterRegistry_Default (obj : runtime_Object) : result runtime_Object :=
  match obj with
  | OEKSClusterRegistry cluster =>
      OK (OEKSClusterRegistry
        (if Time_IsZero (DeletionTimestamp (EKS_ObjectMeta cluster))
         then EKS_set_Finalizers
                (AddFinalizer (Finalizers (EKS_ObjectMeta cluster)) SPIRECleanupFinalizer) cluster
         else cluster))
  | _ => ERR (ErrNew ("expected EKSClusterRegistry, got " +:+ type_name obj))
  end.
End webhooks.

(** ** Facts *)

Section facts.
Implicit Types (fs : list string) (f g : string).

Lemma ContainsFinalizer_true fs f : ContainsFinalizer fs f = true ↔ f ∈ fs.
Proof. apply bool_decide_eq_true. Qed.

Lemma elem_of_AddFinalizer fs f g : g ∈ AddFinalizer fs f ↔ g ∈ fs ∨ g = f.
Proof.
  unfold AddFinalizer. destruct (ContainsFinalizer fs f) eqn:Hc; simpl.
  - apply ContainsFinalizer_true in Hc. set_solver.
  - set_solver.
Qed.

Lemma elem_of_RemoveFinalizer fs f g : g ∈ RemoveFinalizer fs f ↔ g ∈ fs ∧ g ≠ f.
Proof. unfold RemoveFinalizer. rewrite list_elem_of_filter. tauto. Qed.

Lemma RemoveFinalizer_absent fs f : f ∉ fs → RemoveFinalizer fs f = fs.
Proof.
  induction fs as [|g fs IH]; [done|]. intros [Hne Hf]%not_elem_of_cons.
  unfold RemoveFinalizer in *. by rewrite filter_cons_True, IH.
Qed.

Lemma RemoveFinalizer_AddFinalizer fs f : f ∉ fs → RemoveFinalizer (AddFinalizer fs f) f = fs.
Proof.
  intros Hf. unfold AddFinalizer. destruct (ContainsFinalizer fs f) eqn:Hc; simpl.
  { by apply ContainsFinalizer_true in Hc. }
  unfold RemoveFinalizer. rewrite filter_app, filter_cons_False, filter_nil, app_nil_r by auto.
  by apply RemoveFinalizer_absent.
Qed.
End facts.
