(* ===== verification/Targeted.v ===== *)
(** * internal/controller/targeted_reconciler.go: reconciling one change

    The handlers for one pod, one identity or one cluster.  The field
    [entryCache] of the Go struct is written nowhere and left out. *)

From S2P Require Export ConnectFacts.

Section targeted.
Context `{!SpiffeID, !LabelSelectors, !Regexps, !MapOrder, !Templates, !FloatToInt}.
Context {K S : Type} `{!Kube K, !Client S}.
Variable r : MainReconciler.
Implicit Types (identity : WorkloadIdentity) (cluster : EKSClusterRegistry) (pod : Pod)
  (conn : ClusterConnection) (entry : Entry).

(** ** Entries *)

(** The ID is made as [AddDeclared] makes it. *)
Definition entry_ID_for entry : string :=
  let entryKey := MakeEntryKey entry in
  if bool_decide (EntryIDPrefix r ≠ "") then EntryIDPrefix r +:+ entryKey else entryKey.

(** The error of the listing is ignored, and those of the calls that follow. *)
Definition reconcilePodEntry pod (node : Node) identity cluster : GoM (World K S) unit :=
  match RenderEntry identity cluster pod node (TrustDomain_String (MR_TrustDomain r)) with
  | ERR _ => mret tt
  | OK entry =>
      let entry := set_ID (entry_ID_for entry) entry in
      entries ← on_spire ListEntries;
      let entries := default [] (to_option entries) in
      match List.find (λ e, bool_decide (Entry_ID e = Entry_ID entry)) entries with
      | None => on_spire (CreateEntry entry);; mret tt
      | Some existingEntry =>
          if bool_decide (0 < length (GetOutdatedEntryFields entry existingEntry))%nat
          then on_spire (UpdateEntry (set_ID (Entry_ID existingEntry) entry));; mret tt
          else mret tt
      end
  end.

(** [for _, entry := range entries { if p(entry) { DeleteEntry(entry.ID) } }] after a
    listing, whose failure ends the function. *)
Definition delete_where (p : Entry → bool) : GoM (World K S) unit :=
  entries ← on_spire ListEntries;
  match entries with
  | ERR _ => mret tt
  | OK entries =>
      for_each entries (λ entry,
        if p entry then on_spire (DeleteEntry (Entry_ID entry));; mret tt else mret tt)
  end.

Definition has_pod_selector pod entry : bool :=
  existsb (λ selector, bool_decide (Sel_Type selector = "k8s") &&
                       bool_decide (Sel_Value selector = "pod-uid:" +:+ Pod_UID pod))
    (Selectors entry).

Definition deleteEntriesForPod pod : GoM (World K S) unit :=
  delete_where (λ entry, shouldProcessEntry r entry && has_pod_selector pod entry).

Definition entryBelongsToIdentity entry identity : bool :=
  let expectedHint := Hint (WI_Spec identity) in
  if bool_decide (expectedHint = "")
  then Contains (Entry_Hint entry) ("workloadidentity:" +:+ WI_Name identity +:+ ":")
  else bool_decide (Entry_Hint entry = expectedHint).

(** The text after as many bytes as the expected prefix has, split at colons. *)
Definition entryBelongsToCluster entry cluster : bool :=
  let expectedPrefix := "workloadidentity:" in
  if bool_decide (String.length expectedPrefix < String.length (Entry_Hint entry))%nat then
    let hintParts := slice_from (String.length expectedPrefix) (Entry_Hint entry) in
    if bool_decide (0 < String.length hintParts)%nat then
      match Split hintParts ":" with
      | _ :: part1 :: _ => bool_decide (part1 = EKS_Name cluster)
      | _ => false
      end
    else false
  else false.

Definition deleteEntriesForIdentity identity : GoM (World K S) unit :=
  delete_where (λ entry, entryBelongsToIdentity entry identity).

Definition deleteEntriesForCluster cluster : GoM (World K S) unit :=
  delete_where (λ entry, entryBelongsToCluster entry cluster).

(** ** Looking up identities, clusters and pods

    A failed listing leaves the list object empty. *)

Definition list_identities : GoM (World K S) (list WorkloadIdentity) :=
  identities ← outside List_WorkloadIdentities; mret (default [] (to_option identities)).
Definition list_clusters : GoM (World K S) (list EKSClusterRegistry) :=
  clusters ← outside List_EKSClusterRegistries; mret (default [] (to_option clusters)).

(** The error of the conversion is ignored; calling [Matches] on the nil
    selector that comes with it panics. *)
Fixpoint matching_identities pod cluster (identities : list WorkloadIdentity) :
    outcome (list WorkloadIdentity) :=
  match identities with
  | [] => Ret []
  | identity :: identities =>
      if bool_decide (Spec_Namespace (WI_Spec identity) ≠ Pod_Namespace pod)
      then matching_identities pod cluster identities
      else if negb (shouldProcessIdentity identity cluster)
      then matching_identities pod cluster identities
      else
        selected ← match PodSelector (WI_Spec identity) with
          | None => Ret true
          | Some s =>
              match LabelSelectorAsSelector (Some s) with
              | ERR _ => Panic
              | OK selector => Ret (Matches selector (Labels (Pod_ObjectMeta pod)))
              end
          end;
        rest ← matching_identities pod cluster identities;
        Ret (if selected : bool then identity :: rest else rest)
  end.

Definition findMatchingIdentities pod cluster : GoM (World K S) (list WorkloadIdentity) :=
  identities ← list_identities; pure (matching_identities pod cluster identities).

Definition findMatchingClusters identity : GoM (World K S) (list EKSClusterRegistry) :=
  clusters ← list_clusters;
  mret (filter (λ cluster, Enabled (EKS_Spec cluster) && shouldProcessIdentity identity cluster = true)
          clusters).

Definition findIdentitiesForCluster cluster : GoM (World K S) (list WorkloadIdentity) :=
  identities ← list_identities;
  mret (filter (λ identity, shouldProcessIdentity identity cluster = true) identities).

Definition getMatchingPods conn identity : GoM (World K S) (list Pod) :=
  match LabelSelectorAsSelector (PodSelector (WI_Spec identity)) with
  | ERR _ => mret []
  | OK podSelector =>
      objs ← outside (Store_List (PodInformer conn));
      mret (select_pods identity podSelector objs)
  end.

(** The loop over the pods that both handlers below run. *)
Definition reconcile_pods conn identity cluster (pods : list Pod) : GoM (World K S) unit :=
  for_each pods (λ pod,
    if negb (pod_is_placed pod) then mret tt
    else
      node ← outside (Nodes_Get (K8sClient conn) (NodeName (Pod_Spec pod)));
      match node with
      | ERR _ => mret tt
      | OK node => reconcilePodEntry pod node identity cluster
      end).

(** ** Orphans *)

Definition placed_uids (pods : list Pod) : gset string :=
  list_to_set ((λ pod, Pod_UID pod) <$> filter (λ pod, pod_is_placed pod = true) pods).

Definition has_valid_pod (validPodUIDs : gset string) entry : bool :=
  existsb (λ selector,
    bool_decide (Sel_Type selector = "k8s") && HasPrefix (Sel_Value selector) "pod-uid:" &&
    bool_decide (TrimPrefix (Sel_Value selector) "pod-uid:" ∈ validPodUIDs)) (Selectors entry).

Definition valid_uids_of_identity identity : GoM (World K S) (gset string) :=
  clusters ← findMatchingClusters identity;
  fold_each clusters ∅ (λ cluster uids,
    conn ← GetClusterConnection (EKS_Name cluster);
    match conn with
    | None => mret uids
    | Some conn => pods ← getMatchingPods conn identity; mret (uids ∪ placed_uids pods)
    end).

Definition valid_uids_of_cluster cluster : GoM (World K S) (gset string) :=
  conn ← GetClusterConnection (EKS_Name cluster);
  match conn with
  | None => mret ∅
  | Some conn =>
      identities ← findIdentitiesForCluster cluster;
      fold_each identities ∅ (λ identity uids,
        pods ← getMatchingPods conn identity; mret (uids ∪ placed_uids pods))
  end.

Definition delete_orphans (entries : list Entry) (belongs : Entry → bool)
    (validPodUIDs : gset string) : GoM (World K S) unit :=
  for_each entries (λ entry,
    if negb (belongs entry) then mret tt
    else if negb (has_valid_pod validPodUIDs entry)
    then on_spire (DeleteEntry (Entry_ID entry));; mret tt else mret tt).

Definition cleanupOrphanedEntriesForIdentity identity : GoM (World K S) unit :=
  entries ← on_spire ListEntries;
  match entries with
  | ERR _ => mret tt
  | OK entries =>
      validPodUIDs ← valid_uids_of_identity identity;
      delete_orphans entries (λ entry, entryBelongsToIdentity entry identity) validPodUIDs
  end.

Definition cleanupOrphanedEntriesForCluster cluster : GoM (World K S) unit :=
  entries ← on_spire ListEntries;
  match entries with
  | ERR _ => mret tt
  | OK entries =>
      validPodUIDs ← valid_uids_of_cluster cluster;
      delete_orphans entries (λ entry, entryBelongsToCluster entry cluster) validPodUIDs
  end.

(** ** The handlers *)

Definition ReconcileSinglePod pod cluster (action : string) : GoM (World K S) unit :=
  if isNamespaceIgnored r (Pod_Namespace pod) then mret tt
  else if bool_decide (action = "delete") then deleteEntriesForPod pod
  else
    identities ← findMatchingIdentities pod cluster;
    if bool_decide (length identities = 0%nat) then mret tt
    else if negb (pod_is_placed pod) then deleteEntriesForPod pod
    else
      conn ← GetClusterConnection (EKS_Name cluster);
      match conn with
      | None => mret tt
      | Some conn =>
          node ← outside (Nodes_Get (K8sClient conn) (NodeName (Pod_Spec pod)));
          match node with
          | ERR _ => mret tt
          | OK node => for_each identities (λ identity, reconcilePodEntry pod node identity cluster)
          end
      end.

Definition ReconcileWorkloadIdentity identity (deleted : bool) : GoM (World K S) unit :=
  if deleted then deleteEntriesForIdentity identity
  else
    clusters ← findMatchingClusters identity;
    for_each clusters (λ cluster,
      conn ← GetClusterConnection (EKS_Name cluster);
      match conn with
      | None => mret tt
      | Some conn => pods ← getMatchingPods conn identity; reconcile_pods conn identity cluster pods
      end);;
    cleanupOrphanedEntriesForIdentity identity.

Definition ReconcileEKSCluster cluster (deleted : bool) : GoM (World K S) unit :=
  if deleted || negb (Enabled (EKS_Spec cluster)) then
    deleteEntriesForCluster cluster;;
    RemoveCluster (EKS_Name cluster)
  else
    err ← AddOrUpdateCluster cluster;
    match err with
    | Some _ => mret tt
    | None =>
        conn ← GetClusterConnection (EKS_Name cluster);
        match conn with
        | None => mret tt
        | Some conn =>
            identities ← findIdentitiesForCluster cluster;
            for_each identities (λ identity,
              pods ← getMatchingPods conn identity;
              reconcile_pods conn identity cluster pods);;
            cleanupOrphanedEntriesForCluster cluster
        end
    end.
End targeted.
