(* ===== verification/Deletion.v ===== *)
(** * internal/controller/deletion_controller.go: cleanup behind finalizers *)

From S2P Require Export Targeted Finalizer SpireClient.

Local Open Scope Z_scope.

Section deletion.
Context `{!SpiffeID, !LabelSelectors} {K S : Type} `{!Kube K, !Client S}.
Implicit Types (entry : Entry).

(** *** The entries of an owner *)

(** The cluster named in a hint of the form workloadidentity:NAME:CLUSTER;... *)
Definition hint_is_for_cluster (hint ownerName : string) : bool :=
  (Contains hint (":" +:+ ownerName +:+ ";") || Contains hint (":" +:+ ownerName)) &&
  HasPrefix hint "workloadidentity:" &&
  match Split hint ":" with
  | _ :: _ :: part2 :: _ =>
      match Split part2 ";" with
      | clusterPart :: _ => bool_decide (clusterPart = ownerName)
      | [] => false
      end
  | _ => false
  end.

Definition ownerKey (ownerType ownerName : string) : string :=
  "owner:" +:+ ownerType +:+ "/" +:+ ownerName.

Definition owned_by (ownerType ownerName : string) entry : bool :=
  if bool_decide (ownerType = "EKSClusterRegistry")
  then hint_is_for_cluster (Entry_Hint entry) ownerName
  else Contains (Entry_Hint entry) (ownerKey ownerType ownerName).

(** The log call for a status that is an error indexes [toDelete]. *)
Definition log_failures (toDelete : list string) (statuses : list Status) : outcome unit :=
  if bool_decide (Exists (λ p : nat * Status, Code p.2 ≠ 0 ∧ (length toDelete ≤ p.1)%nat)
                    (enumerate statuses))
  then Panic else Ret tt.

Definition deleteEntriesForOwner (ownerType ownerName : string) :
    GoM (World K S) (option error) :=
  entries ← on_spire ListEntries;
  match entries with
  | ERR err => mret (Some (ErrWrap "failed to list SPIRE entries" err))
  | OK entries =>
      let toDelete := Entry_ID <$> filter (λ e, owned_by ownerType ownerName e = true) entries in
      if bool_decide (0 < length toDelete)%nat then
        '(statuses, err) ← on_spire (BatchDeleteEntries toDelete);
        match err with
        | Some err => mret (Some (ErrWrap "failed to delete entries" err))
        | None => pure (log_failures toDelete statuses);; mret None
        end
      else mret None
  end.

(** *** The two reconcilers: the error that is returned, if any *)

Definition Deletion_ReconcileWorkloadIdentity (name : string) : GoM (World K S) (option error) :=
  identity ← outside (Get_WorkloadIdentity name);
  match identity with
  | ERR err => mret (if IsNotFound err then None else Some err)
  | OK identity =>
      if negb (Time_IsZero (DeletionTimestamp (WI_ObjectMeta identity))) &&
         ContainsFinalizer (Finalizers (WI_ObjectMeta identity)) SPIRECleanupFinalizer then
        err ← deleteEntriesForOwner "WorkloadIdentity" (WI_Name identity);
        match err with
        | Some err => mret (Some err)
        | None =>
            outside (Update_WorkloadIdentity
              (WI_set_Finalizers (RemoveFinalizer (Finalizers (WI_ObjectMeta identity))
                                    SPIRECleanupFinalizer) identity))
        end
      else mret None
  end.

Definition Deletion_ReconcileEKSClusterRegistry (name : string) : GoM (World K S) (option error) :=
  cluster ← outside (Get_EKSClusterRegistry name);
  match cluster with
  | ERR err => mret (if IsNotFound err then None else Some err)
  | OK cluster =>
      if negb (Time_IsZero (DeletionTimestamp (EKS_ObjectMeta cluster))) &&
         ContainsFinalizer (Finalizers (EKS_ObjectMeta cluster)) SPIRECleanupFinalizer then
        err ← deleteEntriesForOwner "EKSClusterRegistry" (EKS_Name cluster);
        match err with
        | Some err => mret (Some err)
        | None =>
            outside (Update_EKSClusterRegistry
              (EKS_set_Finalizers (RemoveFinalizer (Finalizers (EKS_ObjectMeta cluster))
                                     SPIRECleanupFinalizer) cluster))
        end
      else mret None
  end.
End deletion.
