(* ===== verification/Controllers.v ===== *)
(** * The controllers of the two resource types

    internal/controller/workloadidentity_controller.go and
    eksclusterregistry_controller.go.  The references to the main and the
    targeted reconciler are set before the controllers run. *)

From S2P Require Export Deletion.

Section controllers.
Context `{!SpiffeID, !LabelSelectors, !Regexps, !MapOrder, !Templates, !FloatToInt}.
Context {K S : Type} `{!Kube K, !Client S}.
Variable r : MainReconciler.

(** [client.IgnoreNotFound] *)
Definition IgnoreNotFound (err : error) : option error :=
  if IsNotFound err then None else Some err.

(** An object that is not found is the empty object. *)
Definition WorkloadIdentity_Reconcile (name : string) : GoM (World K S) (option error) :=
  identity ← outside (Get_WorkloadIdentity name);
  match identity with
  | ERR err =>
      (if bool_decide (IgnoreNotFound err = None)
       then ReconcileWorkloadIdentity r empty_WorkloadIdentity true else mret tt);;
      mret (IgnoreNotFound err)
  | OK identity =>
      if negb (Time_IsZero (DeletionTimestamp (WI_ObjectMeta identity))) then mret None
      else ReconcileWorkloadIdentity r identity false;; mret None
  end.

Definition EKSClusterRegistry_Reconcile (name : string) : GoM (World K S) (option error) :=
  cluster ← outside (Get_EKSClusterRegistry name);
  match cluster with
  | ERR err =>
      (if bool_decide (IgnoreNotFound err = None)
       then ReconcileEKSCluster r empty_EKSClusterRegistry true else mret tt);;
      mret (IgnoreNotFound err)
  | OK cluster =>
      if negb (Time_IsZero (DeletionTimestamp (EKS_ObjectMeta cluster))) then mret None
      else ReconcileEKSCluster r cluster false;; mret None
  end.

(** The event handler that [createPodInformer] installs, with the targeted
    reconciler that [SetupWithManager] registers; the triggerer that [main]
    gives the manager is then never called. *)
Definition pod_event (trigger : GoM (World K S) unit) (action : string) (obj : object)
    (clusterName : string) : GoM (World K S) unit :=
  handlePodChange
    (SetPodReconciler (Some (λ pod cluster action, ReconcileSinglePod r pod cluster action))
       (NewManager_receivers (Some trigger)))
    action obj clusterName.
End controllers.
