(* ===== verification/TargetedFacts.v ===== *)
(** * What the targeted handlers do to the registered entries *)

From S2P Require Export Controllers.

Section facts.
Context `{!SpiffeID, !LabelSelectors, !Regexps, !MapOrder, !Templates, !FloatToInt}.
Context {K S : Type} `{!Kube K, !Client S, !ClientSpec S}.
Variable r : MainReconciler.
Implicit Types (w : World K S) (m : gmap string Entry) (p : Entry → bool).

(** Skipping elements in the body is filtering the list. *)
Lemma for_each_filter {W A} (b : A → bool) (f : A → GoM W unit) l (w : W) :
  for_each l (λ x, if b x then f x else mret tt) w = for_each (filter (λ x, b x = true) l) f w.
Proof.
  revert w. induction l as [|x l IH]; intros w; [done|].
  cbn [for_each]. rewrite filter_cons. unfold mbind, GoM_bind. destruct (b x) eqn:Hb.
  - rewrite decide_True by done. cbn [for_each]. unfold mbind, GoM_bind.
    destruct (f x w) as [[] w']; [apply IH|done..].
  - rewrite decide_False by done. apply IH.
Qed.

Lemma wp_for_each_filter {W A} (b : A → bool) (f : A → GoM W unit) l Q (w : W) :
  wp (for_each (filter (λ x, b x = true) l) f) Q w →
  wp (for_each l (λ x, if b x then f x else mret tt)) Q w.
Proof. unfold wp. by rewrite for_each_filter. Qed.

Lemma has_pod_selector_true pod entry :
  has_pod_selector pod entry = true ↔
    {| Sel_Type := "k8s"; Sel_Value := "pod-uid:" +:+ Pod_UID pod |} ∈ Selectors entry.
Proof.
  unfold has_pod_selector. rewrite existsb_exists. split.
  - intros ([t v] & Hin%list_elem_of_In & [Ht%bool_decide_eq_true Hv%bool_decide_eq_true]%andb_true_iff).
    by simplify_eq/=.
  - intros Hin%list_elem_of_In. eexists. split; [exact Hin|]. simpl. by rewrite !bool_decide_true.
Qed.

(** Some of the entries with [p] are gone, everything else is as it was. *)
Definition some_deleted p m m' : Prop :=
  ∀ k, m' !! k = m !! k ∨ (m' !! k = None ∧ ∃ e, m !! k = Some e ∧ p e = true).

Lemma some_deleted_refl p m : some_deleted p m m.
Proof. by left. Qed.

(** The deletions of a loop over the entries of a listing. *)
Lemma delete_listed_wp p es w :
  es ≡ₚ (map_to_list (registered w)).*2 →
  wp (for_each es (λ e, if p e then on_spire (DeleteEntry (Entry_ID e));; mret tt else mret tt))
    (λ _ w', some_deleted p (registered w) (registered w') ∧ only_spire w w') w.
Proof.
  intros Hes. apply wp_for_each_filter. eapply wp_mono; [apply delete_each_wp|].
  simpl. intros _ w' [Hch Ho]. split; [|done]. intros k.
  destruct (Hch k) as [?|(e & [Hp He]%list_elem_of_filter & <- & Hk)]; [by left|right].
  split; [done|]. exists e. split; [|done]. eapply elem_of_listing; [apply store_ids|done|done].
Qed.

Lemma delete_where_wp p w :
  wp (delete_where p) (λ _ w', some_deleted p (registered w) (registered w') ∧ only_spire w w') w.
Proof.
  unfold delete_where. apply wp_bind, wp_on_spire.
  eapply wp_mono; [apply ListEntries_spec|]. intros res s1 [Hs1 Hres].
  assert (registered (set_spire s1 w) = registered w) as Hreg by exact Hs1.
  destruct res as [es|err].
  - eapply wp_mono; [apply delete_listed_wp; rewrite Hreg; by apply Hres|].
    rewrite Hreg. intros _ w' [Hd Ho]. split; [done|].
    eapply only_spire_trans; [apply only_spire_set|done].
  - apply wp_ret. rewrite Hreg. split; [apply some_deleted_refl|apply only_spire_set].
Qed.

(** *** The ID of the targeted reconciler is that of the full one *)

Lemma entry_ID_for_declared e : entry_ID_for r e = declared_ID (EntryIDPrefix r) e.
Proof. done. Qed.

Lemma find_listing m es id :
  (∀ k e, m !! k = Some e → Entry_ID e = k) → es ≡ₚ (map_to_list m).*2 →
  List.find (λ e, bool_decide (Entry_ID e = id)) es = m !! id.
Proof.
  intros Hids Hes. destruct (List.find _ _) as [e|] eqn:Hf.
  - apply List.find_some in Hf as [Hin%list_elem_of_In Hid%bool_decide_eq_true]. subst id.
    symmetry. by eapply elem_of_listing.
  - symmetry. apply eq_None_not_Some. intros [e He]. pose proof (Hids _ _ He) as Hid.
    assert (e ∈ es) as Hin by (eapply elem_of_listing; [done..|by rewrite Hid]).
    apply list_elem_of_In, (List.find_none _ _ Hf) in Hin.
    by apply bool_decide_eq_false in Hin.
Qed.

(** With failing calls: only the entry's own ID can change, to that entry. *)
Lemma reconcilePodEntry_wp `{!SpiffeIDLaws} pod node identity cluster w :
  wp (reconcilePodEntry r pod node identity cluster) (λ _ w',
    only_spire w w' ∧ ∀ k, registered w' !! k = registered w !! k ∨
      ∃ e, RenderEntry identity cluster pod node (TrustDomain_String (MR_TrustDomain r)) = OK e ∧
        k = declared_ID (EntryIDPrefix r) e ∧ registered w' !! k = Some (set_ID k e)) w.
Proof.
  unfold reconcilePodEntry. destruct (RenderEntry _ _ _ _ _) as [e|err] eqn:He.
  2: { apply wp_ret. split; [apply only_spire_refl|by left]. }
  rewrite entry_ID_for_declared. set (id := declared_ID (EntryIDPrefix r) e).
  assert (sendable (set_ID id e)) as Hsend.
  { split; [apply declared_ID_nonempty|]. exact (RenderEntry_valid _ _ _ _ _ _ He). }
  apply wp_bind, wp_on_spire. eapply wp_mono; [apply ListEntries_spec|]. intros res s1 [Hs1 Hres].
  assert (∀ s2, (store s2 = store s1 ∨ store s2 = <[id := set_ID id e]> (store s1)) →
    only_spire w (set_spire s2 w) ∧ ∀ k, store s2 !! k = registered w !! k ∨
      ∃ e0, OK e = OK e0 ∧ k = declared_ID (EntryIDPrefix r) e0 ∧
        store s2 !! k = Some (set_ID k e0)) as Hpost.
  { intros s2 Hs2. split; [apply only_spire_set|]. intros k.
    destruct Hs2 as [->| ->]; [left; unfold registered; by rewrite Hs1|].
    destruct (decide (k = id)) as [->|Hne].
    - right. exists e. by rewrite lookup_insert_eq.
    - left. rewrite lookup_insert_ne by done. unfold registered. by rewrite Hs1. }
  destruct (List.find _ _) as [existing|] eqn:Hf.
  - apply List.find_some in Hf as [_ Hid%bool_decide_eq_true]. simpl in Hid. rewrite Hid.
    case_bool_decide; [|apply wp_ret, Hpost; by left].
    apply wp_bind, wp_on_spire. eapply wp_mono; [by apply UpdateEntry_spec|].
    simpl. intros _ s2 [Hs2 _]. apply wp_ret. rewrite set_spire_twice. apply Hpost. naive_solver.
  - apply wp_bind, wp_on_spire. eapply wp_mono; [by apply CreateEntry_spec|].
    simpl. intros _ s2 Hs2. apply wp_ret. rewrite set_spire_twice. apply Hpost. naive_solver.
Qed.

(** *** The deletion controller *)

(** Only entries of the owner are deleted, and the log indexing is safe. *)
Lemma deleteEntriesForOwner_wp ownerType ownerName w :
  wp (deleteEntriesForOwner ownerType ownerName) (λ _ w',
    some_deleted (owned_by ownerType ownerName) (registered w) (registered w') ∧ only_spire w w') w.
Proof.
  unfold deleteEntriesForOwner. apply wp_bind, wp_on_spire.
  eapply wp_mono; [apply ListEntries_spec|]. intros res s1 [Hs1 Hres].
  assert (registered (set_spire s1 w) = registered w) as Hreg by exact Hs1.
  destruct res as [es|err].
  2: { apply wp_ret. rewrite Hreg. split; [apply some_deleted_refl|apply only_spire_set]. }
  specialize (Hres es eq_refl). set (toDelete := Entry_ID <$> _).
  case_bool_decide.
  2: { apply wp_ret. rewrite Hreg. split; [apply some_deleted_refl|apply only_spire_set]. }
  apply wp_bind, wp_on_spire. eapply wp_mono; [apply BatchDeleteEntries_spec|].
  simpl. intros [statuses err] s2 [(Hout & Hor & _) Hlen]. rewrite Hs1 in Hout, Hor. simpl in Hlen.
  assert (some_deleted (owned_by ownerType ownerName) (registered w) (store s2)) as Hdel.
  { intros k. destruct (Hor k) as [|Hk]; [by left|].
    destruct (decide (k ∈ toDelete)) as [Hin|Hin]; [|left; by apply Hout].
    right. split; [done|]. apply list_elem_of_fmap in Hin as (e & -> & [Hp He]%list_elem_of_filter).
    exists e. split; [|done]. eapply elem_of_listing; [apply store_ids|exact Hres|done]. }
  rewrite set_spire_twice. destruct err as [err|].
  - apply wp_ret. split; [done|apply only_spire_set].
  - apply wp_bind, wp_pure. unfold log_failures. rewrite bool_decide_false.
    + apply wp_ret. split; [done|apply only_spire_set].
    + rewrite Exists_exists. intros ([i st] & Hin & _ & Hle). simpl in Hle.
      unfold enumerate in Hin. apply elem_of_zip_l, elem_of_seq in Hin.
      rewrite Hlen in Hin by done. lia.
Qed.

(** From [s] to [s'] the entries [p] were listed and, if there are any, deleted
    in one call, neither with an error. *)
Definition cleaned_up p (s s' : S) : Prop :=
  ∃ es s1, ListEntries s = (Ret (OK es), s1) ∧
    match Entry_ID <$> filter (λ e, p e = true) es with
    | [] => s' = s1
    | ids => ∃ statuses, BatchDeleteEntries ids s1 = (Ret (statuses, None), s')
    end.

(** It returns no error exactly when that was so. *)
Lemma deleteEntriesForOwner_error ownerType ownerName w :
  wp (deleteEntriesForOwner ownerType ownerName) (λ err w',
    match err with
    | None => cleaned_up (owned_by ownerType ownerName) (spire w) (spire w')
    | Some _ => ∀ s', ¬ cleaned_up (owned_by ownerType ownerName) (spire w) s'
    end) w.
Proof.
  pose proof (deleteEntriesForOwner_wp ownerType ownerName w) as Hret.
  apply wp_run in Hret as (err & w' & Hrun & _). apply wp_run. exists err, w'. split; [done|].
  unfold cleaned_up. unfold deleteEntriesForOwner, mbind, GoM_bind, mret, GoM_ret, on_spire, lift in Hrun.
  destruct (ListEntries (spire w)) as [[[es|e]| |] s1]; simplify_eq/=.
  - set (ids := Entry_ID <$> filter _ es) in *. case_bool_decide as Hne.
    + change (spire (set_spire s1 w)) with s1 in Hrun.
      destruct (BatchDeleteEntries ids s1) as [[[statuses berr]| |] s2] eqn:Hb; simplify_eq/=.
      destruct berr as [berr|]; simplify_eq/=.
      * intros s' (es' & s1' & [= <- <-] & Hs'). fold ids in Hs'.
        destruct ids; [simpl in Hne; lia|]. destruct Hs' as [sts Hs']. congruence.
      * unfold pure in Hrun. destruct (log_failures _ _); simplify_eq/=.
        exists es, s1. split; [done|]. fold ids. destruct ids; [simpl in Hne; lia|].
        by exists statuses.
    + simplify_eq/=. exists es, s1. split; [done|]. fold ids. destruct ids; [done|]. simpl in Hne. lia.
  - intros s' (es' & s1' & [=] & _).
Qed.
End facts.

(** ** With a server that does what it is asked *)

Section reliable.
Context `{!SpiffeID, !LabelSelectors, !Regexps, !MapOrder, !Templates, !FloatToInt}.
Context {K S : Type} `{!Kube K, !Client S, !ClientSpec S, !ReliableClient S}.
Variable r : MainReconciler.
Implicit Types (w : World K S) (m : gmap string Entry) (p : Entry → bool).

(** [m] without the entries that have [p]. *)
Definition without p m m' : Prop :=
  ∀ k, m' !! k = match m !! k with Some e => if p e then None else Some e | None => None end.

(** The deletions of a loop over the entries of a listing. *)
Lemma delete_listed_ok p es w :
  healthy (spire w) → es ≡ₚ (map_to_list (registered w)).*2 →
  wp (for_each es (λ e, if p e then on_spire (DeleteEntry (Entry_ID e));; mret tt else mret tt))
    (λ _ w', (healthy (spire w') ∧ without p (registered w) (registered w')) ∧ only_spire w w') w.
Proof.
  intros Hh Hes.
  assert (NoDup (Entry_ID <$> filter (λ e, p e = true) es)) as Hnd.
  { eapply sublist_NoDup; [eapply NoDup_listing; [apply store_ids|exact Hes]|].
    apply fmap_sublist, sublist_filter. }
  apply wp_for_each_filter. eapply wp_mono; [apply delete_each_ok; [done|done|]|].
  - intros e [_ He]%list_elem_of_filter.
    eapply elem_of_listing in He; [|apply store_ids|exact Hes]. eauto.
  - intros _ w' [[Hh' Hr'] Ho]. split; [|done].
    split; [done|]. intros k. rewrite Hr', lookup_difference.
    destruct (by_id _ !! k) as [e|] eqn:Hk.
    + apply lookup_by_id in Hk as [[Hp He]%list_elem_of_filter <-]; [|done].
      eapply elem_of_listing in He; [|apply store_ids|exact Hes].
      change (registered w !! Entry_ID e = Some e) in He. by rewrite He, Hp.
    + destruct (registered w !! k) as [e|] eqn:He; [|done].
      destruct (p e) eqn:Hp; [|done]. apply lookup_by_id_None in Hk. destruct Hk.
      pose proof (store_ids _ _ _ He) as Hid. apply list_elem_of_fmap. exists e.
      split; [done|]. apply list_elem_of_filter. split; [done|].
      eapply elem_of_listing; [apply store_ids|exact Hes|by rewrite Hid].
Qed.

Lemma delete_where_ok p w :
  healthy (spire w) →
  wp (delete_where p) (λ _ w', (healthy (spire w') ∧ without p (registered w) (registered w')) ∧
    only_spire w w') w.
Proof.
  intros Hh. unfold delete_where. apply wp_bind, wp_on_spire.
  eapply wp_mono; [by apply ListEntries_ok|]. intros res s1 (Hh1 & Hs1 & es & -> & Hes).
  assert (registered (set_spire s1 w) = registered w) as Hreg by exact Hs1.
  eapply wp_mono; [apply delete_listed_ok; [done|by rewrite Hreg]|].
  rewrite Hreg. intros _ w' [Hw Ho]. split; [done|].
  by eapply only_spire_trans; [apply only_spire_set|].
Qed.

(** What registering [e] makes of the entries [m]: an entry under its ID is
    replaced when a compared field is outdated; without one [e] is created,
    unless the server keeps an entry like it. *)
Definition register1 m (e : Entry) : gmap string Entry :=
  let id := declared_ID (EntryIDPrefix r) e in
  match m !! id with
  | Some c =>
      if bool_decide (GetOutdatedEntryFields (set_ID id e) c = []) then m
      else <[id := set_ID id e]> m
  | None => if bool_decide (taken e m) then m else <[id := set_ID id e]> m
  end.

Definition register_all m (es : list Entry) : gmap string Entry := foldl register1 m es.

Lemma reconcilePodEntry_ok `{!SpiffeIDLaws} pod node identity cluster e w :
  RenderEntry identity cluster pod node (TrustDomain_String (MR_TrustDomain r)) = OK e →
  healthy (spire w) →
  wp (reconcilePodEntry r pod node identity cluster) (λ _ w',
    only_spire w w' ∧ healthy (spire w') ∧ registered w' = register1 (registered w) e) w.
Proof.
  intros He Hh. unfold reconcilePodEntry, register1. rewrite He, entry_ID_for_declared.
  set (id := declared_ID (EntryIDPrefix r) e).
  assert (sendable (set_ID id e)) as Hsend.
  { split; [apply declared_ID_nonempty|]. exact (RenderEntry_valid _ _ _ _ _ _ He). }
  apply wp_bind, wp_on_spire. eapply wp_mono; [by apply ListEntries_ok|].
  intros res s1 (Hh1 & Hs1 & es & -> & Hes). simpl default.
  rewrite (find_listing (registered w)) by (apply store_ids || exact Hes).
  change (Entry_ID (set_ID id e)) with id.
  assert (∀ s2 m, healthy s2 → store s2 = m →
    only_spire w (set_spire s2 w) ∧ healthy s2 ∧ store s2 = m) as Hpost.
  { intros s2 m Hh2 Hs2. split_and!; [apply only_spire_set|done..]. }
  destruct (registered w !! id) as [existing|] eqn:Hex.
  - pose proof (store_ids _ _ _ Hex) as Hid. rewrite Hid. case_bool_decide as Hout.
    + rewrite bool_decide_false by (intros Hnil; rewrite Hnil in Hout; simpl in Hout; lia).
      apply wp_bind, wp_on_spire. eapply wp_mono; [apply UpdateEntry_ok; [done|done|]|].
      { simpl. rewrite Hs1. exists existing. exact Hex. }
      simpl. intros _ s2 (Hh2 & _ & Hs2). apply wp_ret. rewrite set_spire_twice.
      apply Hpost; [done|]. simpl. by rewrite Hs2, Hs1.
    + rewrite bool_decide_true by (apply length_zero_iff_nil; lia).
      apply wp_ret. by apply Hpost.
  - assert (store s1 !! id = None) as Hnone by (by rewrite Hs1).
    assert (taken (set_ID id e) (store s1) ↔ taken e (registered w)) as Htk by (by rewrite Hs1).
    case_bool_decide as Ht; apply wp_bind, wp_on_spire; eapply wp_mono;
      [apply CreateEntry_taken; [done..|by apply Htk]| |apply CreateEntry_ok; [done..|by rewrite Htk]|];
      simpl; intros _ s2 (Hh2 & _ & Hs2); apply wp_ret; rewrite set_spire_twice;
      (apply Hpost; [done|]); simpl; by rewrite Hs2, Hs1.
Qed.
End reliable.
