(* ===== verification/HintFacts.v ===== *)
(** * Recognising the owner of an entry by its hint

    The hints [RenderEntry] writes, and what the three ways of reading them in
    the controllers see.  Kubernetes object names hold no colon, semicolon or
    slash. *)

From S2P Require Export TargetedFacts.

(** A name as Kubernetes allows it, as far as the separators go. *)
Definition name_ok (n : string) : Prop :=
  ":"%char ∉ chars n ∧ ";"%char ∉ chars n ∧ "/"%char ∉ chars n.

Definition default_hint (identity cluster : string) : string :=
  "workloadidentity:" +:+ identity +:+ ":" +:+ cluster +:+ ";owner:WorkloadIdentity/" +:+ identity.

Section strings.
Implicit Types (s t l r w n : string).

Lemma Split_app l r sep : Split (l +:+ String sep r) sep = Split l sep ++ Split r sep.
Proof.
  induction l as [|c l IH].
  - cbn [Split]. rewrite string_app_nil_l. simpl. by rewrite bool_decide_true.
  - rewrite string_app_cons. simpl. rewrite IH. destruct (Split_cons l sep) as (w & ws & ->).
    by case_bool_decide.
Qed.

(** A prefix without the separator is a prefix of the first piece. *)
Lemma Split_prefix w s sep :
  sep ∉ chars w → ∃ v vs, Split (w +:+ s) sep = (w +:+ v) :: vs.
Proof.
  intros Hw. induction w as [|c w IH].
  - rewrite string_app_nil_l. destruct (Split_cons s sep) as (v & vs & ->). by exists v, vs.
  - simpl in Hw. apply not_elem_of_cons in Hw as [Hc Hw].
    destruct (IH Hw) as (v & vs & Heq). exists v, vs. rewrite !string_app_cons. simpl.
    rewrite Heq. by rewrite bool_decide_false.
Qed.

Lemma string_app_cancel l r r' : (l +:+ r) = (l +:+ r') → r = r'.
Proof. induction l as [|c l IH]; [done|]. rewrite !string_app_cons. intros [= Heq]. by apply IH. Qed.

Lemma Split_default_hint i c :
  ":"%char ∉ chars i → ":"%char ∉ chars c →
  Split (default_hint i c) ":" =
    ["workloadidentity"; i; c +:+ ";owner"; "WorkloadIdentity/" +:+ i].
Proof.
  intros Hi Hc. unfold default_hint.
  change ("workloadidentity:" +:+ i +:+ ":" +:+ c +:+ ";owner:WorkloadIdentity/" +:+ i)
    with ("workloadidentity" +:+ String ":"
      (i +:+ String ":" (c +:+ (";owner" +:+ String ":" ("WorkloadIdentity/" +:+ i))))).
  rewrite Split_app_sep by (simpl; set_solver). rewrite Split_app_sep by done.
  rewrite string_app_assoc, Split_app_sep.
  - rewrite Split_no_sep_single; [done|]. rewrite chars_app. simpl. set_solver.
  - rewrite chars_app. simpl. set_solver.
Qed.

(** The text after the part "workloadidentity:". *)
Lemma default_hint_rest i c :
  slice_from (String.length "workloadidentity:") (default_hint i c) =
    (i +:+ ":" +:+ c +:+ ";owner:WorkloadIdentity/" +:+ i).
Proof. apply slice_from_app. Qed.

Lemma Split_default_rest i c :
  ":"%char ∉ chars i → ":"%char ∉ chars c →
  Split (i +:+ ":" +:+ c +:+ ";owner:WorkloadIdentity/" +:+ i) ":" =
    [i; c +:+ ";owner"; "WorkloadIdentity/" +:+ i].
Proof.
  intros Hi Hc. pose proof (Split_default_hint i c Hi Hc) as Hs. unfold default_hint in Hs.
  change ("workloadidentity:" +:+ ?x) with ("workloadidentity" +:+ String ":" x) in Hs.
  rewrite Split_app_sep in Hs by (simpl; set_solver). by simplify_eq.
Qed.
End strings.

Section hints.
Context `{!SpiffeID, !LabelSelectors}.
Implicit Types (identity : WorkloadIdentity) (cluster : EKSClusterRegistry) (e : Entry).

Lemma entry_hint_default identity cluster :
  Hint (WI_Spec identity) = "" →
  entry_hint identity cluster = default_hint (WI_Name identity) (EKS_Name cluster).
Proof. intros Hh. unfold entry_hint, ownerInfo, default_hint. by rewrite bool_decide_true. Qed.

Lemma entry_hint_custom identity cluster :
  Hint (WI_Spec identity) ≠ "" →
  entry_hint identity cluster = (Hint (WI_Spec identity) +:+ ";" +:+ ownerInfo identity).
Proof. intros Hh. unfold entry_hint. by rewrite bool_decide_false. Qed.

(** Both kinds end in the owner. *)
Lemma entry_hint_owner identity cluster :
  ∃ l, entry_hint identity cluster = (l +:+ ownerInfo identity).
Proof.
  unfold entry_hint. case_bool_decide; eexists; rewrite ?string_app_assoc; reflexivity.
Qed.

(** *** Reading by the targeted reconciler *)

(** A custom hint is never recognised: the owner that follows it is not
    expected. *)
Lemma belongs_custom e identity cluster :
  Hint (WI_Spec identity) ≠ "" → Entry_Hint e = entry_hint identity cluster →
  entryBelongsToIdentity e identity = false.
Proof.
  intros Hh He. unfold entryBelongsToIdentity. rewrite bool_decide_false by done.
  apply bool_decide_eq_false. rewrite He, entry_hint_custom by done. intros Heq.
  apply (f_equal String.length) in Heq. rewrite !string_length_app in Heq. simpl in Heq. lia.
Qed.

(** A default hint is recognised exactly by the identity of that name. *)
Lemma belongs_default e (i c : string) identity :
  name_ok i → name_ok c → name_ok (WI_Name identity) → Hint (WI_Spec identity) = "" →
  Entry_Hint e = default_hint i c →
  entryBelongsToIdentity e identity = true ↔ WI_Name identity = i.
Proof.
  intros (Hi & _) (Hc & _) (Hn & Hs & _) Hh He. unfold entryBelongsToIdentity.
  rewrite bool_decide_true, He by done. split.
  - intros (l & r & Heq)%Contains_app. set (n := WI_Name identity) in *.
    pose proof (Split_default_hint i c Hi Hc) as Hsplit. rewrite Heq in Hsplit.
    assert ((l +:+ ("workloadidentity:" +:+ n +:+ ":") +:+ r) =
      ((l +:+ "workloadidentity") +:+ String ":" (n +:+ String ":" r))) as Hr.
    { rewrite <-!string_app_assoc. do 2 f_equal. }
    rewrite Hr, Split_app, Split_app_sep in Hsplit by done.
    destruct (Split_cons (l +:+ "workloadidentity") ":") as (v & vs & Hv).
    destruct (Split_cons r ":") as (u & us & Hu). rewrite Hv, Hu in Hsplit.
    destruct vs as [|v2 [|v3 vs]]; simplify_eq/=.
    + done.
    + exfalso. apply Hs. replace (WI_Name identity) with (c +:+ ";owner") by done.
      rewrite chars_app. simpl. set_solver.
    + exfalso. assert (vs ++ n :: u :: us = ["WorkloadIdentity/" +:+ i]) as Hlen by done.
      apply (f_equal length) in Hlen. rewrite length_app in Hlen. simpl in Hlen. lia.
  - intros <-. apply Contains_app.
    exists "", (c +:+ ";owner:WorkloadIdentity/" +:+ WI_Name identity).
    unfold default_hint. by rewrite string_app_nil_l, <-!string_app_assoc.
Qed.

(** The cluster of a default hint is read with the owner attached, so that no
    cluster recognises it. *)
Lemma belongs_cluster_default e (i c : string) cluster :
  name_ok i → name_ok c → name_ok (EKS_Name cluster) → Entry_Hint e = default_hint i c →
  entryBelongsToCluster e cluster = false.
Proof.
  intros (Hi & _) (Hc & _) (_ & Hs & _) He. unfold entryBelongsToCluster. rewrite He.
  case_bool_decide; [|done]. rewrite default_hint_rest. case_bool_decide; [|done].
  rewrite Split_default_rest by done. apply bool_decide_eq_false. intros Heq. apply Hs.
  rewrite <-Heq, chars_app. simpl. set_solver.
Qed.

(** *** Reading by the deletion controller *)

(** The cluster of a default hint is recognised exactly. *)
Lemma owned_by_cluster_default e (i c n : string) :
  name_ok i → name_ok c → Entry_Hint e = default_hint i c →
  owned_by "EKSClusterRegistry" n e = true ↔ n = c.
Proof.
  intros (Hi & _) (Hc & Hcs & _) He. unfold owned_by, hint_is_for_cluster.
  rewrite bool_decide_true, He, Split_default_hint by done.
  assert (Split (c +:+ ";owner") ";" = [c; "owner"]) as ->.
  { change (c +:+ ";owner") with (c +:+ String ";" "owner"). by rewrite Split_app_sep. }
  rewrite !andb_true_iff, bool_decide_eq_true. split; [by intros [_ ->]|].
  intros ->. split; [|done]. split; [|apply HasPrefix_append].
  apply orb_true_iff. right. apply Contains_app.
  exists ("workloadidentity:" +:+ i), (";owner:WorkloadIdentity/" +:+ i).
  unfold default_hint. by rewrite <-!string_app_assoc.
Qed.

(** Every rendered entry is found by the identity it was rendered for, and by
    every identity whose name is a prefix of that name. *)
Lemma owned_by_prefix e identity cluster (n suffix : string) :
  Entry_Hint e = entry_hint identity cluster → WI_Name identity = (n +:+ suffix) →
  owned_by "WorkloadIdentity" n e = true.
Proof.
  intros He Hn. unfold owned_by. rewrite bool_decide_false by done.
  destruct (entry_hint_owner identity cluster) as [l Hl]. rewrite He, Hl.
  apply Contains_app. exists l, suffix. unfold ownerInfo, ownerKey. rewrite Hn.
  by rewrite <-!string_app_assoc.
Qed.

(** Among the default hints the identities found are exactly those. *)
Lemma owned_by_identity_default e (i c n : string) :
  name_ok i → name_ok c → name_ok n → Entry_Hint e = default_hint i c →
  owned_by "WorkloadIdentity" n e = true ↔ HasPrefix i n = true.
Proof.
  intros (Hi & _ & Hi') (Hc & _ & Hc') (Hn & _ & Hn') He. split.
  - unfold owned_by. rewrite bool_decide_false, He by done.
    intros (l & r & Heq)%Contains_app.
    pose proof (Split_default_hint i c Hi Hc) as Hsplit. rewrite Heq in Hsplit.
    assert ((l +:+ ownerKey "WorkloadIdentity" n +:+ r) =
      ((l +:+ "owner") +:+ String ":" (("WorkloadIdentity/" +:+ n) +:+ r))) as Hr.
    { unfold ownerKey. rewrite <-!string_app_assoc. done. }
    assert (":"%char ∉ chars ("WorkloadIdentity/" +:+ n)) as Hcolon.
    { rewrite chars_app. simpl. set_solver. }
    rewrite Hr, Split_app in Hsplit. destruct (Split_prefix _ r _ Hcolon) as (v & vs & Hv).
    rewrite Hv in Hsplit. destruct (Split_cons (l +:+ "owner") ":") as (u & us & Hu).
    assert (("WorkloadIdentity/" +:+ n) +:+ v ∈ [i; c +:+ ";owner"; "WorkloadIdentity/" +:+ i]) as Hin.
    { rewrite Hu in Hsplit. simpl in Hsplit. injection Hsplit as _ <-.
      apply elem_of_app. right. by left. }
    assert ("/"%char ∈ chars (("WorkloadIdentity/" +:+ n) +:+ v)) as Hslash.
    { rewrite !chars_app. simpl. set_solver. }
    rewrite !elem_of_cons in Hin. destruct Hin as [Heq'|[Heq'|[Heq'|Hin]]]; [..|by apply elem_of_nil in Hin].
    + by rewrite Heq' in Hslash.
    + rewrite Heq', chars_app in Hslash. simpl in Hslash. set_solver.
    + rewrite <-string_app_assoc in Heq'. apply string_app_cancel in Heq'.
      apply HasPrefix_app. by exists v.
  - intros [suffix ->]%HasPrefix_app. unfold owned_by. rewrite bool_decide_false, He by done.
    apply Contains_app. unfold default_hint, ownerKey.
    exists ("workloadidentity:" +:+ (n +:+ suffix) +:+ ":" +:+ c +:+ ";"), suffix.
    rewrite <-!string_app_assoc. done.
Qed.
End hints.
