(* ===== verification/HandlerFacts.v ===== *)
(** * The targeted handlers as wholes

    With a server that does what it is asked and clusters that stay as they
    are: the entries a handler registers, one after the other, and the orphans
    it deletes. *)

From S2P Require Export HintFacts.

Section loop.
Context `{!SpiffeID, !LabelSelectors, !Regexps, !MapOrder, !Templates, !FloatToInt}.
Context {K S : Type} `{!Kube K, !Client S, !ClientSpec S, !ReliableClient S, !SpiffeIDLaws}.
Variable r : MainReconciler.
Implicit Types (w : World K S) (m : gmap string Entry) (e : Entry) (es : list Entry).

Abbreviation ID_of e := (declared_ID (EntryIDPrefix r) e).

(** After entries are registered over [m]: under each ID the entry, or the one
    that was there when no compared field is outdated; the rest as it was. *)
Definition registered_over es m m' : Prop :=
  (∀ k, (∀ e, e ∈ es → ID_of e ≠ k) → m' !! k = m !! k) ∧
  ∀ e, e ∈ es → ∃ e', m' !! ID_of e = Some e' ∧
    GetOutdatedEntryFields (set_ID (ID_of e) e) e' = [] ∧
    (m !! ID_of e = Some e' ∨ e' = set_ID (ID_of e) e).

(** The entries have distinct IDs, and the server takes no other entry for one
    of them. *)
Definition compatible es m : Prop :=
  NoDup ((λ e, ID_of e) <$> es) ∧
  ∀ e k e', e ∈ es → m !! k = Some e' → similar e e' → k = ID_of e.

Lemma similar_ID e e' : similar e e' → ID_of e = ID_of e'.
Proof.
  intros (Hs & Hp & Hsel). unfold declared_ID, MakeEntryKey. by rewrite (makeEntryKey_perm e e').
Qed.

Lemma registered_over_nil m : registered_over [] m m.
Proof. split; [done|]. intros e ?%not_elem_of_nil. done. Qed.

Lemma compatible_app es1 es2 m : compatible (es1 ++ es2) m → compatible es1 m.
Proof.
  unfold compatible. rewrite fmap_app, NoDup_app. intros [(Hnd & _) Hsim]. split; [done|].
  intros e k e' He. apply Hsim. set_solver.
Qed.

(** Registering some of them leaves the server ready for the others. *)
Lemma compatible_after es1 es2 m m1 :
  registered_over es1 m m1 → compatible (es1 ++ es2) m → compatible es2 m1.
Proof.
  intros [Hother Hthere] [Hnd Hsim]. rewrite fmap_app, NoDup_app in Hnd. split; [apply Hnd|].
  intros e k e' He Hk Hse.
  destruct (decide (Exists (λ d, ID_of d = k) es1)) as [(d & Hd & <-)%Exists_exists|Hno].
  - destruct (Hthere d Hd) as (e'' & He'' & _ & Hor). rewrite Hk in He''. simplify_eq.
    destruct Hor as [Hm| ->]; [by eapply Hsim; [set_solver| |]|]. by rewrite (similar_ID _ _ Hse).
  - rewrite Hother in Hk; [by eapply Hsim; [set_solver| |]|].
    intros d Hd Heq. apply Hno, Exists_exists. eauto.
Qed.

Lemma registered_over_app es1 es2 m m1 m2 :
  registered_over es1 m m1 → compatible (es1 ++ es2) m → registered_over es2 m1 m2 →
  registered_over (es1 ++ es2) m m2.
Proof.
  intros [Hother Hthere] [Hnd _] [Hother2 Hthere2].
  assert (∀ d e, d ∈ es1 → e ∈ es2 → ID_of d ≠ ID_of e) as Hne.
  { rewrite fmap_app in Hnd. apply NoDup_app in Hnd as (_ & Hnd & _). intros d e Hd He Heq.
    apply (Hnd (ID_of d)); [by apply (list_elem_of_fmap_2 (λ e, ID_of e))|].
    rewrite Heq. by apply (list_elem_of_fmap_2 (λ e, ID_of e)). }
  split.
  - intros k Hk. rewrite Hother2, Hother; [done|..]; intros d Hd; apply Hk; set_solver.
  - intros d [Hd|Hd]%elem_of_app.
    + destruct (Hthere d Hd) as (e' & He' & Hrest). exists e'. rewrite Hother2; [done|].
      intros x Hx Heq. by apply (Hne d x).
    + destruct (Hthere2 d Hd) as (e2 & He2 & Hout & Hor). exists e2. split_and!; [done..|].
      rewrite <-Hother; [done|]. intros x Hx. by apply Hne.
Qed.

Lemma registered_over_one e m : compatible [e] m → registered_over [e] m (register1 r m e).
Proof.
  intros [_ Hsim]. unfold register1. cbv zeta. split.
  - intros k Hk. assert (ID_of e ≠ k) as Hne by (apply Hk; by left).
    destruct (m !! ID_of e); case_bool_decide; try done; by rewrite lookup_insert_ne.
  - intros d ->%list_elem_of_singleton.
    assert (GetOutdatedEntryFields (set_ID (ID_of e) e) (set_ID (ID_of e) e) = []) as Hrefl
      by apply getOutdatedEntryFields_nil, same_fields_refl.
    destruct (m !! ID_of e) as [c|] eqn:Hc; case_bool_decide as Hb.
    + eauto.
    + rewrite lookup_insert_eq. eauto.
    + destruct Hb as (k & e' & Hk & Hs). rewrite (Hsim e k e') in Hk; [congruence|by left|done..].
    + rewrite lookup_insert_eq. eauto.
Qed.

(** With compatible entries [register_all] registers each of them. *)
Lemma register_all_over es m : compatible es m → registered_over es m (register_all r m es).
Proof.
  revert m. induction es as [|e es IH]; intros m Hcomp; [apply registered_over_nil|].
  change (e :: es) with ([e] ++ es) in *. pose proof (compatible_app _ _ _ Hcomp) as H1'.
  pose proof (registered_over_one e m H1') as Hone.
  eapply registered_over_app; [exact Hone|done|]. by apply IH, (compatible_after [e] es m).
Qed.

(** In any case only the IDs of the entries are touched. *)
Lemma register_all_other es m k :
  (∀ e, e ∈ es → ID_of e ≠ k) → register_all r m es !! k = m !! k.
Proof.
  revert m. induction es as [|e es IH]; intros m Hk; [done|].
  change (register_all r (register1 r m e) es !! k = m !! k). rewrite IH by set_solver.
  assert (ID_of e ≠ k) as Hne by (apply Hk; by left). unfold register1. cbv zeta.
  destruct (m !! ID_of e); case_bool_decide; try done; by rewrite lookup_insert_ne.
Qed.

Lemma register_all_app es1 es2 m :
  register_all r m (es1 ++ es2) = register_all r (register_all r m es1) es2.
Proof. apply foldl_app. Qed.

(** From one world to the other exactly these entries are registered. *)
Definition registers es w w' : Prop :=
  only_spire w w' ∧ healthy (spire w') ∧ registered w' = register_all r (registered w) es.

Lemma registers_nothing w : healthy (spire w) → registers [] w w.
Proof. intros Hh. by split; [apply only_spire_refl|]. Qed.

Lemma wp_for_each_ext {W A} (f g : A → GoM W unit) (l : list A) Q (w : W) :
  (∀ x, g x = f x) → wp (for_each l f) Q w → wp (for_each l g) Q w.
Proof.
  intros Hfg. enough (for_each l g w = for_each l f w) as Heq by (unfold wp; by rewrite Heq).
  revert w. induction l as [|x l IH]; intros w; [done|]. cbn [for_each]. unfold mbind, GoM_bind.
  rewrite Hfg. destruct (f x w) as [[] w']; [apply IH|done..].
Qed.

(** A loop of which each round registers the entries of its element. *)
Lemma register_loop {A} (l : list A) (body : A → GoM (World K S) unit) (ren : A → list Entry) w :
  healthy (spire w) →
  (∀ x w', x ∈ l → only_spire w w' → healthy (spire w') →
     wp (body x) (λ _ w'', registers (ren x) w' w'') w') →
  wp (for_each l body) (λ _ w', registers (mjoin (ren <$> l)) w w') w.
Proof.
  intros Hh Hbody.
  apply (wp_for_each (λ xs w', registers (mjoin (ren <$> xs)) w w')).
  { by apply registers_nothing. }
  intros done x todo w1 -> (Ho1 & Hh1 & Hr1).
  rewrite fmap_app, join_app. simpl. rewrite app_nil_r.
  eapply wp_mono; [apply Hbody; [set_solver|done|done]|].
  cbn beta. intros _ w2 (Ho2 & Hh2 & Hr2).
  split; [by eapply only_spire_trans|]. split; [done|]. by rewrite register_all_app, Hr2, Hr1.
Qed.

(** One round of such a loop. *)
Lemma register_one pod node identity cluster w :
  let ren := option_list
    (to_option (RenderEntry identity cluster pod node (TrustDomain_String (MR_TrustDomain r)))) in
  healthy (spire w) →
  wp (reconcilePodEntry r pod node identity cluster) (λ _ w', registers ren w w') w.
Proof.
  intros ren Hh. subst ren. destruct (RenderEntry _ _ _ _ _) as [e|err] eqn:He; simpl.
  - by eapply wp_mono; [apply (reconcilePodEntry_ok _ _ _ _ _ e)|].
  - unfold reconcilePodEntry. rewrite He. apply wp_ret. by apply registers_nothing.
Qed.

(** ** In a world that stays as it is *)

Context `{!QuietKube K, !MapOrderLaws}.
Implicit Types (identity : WorkloadIdentity) (cluster : EKSClusterRegistry) (conn : ClusterConnection).

(** The pods of a cluster that an identity selects. *)
Definition selected (k : K) conn identity : list Pod :=
  match LabelSelectorAsSelector (PodSelector (WI_Spec identity)) with
  | ERR _ => []
  | OK podSelector => select_pods identity podSelector (Store_List (PodInformer conn) k).1
  end.

Lemma getMatchingPods_quiet conn identity w :
  getMatchingPods conn identity w = (Ret (selected (kube w) conn identity), w).
Proof.
  unfold getMatchingPods, selected. destruct (LabelSelectorAsSelector _) as [sel|err]; [|done].
  unfold mbind, GoM_bind, outside, mret, GoM_ret.
  pose proof (quiet_Store_List (PodInformer conn) (kube w)) as Hq.
  destruct (Store_List _ _) as [objs k]. simpl in *. subst k. by rewrite set_kube_id.
Qed.

Lemma reconcile_pod_ok pod identity conn w :
  healthy (spire w) →
  wp (if negb (pod_is_placed pod) then mret tt else
      node ← outside (Nodes_Get (K8sClient conn) (NodeName (Pod_Spec pod)));
      match node with
      | ERR _ => mret tt
      | OK node => reconcilePodEntry r pod node identity (Cluster conn)
      end)
    (λ _ w', registers (option_list (pod_entry r (kube w) identity conn pod)) w w') w.
Proof.
  unfold pod_entry. intros Hh. destruct (pod_is_placed pod); simpl; [|by apply wp_ret, registers_nothing].
  apply wp_bind, wp_outside. rewrite quiet_Nodes_Get, set_kube_id.
  destruct (Nodes_Get _ _ _).1 as [node|err]; simpl in *; [by apply register_one|].
  by apply wp_ret, registers_nothing.
Qed.

Lemma reconcile_pods_ok conn identity pods w :
  healthy (spire w) →
  wp (reconcile_pods r conn identity (Cluster conn) pods)
    (λ _ w', registers (omap (pod_entry r (kube w) identity conn) pods) w w') w.
Proof.
  rewrite <-mjoin_option_list. intros Hh. apply register_loop; [done|].
  intros pod w' _ Ho Hh'. replace (kube w) with (kube w') in * by (rewrite Ho; done).
  by apply reconcile_pod_ok.
Qed.

(** What the handler of an identity registers for the clusters it is given. *)
Definition entries_on (w0 : World K S) identity cluster : list Entry :=
  match clusters w0 !! EKS_Name cluster with
  | None => []
  | Some conn => omap (pod_entry r (kube w0) identity conn) (selected (kube w0) conn identity)
  end.

Lemma register_clusters_ok identity (cls : list EKSClusterRegistry) w :
  healthy (spire w) →
  (∀ cluster conn, cluster ∈ cls → clusters w !! EKS_Name cluster = Some conn → Cluster conn = cluster) →
  wp (for_each cls (λ cluster,
        conn ← GetClusterConnection (EKS_Name cluster);
        match conn with
        | None => mret tt
        | Some conn => pods ← getMatchingPods conn identity; reconcile_pods r conn identity cluster pods
        end))
    (λ _ w', registers (mjoin (entries_on w identity <$> cls)) w w') w.
Proof.
  intros Hh Hcl. apply register_loop; [done|].
  intros cluster w' Hin Ho Hh'. apply wp_bind, GetClusterConnection_wp.
  assert (kube w' = kube w ∧ clusters w' = clusters w) as [Hk Hcs] by (rewrite Ho; done).
  unfold entries_on in *. rewrite Hcs.
  destruct (clusters w !! EKS_Name cluster) as [conn|] eqn:Hconn; [|by apply wp_ret, registers_nothing].
  apply wp_bind. unfold wp at 1. rewrite getMatchingPods_quiet. rewrite <-Hk in *.
  rewrite <-(Hcl _ _ Hin Hconn). by apply reconcile_pods_ok.
Qed.

(** ** The orphans *)

Definition pods_on w identity cluster : list Pod :=
  match clusters w !! EKS_Name cluster with
  | None => []
  | Some conn => selected (kube w) conn identity
  end.

Lemma placed_uids_app pods1 pods2 : placed_uids (pods1 ++ pods2) = placed_uids pods1 ∪ placed_uids pods2.
Proof. unfold placed_uids. by rewrite filter_app, fmap_app, list_to_set_app_L. Qed.

Lemma placed_uids_perm pods1 pods2 : pods1 ≡ₚ pods2 → placed_uids pods1 = placed_uids pods2.
Proof.
  intros Hp. apply set_eq. intros uid. unfold placed_uids. by rewrite !elem_of_list_to_set, Hp.
Qed.

(** The enabled clusters of the listing that the identity selects. *)
Definition matching_clusters (cls : list EKSClusterRegistry) identity : list EKSClusterRegistry :=
  filter (λ cluster, Enabled (EKS_Spec cluster) && shouldProcessIdentity identity cluster = true) cls.

Lemma findMatchingClusters_quiet identity cls w :
  (List_EKSClusterRegistries (kube w)).1 = OK cls →
  findMatchingClusters identity w = (Ret (matching_clusters cls identity), w).
Proof.
  intros Hlist. unfold findMatchingClusters, list_clusters, mbind, GoM_bind, outside, mret, GoM_ret.
  pose proof (quiet_List_EKS (kube w)) as Hq. destruct (List_EKSClusterRegistries _) as [res k].
  simpl in *. subst. by rewrite set_kube_id.
Qed.

(** A loop that collects the UIDs of the placed pods [f x]. *)
Lemma fold_uids_quiet {A} (f : A → list Pod) (l : list A) body uids w :
  (∀ x uids, body x uids w = (Ret (uids ∪ placed_uids (f x)), w)) →
  fold_each l uids body w = (Ret (uids ∪ placed_uids (mjoin (f <$> l))), w).
Proof.
  intros Hbody. revert uids. induction l as [|x l IH]; intros uids.
  - cbn. unfold mret, GoM_ret. do 2 f_equal. symmetry. apply (right_id_L ∅ (∪)).
  - cbn [fold_each]. unfold mbind, GoM_bind. rewrite Hbody, IH, fmap_cons. cbn [mjoin list_join].
    by rewrite placed_uids_app, union_assoc_L.
Qed.

Lemma valid_uids_quiet identity cls w :
  (List_EKSClusterRegistries (kube w)).1 = OK cls →
  valid_uids_of_identity identity w =
    (Ret (placed_uids (mjoin (pods_on w identity <$> matching_clusters cls identity))), w).
Proof.
  intros Hlist. unfold valid_uids_of_identity, mbind, GoM_bind at 1.
  rewrite (findMatchingClusters_quiet _ _ _ Hlist), <-(union_empty_l_L (placed_uids _)).
  apply fold_uids_quiet. intros cluster uids.
  unfold pods_on, GetClusterConnection, get_world, mbind, GoM_bind, mret, GoM_ret.
  destruct (clusters w !! EKS_Name cluster) as [conn|]; [by rewrite getMatchingPods_quiet|].
  by rewrite (right_id_L ∅ (∪) uids : uids ∪ placed_uids [] = uids).
Qed.

(** An entry a clean-up takes for an orphan. *)
Definition orphan (belongs : Entry → bool) (uids : gset string) e : bool :=
  belongs e && negb (has_valid_pod uids e).

(** Both clean-ups list the entries, look for the pods and delete. *)
Lemma cleanup_ok belongs (find : GoM (World K S) (gset string)) uids w :
  healthy (spire w) → (∀ s, find (set_spire s w) = (Ret uids, set_spire s w)) →
  wp (entries ← on_spire ListEntries;
      match entries with
      | ERR _ => mret tt
      | OK entries => validPodUIDs ← find; delete_orphans entries belongs validPodUIDs
      end)
    (λ _ w', only_spire w w' ∧ without (orphan belongs uids) (registered w) (registered w')) w.
Proof.
  intros Hh Hfind. apply wp_bind, wp_on_spire.
  eapply wp_mono; [by apply ListEntries_ok|]. intros res s1 (Hh1 & Hs1 & es & -> & Hes).
  assert (registered (set_spire s1 w) = registered w) as Hreg by exact Hs1.
  apply wp_bind. unfold wp at 1. rewrite Hfind. eapply wp_mono.
  - apply (wp_for_each_ext (λ e, if orphan belongs uids e
      then on_spire (DeleteEntry (Entry_ID e));; mret tt else mret tt)).
    { intros e. unfold orphan. by destruct (belongs e). }
    apply delete_listed_ok; [done|by rewrite Hreg].
  - rewrite Hreg. intros _ w' [[_ Hw] Ho]. split; [|done].
    by eapply only_spire_trans; [apply only_spire_set|].
Qed.

(** *** The whole handler *)

Lemma ReconcileWorkloadIdentity_ok identity cls w :
  healthy (spire w) → (List_EKSClusterRegistries (kube w)).1 = OK cls →
  (∀ cluster conn, cluster ∈ cls → clusters w !! EKS_Name cluster = Some conn → Cluster conn = cluster) →
  let es := mjoin (entries_on w identity <$> matching_clusters cls identity) in
  let uids := placed_uids (mjoin (pods_on w identity <$> matching_clusters cls identity)) in
  wp (ReconcileWorkloadIdentity r identity false) (λ _ w', only_spire w w' ∧
    without (orphan (λ e, entryBelongsToIdentity e identity) uids)
      (register_all r (registered w) es) (registered w')) w.
Proof.
  intros Hh Hlist Hcl es uids. unfold ReconcileWorkloadIdentity.
  apply wp_bind. unfold wp at 1. rewrite (findMatchingClusters_quiet _ _ _ Hlist). apply wp_bind.
  eapply wp_mono; [apply register_clusters_ok; [done|]|].
  { intros cluster conn [_ Hin]%list_elem_of_filter. by apply Hcl. }
  intros _ w1 (Ho1 & Hh1 & Hr1).
  assert (kube w1 = kube w) as Hk by (rewrite Ho1; done).
  eapply wp_mono; [apply (cleanup_ok _ _ uids); [done|]|].
  { intros s. rewrite (valid_uids_quiet _ cls) by (by simpl; rewrite Hk).
    unfold uids. do 4 f_equal. rewrite Ho1. done. }
  intros _ w2 [Ho2 Hw]. split; [by eapply only_spire_trans|]. by rewrite Hr1 in Hw.
Qed.

(** *** Agreement with the full cycle

    When the connections are current, the clusters an identity selects are those
    of the connections it selects, and both code paths ask for the same entries. *)

Definition connections_for w identity : list ClusterConnection :=
  filter (λ conn, shouldProcessIdentity identity (Cluster conn) = true) (range_map (clusters w)).*2.

Definition connection_names (conns : list ClusterConnection) : list string :=
  (λ conn, EKS_Name (Cluster conn)) <$> conns.

Lemma connection_names_range_map cls w :
  connections_current cls w → connection_names (range_map (clusters w)).*2 = (range_map (clusters w)).*1.
Proof.
  intros Hcur. unfold connection_names. rewrite <-list_fmap_compose. apply list_fmap_ext.
  intros i [k c] Hi. simpl. apply list_elem_of_lookup_2, elem_of_range_map in Hi.
  by destruct (Hcur k c Hi) as (_ & _ & ?).
Qed.

(** In a list without repeated names the name determines the element. *)
Lemma NoDup_fmap_inv {A B} (f : A → B) (l : list A) x y :
  NoDup (f <$> l) → x ∈ l → y ∈ l → f x = f y → x = y.
Proof.
  intros Hnd [i Hi]%list_elem_of_lookup [j Hj]%list_elem_of_lookup Heq.
  assert (i = j) as -> by (eapply NoDup_lookup; [exact Hnd| |];
    rewrite list_lookup_fmap, ?Hi, ?Hj; simpl; by f_equal).
  congruence.
Qed.

Lemma connected_clusters identity cls w :
  connections_current cls w → NoDup ((λ c, EKS_Name c) <$> cls) →
  omap (λ cluster, clusters w !! EKS_Name cluster) (matching_clusters cls identity) ≡ₚ
    connections_for w identity.
Proof.
  intros Hcur Hnd.
  assert (∀ k c, clusters w !! k = Some c → EKS_Name (Cluster c) = k) as Hname.
  { intros k c Hk. by destruct (Hcur k c Hk) as (_ & _ & ?). }
  apply NoDup_Permutation.
  - apply (NoDup_fmap_1 (λ conn, EKS_Name (Cluster conn))).
    eapply sublist_NoDup; [exact Hnd|].
    transitivity ((λ c, EKS_Name c) <$> matching_clusters cls identity);
      [|apply fmap_sublist, sublist_filter]. clear Hnd.
    induction (matching_clusters cls identity) as [|cl l IH]; [done|]. csimpl.
    destruct (clusters w !! EKS_Name cl) as [c|] eqn:Hc; [|by apply sublist_cons].
    csimpl. rewrite (Hname _ _ Hc). by apply sublist_skip.
  - apply NoDup_filter, (NoDup_fmap_1 (λ conn, EKS_Name (Cluster conn))).
    change (NoDup (connection_names (range_map (clusters w)).*2)).
    rewrite (connection_names_range_map cls) by done. apply NoDup_range_map_fst.
  - intros conn. unfold connections_for, matching_clusters.
    rewrite list_elem_of_omap, list_elem_of_filter, list_elem_of_fmap. split.
    + intros (cl & [[_ Hsh]%andb_true_iff Hin]%list_elem_of_filter & Hc).
      destruct (Hcur _ _ Hc) as (Hin' & _ & Hn).
      assert (Cluster conn = cl) as -> by by eapply (NoDup_fmap_inv (λ c, EKS_Name c)).
      split; [done|]. exists (EKS_Name cl, conn). by rewrite elem_of_range_map.
    + intros (Hsh & [k c] & -> & Hc%elem_of_range_map). simpl in *.
      destruct (Hcur _ _ Hc) as (Hin & Hen & Hn). exists (Cluster c).
      rewrite list_elem_of_filter, Hen, Hsh, Hn. done.
Qed.

Lemma mjoin_omap {A B C} (f : A → option B) (g : B → list C) (l : list A) :
  mjoin ((λ x, match f x with None => [] | Some y => g y end) <$> l) = mjoin (g <$> omap f l).
Proof. induction l as [|x l IH]; [done|]. csimpl. rewrite IH. by destruct (f x). Qed.

Lemma entries_on_desired identity cls w :
  connections_current cls w → NoDup ((λ c, EKS_Name c) <$> cls) →
  isNamespaceIgnored r (Spec_Namespace (WI_Spec identity)) = false →
  mjoin (entries_on w identity <$> matching_clusters cls identity) ≡ₚ desired r w [identity].
Proof.
  intros Hcur Hnd Hns. unfold entries_on.
  rewrite (mjoin_omap (λ cluster, clusters w !! EKS_Name cluster)
    (λ conn, omap (pod_entry r (kube w) identity conn) (selected (kube w) conn identity))).
  rewrite connected_clusters by done. unfold desired, desired_entries, connections_for.
  rewrite <-mjoin_filter. unfold cluster_entries. apply reflexive_eq. f_equal.
  apply list_fmap_ext. intros _ conn _. rewrite filter_cons.
  destruct (shouldProcessIdentity identity (Cluster conn)); [|done].
  rewrite decide_True by done. csimpl. rewrite app_nil_r.
  unfold identity_entries, selected. rewrite Hns. by destruct (LabelSelectorAsSelector _).
Qed.

(** For an ignored namespace the full cycle asks for nothing. *)
Lemma desired_ignored identity w :
  isNamespaceIgnored r (Spec_Namespace (WI_Spec identity)) = true → desired r w [identity] = [].
Proof.
  intros Hns. unfold desired, desired_entries. induction (range_map (clusters w)).*2 as [|conn l IH]; [done|].
  csimpl. rewrite IH, app_nil_r. unfold cluster_entries. rewrite filter_cons.
  case_decide; [|done]. csimpl. unfold identity_entries. by rewrite Hns.
Qed.

(** The pods the identity selects in all the clusters it selects. *)
Definition selected_pods w identity : list Pod :=
  mjoin ((λ conn, selected (kube w) conn identity) <$> connections_for w identity).

Lemma pods_on_selected identity cls w :
  connections_current cls w → NoDup ((λ c, EKS_Name c) <$> cls) →
  mjoin (pods_on w identity <$> matching_clusters cls identity) ≡ₚ selected_pods w identity.
Proof.
  intros Hcur Hnd. unfold pods_on.
  rewrite (mjoin_omap (λ cluster, clusters w !! EKS_Name cluster)
    (λ conn, selected (kube w) conn identity)).
  by rewrite connected_clusters.
Qed.
Lemma compatible_perm es es' m : es ≡ₚ es' → compatible es m → compatible es' m.
Proof. intros Hp [Hnd Hsim]. split; [by rewrite <-Hp|]. intros e k e'. rewrite <-Hp. apply Hsim. Qed.

(** ** One pod *)

(** The full cycle's condition for an identity and a pod of its cluster. *)
Definition selects_pod identity cluster pod : bool :=
  bool_decide (Pod_Namespace pod = Spec_Namespace (WI_Spec identity)) &&
  shouldProcessIdentity identity cluster &&
  match LabelSelectorAsSelector (PodSelector (WI_Spec identity)) with
  | ERR _ => false
  | OK podSelector => Matches podSelector (Labels (Pod_ObjectMeta pod))
  end.

(** An identity that pod events and cycle read the same way. *)
Definition selector_is_clear identity : Prop :=
  PodSelector (WI_Spec identity) ≠ None ∧
  ∃ podSelector, LabelSelectorAsSelector (PodSelector (WI_Spec identity)) = OK podSelector.

Lemma matching_identities_clear pod cluster (identities : list WorkloadIdentity) :
  Forall selector_is_clear identities →
  matching_identities pod cluster identities =
    Ret (filter (λ identity, selects_pod identity cluster pod = true) identities).
Proof.
  induction 1 as [|identity l [Hsome [sel Hsel]] Hl IH]; [done|].
  cbn [matching_identities]. rewrite filter_cons.
  assert (selects_pod identity cluster pod =
    negb (bool_decide (Spec_Namespace (WI_Spec identity) ≠ Pod_Namespace pod)) &&
    shouldProcessIdentity identity cluster && Matches sel (Labels (Pod_ObjectMeta pod))) as Heq.
  { unfold selects_pod. rewrite Hsel, bool_decide_not, negb_involutive. do 2 f_equal.
    by apply bool_decide_ext. }
  rewrite Heq. destruct (bool_decide (_ ≠ _)); simpl; [exact IH|].
  destruct (shouldProcessIdentity identity cluster); simpl; [|exact IH].
  destruct (PodSelector (WI_Spec identity)) as [s|]; [|done]. rewrite Hsel. simpl. rewrite IH. simpl.
  by destruct (Matches sel _).
Qed.

(** The entries of one pod, in the order of the identities. *)
Definition pod_entries (k : K) (identities : list WorkloadIdentity) conn pod : list Entry :=
  omap (λ identity, pod_entry r k identity conn pod)
    (filter (λ identity, selects_pod identity (Cluster conn) pod = true) identities).

(** They are what the full cycle asks for that pod. *)
Lemma elem_of_pod_entries identities conn pod w e :
  clusters w !! EKS_Name (Cluster conn) = Some conn →
  isNamespaceIgnored r (Pod_Namespace pod) = false →
  ObjPod pod ∈ (Store_List (PodInformer conn) (kube w)).1 →
  e ∈ pod_entries (kube w) identities conn pod → e ∈ desired r w identities.
Proof.
  intros Hconn Hns Hpod (identity & [Hsel Hid]%list_elem_of_filter & He)%list_elem_of_omap.
  unfold selects_pod in Hsel. rewrite !andb_true_iff, bool_decide_eq_true in Hsel.
  destruct Hsel as [[Hpns Hsh] Hm].
  unfold desired, desired_entries. apply list_elem_of_join.
  exists (cluster_entries r (kube w) identities conn). split.
  - apply list_elem_of_join. exists (identity_entries r (kube w) conn identity). split.
    + unfold identity_entries. rewrite <-Hpns, Hns.
      destruct (LabelSelectorAsSelector _) as [sel|]; [|done].
      apply list_elem_of_omap. exists pod. split; [|done]. by apply elem_of_select_pods.
    + apply list_elem_of_fmap. exists identity. by rewrite list_elem_of_filter.
  - apply list_elem_of_fmap. exists conn. split; [done|]. apply list_elem_of_fmap.
    exists (EKS_Name (Cluster conn), conn). by rewrite elem_of_range_map.
Qed.

(** The event of a pod that runs registers them. *)
Lemma ReconcileSinglePod_ok pod conn action identities w :
  healthy (spire w) → action ≠ "delete" → pod_is_placed pod = true →
  isNamespaceIgnored r (Pod_Namespace pod) = false →
  (List_WorkloadIdentities (kube w)).1 = OK identities → Forall selector_is_clear identities →
  clusters w !! EKS_Name (Cluster conn) = Some conn →
  wp (ReconcileSinglePod r pod (Cluster conn) action)
    (λ _ w', registers (pod_entries (kube w) identities conn pod) w w') w.
Proof.
  intros Hh Hact Hplaced Hns Hlist Hclear Hconn. unfold ReconcileSinglePod.
  rewrite Hns, bool_decide_false by done. apply wp_bind. unfold findMatchingIdentities, list_identities.
  apply wp_bind, wp_bind, wp_outside. rewrite Hlist, quiet_List_WI, set_kube_id. simpl default.
  apply wp_ret, wp_pure. rewrite matching_identities_clear by done.
  unfold pod_entries in *. set (ids := filter _ identities) in *.
  simpl. case_bool_decide as Hlen.
  { apply length_zero_iff_nil in Hlen. rewrite Hlen. by apply wp_ret, registers_nothing. }
  rewrite Hplaced. simpl. apply wp_bind, GetClusterConnection_wp. rewrite Hconn.
  apply wp_bind, wp_outside. rewrite quiet_Nodes_Get, set_kube_id.
  rewrite <-mjoin_option_list in *. unfold pod_entry in *. rewrite Hplaced in *.
  destruct (Nodes_Get _ _ _).1 as [node|err]; simpl in *.
  - apply register_loop; [done|]. intros identity w' _ _ Hh'. by apply register_one.
  - replace (mjoin _) with (@nil Entry); [by apply wp_ret, registers_nothing|].
    clear. by induction ids.
Qed.
(** ** One cluster *)

Definition identities_of (identities : list WorkloadIdentity) cluster : list WorkloadIdentity :=
  filter (λ identity, shouldProcessIdentity identity cluster = true) identities.

Lemma findIdentitiesForCluster_quiet cluster identities w :
  (List_WorkloadIdentities (kube w)).1 = OK identities →
  findIdentitiesForCluster cluster w = (Ret (identities_of identities cluster), w).
Proof.
  intros Hlist. unfold findIdentitiesForCluster, list_identities, mbind, GoM_bind, outside, mret, GoM_ret.
  pose proof (quiet_List_WI (kube w)) as Hq. destruct (List_WorkloadIdentities _) as [res k].
  simpl in *. subst. by rewrite set_kube_id.
Qed.

(** The pods on a connection that some identity selects. *)
Definition cluster_pods (k : K) (identities : list WorkloadIdentity) conn : list Pod :=
  mjoin (selected k conn <$> identities_of identities (Cluster conn)).

Lemma valid_uids_of_cluster_quiet conn identities w :
  (List_WorkloadIdentities (kube w)).1 = OK identities →
  clusters w !! EKS_Name (Cluster conn) = Some conn →
  valid_uids_of_cluster (Cluster conn) w = (Ret (placed_uids (cluster_pods (kube w) identities conn)), w).
Proof.
  intros Hlist Hconn. unfold valid_uids_of_cluster, mbind, GoM_bind.
  change (GetClusterConnection (EKS_Name (Cluster conn)) w)
    with (Ret (clusters w !! EKS_Name (Cluster conn)), w).
  rewrite Hconn, (findIdentitiesForCluster_quiet _ _ _ Hlist), <-(union_empty_l_L (placed_uids _)).
  apply fold_uids_quiet. intros identity uids. by rewrite getMatchingPods_quiet.
Qed.

(** The entries the handler of a cluster asks for. *)
Definition cluster_asks (k : K) (identities : list WorkloadIdentity) conn : list Entry :=
  mjoin ((λ identity, omap (pod_entry r k identity conn) (selected k conn identity)) <$>
    identities_of identities (Cluster conn)).

(** The full cycle asks for the same, less the identities of ignored
    namespaces. *)
Lemma cluster_entries_asks (k : K) identities conn :
  cluster_entries r k identities conn =
    cluster_asks k (filter (λ identity,
      isNamespaceIgnored r (Spec_Namespace (WI_Spec identity)) = false) identities) conn.
Proof.
  unfold cluster_asks, cluster_entries, identities_of.
  induction identities as [|identity l IH]; [done|]. rewrite !filter_cons.
  unfold identity_entries at 1. destruct (isNamespaceIgnored _ _) eqn:Hns; simpl.
  - destruct (shouldProcessIdentity identity (Cluster conn)); simpl; [|done].
    rewrite Hns. exact IH.
  - rewrite filter_cons. destruct (shouldProcessIdentity identity (Cluster conn)); simpl; [|done].
    rewrite Hns. f_equal; [|exact IH]. unfold selected. by destruct (LabelSelectorAsSelector _).
Qed.

(** From the connection on, the handler of a cluster registers its entries and
    cleans up. *)
Lemma ReconcileEKSCluster_ok conn identities w w1 :
  AddOrUpdateCluster (Cluster conn) w = (Ret None, w1) →
  Enabled (EKS_Spec (Cluster conn)) = true → clusters w1 !! EKS_Name (Cluster conn) = Some conn →
  healthy (spire w1) → (List_WorkloadIdentities (kube w1)).1 = OK identities →
  let es := cluster_asks (kube w1) identities conn in
  let uids := placed_uids (cluster_pods (kube w1) identities conn) in
  wp (ReconcileEKSCluster r (Cluster conn) false) (λ _ w', only_spire w1 w' ∧
    without (orphan (λ e, entryBelongsToCluster e (Cluster conn)) uids)
      (register_all r (registered w1) es) (registered w')) w.
Proof.
  intros Hadd Hen Hconn Hh Hlist es uids. unfold ReconcileEKSCluster. rewrite Hen. simpl.
  apply wp_bind. unfold wp at 1. rewrite Hadd. apply wp_bind, GetClusterConnection_wp. rewrite Hconn.
  apply wp_bind. unfold wp at 1. rewrite (findIdentitiesForCluster_quiet _ _ _ Hlist).
  apply wp_bind. eapply wp_mono.
  - apply (register_loop _ _ (λ identity,
      omap (pod_entry r (kube w1) identity conn) (selected (kube w1) conn identity))); [done|].
    intros identity w' _ Ho Hh'. apply wp_bind. unfold wp at 1. rewrite getMatchingPods_quiet.
    replace (kube w1) with (kube w') in * by (rewrite Ho; done). by apply reconcile_pods_ok.
  - intros _ w2 (Ho2 & Hh2 & Hr2).
    eapply wp_mono; [apply (cleanup_ok _ _ uids); [done|]|].
    { intros s. rewrite (valid_uids_of_cluster_quiet _ identities) by (simpl; rewrite Ho2; done).
      unfold uids. do 4 f_equal. rewrite Ho2. done. }
    intros _ w3 [Ho3 Hw]. split; [by eapply only_spire_trans|]. by rewrite Hr2 in Hw.
Qed.
End loop.
