(* ===== verification/TestLibs.v ===== *)
(** * Concrete libraries for the witnesses

    Small executable instances of the interfaces of [Libs], [Entries] and
    [SpireClient].  The theorems hold for every instance; these show that the
    laws can be met and let the witnesses compute. *)

From S2P Require Export EntriesStateFacts SpireClientFacts.

Local Open Scope Z_scope.

(** ** SPIFFE IDs: a non-empty trust domain without slash, and a path that is
    empty or starts with one. *)

Definition td_ok (td : string) : bool :=
  bool_decide (td ≠ "") && bool_decide ("/"%char ∉ chars td).
Definition path_ok (p : string) : bool :=
  match p with EmptyString => true | String c _ => bool_decide (c = "/"%char) end.

Record test_td := TestTD { td_name : string; td_is_ok : Is_true (td_ok td_name) }.
Record test_id := TestID { id_td : test_td; id_path : string; path_is_ok : Is_true (path_ok id_path) }.

Lemma test_td_eq (a b : test_td) : td_name a = td_name b → a = b.
Proof. destruct a as [n p], b as [n' p']; simpl. intros ->. f_equal. apply proof_irrel. Qed.

Lemma test_id_eq (a b : test_id) : id_td a = id_td b → id_path a = id_path b → a = b.
Proof. destruct a as [t n p], b as [t' n' p']; simpl. intros -> ->. f_equal. apply proof_irrel. Qed.

#[export] Instance test_td_eq_dec : EqDecision test_td.
Proof.
  intros a b. destruct (decide (td_name a = td_name b)) as [H|H].
  - left. by apply test_td_eq.
  - right. congruence.
Defined.

#[export] Instance test_id_eq_dec : EqDecision test_id.
Proof.
  intros a b. destruct (decide (id_td a = id_td b ∧ id_path a = id_path b)) as [[H1 H2]|H].
  - left. by apply test_id_eq.
  - right. intros ->. by apply H.
Defined.

(** Up to the first slash, and the rest. *)
Fixpoint cut_slash (s : string) : string * string :=
  match s with
  | EmptyString => ("", "")
  | String c s' =>
      if bool_decide (c = "/"%char) then ("", s)
      else let '(a, b) := cut_slash s' in (String c a, b)
  end.

Definition mk_td (s : string) : option test_td :=
  match decide (Is_true (td_ok s)) with left p => Some (TestTD s p) | right _ => None end.
Definition mk_id (t : test_td) (s : string) : option test_id :=
  match decide (Is_true (path_ok s)) with left p => Some (TestID t s p) | right _ => None end.

Definition parse_id (s : string) : option test_id :=
  if HasPrefix s "spiffe://" then
    let '(a, b) := cut_slash (TrimPrefix s "spiffe://") in
    t ← mk_td a; mk_id t b
  else None.

Definition of_option {A} (msg : string) (o : option A) : result A :=
  match o with Some a => OK a | None => ERR (ErrExt msg) end.

Definition test_td_String (t : option test_td) : string :=
  match t with None => "" | Some t => td_name t end.
Definition test_id_String (i : option test_id) : string :=
  match i with None => "" | Some i => "spiffe://" +:+ td_name (id_td i) +:+ id_path i end.

#[export] Instance test_SpiffeID : SpiffeID := {|
  ID := option test_id;
  TrustDomain := option test_td;
  ID_FromString s := Some <$> of_option "spiffeid: invalid ID" (parse_id s);
  ID_String := test_id_String;
  ID_TrustDomain i := id_td <$> i;
  ID_Path i := match i with None => "" | Some i => id_path i end;
  ID_IsZero i := bool_decide (i = None);
  TrustDomainFromString s := Some <$> of_option "spiffeid: invalid trust domain" (mk_td s);
  TrustDomain_String := test_td_String;
  TrustDomain_IsZero t := bool_decide (t = None);
|}.

Lemma cut_slash_app td p :
  "/"%char ∉ chars td → Is_true (path_ok p) → cut_slash (td +:+ p) = (td, p).
Proof.
  induction td as [|c td IH]; intros Htd Hp.
  - destruct p as [|c p]; [done|]. simpl in *. apply bool_decide_unpack in Hp as ->. done.
  - rewrite string_app_cons. simpl in *. apply not_elem_of_cons in Htd as [Hc Htd].
    rewrite bool_decide_false by done. by rewrite IH.
Qed.

Lemma cut_slash_join s a b : cut_slash s = (a, b) → s = (a +:+ b).
Proof.
  revert a b. induction s as [|c s IH]; intros a b; simpl; [by intros [= <- <-]|].
  case_bool_decide; [by intros [= <- <-]|]. destruct (cut_slash s) as [a' b'].
  intros [= <- <-]. rewrite string_app_cons. by rewrite <-(IH a' b').
Qed.

Lemma mk_td_name t : mk_td (td_name t) = Some t.
Proof.
  unfold mk_td. destruct (decide _) as [p|n]; [|by destruct n, t].
  f_equal. by apply test_td_eq.
Qed.

Lemma mk_td_Some s t : mk_td s = Some t → td_name t = s.
Proof. unfold mk_td. destruct (decide _); intros; by simplify_eq. Qed.

Lemma parse_id_String i : parse_id (test_id_String (Some i)) = Some i.
Proof.
  unfold parse_id. simpl test_id_String. rewrite HasPrefix_append, TrimPrefix_app.
  destruct i as [[td Htd] p Hp]. simpl. pose proof Htd as [_ Hsl]%andb_prop_elim.
  apply bool_decide_unpack in Hsl. rewrite (cut_slash_app td p Hsl Hp).
  pose proof (mk_td_name (TestTD td Htd)) as Hmk. simpl in Hmk. rewrite Hmk. simpl.
  unfold mk_id. destruct (decide _) as [q|n]; [|done]. f_equal. by apply test_id_eq.
Qed.

Lemma parse_id_Some s i : parse_id s = Some i → test_id_String (Some i) = s.
Proof.
  unfold parse_id. destruct (HasPrefix s _) eqn:Hp; [|done].
  apply HasPrefix_app in Hp as [t ->]. rewrite TrimPrefix_app.
  destruct (cut_slash t) as [a b] eqn:Hc. apply cut_slash_join in Hc as ->.
  destruct (mk_td a) as [td|] eqn:Htd; simpl; [|done]. apply mk_td_Some in Htd as <-.
  unfold mk_id. destruct (decide _); intros; by simplify_eq.
Qed.

#[export] Instance test_SpiffeIDLaws : SpiffeIDLaws.
Proof.
  split; simpl.
  - intros s i. destruct (parse_id s) as [j|] eqn:Hj; simpl; intros; simplify_eq.
    by apply parse_id_Some.
  - intros s i. destruct (parse_id s); simpl; intros; by simplify_eq.
  - by intros [i|].
  - intros [i|]; [|done]. intros _. by rewrite parse_id_String.
  - intros [t|]; [|done]. intros _. simpl. by rewrite mk_td_name.
  - intros s t. destruct (mk_td s); simpl; intros; by simplify_eq.
  - intros [t|] [t'|]; simpl.
    + intros Heq. f_equal. by apply test_td_eq.
    + intros Heq. destruct t as [n Hn]. simpl in Heq. subst. done.
    + intros Heq. destruct t' as [n Hn]. simpl in Heq. subst. done.
    + done.
Qed.

(** ** Label selectors: a conjunction of equalities; nil matches nothing *)

#[export] Instance test_LabelSelectors : LabelSelectors := {|
  LabelSelector := list (string * string);
  Selector := option (list (string * string));
  LabelSelectorAsSelector s :=
    match s with
    | Some l => if bool_decide (Exists (λ p, p.1 = "") l)
                then ERR (ErrExt "invalid label key") else OK (Some l)
    | None => OK None
    end;
  Matches s labels :=
    match s with
    | None => false
    | Some l => forallb (λ p, bool_decide (labels !! p.1 = Some p.2)) l
    end;
|}.

#[export] Instance test_LabelSelectorsLaws : LabelSelectorsLaws.
Proof. split. by exists None. Qed.

#[export] Instance test_Regexps : Regexps := {|
  Regexp := string;
  Regexp_Compile s := if bool_decide (s = "(") then ERR (ErrExt "missing )") else OK s;
  MatchString r s := Contains s r;
|}.

#[export] Instance test_MapOrder : MapOrder := {| range_map V m := map_to_list m |}.
#[export] Instance test_MapOrderLaws : MapOrderLaws.
Proof. by split. Qed.

(** On amd64 an out-of-range conversion gives the smallest [int32]. *)
#[export] Instance test_FloatToInt : FloatToInt := {| int32_out_of_range _ := - 2 ^ 31 |}.

(** ** Templates: text with the actions of the README examples *)

Definition expand_action (s : string) (d : TemplateData) : option (string * string) :=
  let try_ a v := if HasPrefix s a then Some (v, TrimPrefix s a) else None in
  let first_ (x y : option (string * string)) := match x with Some r => Some r | None => y end in
  first_ (try_ "{{ .TrustDomain }}" (TD_TrustDomain d))
  (first_ (try_ "{{ .ClusterName }}" (TD_ClusterName d))
  (first_ (try_ "{{ .NodeMeta.UID }}" (UID (NodeMeta d)))
  (first_ (try_ "{{ .PodMeta.Name }}" (Name (PodMeta d)))
  (first_ (try_ "{{ .PodMeta.Namespace }}" (Namespace (PodMeta d)))
     (try_ "{{ .PodSpec.ServiceAccountName }}" (ServiceAccountName (TD_PodSpec d))))))).

Fixpoint expand (fuel : nat) (s : string) (d : TemplateData) : string :=
  match fuel with
  | O => s
  | S fuel =>
      match expand_action s d with
      | Some (v, rest) => v +:+ expand fuel rest d
      | None => match s with EmptyString => "" | String c s => String c (expand fuel s d) end
      end
  end.

#[export] Instance test_Templates : Templates := {|
  Template := string;
  Template_Parse s := if Contains s "{{}}" then ERR (ErrExt "missing value") else OK s;
  Template_Execute t d := if Contains t "{{ .Missing }}" then ERR (ErrExt "no such field")
                          else OK (expand (String.length t) t d);
  Template_Must_Parse s := s;
|}.

#[export] Instance test_TemplatesLaws : TemplatesLaws.
Proof. split. intros s t. simpl. destruct (Contains s "{{}}"); intros; by simplify_eq. Qed.
