(* ===== verification/TestServer.v ===== *)
(** * A small SPIRE server for the witnesses

    An entry service that keeps the entries in memory, with the documented
    behaviour that [ServiceSpec] and [ReliableService] ask for.  It shows that
    both can be met, and lets the witnesses run the whole stack. *)

From S2P Require Export SpireReliable.

Local Open Scope Z_scope.

Section server.
Context `{!SpiffeID, !SpiffeIDLaws}.

#[export] Instance convertible_dec a : Decision (convertible a).
Proof.
  destruct (fromAPIEntry a) as [[e|err]| |] eqn:Ha;
    [left; by exists e|right; intros [e He]; congruence..].
Defined.

#[export] Instance ApiSPIFFEID_eq_dec : EqDecision ApiSPIFFEID.
Proof. solve_decision. Defined.

#[export] Instance api_similar_dec a b : Decision (api_similar a b).
Proof. unfold api_similar. apply _. Defined.

Definition server : Type := gmap string ApiEntry.

(** The well-formed part of the memory. *)
Definition well_formed (p : string * ApiEntry) : Prop := Api_Id p.2 = p.1 ∧ convertible p.2.
#[local] Instance well_formed_dec p : Decision (well_formed p).
Proof. unfold well_formed. apply _. Defined.
Definition server_store (m : server) : gmap string ApiEntry := filter well_formed m.

Definition status (code : Z) : ApiStatus := {| Api_Code := code; Api_Message := "" |}.
Definition codes_InvalidArgument : Z := 3.
Definition codes_NotFound : Z := 5.

(** An existing registration that is the same as [a] for the server. *)
Definition has_similar (a : ApiEntry) (m : gmap string ApiEntry) : bool :=
  existsb (λ b, bool_decide (api_similar a b)) (map_to_list m).*2.

Definition create_one (a : ApiEntry) (m : server) : CreateResult * server :=
  if bool_decide (Api_Id a = "" ∨ ¬ convertible a)
  then ({| Result_Status := Some (status codes_InvalidArgument); Result_Entry := None |}, m)
  else if bool_decide (is_Some (server_store m !! Api_Id a)) || has_similar a (server_store m)
  then ({| Result_Status := Some (status codes_AlreadyExists); Result_Entry := None |}, m)
  else ({| Result_Status := Some (status 0); Result_Entry := Some a |}, <[Api_Id a := a]> m).

Definition update_one (a : ApiEntry) (m : server) : option ApiStatus * server :=
  if bool_decide (is_Some (server_store m !! Api_Id a) ∧ convertible a)
  then (Some (status 0), <[Api_Id a := a]> m) else (Some (status codes_NotFound), m).

Definition delete_one (id : string) (m : server) : option ApiStatus * server :=
  if bool_decide (is_Some (server_store m !! id))
  then (Some (status 0), delete id m) else (Some (status codes_NotFound), m).

(** One element after the other, with a result for each. *)
Fixpoint run_each {A B} (f : A → server → B * server) (l : list A) (m : server) : list B * server :=
  match l with
  | [] => ([], m)
  | x :: l => let '(y, m) := f x m in let '(ys, m) := run_each f l m in (y :: ys, m)
  end.

Definition respond {A B} (f : A → server → B * server) (l : list A) : GoM server (result (list B)) :=
  λ m, let '(ys, m) := run_each f l m in (Ret (OK ys), m).

#[export] Instance test_EntryService : EntryService server := {|
  rpc_ListEntries tok size m := (Ret (OK ((map_to_list (server_store m)).*2, "")), m);
  rpc_BatchCreateEntry := respond create_one;
  rpc_BatchUpdateEntry := respond update_one;
  rpc_BatchDeleteEntry := respond delete_one;
  conn_Close m := (Ret None, m);
|}.

(** *** The store after one operation *)

Lemma server_store_insert a m :
  convertible a → server_store (<[Api_Id a := a]> m) = <[Api_Id a := a]> (server_store m).
Proof. intros Ha. by apply map_filter_insert_True. Qed.

Lemma server_store_delete id m : server_store (delete id m) = delete id (server_store m).
Proof. apply map_filter_delete. Qed.

Lemma has_similar_false a m :
  (∀ k b, m !! k = Some b → ¬ api_similar a b) → has_similar a m = false.
Proof.
  intros Hno. apply not_true_iff_false. unfold has_similar. rewrite existsb_exists.
  intros (b & Hin%list_elem_of_In & Hb%bool_decide_eq_true).
  apply list_elem_of_fmap in Hin as ([k b'] & -> & Hin%elem_of_map_to_list). by eapply Hno.
Qed.

Lemma has_similar_true a m k b : m !! k = Some b → api_similar a b → has_similar a m = true.
Proof.
  intros Hk Hs. unfold has_similar. apply existsb_exists. exists b.
  rewrite bool_decide_true by done. split; [|done]. apply list_elem_of_In, list_elem_of_fmap.
  exists (k, b). by rewrite elem_of_map_to_list.
Qed.

Lemma delete_one_store id m :
  (∀ k, k ≠ id → server_store (delete_one id m).2 !! k = server_store m !! k) ∧
  server_store (delete_one id m).2 !! id = None ∧
  ∃ st, (delete_one id m).1 = Some st ∧ 0 <= Api_Code st < 2 ^ 31.
Proof.
  unfold delete_one. case_bool_decide as Hs; simpl.
  - rewrite server_store_delete. split_and!; [|apply lookup_delete_eq|by eexists].
    intros. by rewrite lookup_delete_ne.
  - split_and!; [done|by apply eq_None_not_Some|by eexists].
Qed.

Lemma run_each_delete ids m :
  let '(sts, m') := run_each delete_one ids m in
  (∀ k, k ∉ ids → server_store m' !! k = server_store m !! k) ∧
  (∀ k, k ∈ ids → server_store m' !! k = None) ∧
  length sts = length ids ∧ Forall (λ st, ∃ s, st = Some s ∧ 0 <= Api_Code s < 2 ^ 31) sts.
Proof.
  revert m. induction ids as [|id ids IH]; intros m; simpl.
  { split_and!; [done|set_solver|done|constructor]. }
  destruct (delete_one_store id m) as (Hne & Hid & st & Hst & Hcode).
  destruct (delete_one id m) as [st' m1]. simpl in *. subst st'.
  specialize (IH m1). destruct (run_each delete_one ids m1) as [sts m2].
  destruct IH as (Hout & Hin & Hlen & Hall). split_and!.
  - intros k [Hk Hk']%not_elem_of_cons. by rewrite Hout, Hne.
  - intros k. destruct (decide (k ∈ ids)) as [|Hk]; [by intros; apply Hin|].
    intros [->|]%elem_of_cons; [by rewrite Hout|done].
  - simpl. by f_equal.
  - constructor; [by eexists|done].
Qed.

#[export] Instance test_ServiceSpec : ServiceSpec server.
Proof.
  refine {| svc_store := server_store; svc_pages := λ _, 1%nat |}.
  - intros m k a [_ [? _]]%map_lookup_filter_Some. done.
  - intros m k a [_ [_ ?]]%map_lookup_filter_Some. done.
  - intros m. exists 1%nat, (OK (map_to_list (server_store m)).*2), m.
    split_and!; [by apply paged_last|lia|done|]. by intros es [= <-].
  - intros tok m es tok' m' [= <- <- <-]. apply Forall_forall.
    intros a ([k a'] & -> & Hin%elem_of_map_to_list)%list_elem_of_fmap.
    by apply map_lookup_filter_Some in Hin as [_ [_ ?]].
  - intros a m Hid Ha. unfold wp, rpc_BatchCreateEntry; simpl. unfold respond; simpl.
    unfold create_one. rewrite bool_decide_false by naive_solver.
    destruct (bool_decide _ || _) eqn:He; simpl; (split; [|intros rs [= <-]; by eexists _, _]).
    + by left.
    + right. apply orb_false_iff in He as [He%bool_decide_eq_false _].
      split; [by apply eq_None_not_Some|by apply server_store_insert].
  - intros a m Hid Ha. unfold wp, rpc_BatchUpdateEntry; simpl. unfold respond; simpl.
    unfold update_one. case_bool_decide as Hs; simpl; (split; [|intros rs [= <-]; eexists; split; [done|]]).
    + right. split; [apply Hs|by apply server_store_insert].
    + intros _. rewrite server_store_insert by done. by rewrite lookup_insert_eq.
    + by left.
    + done.
  - intros ids m. unfold wp, rpc_BatchDeleteEntry; simpl. unfold respond.
    pose proof (run_each_delete ids m) as Hrun. destruct (run_each _ _ _) as [sts m'].
    destruct Hrun as (Hout & Hin & Hlen & Hall). split_and!; [done|..].
    + intros k. destruct (decide (k ∈ ids)); [right; by apply Hin|left; by apply Hout].
    + intros rs [= <-]. split; [done|]. intros i id Hid.
      destruct (lookup_lt_is_Some_2 sts i) as [st Hst].
      { rewrite Hlen. by eapply lookup_lt_Some. }
      destruct (proj1 (Forall_lookup _ _) Hall i st Hst) as (s & -> & Hcode).
      exists s. split_and!; [done|lia|lia|]. intros _. apply Hin. by eapply list_elem_of_lookup_2.
Defined.

#[export] Instance test_ReliableService : ReliableService server.
Proof.
  refine {| svc_healthy := λ _, True |}.
  - intros m _. exists 1%nat, (map_to_list (server_store m)).*2, m.
    split_and!; [by apply paged_last|simpl; lia|done|done|done].
  - intros a m _ Hid Ha Hnone Hsim. unfold wp, rpc_BatchCreateEntry; simpl. unfold respond; simpl.
    unfold create_one. rewrite bool_decide_false by naive_solver.
    simpl in Hnone, Hsim. rewrite bool_decide_false by (by rewrite Hnone; apply is_Some_None).
    rewrite has_similar_false by done. simpl.
    split_and!; [done|by apply server_store_insert|by eexists _, _].
  - intros a m _ Hid Ha Hnone (k & b & Hk & Hs). unfold wp, rpc_BatchCreateEntry; simpl.
    unfold respond; simpl. unfold create_one. rewrite bool_decide_false by naive_solver.
    simpl in Hk. rewrite (has_similar_true _ _ _ _ Hk Hs), orb_true_r. simpl.
    split_and!; [done..|by eexists _, _].
  - intros a m _ Hid Ha Hsome. unfold wp, rpc_BatchUpdateEntry; simpl. unfold respond; simpl.
    unfold update_one. rewrite bool_decide_true by done. simpl.
    split_and!; [done|by apply server_store_insert|by eexists].
  - intros id m _ Hsome. unfold wp, rpc_BatchDeleteEntry; simpl. unfold respond; simpl.
    unfold delete_one. rewrite bool_decide_true by done. simpl.
    split_and!; [done|apply server_store_delete|by eexists].
Defined.

(** The gRPC client of this server; its listings have one page. *)
#[export] Instance test_Client : Client server := client_instance (λ _, 1%nat).
#[export] Instance test_ClientSpec : ClientSpec server := client_spec (λ _, 1%nat) (λ _, le_n 1).
#[export] Instance test_ReliableClient : ReliableClient server :=
  client_reliable (λ _, 1%nat) (λ _, le_n 1).
End server.
