(* ===== verification/TestKube.v ===== *)
(** * A small Kubernetes and AWS for the witnesses

    A management cluster with its two resource types, workload clusters with
    pods and nodes by name, and a clock that stands still. *)

From S2P Require Export ConnectFacts TestLibs TestServer.

Local Open Scope Z_scope.

Record test_kube := {
  tk_clusters : list EKSClusterRegistry;
  tk_identities : list WorkloadIdentity;
  tk_pods : gmap string (list object);
  tk_nodes : gmap string Node;
}.

Definition not_found : error := ErrExt "not found".

Definition find_by {A} (name : A → string) (n : string) (l : list A) : result A :=
  match filter (λ x, name x = n) l with x :: _ => OK x | [] => ERR not_found end.

(** Replaces the element of the same name; an error if there is none. *)
Definition replace_by {A} (name : A → string) (x : A) (l : list A) : option error * list A :=
  if bool_decide (name x ∈ name <$> l)
  then (None, (λ y, if bool_decide (name y = name x) then x else y) <$> l)
  else (Some not_found, l).

Definition put_cluster (c : EKSClusterRegistry) (k : test_kube) : option error * test_kube :=
  let '(err, l) := replace_by (λ c, EKS_Name c) c (tk_clusters k) in
  (err, {| tk_clusters := l; tk_identities := tk_identities k; tk_pods := tk_pods k;
           tk_nodes := tk_nodes k |}).
Definition put_identity (i : WorkloadIdentity) (k : test_kube) : option error * test_kube :=
  let '(err, l) := replace_by (λ i, WI_Name i) i (tk_identities k) in
  (err, {| tk_clusters := tk_clusters k; tk_identities := l; tk_pods := tk_pods k;
           tk_nodes := tk_nodes k |}).

#[export] Instance test_Kube : Kube test_kube := {|
  Interface := string;
  SharedIndexInformer := string;
  RestConfig := api_Config;
  List_EKSClusterRegistries k := (OK (tk_clusters k), k);
  List_WorkloadIdentities k := (OK (tk_identities k), k);
  Get_EKSClusterRegistry n k := (find_by (λ c, EKS_Name c) n (tk_clusters k), k);
  Get_WorkloadIdentity n k := (find_by (λ i, WI_Name i) n (tk_identities k), k);
  IsNotFound e := bool_decide (e = not_found);
  Update_EKSClusterRegistry := put_cluster;
  Update_WorkloadIdentity := put_identity;
  Status_Update_EKSClusterRegistry := put_cluster;
  Status_Update_WorkloadIdentity := put_identity;
  Nodes_Get c n k := (match tk_nodes k !! n with Some x => OK x | None => ERR not_found end, k);
  NewSharedIndexInformer c n k := (n, k);
  Informer_Run i ch k := (tt, k);
  WaitForCacheSync ch i k := (true, k);
  Store_List i k := (default [] (tk_pods k !! i), k);
  DescribeCluster region n k :=
    (OK {| Endpoint := Some ("https://" +:+ n);
           CertificateAuthority := Some {| Data := Some "Y2EtZGF0YQ==" |} |}, k);
  ClientConfig c k := (OK c, k);
  NewForConfig c k := (OK (CurrentContext c), k);
  Now k := (1000, k);
|}.

#[export] Instance test_QuietKube : QuietKube test_kube.
Proof. by split. Qed.

(** A world before anything has been connected. *)
Definition fresh_world (k : test_kube) (m : server) : World test_kube server :=
  {| kube := k; spire := m; clusters := ∅; clients := ∅; next_ch := 0; closed := ∅ |}.

Lemma fresh_world_wf k m : manager_wf (fresh_world k m).
Proof.
  split; simpl.
  - intros ??. by rewrite lookup_empty.
  - intros ??. by rewrite lookup_empty.
  - intros ??. by rewrite lookup_empty.
  - intros ????. by rewrite lookup_empty.
  - set_solver.
  - lia.
Qed.
