(* ===== verification/EntryProps.v ===== *)
(** * Properties of entries, keys, comparison and the entries state *)

From S2P Require Export TestLibs.

Local Open Scope Z_scope.

(** ** Sample values for the witnesses *)

Definition sample_td : TrustDomain := Some (TestTD "example.org" I).
Definition sample_id (p : string) (H : Is_true (path_ok p)) : ID :=
  Some (TestID (TestTD "example.org" I) p H).
Definition sample_entry (sels : list Sel) : Entry :=
  {| Entry_ID := "id"; SPIFFEID := sample_id "/ns/app" I; ParentID := sample_id "/agent" I;
     Selectors := sels; X509SVIDTTL := 3600; JWTSVIDTTL := 300;
     Entry_FederatesWith := [sample_td]; Entry_Admin := false; Entry_Downstream := false;
     DNSNames := ["b"; "a"]; Entry_Hint := "h" |}.
Definition sel (t v : string) : Sel := {| Sel_Type := t; Sel_Value := v |}.

Definition sample_meta (name ns uid : string) : ObjectMeta :=
  {| Name := name; Namespace := ns; UID := uid; CreationTimestamp := 0;
     DeletionTimestamp := None; Finalizers := []; Labels := {[ "app" := "web" ]} |}.
Definition sample_identity (hint : string) : WorkloadIdentity :=
  {| WI_ObjectMeta := sample_meta "web" "" "u1";
     WI_Spec := {| ApplicationName := "web"; Spec_Namespace := "prod";
       SPIFFEIDTemplate := "spiffe://{{ .TrustDomain }}/ns/{{ .PodMeta.Namespace }}";
       ParentIDTemplate := ""; PodSelector := Some [("app", "web")]; TTL := Hour;
       JWTTTL := 5 * Minute; DNSNameTemplates := ["{{ .PodMeta.Name }}.svc"];
       WorkloadSelectorTemplates := ["k8s:ns:{{ .PodMeta.Namespace }}"; "nocolon"];
       FederatesWith := ["example.org"]; Admin := true; Downstream := false;
       AutoPopulateDNSNames := false; ClusterSelector := None; Hint := hint |};
     WI_Status := {| Stats := empty_Stats; LastReconciliation := None |} |}.
Definition sample_cluster (name : string) : EKSClusterRegistry :=
  {| EKS_ObjectMeta := sample_meta name "" "u2";
     EKS_Spec := {| ClusterName := "eks"; Region := "us-west-2"; AccountID := "1";
       Enabled := true; AssumeRoleARN := ""; Cluster_Labels := ∅ |};
     EKS_Status := EKS_Status empty_EKSClusterRegistry |}.
Definition sample_pod (name uid : string) : Pod :=
  {| Pod_ObjectMeta := sample_meta name "prod" uid;
     Pod_Spec := {| NodeName := "node-1"; ServiceAccountName := "sa" |};
     Pod_Phase := PodRunning |}.
Definition sample_node : Node :=
  {| Node_ObjectMeta := sample_meta "node-1" "" "node-uid";
     Node_Spec := {| ProviderID := "aws:///us-west-2a/i-123" |} |}.

(** ** Properties *)

Section props.
Context `{!SpiffeID}.

(** C18: converting a list of valid entries to API messages and reading them
    back, as a create followed by a listing does, returns the same entries
    in the same order, without a panic or an error. *)
Theorem entries_roundtrip `{!SpiffeIDLaws} (entries : list Entry) :
  Forall (λ e, entry_valid e = true) entries →
  convert_page (entriesToAPI entries) = Ret (OK entries).
Proof.
  intros Hv. unfold entriesToAPI. rewrite convert_page_convertible.
  - do 2 f_equal. induction Hv as [|e es He _ IH]; [done|].
    rewrite fmap_cons. cbn [omap list_omap]. by rewrite conv_toAPIEntry, IH.
  - apply Forall_fmap. eapply Forall_impl; [done|]. intros e He.
    by apply convertible_toAPIEntry.
Qed.

(** C23: the key of an entry depends on its SPIFFE ID, its parent ID and the
    multiset of its selectors only: it is the same for every order of the
    selectors and whatever the ID, TTLs, flags, DNS names and hint are; and
    it is always 64 hexadecimal digits. *)
Theorem makeEntryKey_canonical (e1 e2 : Entry) :
  SPIFFEID e1 = SPIFFEID e2 → ParentID e1 = ParentID e2 →
  Selectors e1 ≡ₚ Selectors e2 →
  makeEntryKey e1 = makeEntryKey e2 ∧ String.length (makeEntryKey e1) = 64%nat ∧
  Forall is_hex_digit (chars (makeEntryKey e1)).
Proof.
  intros Hs Hp Hsel. split; [by apply makeEntryKey_perm|].
  split; [apply makeEntryKey_length|apply sha256_hex_digits].
Qed.

(** C37: the key is not injective on selectors: the text that is hashed has no
    separators, so moving bytes between the type and the value of a selector
    leaves the key unchanged, and two different registrations share an ID. *)
Theorem makeEntryKey_not_injective (e : Entry) (t1 t2 v : string) :
  t2 ≠ "" →
  let with_selectors l := {| Entry_ID := Entry_ID e; SPIFFEID := SPIFFEID e;
    ParentID := ParentID e; Selectors := l; X509SVIDTTL := X509SVIDTTL e;
    JWTSVIDTTL := JWTSVIDTTL e; Entry_FederatesWith := Entry_FederatesWith e;
    Entry_Admin := Entry_Admin e; Entry_Downstream := Entry_Downstream e;
    DNSNames := DNSNames e; Entry_Hint := Entry_Hint e |} in
  let e1 := with_selectors [sel (t1 +:+ t2) v] in
  let e2 := with_selectors [sel t1 (t2 +:+ v)] in
  makeEntryKey e1 = makeEntryKey e2 ∧ ¬ Selectors e1 ≡ₚ Selectors e2.
Proof.
  intros Ht2. simpl. split.
  - unfold makeEntryKey, key_text. simpl. unfold sortSelectors. simpl.
    by rewrite !string_app_nil_r, !string_app_assoc.
  - intros [= Heq _]%Permutation_singleton_inj. apply Ht2.
    apply (f_equal String.length) in Heq. rewrite string_length_app in Heq.
    destruct t2; [done|]. simpl in Heq. lia.
Qed.

(** C20: [GetOutdatedEntryFields] reports nothing exactly when the TTLs, the
    flags and the hint are equal and the federated trust domains and the DNS
    names are equal up to order. *)
Theorem GetOutdatedEntryFields_correct `{!SpiffeIDLaws} (new old : Entry) :
  GetOutdatedEntryFields new old = [] ↔
    X509SVIDTTL old = X509SVIDTTL new ∧ JWTSVIDTTL old = JWTSVIDTTL new ∧
    Entry_FederatesWith old ≡ₚ Entry_FederatesWith new ∧
    Entry_Admin old = Entry_Admin new ∧ Entry_Downstream old = Entry_Downstream new ∧
    DNSNames old ≡ₚ DNSNames new ∧ Entry_Hint old = Entry_Hint new.
Proof.
  unfold GetOutdatedEntryFields. rewrite getOutdatedEntryFields_nil. unfold same_fields.
  by rewrite <-trustDomainsMatch_strings, trustDomainsMatch_perm.
Qed.

(** C21: between entries with at most one selector per type, [entriesEqual]
    decides equality of the identities, the selectors up to order and all
    other fields. *)
Theorem entriesEqual_correct (a b : Entry) :
  NoDup (Sel_Type <$> Selectors a) → NoDup (Sel_Type <$> Selectors b) →
  entriesEqual a b = true ↔
    SPIFFEID a = SPIFFEID b ∧ ParentID a = ParentID b ∧ Selectors a ≡ₚ Selectors b ∧
    getOutdatedEntryFields b a = [].
Proof.
  intros Ha Hb. rewrite getOutdatedEntryFields_nil. by apply entriesEqual_decides.
Qed.

(** C31: a registered entry that carries two selectors of one type with
    different values is reported as an update even when it is identical to
    the declared one, in every reconciliation: the map by selector type
    forgets one of the two. *)
Theorem GetChanges_spurious_update `{!MapOrder, !MapOrderLaws} (s : entriesState) (k : string)
    (e : Entry) (s1 s2 : Sel) :
  state_wf s → declared s !! k = Some e → current s !! k = Some e →
  s1 ∈ Selectors e → s2 ∈ Selectors e →
  Sel_Type s1 = Sel_Type s2 → Sel_Value s1 ≠ Sel_Value s2 →
  e ∈ (GetChanges s).1.2.
Proof.
  intros Hwf Hd Hc Hs1 Hs2 Ht Hv. apply elem_of_toUpdate; [done|].
  destruct (wf_declared s Hwf k e Hd) as [-> _]. split; [done|]. exists e. split; [done|].
  apply not_true_iff_false. rewrite entriesEqual_refl_iff. intros Hf. by apply Hv, Hf.
Qed.

(** C9: [GetChanges] is the exact three-way difference: an entry is created,
    updated or deleted exactly when its ID is declared only, declared and
    registered with an entry that [entriesEqual] tells from it, or registered
    only; no ID occurs twice in a list, or in two of the lists.  Where the two
    entries have at most one selector of each type, the update is made exactly
    when an identity, the selectors up to order or another field differs; with
    two selectors of one type even the same entry may be updated. *)
Theorem GetChanges_correct `{!MapOrder, !MapOrderLaws} (s : entriesState) :
  state_wf s →
  let '(toCreate, toUpdate, toDelete) := GetChanges s in
  (∀ e, e ∈ toCreate ↔
     declared s !! Entry_ID e = Some e ∧ current s !! Entry_ID e = None) ∧
  (∀ e, e ∈ toUpdate ↔
     declared s !! Entry_ID e = Some e ∧
     ∃ c, current s !! Entry_ID e = Some c ∧ entriesEqual c e = false) ∧
  (∀ e c, declared s !! Entry_ID e = Some e → current s !! Entry_ID e = Some c →
     NoDup (Sel_Type <$> Selectors c) → NoDup (Sel_Type <$> Selectors e) →
     e ∈ toUpdate ↔ ¬ same_content c e) ∧
  (∀ e, e ∈ toDelete ↔
     current s !! Entry_ID e = Some e ∧ declared s !! Entry_ID e = None) ∧
  NoDup (Entry_ID <$> toCreate ++ toUpdate ++ toDelete).
Proof.
  intros Hwf.
  pose proof (elem_of_toCreate s) as Hc. pose proof (elem_of_toUpdate s) as Hu.
  pose proof (elem_of_toDelete s) as Hd. pose proof (GetChanges_NoDup s Hwf) as (N1 & N2 & N3).
  destruct (GetChanges s) as [[cr up] de]. simpl in *.
  split_and!; [by intros; apply Hc|by intros; apply Hu| |by intros; apply Hd|].
  { intros e c He Hce Hnc Hne. rewrite Hu, <-entriesEqual_decides, not_true_iff_false by done.
    split; [intros (_ & c' & ? & ?); congruence|eauto]. }
  rewrite !fmap_app, !NoDup_app. split_and!; [done| |done| |done].
  - intros id (e & -> & He)%list_elem_of_fmap. apply Hc in He as [He1 He2]; [|done].
    intros [(e' & Heq & He')%list_elem_of_fmap|(e' & Heq & He')%list_elem_of_fmap]%elem_of_app.
    + apply Hu in He' as (_ & c & He' & _); [|done]. congruence.
    + apply Hd in He' as [He' _]; [|done]. congruence.
  - intros id (e & -> & He)%list_elem_of_fmap. apply Hu in He as (He1 & _); [|done].
    intros (e' & Heq & He')%list_elem_of_fmap. apply Hd in He' as [_ He']; [|done]. congruence.
Qed.

(** C22: however a state is filled, it is well formed: every entry is kept under
    its own ID, declared entries under the prefix and the key made of their
    content; the entry kept is the one added last for that ID, a declared one
    unchanged but for its ID; current and declared entries never mix. *)
Theorem entriesState_well_formed prefix calls :
  let s := built prefix calls in
  (∀ k e, current s !! k = Some e → Entry_ID e = k ∧ last_current calls k = Some e) ∧
  (∀ k e, declared s !! k = Some e →
     Entry_ID e = k ∧ k = declared_ID prefix e ∧ HasPrefix k prefix = true ∧
     ∃ d, last_declared prefix calls k = Some d ∧ e = set_ID k d) ∧
  (∀ k, current s !! k = None ↔ last_current calls k = None) ∧
  (∀ k, declared s !! k = None ↔ last_declared prefix calls k = None).
Proof.
  destruct (built_spec prefix calls) as (Hwf & Hp & Hk). intros s. fold s in Hwf, Hp, Hk.
  split_and!; intros k.
  - intros e He. rewrite <-(proj1 (Hk k)). split; [by apply (wf_current s)|done].
  - intros e He. destruct (wf_declared s Hwf k e He) as [Hid Hd]. rewrite Hp in Hd.
    split_and!; [done..|by rewrite Hd; apply declared_ID_prefix|].
    rewrite (proj2 (Hk k)) in He. destruct (last_declared prefix calls k) as [d|]; simplify_eq/=; eauto.
  - by rewrite (proj1 (Hk k)).
  - rewrite (proj2 (Hk k)). apply fmap_None.
Qed.
End props.

(** ** Witnesses *)

Definition two_selectors : list Sel := [sel "k8s" "ns:prod"; sel "unix" "uid:1000"].
Definition same_type_selectors : list Sel := [sel "k8s" "ns:prod"; sel "k8s" "sa:web"].

(** A state with one declared entry that is registered as declared. *)
Definition settled_state (l : list Sel) : entriesState :=
  let s := AddDeclared (sample_entry l) (NewEntriesStateWithPrefix "eks-") in
  AddCurrent (set_ID (declared_ID "eks-" (sample_entry l)) (sample_entry l)) s.

Lemma settled_state_wf l : state_wf (settled_state l).
Proof. apply state_wf_AddCurrent, state_wf_AddDeclared, state_wf_new. Qed.

Lemma entries_roundtrip_witness :
  convert_page (entriesToAPI [sample_entry two_selectors]) =
    Ret (OK [sample_entry two_selectors]).
Proof. apply (entries_roundtrip [sample_entry two_selectors]). by repeat constructor. Defined.

Lemma makeEntryKey_canonical_witness :
  makeEntryKey (sample_entry [sel "a" "1"; sel "b" "2"]) =
    makeEntryKey (sample_entry [sel "b" "2"; sel "a" "1"]) ∧
  String.length (makeEntryKey (sample_entry [sel "a" "1"; sel "b" "2"])) = 64%nat ∧
  Forall is_hex_digit (chars (makeEntryKey (sample_entry [sel "a" "1"; sel "b" "2"]))).
Proof. apply makeEntryKey_canonical; [done|done|apply perm_swap]. Defined.

Lemma makeEntryKey_not_injective_witness :
  makeEntryKey (sample_entry [sel "k8s" "ns"]) = makeEntryKey (sample_entry [sel "k" "8sns"]) ∧
  ¬ [sel "k8s" "ns"] ≡ₚ [sel "k" "8sns"].
Proof. by apply (makeEntryKey_not_injective (sample_entry []) "k" "8s" "ns"). Defined.

Lemma GetOutdatedEntryFields_correct_witness :
  GetOutdatedEntryFields (sample_entry []) (sample_entry two_selectors) = [].
Proof. by apply (GetOutdatedEntryFields_correct (sample_entry []) (sample_entry two_selectors)). Defined.

Lemma entriesEqual_correct_witness :
  entriesEqual (sample_entry two_selectors) (sample_entry (reverse two_selectors)) = true.
Proof.
  apply (entriesEqual_correct (sample_entry two_selectors) (sample_entry (reverse two_selectors))).
  - compute_done.
  - compute_done.
  - split_and!; [done|done|apply perm_swap|done].
Defined.

Lemma GetChanges_spurious_update_witness :
  ∃ k e, current (settled_state same_type_selectors) !! k = Some e ∧
    declared (settled_state same_type_selectors) !! k = Some e ∧
    e ∈ (GetChanges (settled_state same_type_selectors)).1.2.
Proof.
  set (s := settled_state same_type_selectors).
  set (e := set_ID (declared_ID "eks-" (sample_entry same_type_selectors))
              (sample_entry same_type_selectors)).
  assert (declared s !! Entry_ID e = Some e) as Hd by apply lookup_insert_eq.
  assert (current s !! Entry_ID e = Some e) as Hc by apply lookup_insert_eq.
  exists (Entry_ID e), e. split; [done|]. split; [done|].
  apply (GetChanges_spurious_update s (Entry_ID e) e (sel "k8s" "ns:prod") (sel "k8s" "sa:web"));
    [apply settled_state_wf|done|done|left|right; left|done|done].
Defined.

(** One entry to create: declared, and not registered. *)
Definition new_state : entriesState :=
  AddDeclared (sample_entry two_selectors) (NewEntriesStateWithPrefix "eks-").

Lemma GetChanges_correct_witness :
  set_ID (declared_ID "eks-" (sample_entry two_selectors)) (sample_entry two_selectors)
    ∈ (GetChanges new_state).1.1.
Proof.
  pose proof (GetChanges_correct new_state (state_wf_AddDeclared _ _ (state_wf_new _))) as Hg.
  destruct (GetChanges new_state) as [[cr up] de]. apply (proj1 Hg).
  split; [apply lookup_insert_eq|done].
Defined.
