(* ===== verification/MainProps.v ===== *)
(** * Properties of the full reconciliation *)

From S2P Require Export TestKube EntryProps.

Local Open Scope Z_scope.

Section props.
Context `{!SpiffeID, !LabelSelectors, !Regexps, !MapOrder, !Templates, !FloatToInt}.
Context {K S : Type} `{!Kube K, !Client S}.
Context `{!SpiffeIDLaws, !MapOrderLaws, !ClientSpec S}.
Variable r : MainReconciler.
Implicit Types (w : World K S).

(** C1: the full reconciliation, whatever calls to Kubernetes, AWS or SPIRE
    fail and however the outside changes meanwhile, returns, unless EKS describes
    an enabled cluster of the list without a certificate authority, when it
    panics with nothing sent to SPIRE and the manager in order.  When it returns,
    no registered entry outside the configured ID prefix has changed, and under
    each managed ID there is what was there, nothing, or an entry rendered in
    this cycle: for an identity of the listing the cycle read, on a connection
    the manager has, for a pod that was in that connection's informer, in a
    namespace that is not ignored, selected, running, not being deleted and
    scheduled, and for the node looked up for it.  If the clusters could be
    listed (their names are distinct, as Kubernetes ensures), every connection is
    for an enabled cluster of the list; the manager keeps its invariant: each
    connection has its own open stop channel and no channel is lost. *)
Theorem reconcileAll_safe w res w' :
  manager_wf w →
  (∀ cls, (List_EKSClusterRegistries (kube w)).1 = OK cls → NoDup ((λ c, EKS_Name c) <$> cls)) →
  reconcileAll r w = (res, w') →
  manager_wf w' ∧
  match res with
  | Ret _ =>
      cycle_safe r (asked_by_cycle r (kube w) (kube w') (range_map (clusters w')).*2)
        (registered w) (registered w') ∧
      ∀ cls, (List_EKSClusterRegistries (kube w)).1 = OK cls → connections_current cls w'
  | Panic => registered w' = registered w ∧
      ∃ cls, (List_EKSClusterRegistries (kube w)).1 = OK cls ∧ some_lacks_CA cls (kube w) (kube w')
  | Diverge => False
  end.
Proof.
  intros Hwf Hnd Hrun.
  assert (wpx (reconcileAll r) (λ _ w', manager_wf w' ∧
    cycle_safe r (asked_by_cycle r (kube w) (kube w') (range_map (clusters w')).*2)
      (registered w) (registered w') ∧
    ∀ cls, (List_EKSClusterRegistries (kube w)).1 = OK cls → connections_current cls w')
    (λ w', manager_wf w' ∧ registered w' = registered w ∧
      ∃ cls, (List_EKSClusterRegistries (kube w)).1 = OK cls ∧ some_lacks_CA cls (kube w) (kube w')) w)
    as Hwp; [|by pose proof (wpx_run _ _ _ _ _ _ Hwp Hrun); destruct res].
  unfold reconcileAll. apply wpx_bind_wp, wp_outside.
  assert (evolves (kube w) (List_EKSClusterRegistries (kube w)).2) as Hk0
    by (apply rtc_once; constructor).
  destruct (List_EKSClusterRegistries (kube w)) as [[cls|err] k]; simpl in *.
  2: { apply wpx_ret. split_and!; [by eapply manager_wf_ext; [| | |exact Hwf]| |done].
       apply cycle_safe_refl. }
  apply wpx_assoc, wpx_bind. eapply wpx_mono.
  { apply connect_phase_wp; [by apply Hnd|]. by eapply manager_wf_ext; [| | |exact Hwf]. }
  - simpl. intros _ w1 (Hwf1 & Hs1 & Hc1 & Hk1). apply wpx_wp.
    eapply wp_mono; [by apply reconcileEntries_wp|].
    simpl. intros _ w2 (Hsafe & Hm & Hk2). split_and!; [by eapply same_manager_wf| |].
    + destruct Hm as [-> _]. unfold registered in *. rewrite <-Hs1. simpl.
      eapply cycle_safe_mono; [|exact Hsafe]. intros e. apply asked_by_cycle_mono; [|apply rtc_refl].
      by etransitivity.
    + intros cls' [= <-] k' c. destruct Hm as [-> _]. apply Hc1.
  - intros w1 (Hwf1 & Hs1 & cl & k1 & Hcl & Hen & Hk1 & Hk2 & Hca). split_and!; [done| |].
    + unfold registered. by rewrite Hs1.
    + exists cls. split; [done|]. exists cl, k1. split_and!; try done. by etransitivity.
Qed.

(** C2: with a SPIRE server that does what it is asked, identities that can be
    listed and clusters that stay as they are, the cycle ends with the managed part of the registered entries
    exactly what the identities ask for the running pods of the connected
    clusters: nothing under any other managed ID, and under each desired ID the
    desired entry or the one that was already there and compares equal; the
    entries outside the prefix are as they were.  A desired entry is left out
    exactly when the server keeps an entry like it (the same SPIFFE ID, parent
    and selectors) that the cycle does not delete, because it is not managed or
    is under the ID of another desired entry: the server then answers that it
    already exists, which the client takes for success. *)
Theorem reconcileEntries_converges `{!ReliableClient S, !QuietKube K} cls identities w :
  healthy (spire w) → (List_WorkloadIdentities (kube w)).1 = OK identities →
  wp (reconcileEntries r cls) (λ _ w',
    converged r (registered w) (desired r w identities) (registered w')) w.
Proof.
  intros Hh Hlist. eapply wp_mono; [by apply reconcileEntries_converged|]. by intros _ w' (_ & _ & ?).
Qed.

(** Applying the changes with failing calls is safe: under every ID there
    is what was there, or the entry declared for it, or, if it was registered,
    managed and is not declared, nothing; only the SPIRE server is touched. *)
Theorem applyEntryChanges_safe (s : entriesState) w :
  state_wf s → declared_sendable s →
  wp (applyEntryChanges s)
    (λ _ w', changed_safely s (registered w) (registered w') ∧ only_spire w w') w.
Proof. apply applyEntryChanges_wp. Qed.

(** With a server that does what it is asked, deleting before creating and
    updating brings every ID to its target. *)
Theorem applyEntryChanges_reaches_target `{!ReliableClient S} (s : entriesState) w :
  state_wf s → declared_sendable s → describes s (registered w) → healthy (spire w) →
  wp (applyEntryChanges s) (λ _ w', ∀ k, registered w' !! k = target s (registered w) k) w.
Proof.
  intros ????. eapply wp_mono; [by apply applyEntryChanges_ok|]. by intros _ w' [[_ ?] _].
Qed.

(** C8: in a world that stays as it is, the nested loops over clusters,
    identities and pods declare exactly the list [desired_entries], a function of
    the cluster state, and touch nothing; and if no two different desired
    entries have the same ID (of those the last is declared), the state they
    compute is the same for every order of the connections and identities. *)
Theorem process_all_refines `{!QuietKube K} conns identities (s : entriesState) w :
  fold_each conns s (λ conn s, processCluster r conn identities s) w =
    (Ret (add_all (desired_entries r (kube w) conns identities) s), w) ∧
  ∀ conns' identities', conns' ≡ₚ conns → identities' ≡ₚ identities →
    distinct_IDs (entryPrefix s) (desired_entries r (kube w) conns identities) →
    fold_each conns' s (λ conn s, processCluster r conn identities' s) w =
      fold_each conns s (λ conn s, processCluster r conn identities s) w.
Proof.
  rewrite !process_all_quiet by apply _. split; [done|]. intros conns' identities' Hc Hi Hd.
  rewrite process_all_quiet by apply _. do 2 f_equal.
  apply add_all_perm; [by apply desired_entries_perm|]. intros x y.
  rewrite !(desired_entries_perm r (kube w) conns conns' identities identities') by done. apply Hd.
Qed.

(** A state that holds what a cycle has registered asks for no changes. *)
Lemma nothing_to_do (m m' : gmap string Entry) (es es' ds : list Entry) :
  (∀ k e, m !! k = Some e → Entry_ID e = k) → es ≡ₚ (map_to_list m).*2 →
  (∀ k e, m' !! k = Some e → Entry_ID e = k) → es' ≡ₚ (map_to_list m').*2 →
  (∀ k, m' !! k = target (cycle_state r es ds) m k) →
  (∀ d, d ∈ ds → selectors_functional (Selectors d) ∧ ¬ taken_elsewhere r m ds d) →
  GetChanges (cycle_state r es' ds) = ([], [], []).
Proof.
  intros Hids Hes Hids' Hes' Ht Hds.
  destruct (cycle_state_keeps r es' ds) as (Hwf' & _ & _).
  assert (declared (cycle_state r es' ds) = declared (cycle_state r es ds)) as Hd
    by apply declared_cycle_state_eq.
  pose proof (elem_of_toCreate (cycle_state r es' ds)) as Hcr.
  pose proof (elem_of_toUpdate (cycle_state r es' ds)) as Hup.
  pose proof (elem_of_toDelete (cycle_state r es' ds)) as Hde.
  destruct (GetChanges (cycle_state r es' ds)) as [[cr up] de]. simpl in *.
  assert (∀ k, current (cycle_state r es' ds) !! k =
    if managed r k then target (cycle_state r es ds) m k else None) as Hcur
    by (intros k; by rewrite (cycle_state_current r m'), Ht).
  assert (∀ k d, declared (cycle_state r es ds) !! k = Some d →
    managed r k = true ∧ entriesEqual d d = true ∧ ¬ taken d (undeleted (cycle_state r es ds) m)) as Hdec.
  { intros k d (e & He & -> & ->)%declared_cycle_state. destruct (Hds e He) as [Hfun Hfree].
    split_and!; [apply managed_declared_ID|by apply entriesEqual_refl_iff|].
    intros Htk. by eapply Hfree, taken_undeleted. }
  assert (∀ k d, declared (cycle_state r es ds) !! k = Some d → ∃ c,
    current (cycle_state r es' ds) !! k = Some c ∧ entriesEqual c d = true) as Hsame.
  { intros k d Hk. destruct (Hdec k d Hk) as (Hm & Hrefl & Hfree). rewrite Hcur, Hm. unfold target.
    rewrite Hk. destruct (current (cycle_state r es ds) !! k) as [c|].
    - destruct (entriesEqual c d) eqn:Heq; eauto.
    - rewrite decide_False by done. eauto. }
  f_equal; [f_equal|]; apply elem_of_nil_inv; intros e He.
  - apply Hcr in He as [Hk Hn]; [|done]. rewrite Hd in Hk.
    destruct (Hsame _ _ Hk) as (c & Hc & _). congruence.
  - apply Hup in He as (Hk & c & Hcc & Hneq); [|done]. rewrite Hd in Hk.
    destruct (Hsame _ _ Hk) as (c' & Hc & Heq). congruence.
  - apply Hde in He as [Hk Hn]; [|done]. rewrite Hd in Hn. rewrite Hcur in Hk.
    destruct (managed r (Entry_ID e)) eqn:Hm; [|done]. unfold target in Hk. rewrite Hn in Hk.
    rewrite (cycle_state_current r m), Hm in Hk by done. by destruct (m !! Entry_ID e).
Qed.

(** C24: run again after a cycle over a SPIRE server that does what it is asked,
    with identities that can be listed and clusters that ask for the same entries as before, the cycle lists the
    entries and sends the server nothing else, so nothing is registered,
    updated or deleted; this for desired entries with at most one value for
    each type of selector (others are updated in every cycle) of which the
    server keeps no like elsewhere (those it refuses in every cycle). *)
Theorem second_cycle_no_changes `{!ReliableClient S, !QuietKube K} cls identities w :
  healthy (spire w) → (List_WorkloadIdentities (kube w)).1 = OK identities →
  (∀ d, d ∈ desired r w identities → selectors_functional (Selectors d) ∧
    ¬ taken_elsewhere r (registered w) (desired r w identities) d) →
  wp (reconcileEntries r cls) (λ _ w1, ∀ identities1,
    (List_WorkloadIdentities (kube w1)).1 = OK identities1 →
    desired r w1 identities1 = desired r w identities →
    wp (reconcileEntries r cls) (λ _ w2,
      spire w2 = (ListEntries (spire w1)).2 ∧ registered w2 = registered w1) w1) w.
Proof.
  intros Hh Hlist Hds. eapply wp_mono; [by apply reconcileEntries_ok|].
  intros _ w1 (Hh1 & Hm1 & es & Hes & Ht) identities1 Hlist1 Hsame.
  apply (reconcileEntries_idle r cls identities1); [done..|]. intros es1 Hes1. rewrite Hsame.
  by apply (nothing_to_do (registered w) (registered w1) es es1);
    [apply store_ids| |apply store_ids|..].
Qed.
End props.

(** ** Witnesses *)

Definition sample_reconciler (prefix : string) : MainReconciler :=
  {| MR_TrustDomain := sample_td; MR_ClusterName := "default"; IgnoreNamespaces := ["kube-"];
     EntryIDPrefix := prefix; GCInterval := 10 * Minute |}.

(** One cluster with two pods, of which one matches the identity, and an entry
    of somebody else at the server. *)
Definition other_labels (p : Pod) : Pod :=
  {| Pod_ObjectMeta := {| Name := "db"; Namespace := "prod"; UID := "db-uid";
       CreationTimestamp := 0; DeletionTimestamp := None; Finalizers := [];
       Labels := {[ "app" := "db" ]} |};
     Pod_Spec := Pod_Spec p; Pod_Phase := Pod_Phase p |}.
Definition sample_kube : test_kube :=
  {| tk_clusters := [sample_cluster "c1"]; tk_identities := [sample_identity ""];
     tk_pods := {[ "c1" := [ObjPod (sample_pod "web-1" "uid-1"); ObjOther;
                            ObjPod (other_labels (sample_pod "db" "db-uid"))] ]};
     tk_nodes := {[ "node-1" := sample_node ]} |}.
Definition foreign_entry : ApiEntry := toAPIEntry (set_ID "foreign" (sample_entry two_selectors)).
Definition sample_server : server := {[ "foreign" := foreign_entry ]}.
Definition sample_world : World test_kube server := fresh_world sample_kube sample_server.

(** The same after the connection phase. *)
Definition connected_world (m : server) : World test_kube server :=
  (remove_stale_clusters [sample_cluster "c1"]
    (AddOrUpdateCluster (sample_cluster "c1") (fresh_world sample_kube m)).2).2.

Lemma registered_empty : registered (connected_world ∅) = ∅.
Proof. vm_compute. reflexivity. Qed.

(** A run of the model with its result. *)
Lemma run_pair {W A} (m : GoM W A) w : m w = ((m w).1, (m w).2).
Proof. apply surjective_pairing. Qed.

Lemma sample_cycle_returns : (reconcileAll (sample_reconciler "eks-") sample_world).1 = Ret ().
Proof. vm_compute. reflexivity. Qed.

Lemma reconcileAll_safe_witness :
  let w' := (reconcileAll (sample_reconciler "eks-") sample_world).2 in
  manager_wf w' ∧
  cycle_safe (sample_reconciler "eks-")
    (asked_by_cycle (sample_reconciler "eks-") sample_kube (kube w') (range_map (clusters w')).*2)
    (registered sample_world) (registered w') ∧
  ∀ cls, OK [sample_cluster "c1"] = OK cls → connections_current cls w'.
Proof.
  intros w'.
  pose proof (reconcileAll_safe (sample_reconciler "eks-") sample_world _ _ (fresh_world_wf _ _)
    ltac:(intros cls [= <-]; apply NoDup_singleton) (run_pair _ _)) as Hsafe.
  rewrite sample_cycle_returns in Hsafe. exact Hsafe.
Defined.

(** The cycle registers the entry of the matching pod. *)
Lemma reconcileEntries_converges_witness :
  ∃ w', reconcileEntries (sample_reconciler "eks-") [] (connected_world ∅) = (Ret tt, w') ∧
    ∃ d, d ∈ desired (sample_reconciler "eks-") (connected_world ∅) [sample_identity ""] ∧
      registered w' !! declared_ID "eks-" d = Some (set_ID (declared_ID "eks-" d) d).
Proof.
  pose proof (reconcileEntries_converges (sample_reconciler "eks-") [] [sample_identity ""]
    (connected_world ∅) I eq_refl) as Hwp.
  assert (∀ k, registered (connected_world ∅) !! k = None) as Hempty
    by (intros k; by rewrite registered_empty, lookup_empty).
  destruct (proj1 (wp_run _ _ _) Hwp) as ([] & w' & Hrun & Hconv).
  exists w'. split; [exact Hrun|].
  assert (∃ d, d ∈ desired (sample_reconciler "eks-") (connected_world ∅) [sample_identity ""])
    as [d Hd].
  { assert (length (desired (sample_reconciler "eks-") (connected_world ∅) [sample_identity ""]) = 1%nat)
      as Hlen by (vm_compute; reflexivity).
    destruct (desired _ _ _) as [|d l]; [done|]. exists d. by left. }
  destruct (Hconv (declared_ID "eks-" d)) as [_ Hk]. specialize (Hk (managed_declared_ID (sample_reconciler "eks-") d)).
  destruct (registered w' !! declared_ID "eks-" d) as [e|] eqn:He.
  2: { destruct Hk as [Hk|(_ & _ & _ & _ & k & e & Hold & _)]; [by destruct (Hk d Hd)|].
       by rewrite Hempty in Hold. }
  destruct Hk as (d' & Hd' & Hid & [[-> _]|[Hold _]]); [|by rewrite Hempty in Hold].
  exists d'. split; [exact Hd'|]. simpl in Hid. by rewrite Hid.
Defined.

Lemma sample_state_describes :
  describes new_state (registered (connected_world ∅)).
Proof.
  rewrite registered_empty. split_and!.
  - intros k c Hk. simpl in Hk. by rewrite lookup_empty in Hk.
  - intros k _ _. apply lookup_empty.
Qed.

Lemma new_state_sendable : declared_sendable new_state.
Proof.
  intros k d Hk. change (declared new_state) with
    (<[declared_ID "eks-" (sample_entry two_selectors) :=
       set_ID (declared_ID "eks-" (sample_entry two_selectors)) (sample_entry two_selectors)]>
     (∅ : gmap string Entry)) in Hk.
  apply lookup_insert_Some in Hk as [[<- <-]|[_ Hk]]; [|by rewrite lookup_empty in Hk].
  split; [|done]. apply declared_ID_nonempty.
Qed.

Lemma applyEntryChanges_safe_witness :
  wp (applyEntryChanges new_state) (λ _ w',
    changed_safely new_state (registered sample_world) (registered w') ∧
    only_spire sample_world w') sample_world.
Proof.
  apply (applyEntryChanges_safe new_state sample_world);
    [apply state_wf_AddDeclared, state_wf_new|apply new_state_sendable].
Defined.

Lemma applyEntryChanges_reaches_target_witness :
  wp (applyEntryChanges new_state) (λ _ w',
    ∀ k, registered w' !! k = target new_state (registered (connected_world ∅)) k)
    (connected_world ∅).
Proof.
  apply (applyEntryChanges_reaches_target new_state (connected_world ∅));
    [apply state_wf_AddDeclared, state_wf_new|apply new_state_sendable|
     apply sample_state_describes|exact I].
Defined.

(** Two connections in either order, of which one sees a matching pod. *)
Definition conn_to (name : string) (informer : string) : ClusterConnection :=
  {| Cluster := sample_cluster name; K8sClient := "c1"; PodInformer := informer; StopCh := 0%nat;
     LastConnected := 0 |}.

Lemma process_all_refines_witness :
  fold_each [conn_to "c2" "c2"; conn_to "c1" "c1"] new_state
    (λ conn s, processCluster (sample_reconciler "eks-") conn [sample_identity ""] s) sample_world =
  fold_each [conn_to "c1" "c1"; conn_to "c2" "c2"] new_state
    (λ conn s, processCluster (sample_reconciler "eks-") conn [sample_identity ""] s) sample_world.
Proof.
  destruct (process_all_refines (sample_reconciler "eks-")
    [conn_to "c1" "c1"; conn_to "c2" "c2"] [sample_identity ""] new_state sample_world)
    as [_ Hperm].
  apply Hperm; [apply Permutation_swap|done|].
  assert (length (desired_entries (sample_reconciler "eks-") (kube sample_world)
    [conn_to "c1" "c1"; conn_to "c2" "c2"] [sample_identity ""]) = 1%nat) as Hlen
    by (vm_compute; reflexivity).
  destruct (desired_entries _ _ _ _) as [|d [|]]; [done| |done].
  by intros e e' ->%list_elem_of_singleton ->%list_elem_of_singleton _.
Defined.

(** An identity that asks for no selectors beyond the pod's UID. *)
Definition plain_identity : WorkloadIdentity :=
  {| WI_ObjectMeta := WI_ObjectMeta (sample_identity "");
     WI_Spec := let s := WI_Spec (sample_identity "") in
       {| ApplicationName := ApplicationName s; Spec_Namespace := Spec_Namespace s;
          SPIFFEIDTemplate := SPIFFEIDTemplate s; ParentIDTemplate := ParentIDTemplate s;
          PodSelector := PodSelector s; TTL := TTL s; JWTTTL := JWTTTL s;
          DNSNameTemplates := DNSNameTemplates s; WorkloadSelectorTemplates := [];
          FederatesWith := FederatesWith s; Admin := Admin s; Downstream := Downstream s;
          AutoPopulateDNSNames := AutoPopulateDNSNames s; ClusterSelector := ClusterSelector s;
          Hint := Hint s |};
     WI_Status := WI_Status (sample_identity "") |}.
Definition plain_world : World test_kube server :=
  set_kube {| tk_clusters := tk_clusters sample_kube; tk_identities := [plain_identity];
              tk_pods := tk_pods sample_kube; tk_nodes := tk_nodes sample_kube |}
    (connected_world ∅).
Abbreviation plain_r := (sample_reconciler "eks-").

Lemma registered_plain : registered plain_world = ∅.
Proof. vm_compute. reflexivity. Qed.

Lemma plain_desired_one :
  match desired plain_r plain_world [plain_identity] with
  | [d] => bool_decide (length (Selectors d) = 1%nat) | _ => false end = true.
Proof. vm_compute. reflexivity. Qed.

Lemma plain_desired_same :
  let w1 := (reconcileEntries plain_r [] plain_world).2 in
  bool_decide (desired plain_r w1 (tk_identities (kube w1)) =
    desired plain_r plain_world [plain_identity]) = true.
Proof. vm_compute. reflexivity. Qed.

Lemma second_cycle_no_changes_witness :
  let w1 := (reconcileEntries plain_r [] plain_world).2 in
  wp (reconcileEntries plain_r []) (λ _ w2,
    spire w2 = (ListEntries (spire w1)).2 ∧ registered w2 = registered w1) w1.
Proof.
  pose proof (second_cycle_no_changes plain_r [] [plain_identity] plain_world I eq_refl) as Hwp.
  destruct (proj1 (wp_run _ _ _) (Hwp ltac:(
    intros d Hd; pose proof plain_desired_one as Hone;
    destruct (desired plain_r plain_world [plain_identity]) as [|d' [|]]; [done| |done];
    apply list_elem_of_singleton in Hd as ->; apply bool_decide_eq_true in Hone; split;
    [destruct (Selectors d') as [|s [|]]; [done| |done];
     by intros s1 s2 ->%list_elem_of_singleton ->%list_elem_of_singleton _
    |intros (k & e & Hk & _); rewrite registered_plain in Hk; by rewrite lookup_empty in Hk])))
    as ([] & w1 & Hrun & Hsecond).
  rewrite Hrun. cbn [snd]. apply (Hsecond (tk_identities (kube w1))); [done|].
  pose proof plain_desired_same as Hsame. rewrite Hrun in Hsame. by apply bool_decide_eq_true in Hsame.
Defined.
