(* ===== verification/TargetedProps.v ===== *)
(** * Properties of the targeted handlers, the deletion controller and finalizers *)

From S2P Require Export HintFacts Controllers MainProps.

Section props.
Context `{!SpiffeID, !LabelSelectors, !Regexps, !MapOrder, !Templates, !FloatToInt}.
Context {K S : Type} `{!Kube K, !Client S, !ClientSpec S, !SpiffeIDLaws}.
Variable r : MainReconciler.
Implicit Types (w : World K S).

(** C12: with a server that does what it is asked, the event of a deleted pod
    removes exactly the registrar's own entries that carry the selector of the
    pod's UID; in an ignored namespace it changes nothing. *)
Theorem pod_deletion_exact `{!ReliableClient S} pod cluster w :
  healthy (spire w) →
  wp (ReconcileSinglePod r pod cluster "delete") (λ _ w',
    if isNamespaceIgnored r (Pod_Namespace pod) then w' = w else
    ∀ k, registered w' !! k =
      match registered w !! k with
      | Some e =>
          if bool_decide (managed r k = true ∧
            {| Sel_Type := "k8s"; Sel_Value := "pod-uid:" +:+ Pod_UID pod |} ∈ Selectors e)
          then None else Some e
      | None => None
      end) w.
Proof.
  intros Hh. unfold ReconcileSinglePod, deleteEntriesForPod.
  destruct (isNamespaceIgnored r (Pod_Namespace pod)); [done|]. simpl.
  eapply wp_mono; [by apply delete_where_ok|]. intros _ w' [[_ Hr] _] k. rewrite Hr.
  destruct (registered w !! k) as [e|] eqn:He; [|done].
  rewrite shouldProcessEntry_managed, (store_ids _ _ _ He).
  assert (managed r k && has_pod_selector pod e = bool_decide (managed r k = true ∧
    {| Sel_Type := "k8s"; Sel_Value := "pod-uid:" +:+ Pod_UID pod |} ∈ Selectors e)) as ->; [|done].
  apply Bool.eq_true_iff_eq. by rewrite bool_decide_eq_true, andb_true_iff, has_pod_selector_true.
Qed.

(** C13: whatever fails, the deletion controller touches only the entries it
    takes for the owner's, and asks Kubernetes to release the finalizer, and no
    other, exactly when the listing and the deletion of those entries returned
    no error; otherwise it returns an error and Kubernetes is left alone.  A
    resource that is not being deleted, or does not carry the finalizer, is left
    alone altogether. *)
Theorem Deletion_ReconcileWorkloadIdentity_correct name identity k w :
  Get_WorkloadIdentity name (kube w) = (OK identity, k) →
  let owner := owned_by "WorkloadIdentity" (WI_Name identity) in
  let released := WI_set_Finalizers
    (filter (λ f, f ≠ SPIRECleanupFinalizer) (Finalizers (WI_ObjectMeta identity))) identity in
  wp (Deletion_ReconcileWorkloadIdentity name) (λ err w',
    if bool_decide (DeletionTimestamp (WI_ObjectMeta identity) ≠ None ∧
                    DeletionTimestamp (WI_ObjectMeta identity) ≠ Some zero_Time ∧
                    SPIRECleanupFinalizer ∈ Finalizers (WI_ObjectMeta identity))
    then some_deleted owner (registered w) (registered w') ∧
      (cleaned_up owner (spire w) (spire w') ∧ (err, kube w') = Update_WorkloadIdentity released k ∨
       (∀ s', ¬ cleaned_up owner (spire w) s') ∧ err ≠ None ∧ kube w' = k)
    else err = None ∧ w' = set_kube k w) w.
Proof.
  intros Hget owner released. unfold Deletion_ReconcileWorkloadIdentity.
  apply wp_bind, wp_outside. rewrite Hget. simpl.
  assert (negb (Time_IsZero (DeletionTimestamp (WI_ObjectMeta identity))) &&
    ContainsFinalizer (Finalizers (WI_ObjectMeta identity)) SPIRECleanupFinalizer =
    bool_decide (DeletionTimestamp (WI_ObjectMeta identity) ≠ None ∧
      DeletionTimestamp (WI_ObjectMeta identity) ≠ Some zero_Time ∧
      SPIRECleanupFinalizer ∈ Finalizers (WI_ObjectMeta identity))) as ->.
  { apply Bool.eq_true_iff_eq. rewrite bool_decide_eq_true, andb_true_iff, negb_true_iff, ContainsFinalizer_true.
    unfold Time_IsZero. destruct (DeletionTimestamp _) as [t|]; [|naive_solver].
    rewrite bool_decide_eq_false. naive_solver. }
  case_bool_decide; [|by apply wp_ret].
  apply wp_bind.
  eapply wp_mono; [apply wp_and; [apply deleteEntriesForOwner_wp|apply deleteEntriesForOwner_error]|].
  intros [err|] w1 [[Hdel [_ Hk]%only_spire_manager] Herr]; simpl in Hk, Herr.
  - apply wp_ret. split; [exact Hdel|by right].
  - apply wp_outside. rewrite Hk. split; [exact Hdel|left]. split; [exact Herr|].
    simpl. by destruct (Update_WorkloadIdentity _ k).
Qed.

(** C32: the entries deleted for an identity include those of every identity
    whose name starts with that name, with or without a hint of its own:
    deleting the identity "web" also deletes the entries of "web-app".  Of the
    entries of identities without a hint of their own, and with names as
    Kubernetes allows them, it is exactly these. *)
Theorem owner_is_matched_by_name_prefix identity cluster pod node td e (n : string) :
  RenderEntry identity cluster pod node td = OK e →
  (HasPrefix (WI_Name identity) n = true → owned_by "WorkloadIdentity" n e = true) ∧
  (Hint (WI_Spec identity) = "" →
   name_ok (WI_Name identity) → name_ok (EKS_Name cluster) → name_ok n →
   owned_by "WorkloadIdentity" n e = true → HasPrefix (WI_Name identity) n = true).
Proof.
  intros He%RenderEntry_hint. split.
  - intros [suffix Hn]%HasPrefix_app. by eapply owned_by_prefix.
  - intros Hh ???. apply (owned_by_identity_default e (WI_Name identity) (EKS_Name cluster)); [done..|].
    by rewrite He, entry_hint_default.
Qed.

(** The entries deleted for a cluster are exactly those rendered for that
    cluster, for identities without a hint of their own. *)
Theorem cluster_owner_is_exact identity cluster pod node td e (n : string) :
  RenderEntry identity cluster pod node td = OK e → Hint (WI_Spec identity) = "" →
  name_ok (WI_Name identity) → name_ok (EKS_Name cluster) →
  owned_by "EKSClusterRegistry" n e = true ↔ n = EKS_Name cluster.
Proof.
  intros He%RenderEntry_hint Hh ??. 
  apply (owned_by_cluster_default e (WI_Name identity) (EKS_Name cluster)); [done..|].
  by rewrite He, entry_hint_default.
Qed.

(** C26: the targeted reconciler recognises an identity's entries exactly when
    the identity has no hint of its own; with one it recognises none. *)
Theorem identity_recognition identity identity' cluster pod node td e :
  RenderEntry identity cluster pod node td = OK e →
  name_ok (WI_Name identity) → name_ok (EKS_Name cluster) → name_ok (WI_Name identity') →
  (Hint (WI_Spec identity) = "" → Hint (WI_Spec identity') = "" →
     entryBelongsToIdentity e identity' = true ↔ WI_Name identity' = WI_Name identity) ∧
  (Hint (WI_Spec identity) ≠ "" → entryBelongsToIdentity e identity = false).
Proof.
  intros He%RenderEntry_hint ???. split.
  - intros Hh Hh'. apply (belongs_default e (WI_Name identity) (EKS_Name cluster)); [done..|].
    by rewrite He, entry_hint_default.
  - intros Hh. by eapply belongs_custom.
Qed.

(** C34: with names as Kubernetes allows them, the event of a cluster that is
    deleted or disabled removes the connection, and none of the entries, of this or any cluster, that carry the
    hint written for an identity without a hint of its own: the cluster name the
    handler reads from such a hint ends in ";owner". *)
Theorem ReconcileEKSCluster_deleted_keeps_entries cluster deleted w :
  deleted = true ∨ Enabled (EKS_Spec cluster) = false →
  manager_wf w → name_ok (EKS_Name cluster) →
  wp (ReconcileEKSCluster r cluster deleted) (λ _ w',
    clusters w' !! EKS_Name cluster = None ∧
    ∀ k e i c, registered w !! k = Some e → name_ok i → name_ok c →
      Entry_Hint e = default_hint i c → registered w' !! k = Some e) w.
Proof.
  intros Hoff Hwf Hn. unfold ReconcileEKSCluster.
  replace (deleted || negb (Enabled (EKS_Spec cluster))) with true
    by (destruct Hoff as [-> | ->]; by rewrite ?orb_true_r).
  apply wp_bind.
  eapply wp_mono; [apply delete_where_wp|]. intros _ w1 [Hdel [Hm _]%only_spire_manager].
  eapply wp_mono; [apply RemoveCluster_wp; by eapply same_manager_wf|].
  intros _ w2 (_ & Hs2 & _ & _ & Hc2 & _). split; [by rewrite Hc2, lookup_delete_eq|].
  intros k e i c Hk Hi Hc He. unfold registered at 1. rewrite Hs2.
  destruct (Hdel k) as [Heq|(_ & e' & Hk' & Hp)]; [unfold registered in *; congruence|].
  assert (e' = e) as -> by congruence. by rewrite (belongs_cluster_default e i c) in Hp.
Qed.

(** A pod event in a namespace with an identity whose pod selector is
    invalid panics. *)
Theorem invalid_selector_panics pod cluster action identity identities err k w :
  isNamespaceIgnored r (Pod_Namespace pod) = false → action ≠ "delete" →
  List_WorkloadIdentities (kube w) = (OK (identity :: identities), k) →
  Spec_Namespace (WI_Spec identity) = Pod_Namespace pod →
  shouldProcessIdentity identity cluster = true →
  PodSelector (WI_Spec identity) ≠ None →
  LabelSelectorAsSelector (PodSelector (WI_Spec identity)) = ERR err →
  ReconcileSinglePod r pod cluster action w = (Panic, set_kube k w).
Proof.
  intros Hns Hact Hlist Hin Hshould Hsome Hsel. unfold ReconcileSinglePod.
  rewrite Hns, bool_decide_false by done. unfold findMatchingIdentities, list_identities.
  unfold mbind, GoM_bind, outside. rewrite Hlist. simpl. unfold pure.
  rewrite bool_decide_false, Hshould by (intros Hne; by apply Hne). simpl.
  destruct (PodSelector (WI_Spec identity)) as [s|]; [|done]. by rewrite Hsel.
Qed.

(** An identity without a pod selector matches every pod of its namespace
    when the pod changes, and no pod in the full reconciliation, which then
    deletes what the pod event registered. *)
Theorem nil_selector_disagreement `{!LabelSelectorsLaws} identity cluster conn pod w :
  PodSelector (WI_Spec identity) = None →
  Spec_Namespace (WI_Spec identity) = Pod_Namespace pod →
  shouldProcessIdentity identity cluster = true →
  matching_identities pod cluster [identity] = Ret [identity] ∧
  wp (getPodsFromInformer conn identity) (λ pods _, pods = OK []) w.
Proof.
  intros Hnone Hns Hshould. split.
  - simpl. by rewrite bool_decide_false, Hshould, Hnone by (intros Hne; by apply Hne).
  - unfold getPodsFromInformer. rewrite Hnone.
    destruct LabelSelectorAsSelector_nil as (sel & -> & Hno). apply wp_bind, wp_outside, wp_ret.
    f_equal. unfold select_pods. destruct (Store_List _ _) as [objs k]. simpl.
    induction objs as [|[p| |] objs IH]; simpl; [done| |done|done].
    rewrite Hno. by case_bool_decide.
Qed.

(** C33: the status of each deletion is ignored: when the batch call itself
    succeeds, the owner's finalizer is released even if every single entry was
    refused and is still registered. *)
Theorem refused_deletions_release_the_finalizer name identity k (es : list Entry) s1 sts s2 w :
  Get_WorkloadIdentity name (kube w) = (OK identity, k) →
  Time_IsZero (DeletionTimestamp (WI_ObjectMeta identity)) = false →
  SPIRECleanupFinalizer ∈ Finalizers (WI_ObjectMeta identity) →
  ListEntries (spire w) = (Ret (OK es), s1) →
  let ids := Entry_ID <$> filter (λ e, owned_by "WorkloadIdentity" (WI_Name identity) e = true) es in
  ids ≠ [] →
  BatchDeleteEntries ids s1 = (Ret (sts, None), s2) → length sts = length ids →
  let released := WI_set_Finalizers
    (RemoveFinalizer (Finalizers (WI_ObjectMeta identity)) SPIRECleanupFinalizer) identity in
  Deletion_ReconcileWorkloadIdentity name w =
    (Ret (Update_WorkloadIdentity released k).1,
     set_kube (Update_WorkloadIdentity released k).2 (set_spire s2 w)).
Proof.
  intros Hget Hdel Hfin Hlist ids Hne Hbatch Hlen released.
  unfold Deletion_ReconcileWorkloadIdentity, mbind, GoM_bind, outside at 1. rewrite Hget.
  rewrite Hdel, (proj2 (ContainsFinalizer_true _ _) Hfin). simpl.
  unfold deleteEntriesForOwner, mbind, GoM_bind, on_spire, lift. simpl. rewrite Hlist. fold ids.
  rewrite bool_decide_true by (destruct ids; [done|simpl; lia]). simpl. rewrite Hbatch.
  unfold pure, log_failures. rewrite bool_decide_false; simpl.
  - unfold outside. simpl. by destruct (Update_WorkloadIdentity _ k).
  - rewrite Exists_exists. intros ([i st] & Hin & _ & Hi). simpl in Hi.
    unfold enumerate in Hin. apply elem_of_zip_l in Hin. apply elem_of_seq in Hin. lia.
Qed.

(** When the identity is gone, the controller acts on an empty object, and no
    entry of any identity is recognised as its own. *)
Theorem missing_identity_keeps_entries name err k w :
  Get_WorkloadIdentity name (kube w) = (ERR err, k) → IsNotFound err = true →
  wp (WorkloadIdentity_Reconcile r name) (λ res w', res = None ∧
    ∀ k e i c, registered w !! k = Some e → name_ok i → i ≠ "" → name_ok c →
      Entry_Hint e = default_hint i c → registered w' !! k = Some e) w.
Proof.
  intros Hget Hnf. unfold WorkloadIdentity_Reconcile. rewrite wp_bind, wp_outside, Hget.
  cbn [fst snd]. unfold IgnoreNotFound. rewrite Hnf. rewrite bool_decide_true by done.
  rewrite wp_bind. eapply wp_mono; [apply delete_where_wp|]. intros _ w1 [Hdel _].
  apply wp_ret. split; [done|]. intros k' e i c Hk Hi Hne Hc He.
  destruct (Hdel k') as [Heq|(_ & e' & Hk' & Hp)]; [unfold registered in *; simpl in Heq; congruence|].
  assert (e' = e) as -> by (unfold registered in *; simpl in Hk'; congruence).
  exfalso. apply Hne.
  apply (belongs_default e i c empty_WorkloadIdentity) in Hp; [done|done|done| |done|done].
  split_and!; apply not_elem_of_nil.
Qed.
End props.

(** ** Finalizers *)

(** C27: the webhook adds its finalizer once, at the end of the list the user
    wrote; admitting the result again changes nothing, and the deletion
    controller's removal of the finalizer restores what the user wrote. *)
Theorem finalizer_roundtrip `{!LabelSelectors} (identity : WorkloadIdentity) :
  DeletionTimestamp (WI_ObjectMeta identity) = None →
  SPIRECleanupFinalizer ∉ Finalizers (WI_ObjectMeta identity) →
  let admitted := WI_set_Finalizers
    (Finalizers (WI_ObjectMeta identity) ++ [SPIRECleanupFinalizer]) identity in
  WorkloadIdentity_Default (OWorkloadIdentity identity) = OK (OWorkloadIdentity admitted) ∧
  WorkloadIdentity_Default (OWorkloadIdentity admitted) = OK (OWorkloadIdentity admitted) ∧
  WI_set_Finalizers (RemoveFinalizer (Finalizers (WI_ObjectMeta admitted)) SPIRECleanupFinalizer)
    admitted = identity.
Proof.
  intros Hdel Hf admitted.
  assert (AddFinalizer (Finalizers (WI_ObjectMeta identity)) SPIRECleanupFinalizer =
    Finalizers (WI_ObjectMeta identity) ++ [SPIRECleanupFinalizer]) as Hadd.
  { unfold AddFinalizer, ContainsFinalizer. by rewrite bool_decide_false. }
  split_and!.
  - simpl. by rewrite Hdel, Hadd.
  - simpl. rewrite Hdel. simpl. unfold AddFinalizer.
    rewrite (proj2 (ContainsFinalizer_true _ _)) by set_solver. done.
  - simpl. rewrite <-Hadd, RemoveFinalizer_AddFinalizer by done. by destruct identity as [[] ? ?].
Qed.

(** ** Witnesses *)

Definition or_sample (res : result Entry) : Entry :=
  match res with OK e => e | ERR _ => sample_entry [] end.

(** What the sample identity, with the given hint and name, gets for a pod. *)
Definition named_identity (name hint : string) : WorkloadIdentity :=
  {| WI_ObjectMeta := sample_meta name "" "u1"; WI_Spec := WI_Spec (sample_identity hint);
     WI_Status := WI_Status (sample_identity hint) |}.
Definition sample_trust_domain : string := TrustDomain_String (MR_TrustDomain (sample_reconciler "eks-")).
Definition sample_render (name hint : string) : result Entry :=
  RenderEntry (named_identity name hint) (sample_cluster "c1") (sample_pod "web-1" "uid-1")
    sample_node sample_trust_domain.
Definition rendered (name hint : string) : Entry := or_sample (sample_render name hint).

Lemma rendered_web :
  RenderEntry (named_identity "web" "") (sample_cluster "c1") (sample_pod "web-1" "uid-1")
    sample_node sample_trust_domain = OK (rendered "web" "").
Proof. vm_compute. reflexivity. Qed.
Lemma rendered_web_app :
  RenderEntry (named_identity "web-app" "") (sample_cluster "c1") (sample_pod "web-1" "uid-1")
    sample_node sample_trust_domain = OK (rendered "web-app" "").
Proof. vm_compute. reflexivity. Qed.
Lemma rendered_custom :
  RenderEntry (named_identity "web" "team-a") (sample_cluster "c1") (sample_pod "web-1" "uid-1")
    sample_node sample_trust_domain = OK (rendered "web" "team-a").
Proof. vm_compute. reflexivity. Qed.

Ltac name_ok := split_and!; compute_done.

Lemma pod_deletion_exact_witness :
  wp (ReconcileSinglePod (sample_reconciler "") (sample_pod "web-1" "uid-1")
        (sample_cluster "c1") "delete")
    (λ _ w', ∀ k, registered w' !! k =
      match registered sample_world !! k with
      | Some e => if bool_decide (managed (sample_reconciler "") k = true ∧
          {| Sel_Type := "k8s"; Sel_Value := "pod-uid:uid-1" |} ∈ Selectors e) then None else Some e
      | None => None
      end) sample_world.
Proof.
  exact (pod_deletion_exact (sample_reconciler "") (sample_pod "web-1" "uid-1") (sample_cluster "c1")
    sample_world I).
Defined.

(** An identity that is being deleted, and an entry of its own to delete. *)
Definition deleting_identity : WorkloadIdentity :=
  {| WI_ObjectMeta := {| Name := "web"; Namespace := ""; UID := "u1"; CreationTimestamp := 0;
       DeletionTimestamp := Some 1%Z; Finalizers := ["other"; SPIRECleanupFinalizer]; Labels := ∅ |};
     WI_Spec := WI_Spec (sample_identity ""); WI_Status := WI_Status (sample_identity "") |}.
Definition deleting_kube : test_kube :=
  {| tk_clusters := []; tk_identities := [deleting_identity]; tk_pods := ∅; tk_nodes := ∅ |}.

Lemma Deletion_ReconcileWorkloadIdentity_correct_witness :
  let owner := owned_by "WorkloadIdentity" "web" in
  let w := fresh_world deleting_kube sample_server in
  wp (Deletion_ReconcileWorkloadIdentity "web") (λ err w',
    some_deleted owner (registered w) (registered w') ∧
    (cleaned_up owner (spire w) (spire w') ∧
     (err, kube w') = Update_WorkloadIdentity (WI_set_Finalizers ["other"] deleting_identity) deleting_kube ∨
     (∀ s', ¬ cleaned_up owner (spire w) s') ∧ err ≠ None ∧ kube w' = deleting_kube)) w.
Proof.
  apply (Deletion_ReconcileWorkloadIdentity_correct "web" deleting_identity deleting_kube
    (fresh_world deleting_kube sample_server)). reflexivity.
Defined.

Lemma owner_is_matched_by_name_prefix_witness :
  owned_by "WorkloadIdentity" "web" (rendered "web-app" "") = true.
Proof.
  apply (owner_is_matched_by_name_prefix (named_identity "web-app" "") (sample_cluster "c1")
    (sample_pod "web-1" "uid-1") sample_node sample_trust_domain);
    [exact rendered_web_app|reflexivity].
Defined.

Lemma cluster_owner_is_exact_witness :
  owned_by "EKSClusterRegistry" "c1" (rendered "web" "") = true.
Proof.
  apply (cluster_owner_is_exact (named_identity "web" "") (sample_cluster "c1")
    (sample_pod "web-1" "uid-1") sample_node sample_trust_domain);
    [exact rendered_web|reflexivity|name_ok..|reflexivity].
Defined.

Lemma identity_recognition_witness :
  entryBelongsToIdentity (rendered "web" "team-a") (named_identity "web" "team-a") = false.
Proof.
  apply (identity_recognition (named_identity "web" "team-a") (named_identity "web" "team-a")
    (sample_cluster "c1") (sample_pod "web-1" "uid-1") sample_node sample_trust_domain);
    [exact rendered_custom|name_ok..|done].
Defined.

(** A server with the rendered entry registered. *)
Definition rendered_server : server :=
  let id := declared_ID "eks-" (rendered "web" "") in
  {[ id := toAPIEntry (set_ID id (rendered "web" "")) ]}.

Lemma ReconcileEKSCluster_deleted_keeps_entries_witness :
  wp (ReconcileEKSCluster (sample_reconciler "eks-") (sample_cluster "c1") true) (λ _ w',
    clusters w' !! "c1" = None ∧
    ∀ k e i c, registered (fresh_world sample_kube rendered_server) !! k = Some e →
      name_ok i → name_ok c → Entry_Hint e = default_hint i c → registered w' !! k = Some e)
    (fresh_world sample_kube rendered_server).
Proof.
  apply (ReconcileEKSCluster_deleted_keeps_entries (sample_reconciler "eks-") (sample_cluster "c1"));
    [by left|apply fresh_world_wf|name_ok].
Defined.

(** An identity whose pod selector names no label key. *)
Definition invalid_identity : WorkloadIdentity :=
  let spec := WI_Spec (sample_identity "") in
  {| WI_ObjectMeta := WI_ObjectMeta (sample_identity "");
     WI_Spec := {| ApplicationName := "web"; Spec_Namespace := "prod";
       SPIFFEIDTemplate := SPIFFEIDTemplate spec; ParentIDTemplate := "";
       PodSelector := Some [("", "web")]; TTL := TTL spec; JWTTTL := JWTTTL spec;
       DNSNameTemplates := []; WorkloadSelectorTemplates := []; FederatesWith := [];
       Admin := false; Downstream := false; AutoPopulateDNSNames := false;
       ClusterSelector := None; Hint := "" |};
     WI_Status := WI_Status (sample_identity "") |}.
Definition invalid_world : World test_kube server :=
  fresh_world {| tk_clusters := []; tk_identities := [invalid_identity]; tk_pods := ∅;
                 tk_nodes := ∅ |} ∅.

Lemma invalid_selector_panics_witness :
  ReconcileSinglePod (sample_reconciler "eks-") (sample_pod "web-1" "uid-1") (sample_cluster "c1")
    "add" invalid_world = (Panic, set_kube (kube invalid_world) invalid_world).
Proof.
  by eapply (invalid_selector_panics (sample_reconciler "eks-") _ _ "add" invalid_identity []).
Defined.

(** The same without any pod selector. *)
Definition unselective_identity : WorkloadIdentity :=
  let spec := WI_Spec (sample_identity "") in
  {| WI_ObjectMeta := WI_ObjectMeta (sample_identity "");
     WI_Spec := {| ApplicationName := "web"; Spec_Namespace := "prod";
       SPIFFEIDTemplate := SPIFFEIDTemplate spec; ParentIDTemplate := "";
       PodSelector := None; TTL := TTL spec; JWTTTL := JWTTTL spec;
       DNSNameTemplates := []; WorkloadSelectorTemplates := []; FederatesWith := [];
       Admin := false; Downstream := false; AutoPopulateDNSNames := false;
       ClusterSelector := None; Hint := "" |};
     WI_Status := WI_Status (sample_identity "") |}.
Definition sample_connection : ClusterConnection :=
  {| Cluster := sample_cluster "c1"; K8sClient := "eks"; PodInformer := "c1"; StopCh := 0;
     LastConnected := 0%Z |}.

Lemma nil_selector_disagreement_witness :
  matching_identities (sample_pod "web-1" "uid-1") (sample_cluster "c1") [unselective_identity] =
    Ret [unselective_identity] ∧
  wp (getPodsFromInformer sample_connection unselective_identity) (λ pods _, pods = OK []) sample_world.
Proof.
  by apply (nil_selector_disagreement unselective_identity (sample_cluster "c1") sample_connection
    (sample_pod "web-1" "uid-1") sample_world).
Defined.

Lemma finalizer_roundtrip_witness :
  let admitted := WI_set_Finalizers [SPIRECleanupFinalizer] (sample_identity "") in
  WorkloadIdentity_Default (OWorkloadIdentity (sample_identity "")) = OK (OWorkloadIdentity admitted) ∧
  WorkloadIdentity_Default (OWorkloadIdentity admitted) = OK (OWorkloadIdentity admitted) ∧
  WI_set_Finalizers (RemoveFinalizer (Finalizers (WI_ObjectMeta admitted)) SPIRECleanupFinalizer)
    admitted = sample_identity "".
Proof.
  apply (finalizer_roundtrip (sample_identity "")); [reflexivity|apply not_elem_of_nil].
Defined.

(** A client of a server that refuses every deletion. *)
Definition refused : Status := {| Code := 7; Message := "permission denied" |}.
Definition refusing_client : Client (list Entry) := {|
  ListEntries := λ es, (Ret (OK es), es);
  CreateEntry := λ _ es, (Ret None, es);
  UpdateEntry := λ _ es, (Ret None, es);
  DeleteEntry := λ _ es, (Ret (Some (ErrExt "permission denied")), es);
  BatchCreateEntries := λ _ es, (Ret ([], None), es);
  BatchUpdateEntries := λ _ es, (Ret ([], None), es);
  BatchDeleteEntries := λ ids es, (Ret ((λ _, refused) <$> ids, None), es);
  Close := λ es, (Ret None, es);
|}.
Definition refusing_world : World test_kube (list Entry) :=
  {| kube := deleting_kube; spire := [rendered "web" ""]; clusters := ∅; clients := ∅; next_ch := 0;
     closed := ∅ |}.

(** The finalizer is gone and the entry is still there. *)
Lemma refused_deletions_release_the_finalizer_witness :
  ∃ w', @Deletion_ReconcileWorkloadIdentity _ _ _ (list Entry) _ refusing_client "web" refusing_world =
    (Ret None, w') ∧ spire w' = [rendered "web" ""] ∧
    (λ i, Finalizers (WI_ObjectMeta i)) <$> tk_identities (kube w') = [["other"]].
Proof.
  assert (owned_by "WorkloadIdentity" "web" (rendered "web" "") = true) as Hown
    by (vm_compute; reflexivity).
  eexists. split.
  - eapply (@refused_deletions_release_the_finalizer _ _ _ (list Entry) _ refusing_client "web"
      deleting_identity deleting_kube [rendered "web" ""] [rendered "web" ""] [refused]
      [rendered "web" ""] refusing_world); [reflexivity|reflexivity|right; left|reflexivity|..].
    + change (Entry_ID <$> filter (λ e, owned_by "WorkloadIdentity" "web" e = true)
        [rendered "web" ""] ≠ []). by rewrite filter_cons_True.
    + change (WI_Name deleting_identity) with "web". rewrite filter_cons_True by done. reflexivity.
    + change (WI_Name deleting_identity) with "web". rewrite filter_cons_True by done. reflexivity.
  - split; reflexivity.
Defined.
