(* ===== verification/HandlerProps.v ===== *)
(** * Properties of the whole handlers, against the full cycle *)

From S2P Require Export HandlerFacts TargetedProps.

Section props.
Context `{!SpiffeID, !LabelSelectors, !Regexps, !MapOrder, !Templates, !FloatToInt}.
Context {K S : Type} `{!Kube K, !Client S, !ClientSpec S, !ReliableClient S, !SpiffeIDLaws}.
Context `{!QuietKube K, !MapOrderLaws}.
Variable r : MainReconciler.
Implicit Types (w : World K S).

(** C5: with a server that does what it is asked, clusters that can be listed, have
    names of their own and stay as they are, and connections as the cycle leaves
    them, the event of an identity first
    brings the server to [register_all] of a list of entries: one after the
    other, each replaces an outdated entry under its ID or is created, unless the
    server keeps an entry like it.  Then it deletes, of the result, exactly the
    entries it takes for the identity's that select no running pod of the
    identity; it touches nothing else.  The list is what the full cycle asks for
    this identity; only for an ignored namespace, for which the cycle asks for
    nothing, the event registers what it would ask for otherwise.  If the entries
    have distinct IDs and none is like one under another ID, each is registered
    in the end of the first part. *)
Theorem ReconcileWorkloadIdentity_agrees identity (cls : list EKSClusterRegistry) w :
  healthy (spire w) → (List_EKSClusterRegistries (kube w)).1 = OK cls →
  NoDup ((λ c, EKS_Name c) <$> cls) → connections_current cls w →
  let es := mjoin (entries_on r w identity <$> matching_clusters cls identity) in
  wp (ReconcileWorkloadIdentity r identity false) (λ _ w', only_spire w w' ∧
    ∀ k, registered w' !! k = match register_all r (registered w) es !! k with
      | Some e => if entryBelongsToIdentity e identity &&
                     negb (has_valid_pod (placed_uids (selected_pods w identity)) e)
                  then None else Some e
      | None => None
      end) w ∧
  (if isNamespaceIgnored r (Spec_Namespace (WI_Spec identity))
   then desired r w [identity] = [] else es ≡ₚ desired r w [identity]) ∧
  (compatible r es (registered w) →
   registered_over r es (registered w) (register_all r (registered w) es)).
Proof.
  intros Hh Hlist Hnd Hcur es. split_and!.
  - eapply wp_mono; [apply (ReconcileWorkloadIdentity_ok r identity cls); [done..|]|].
    + intros cluster conn Hin Hc. destruct (Hcur _ _ Hc) as (Hin' & _ & Hn).
      by eapply (NoDup_fmap_inv (λ c, EKS_Name c)).
    + intros _ w' [Ho Hw]. split; [done|]. intros k. rewrite Hw. unfold orphan.
      by rewrite (placed_uids_perm _ _ (pods_on_selected identity cls w Hcur Hnd)).
  - destruct (isNamespaceIgnored _ _) eqn:Hns; [by apply desired_ignored|].
    by apply entries_on_desired.
  - apply register_all_over.
Qed.

(** C6: with a server that does what it is asked and clusters that stay as they
    are, the event of a running pod of a connected cluster, when the identities
    can be listed, brings the server to
    [register_all] of the pod's entries, one after the other as in C5, and
    changes nothing else; this as long as every identity has a valid pod
    selector and the namespace is not ignored.  All of these are entries the
    full cycle asks for; and each is registered in the end if their IDs are
    distinct and none is like one under another ID. *)
Theorem ReconcileSinglePod_agrees pod conn action (identities : list WorkloadIdentity) w :
  healthy (spire w) → action ≠ "delete" → pod_is_placed pod = true →
  isNamespaceIgnored r (Pod_Namespace pod) = false →
  (List_WorkloadIdentities (kube w)).1 = OK identities → Forall selector_is_clear identities →
  clusters w !! EKS_Name (Cluster conn) = Some conn →
  ObjPod pod ∈ (Store_List (PodInformer conn) (kube w)).1 →
  let es := pod_entries r (kube w) identities conn pod in
  wp (ReconcileSinglePod r pod (Cluster conn) action) (λ _ w', only_spire w w' ∧
    registered w' = register_all r (registered w) es) w ∧
  (∀ e, e ∈ es → e ∈ desired r w identities) ∧
  (compatible r es (registered w) →
   registered_over r es (registered w) (register_all r (registered w) es)).
Proof.
  intros Hh Hact Hplaced Hns Hlist Hclear Hconn Hpod es. split_and!.
  - eapply wp_mono; [by apply ReconcileSinglePod_ok|]. by intros _ w' (Ho & _ & Hr).
  - intros e. by apply elem_of_pod_entries.
  - apply register_all_over.
Qed.

(** C7: when the cluster of an event is enabled and has been connected without
    an error, with a server that does what it is asked and clusters that then
    stay as they are and identities that can be listed, the event brings the server, over the new connection, to
    [register_all] of what the identities ask for this cluster, one after the
    other as in C5, and then deletes, of the result, exactly the entries it
    takes for the cluster's that select no running pod of its identities; it
    touches nothing else.  Less the identities of ignored namespaces, which only
    the cycle leaves out, the entries are those the cycle asks for this cluster;
    and each is registered in the end of the first part if their IDs are
    distinct and none is like one under another ID. *)
Theorem ReconcileEKSCluster_agrees cluster (identities : list WorkloadIdentity) w w1 :
  manager_wf w → Enabled (EKS_Spec cluster) = true →
  AddOrUpdateCluster cluster w = (Ret None, w1) →
  healthy (spire w) → (List_WorkloadIdentities (kube w1)).1 = OK identities →
  ∃ conn, clusters w1 !! EKS_Name cluster = Some conn ∧
    let es := cluster_asks r (kube w1) identities conn in
    wp (ReconcileEKSCluster r cluster false) (λ _ w', only_spire w1 w' ∧
      ∀ k, registered w' !! k = match register_all r (registered w) es !! k with
        | Some e => if entryBelongsToCluster e cluster &&
                       negb (has_valid_pod (placed_uids (cluster_pods (kube w1) identities conn)) e)
                    then None else Some e
        | None => None
        end) w ∧
    (let heeded := filter (λ identity,
       isNamespaceIgnored r (Spec_Namespace (WI_Spec identity)) = false) identities in
     cluster_asks r (kube w1) heeded conn = cluster_entries r (kube w1) identities conn ∧
     ∀ e, e ∈ cluster_entries r (kube w1) identities conn → e ∈ desired r w1 identities) ∧
    (compatible r es (registered w) →
     registered_over r es (registered w) (register_all r (registered w) es)).
Proof.
  intros Hwf Hen Hadd Hh Hlist. pose proof (AddOrUpdateCluster_wp cluster w Hwf) as Hwp.
  apply (wpx_run _ _ _ _ _ _ Hwp) in Hadd as Hpost.
  destruct Hpost as ((_ & Hs & _ & _ & Hthis & _) & _ & Hsome).
  destruct (Hsome eq_refl Hen) as [conn Hconn]. exists conn. split; [done|].
  destruct (Hthis conn Hconn) as [Hcl _]. split_and!.
  - subst cluster. assert (registered w = registered w1) as -> by (unfold registered; by rewrite Hs).
    eapply ReconcileEKSCluster_ok; try done. by rewrite Hs.
  - split; [by rewrite cluster_entries_asks|]. intros e He. unfold desired, desired_entries.
    apply list_elem_of_join. eexists. split; [exact He|].
    apply list_elem_of_fmap. exists conn. split; [done|]. apply list_elem_of_fmap.
    exists (EKS_Name cluster, conn). by rewrite elem_of_range_map.
  - apply register_all_over.
Qed.
End props.

(** ** Witnesses *)

Abbreviation sample_r := (sample_reconciler "eks-").
Abbreviation web := (sample_identity "").

Lemma sample_connect_returns :
  match AddOrUpdateCluster (sample_cluster "c1") (fresh_world sample_kube ∅) with
  | (Ret _, w1) => match remove_stale_clusters [sample_cluster "c1"] w1 with (Ret _, _) => true | _ => false end
  | _ => false
  end = true.
Proof. vm_compute. reflexivity. Qed.

Lemma sample_current : connections_current [sample_cluster "c1"] (connected_world ∅).
Proof.
  pose proof (connect_phase_wp [sample_cluster "c1"] (fresh_world sample_kube ∅)
    (NoDup_singleton _) (fresh_world_wf _ _)) as Hwp.
  pose proof sample_connect_returns as Hret. unfold connected_world.
  unfold wpx in Hwp. cbn [for_each] in Hwp. unfold mbind, GoM_bind, mret, GoM_ret in Hwp.
  destruct (AddOrUpdateCluster (sample_cluster "c1") (fresh_world sample_kube ∅)) as [[err| |] w1];
    [|done..]. cbn [snd].
  destruct (remove_stale_clusters _ w1) as [[[]| |] w2]; [|done..]. by destruct Hwp as (_ & _ & ? & _).
Qed.

Lemma compatible_single (es : list Entry) (m : gmap string Entry) :
  m = ∅ → (length es ≤ 1)%nat → compatible sample_r es m.
Proof.
  intros -> Hlen. split.
  - destruct es as [|e [|]]; [apply NoDup_nil_2|apply NoDup_singleton|simpl in Hlen; lia].
  - intros e k e' _. by rewrite lookup_empty.
Qed.

Lemma ReconcileWorkloadIdentity_agrees_witness :
  let es := mjoin (entries_on sample_r (connected_world ∅) web <$>
    matching_clusters [sample_cluster "c1"] web) in
    es ≡ₚ desired sample_r (connected_world ∅) [web] ∧
    wp (ReconcileWorkloadIdentity sample_r web false) (λ _ w', only_spire (connected_world ∅) w' ∧
      ∀ k, registered w' !! k = match register_all sample_r (registered (connected_world ∅)) es !! k with
        | Some e => if entryBelongsToIdentity e web &&
                       negb (has_valid_pod (placed_uids (selected_pods (connected_world ∅) web)) e)
                    then None else Some e
        | None => None
        end) (connected_world ∅) ∧
    registered_over sample_r es (registered (connected_world ∅))
      (register_all sample_r (registered (connected_world ∅)) es).
Proof.
  edestruct (ReconcileWorkloadIdentity_agrees sample_r web [sample_cluster "c1"] (connected_world ∅))
    as (Hwp & Hes & Hover); [exact I|reflexivity|apply NoDup_singleton|apply sample_current|].
  intros es. change (es ≡ₚ desired sample_r (connected_world ∅) [web]) in Hes.
  split; [exact Hes|]. split; [exact Hwp|].
  apply Hover, compatible_single; [apply registered_empty|]. etransitivity;
    [apply Nat.eq_le_incl, (Permutation_length Hes)|].
  assert (bool_decide (length (desired sample_r (connected_world ∅) [web]) ≤ 1)%nat = true) as Hb
    by (vm_compute; reflexivity).
  by apply bool_decide_eq_true in Hb.
Defined.

(** The connection to the sample cluster. *)
Lemma sample_connected :
  ∃ conn, clusters (connected_world ∅) !! EKS_Name (Cluster conn) = Some conn ∧
    PodInformer conn = "c1".
Proof.
  assert (match clusters (connected_world ∅) !! "c1" with
          | Some c => bool_decide (PodInformer c = "c1") | None => false end = true) as Hb
    by (vm_compute; reflexivity).
  destruct (clusters (connected_world ∅) !! "c1") as [conn|] eqn:Hc; [|done].
  destruct (sample_current _ _ Hc) as (_ & _ & Hn). apply bool_decide_eq_true in Hb.
  exists conn. by rewrite Hn.
Qed.

Lemma ReconcileSinglePod_agrees_witness :
  ∃ conn,
    let es := pod_entries sample_r (kube (connected_world ∅)) [web] conn (sample_pod "web-1" "uid-1") in
    wp (ReconcileSinglePod sample_r (sample_pod "web-1" "uid-1") (Cluster conn) "add")
      (λ _ w', only_spire (connected_world ∅) w' ∧
        registered w' = register_all sample_r (registered (connected_world ∅)) es) (connected_world ∅) ∧
    (∀ e, e ∈ es → e ∈ desired sample_r (connected_world ∅) [web]) ∧
    registered_over sample_r es (registered (connected_world ∅))
      (register_all sample_r (registered (connected_world ∅)) es).
Proof.
  destruct sample_connected as (conn & Hconn & Hinf). exists conn.
  edestruct (ReconcileSinglePod_agrees sample_r (sample_pod "web-1" "uid-1") conn "add" [web]
    (connected_world ∅)) as (Hwp & Hin & Hover);
    [exact I|done|reflexivity|reflexivity|reflexivity| |exact Hconn|rewrite Hinf; by left|].
  { apply Forall_singleton. split; [done|by eexists]. }
  split; [exact Hwp|]. split; [exact Hin|].
  apply Hover, compatible_single; [apply registered_empty|]. unfold pod_entries. rewrite filter_cons, filter_nil.
  case_decide; simpl; [|lia]. destruct (pod_entry _ _ _ _); simpl; lia.
Defined.

Abbreviation c1 := (sample_cluster "c1").
Abbreviation fresh := (fresh_world sample_kube (∅ : server)).

Lemma sample_connects : (AddOrUpdateCluster c1 fresh).1 = Ret None.
Proof. vm_compute. reflexivity. Qed.

Lemma ReconcileEKSCluster_agrees_witness :
  ∃ w1 conn, clusters w1 !! "c1" = Some conn ∧
    let es := cluster_asks sample_r (kube w1) [web] conn in
    wp (ReconcileEKSCluster sample_r c1 false) (λ _ w', only_spire w1 w' ∧
      ∀ k, registered w' !! k = match register_all sample_r (registered fresh) es !! k with
        | Some e => if entryBelongsToCluster e c1 &&
                       negb (has_valid_pod (placed_uids (cluster_pods (kube w1) [web] conn)) e)
                    then None else Some e
        | None => None
        end) fresh ∧
    registered_over sample_r es (registered fresh) (register_all sample_r (registered fresh) es).
Proof.
  assert (AddOrUpdateCluster c1 fresh = (Ret None, (AddOrUpdateCluster c1 fresh).2)) as Hadd
    by (rewrite <-sample_connects; apply surjective_pairing).
  edestruct (ReconcileEKSCluster_agrees sample_r c1 [web] fresh) as (conn & Hconn & Hwp & _ & Hover);
    [apply fresh_world_wf|reflexivity|exact Hadd|exact I|vm_compute; reflexivity|].
  eexists _, conn. split; [exact Hconn|]. split; [exact Hwp|].
  apply Hover, compatible_single; [vm_compute; reflexivity|].
  assert (match clusters (AddOrUpdateCluster c1 fresh).2 !! "c1" with
          | Some conn => bool_decide (length (cluster_asks sample_r
              (kube (AddOrUpdateCluster c1 fresh).2) [web] conn) ≤ 1)%nat
          | None => false end = true) as Hb by (vm_compute; reflexivity).
  change (clusters (AddOrUpdateCluster c1 fresh).2 !! "c1" = Some conn) in Hconn.
  rewrite Hconn in Hb. by apply bool_decide_eq_true in Hb.
Defined.
