(* ===== verification/ClusterProps.v ===== *)
(** * Properties of the cluster manager and of the AWS clients *)

From S2P Require Export ClusterFacts TestKube MainProps.

Local Open Scope Z_scope.

Section props.
Context `{!LabelSelectors, !MapOrder, !MapOrderLaws} {K S : Type} `{!Kube K}.
Implicit Types (w : World K S) (cluster : EKSClusterRegistry).

(** The connection of a cluster whose settings are the same is kept. *)
Lemma AddOrUpdateCluster_unchanged cluster conn w :
  clusters w !! EKS_Name cluster = Some conn → sameConfig (Cluster conn) cluster = true →
  AddOrUpdateCluster cluster w =
    (Ret None, set_clusters (<[EKS_Name cluster := set_Cluster cluster conn]> (clusters w)) w).
Proof.
  intros Hc Hsame. unfold AddOrUpdateCluster. unfold mbind, GoM_bind, get_world. rewrite Hc, Hsame.
  done.
Qed.

(** A cluster that is disabled is not connected again. *)
Lemma AddOrUpdateCluster_disabled cluster w :
  manager_wf w → Enabled (EKS_Spec cluster) = false →
  (∀ c, clusters w !! EKS_Name cluster = Some c → sameConfig (Cluster c) cluster = false) →
  wp (AddOrUpdateCluster cluster) (λ r w', r = None ∧ clusters w' !! EKS_Name cluster = None) w.
Proof.
  intros Hwf Hen Hdiff. unfold AddOrUpdateCluster. rewrite !wp_bind, wp_get.
  destruct (clusters w !! EKS_Name cluster) as [c|] eqn:Hc.
  - rewrite (Hdiff c eq_refl), Hen. apply wp_bind, wp_assoc, wp_bind. eapply wp_drop; [done..|]. simpl.
    apply wp_ret, wp_ret. simpl. by rewrite lookup_delete_eq.
  - apply wp_ret. rewrite Hen. by apply wp_ret.
Qed.

(** The settings that decide whether a connection is kept. *)
Definition same_settings (a b : EKSClusterRegistry) : Prop :=
  ClusterName (EKS_Spec a) = ClusterName (EKS_Spec b) ∧ Region (EKS_Spec a) = Region (EKS_Spec b) ∧
  AssumeRoleARN (EKS_Spec a) = AssumeRoleARN (EKS_Spec b).

#[local] Instance same_settings_dec a b : Decision (same_settings a b).
Proof. unfold same_settings. apply _. Defined.

Lemma sameConfig_settings a b : sameConfig a b = bool_decide (same_settings a b).
Proof.
  apply Bool.eq_true_iff_eq. unfold sameConfig, same_settings.
  rewrite !andb_true_iff, !bool_decide_eq_true. tauto.
Qed.

(** C11: whatever fails outside, an update of a cluster touches only that
    cluster's connection and keeps the manager's invariant (no connection with
    a closed channel, no informer left running without a connection).  A
    connection with the same EKS name, region and role is kept with its client,
    its informer and its channel; one with others is stopped, and not replaced
    when the cluster is disabled; a new one has an informer made for the
    cluster's name.  Without an error an enabled cluster is connected.  The
    update panics exactly when the cluster, which is enabled and has no
    connection with the same settings, has no client in the cache and EKS
    describes it without a certificate authority; it is then left without a
    connection. *)
Theorem AddOrUpdateCluster_correct cluster w res w' :
  manager_wf w → AddOrUpdateCluster cluster w = (res, w') →
  manager_wf w' ∧
  (∀ k, k ≠ EKS_Name cluster → clusters w' !! k = clusters w !! k) ∧
  (∀ c, clusters w !! EKS_Name cluster = Some c →
    if bool_decide (same_settings (Cluster c) cluster)
    then res = Ret None ∧ clusters w' !! EKS_Name cluster = Some (set_Cluster cluster c) ∧
         next_ch w' = next_ch w ∧ closed w' = closed w
    else StopCh c ∈ closed w' ∧
         (Enabled (EKS_Spec cluster) = false → clusters w' !! EKS_Name cluster = None)) ∧
  ((∀ c, clusters w !! EKS_Name cluster = Some c → ¬ same_settings (Cluster c) cluster) →
   ∀ c, clusters w' !! EKS_Name cluster = Some c → Cluster c = cluster ∧
     ∃ k, evolves (kube w) k ∧
       PodInformer c = (NewSharedIndexInformer (K8sClient c) (EKS_Name cluster) k).1) ∧
  let panics := Enabled (EKS_Spec cluster) = true ∧ clients w !! EKS_Name cluster = None ∧
    described_without_CA cluster (kube w) ∧
    ∀ c, clusters w !! EKS_Name cluster = Some c → ¬ same_settings (Cluster c) cluster in
  match res with
  | Ret err => ¬ panics ∧
      (err = None → Enabled (EKS_Spec cluster) = true → is_Some (clusters w' !! EKS_Name cluster))
  | Panic => panics ∧ clusters w' !! EKS_Name cluster = None
  | Diverge => False
  end.
Proof.
  intros Hwf Hrun. pose proof (wpx_run _ _ _ _ _ _ (AddOrUpdateCluster_wp cluster w Hwf) Hrun) as Hpost.
  assert (only_cluster cluster w w' ∧ match res with
    | Ret err => ¬ lacks_CA cluster w ∧
        (err = None → Enabled (EKS_Spec cluster) = true → is_Some (clusters w' !! EKS_Name cluster))
    | Panic => lacks_CA cluster w ∧ clusters w' !! EKS_Name cluster = None
    | Diverge => False end) as [(Hwf' & _ & _ & Hother & Hthis & Hstop) Hres] by (by destruct res).
  assert (∀ c, (¬ same_settings (Cluster c) cluster) ↔ sameConfig (Cluster c) cluster = false) as Hsame.
  { intros c. by rewrite sameConfig_settings, bool_decide_eq_false. }
  split_and!; [done|done|..].
  - intros c Hc. rewrite <-sameConfig_settings. destruct (sameConfig (Cluster c) cluster) eqn:Heq.
    + rewrite (AddOrUpdateCluster_unchanged _ _ _ Hc Heq) in Hrun. simplify_eq/=.
      by rewrite lookup_insert_eq.
    + split; [by apply Hstop|]. intros Hen.
      pose proof (AddOrUpdateCluster_disabled cluster w Hwf Hen) as Hdis.
      unfold wp in Hdis. rewrite Hrun in Hdis. rewrite Hc in Hdis.
      specialize (Hdis ltac:(by intros ? [= <-])). destruct res; [|done..]. by destruct Hdis.
  - intros Hnew c Hc. destruct (Hthis c Hc) as [Hcl [(c0 & Hc0 & Heq & _)|Hinf]]; [|done].
    apply Hnew, Hsame in Hc0. congruence.
  - unfold lacks_CA in Hres. destruct res; cbv zeta; [by setoid_rewrite Hsame..|done].
Qed.

(** C16: after [Shutdown] no connection is left and every stop channel that was
    ever made is closed, none of them twice. *)
Theorem Shutdown_correct w :
  manager_wf w →
  wp Shutdown (λ _ w', manager_wf w' ∧ clusters w' = ∅ ∧ next_ch w' = next_ch w ∧
    ∀ ch, (ch < next_ch w)%nat → ch ∈ closed w') w.
Proof.
  intros Hwf. unfold Shutdown. rewrite wp_bind, wp_get, wp_bind.
  pose proof (range_map_perm (clusters w)) as Hperm.
  assert (∀ c, c ∈ (range_map (clusters w)).*2 → ∃ k, clusters w !! k = Some c) as Hin.
  { intros c (p & -> & Hp)%list_elem_of_fmap. exists p.1. rewrite Hperm in Hp.
    apply elem_of_map_to_list. by destruct p. }
  eapply wp_mono; [apply stop_all_wp|].
  - apply NoDup_fmap_2_strong; [|].
    + intros c c' Hc Hc' Heq. destruct (Hin c Hc) as [k Hk], (Hin c' Hc') as [k' Hk'].
      pose proof (wf_own w Hwf _ _ _ _ Hk Hk' Heq) as ->. congruence.
    + apply NoDup_fmap_2_strong; [|rewrite Hperm; apply NoDup_map_to_list].
      intros [k c] [k' c'] Hk Hk' Heq. simpl in Heq. subst c'.
      rewrite Hperm in Hk, Hk'. apply elem_of_map_to_list in Hk, Hk'.
      by rewrite (wf_own w Hwf _ _ _ _ Hk Hk' eq_refl).
  - intros c [k Hk]%Hin. by eapply wf_open.
  - intros _ w' (_ & _ & _ & Hn & Hcl). apply wp_modify.
    assert (∀ ch, (ch < next_ch w)%nat → ch ∈ closed w') as Hall.
    { intros ch Hch. rewrite Hcl. apply elem_of_union.
      destruct (decide (ch ∈ closed w)) as [|Hopen]; [by right|left].
      destruct (wf_no_leak w Hwf ch Hch Hopen) as (k & c & Hk & <-).
      apply elem_of_list_to_set, list_elem_of_fmap. exists c. split; [done|].
      apply list_elem_of_fmap. exists (k, c). split; [done|]. rewrite Hperm.
      by apply elem_of_map_to_list. }
    split_and!; [|done|done|exact Hall].
    split; simpl; try (intros *; by rewrite lookup_empty).
    + intros ch Hch. rewrite Hn. rewrite Hcl in Hch.
      apply elem_of_union in Hch as [Hch|Hch]; [|by apply (wf_closed w Hwf)].
      apply elem_of_list_to_set, list_elem_of_fmap in Hch as (c & -> & [k Hk]%Hin).
      by eapply (wf_made w Hwf).
    + intros ch Hlt Hopen. destruct Hopen. apply Hall. by rewrite <-Hn.
Qed.

(** C36: a cluster whose settings have changed is reconnected through the client
    that was made for the old settings, as long as that is in the cache: the
    only calls to the outside are for the time, the informer and its start, so
    the new cluster is not even looked up. *)
Theorem reconnect_keeps_old_client cluster conn client w :
  manager_wf w → clusters w !! EKS_Name cluster = Some conn →
  sameConfig (Cluster conn) cluster = false → Enabled (EKS_Spec cluster) = true →
  clients w !! EKS_Name cluster = Some client →
  wp (AddOrUpdateCluster cluster) (λ _ w',
    (∃ conn', clusters w' !! EKS_Name cluster = Some conn' ∧ Cluster conn' = cluster ∧
      K8sClient conn' = Client_Interface client) ∧
    let k1 := (Now (kube w)).2 in
    let informer := NewSharedIndexInformer (Client_Interface client) (EKS_Name cluster) k1 in
    let k2 := (Now informer.2).2 in
    let k3 := (Informer_Run informer.1 (next_ch w) k2).2 in
    kube w' = (WaitForCacheSync (next_ch w) informer.1 k3).2) w.
Proof.
  intros Hwf Hc Hdiff Hen Hcl. unfold AddOrUpdateCluster. rewrite !wp_bind, wp_get, Hc, Hdiff, Hen.
  apply wp_bind, wp_assoc, wp_bind. eapply wp_drop; [done..|]. simpl. apply wp_ret. simpl.
  unfold createClusterConnection, createK8sClient, GetClusterClient.
  rewrite !wp_bind, wp_get. simpl. rewrite Hcl. unfold put_client, createPodInformer, put_conn.
  wp_step. rewrite wp_make_chan. wp_step.
  match goal with |- context [if negb ?b then _ else _] => destruct b end;
    (apply wp_ret; split; [eexists; split; [apply lookup_insert_eq|done]|done]).
Qed.

(** C28: the kubeconfig of a cluster carries the certificate authority that the
    EKS response encodes in base64 and the cluster's endpoint, and its current
    context leads to both and to the command "aws eks get-token" with the EKS
    name of that cluster, and its region and role if they are set.  Only a
    response without certificate authority, as EKS gives for a cluster that is
    being created, panics. *)
Theorem NewKubeConfigForCluster_correct cluster (eks : EksCluster) (ca : string) :
  (CertificateAuthority eks = Some {| Data := Some (EncodeToString ca) |} →
   ∃ cfg, NewKubeConfigForCluster cluster eks = Ret (OK cfg) ∧
     ∃ ctx user, Contexts cfg !! CurrentContext cfg = Some ctx ∧
       api_Clusters cfg !! Context_Cluster ctx =
         Some {| Server := StringValue (Endpoint eks); CertificateAuthorityData := ca |} ∧
       AuthInfos cfg !! AuthInfo ctx = Some user ∧ Command user = "aws" ∧
       Args user =
         ["eks"; "get-token"; "--cluster-name"; ClusterName (EKS_Spec cluster)] ++
         (if decide (Region (EKS_Spec cluster) = "") then []
          else ["--region"; Region (EKS_Spec cluster)]) ++
         (if decide (AssumeRoleARN (EKS_Spec cluster) = "") then []
          else ["--role-arn"; AssumeRoleARN (EKS_Spec cluster)])) ∧
  (NewKubeConfigForCluster cluster eks = Panic ↔ CertificateAuthority eks = None).
Proof.
  unfold NewKubeConfigForCluster. split.
  - intros ->. simpl. rewrite DecodeString_EncodeToString. eexists. split; [done|]. simpl.
    eexists _, _. split; [apply lookup_singleton_eq|]. simpl.
    split; [apply lookup_singleton_eq|]. split; [apply lookup_singleton_eq|].
    split; [done|]. simpl. unfold buildAwsArgs. rewrite !bool_decide_not.
    repeat case_decide; by repeat (rewrite bool_decide_true by done || rewrite bool_decide_false by done).
  - by destruct (CertificateAuthority eks).
Qed.

(** C38: The cleanup of the client cache drops exactly the clients that have not
    been asked for in the last thirty minutes, keeps the others as they are, and
    leaves the connections alone, also those that use a client it drops. *)
Theorem CleanupStaleClients_correct w :
  let '(now, k) := Now (kube w) in
  wp CleanupStaleClients (λ _ w', clusters w' = clusters w ∧ spire w' = spire w ∧ kube w' = k ∧
    ∀ name, clients w' !! name =
      match clients w !! name with
      | Some c => if bool_decide (now - lastUsed c <= 30 * 60 * 10 ^ 9) then Some c else None
      | None => None
      end) w.
Proof.
  destruct (Now (kube w)) as [now k] eqn:Hnow. unfold CleanupStaleClients.
  rewrite wp_bind. apply wp_outside. rewrite Hnow. simpl. apply wp_modify. simpl. split_and!; try done.
  intros name. destruct (clients w !! name) as [c|] eqn:Hc.
  - case_bool_decide.
    + apply map_lookup_filter_Some. simpl. split; [done|]. unfold Minute, Second. lia.
    + apply map_lookup_filter_None. right. intros c' Hc'. simplify_eq. simpl.
      unfold Minute, Second. lia.
  - apply map_lookup_filter_None. by left.
Qed.
End props.

(** ** Witnesses *)

Lemma wp_snd {W A} (m : GoM W A) (P : W → Prop) w : wp m (λ _ w', P w') w → P (m w).2.
Proof. unfold wp. by destruct (m w) as [[]]. Qed.

Lemma connected_world_wf m : manager_wf (connected_world m).
Proof.
  unfold connected_world. apply wp_snd. eapply wp_mono; [apply remove_stale_clusters_wp|by intros ?? (? & _)].
  pose proof (AddOrUpdateCluster_wp (sample_cluster "c1") (fresh_world sample_kube m)
    (fresh_world_wf _ _)) as Hwp.
  unfold wpx in Hwp. destruct (AddOrUpdateCluster _ _) as [[err| |] w1]; [by destruct Hwp as [[? _] _]..|done].
Qed.

(** The sample cluster with other settings. *)
Definition changed_cluster (region : string) : EKSClusterRegistry :=
  {| EKS_ObjectMeta := EKS_ObjectMeta (sample_cluster "c1");
     EKS_Spec := {| ClusterName := "eks"; Region := region; AccountID := "1"; Enabled := true;
       AssumeRoleARN := ""; Cluster_Labels := {[ "env" := "prod" ]} |};
     EKS_Status := EKS_Status (sample_cluster "c1") |}.
Definition sample_conn : ClusterConnection :=
  {| Cluster := sample_cluster "c1"; K8sClient := "eks"; PodInformer := "c1"; StopCh := 0;
     LastConnected := 1000 |}.
Definition sample_client : clusterClient := {| Client_Interface := "eks"; lastUsed := 1000 |}.

Lemma AddOrUpdateCluster_correct_witness :
  (∃ w', AddOrUpdateCluster (changed_cluster "us-west-2") (connected_world ∅) = (Ret None, w') ∧
    clusters w' !! "c1" = Some (set_Cluster (changed_cluster "us-west-2") sample_conn) ∧
    manager_wf w').
Proof.
  edestruct (AddOrUpdateCluster_correct (changed_cluster "us-west-2") (connected_world ∅))
    as (Hwf & _ & Hkept & _); [apply connected_world_wf|apply surjective_pairing|].
  specialize (Hkept sample_conn eq_refl).
  change (bool_decide (same_settings (Cluster sample_conn) (changed_cluster "us-west-2")))
    with true in Hkept. destruct Hkept as (Hret & Hc & _).
  eexists. split; [rewrite <-Hret; apply surjective_pairing|]. split; [exact Hc|exact Hwf].
Defined.

Lemma Shutdown_correct_witness :
  ∃ w', Shutdown (connected_world ∅) = (Ret tt, w') ∧ clusters w' = ∅ ∧ 0%nat ∈ closed w'.
Proof.
  pose proof (Shutdown_correct (connected_world ∅) (connected_world_wf ∅)) as Hwp.
  destruct (proj1 (wp_run _ _ _) Hwp) as ([] & w' & Hrun & _ & Hc & _ & Hall).
  exists w'. split; [exact Hrun|]. split; [exact Hc|]. apply Hall. vm_compute. lia.
Defined.

Lemma reconnect_keeps_old_client_witness :
  wp (AddOrUpdateCluster (changed_cluster "eu-west-1")) (λ _ w',
    (∃ conn', clusters w' !! "c1" = Some conn' ∧ Cluster conn' = changed_cluster "eu-west-1" ∧
      K8sClient conn' = "eks") ∧ kube w' = kube (connected_world ∅)) (connected_world ∅).
Proof.
  apply (reconnect_keeps_old_client (changed_cluster "eu-west-1") sample_conn sample_client
    (connected_world ∅)); [apply connected_world_wf|reflexivity..].
Defined.

Lemma NewKubeConfigForCluster_correct_witness :
  ∃ cfg, NewKubeConfigForCluster (sample_cluster "c1")
    {| Endpoint := Some "https://eks"; CertificateAuthority := Some {| Data := Some "Y2EtZGF0YQ==" |} |}
    = Ret (OK cfg).
Proof.
  destruct (proj1 (NewKubeConfigForCluster_correct (sample_cluster "c1")
    {| Endpoint := Some "https://eks"; CertificateAuthority := Some {| Data := Some "Y2EtZGF0YQ==" |} |}
    "ca-data") eq_refl) as (cfg & Hcfg & _).
  by exists cfg.
Defined.

Lemma CleanupStaleClients_correct_witness :
  wp CleanupStaleClients (λ _ w', clusters w' = clusters (connected_world ∅) ∧
    spire w' = ∅ ∧ kube w' = kube (connected_world ∅) ∧
    ∀ name, clients w' !! name =
      match clients (connected_world ∅) !! name with
      | Some c => if bool_decide (1000 - lastUsed c <= 30 * 60 * 10 ^ 9) then Some c else None
      | None => None
      end) (connected_world ∅).
Proof. apply (CleanupStaleClients_correct (connected_world ∅)). Defined.
