(* ===== verification/ClientProps.v ===== *)
(** * Properties of the gRPC client and of rendering *)

From S2P Require Export SpireClientFacts EntriesFacts TestServer EntryProps.

Local Open Scope Z_scope.

Section client.
Context `{!SpiffeID, !SpiffeIDLaws} {W : Type} `{!EntryService W, !ServiceSpec W}.
Implicit Types (w : W).

(** C19: [runBatch] terminates for every size and batch size, and calls its
    function on consecutive, non-empty ranges of at most [batch] indices (of
    all indices when [batch] is below one) that together cover every index
    once, stopping at the first error. *)
Theorem runBatch_correct {A} (l : list A) (batch : Z) (fn : Z → Z → GoM W (option error)) w :
  let size := Z.of_nat (length l) in
  runBatch size batch fn w = run_chunks (chunks size batch) fn w ∧
  mjoin ((λ '(s, e), slice s e l) <$> chunks size batch) = l ∧
  (∀ s e, (s, e) ∈ chunks size batch →
     0 <= s < e ∧ e <= size ∧ e - s <= (if bool_decide (batch < 1) then size else batch)).
Proof.
  intros size. split; [apply runBatch_run_chunks; lia|]. split; [apply chunks_cover|].
  intros s e. apply chunks_bounds. lia.
Qed.

Lemma paged_convertible tok w n r w' :
  paged tok w n r w' → ∀ es, r = OK es → Forall convertible es.
Proof.
  induction 1 as [|tok w es w' Hr|tok w es tok' w' n r w'' Hr _ _ IH]; intros es' Hes.
  - done.
  - simplify_eq. by eapply svc_list_convertible.
  - destruct r as [es0|]; simplify_eq/=. apply Forall_app. split; [|by apply IH].
    by eapply svc_list_convertible.
Qed.

Lemma convertible_omap es :
  Forall convertible es → Forall2 (λ a e, fromAPIEntry a = Ret (OK e)) es (omap conv es).
Proof.
  induction 1 as [|a es [e He] _ IH]; [constructor|]. cbn [omap list_omap].
  rewrite (proj2 (conv_Some a e) He). by constructor.
Qed.

(** A listing follows the page tokens to the end: with fuel for the number
    of pages that the server hands out, it returns all their entries,
    converted, in order, or the error of the page that failed. *)
Theorem client_ListEntries_pages w n r w' (fuel : nat) :
  paged "" w n r w' → (n ≤ fuel)%nat →
  match r with
  | OK es => ∃ entries, client_ListEntries fuel w = (Ret (OK entries), w') ∧
               Forall2 (λ a e, fromAPIEntry a = Ret (OK e)) es entries
  | ERR err => client_ListEntries fuel w = (Ret (ERR (ErrWrap "failed to list entries" err)), w')
  end.
Proof.
  intros Hp Hn. unfold client_ListEntries. rewrite (ListEntries_loop_paged _ _ _ _ _ _ _ Hp Hn).
  destruct r as [es|err]; [|done]. exists (omap conv es). split; [done|].
  by eapply convertible_omap, paged_convertible.
Qed.

(** C4: over any server that behaves as its API documents, failing calls
    included, the client implements a store of entries by ID: a listing gives
    exactly the store, a create adds at most the entry and only under an ID
    that is free, an update or a delete that reports success has taken place,
    and a batch deletion deletes at most the given IDs, with a status for
    each, and all those whose status is OK. *)
Theorem client_refines_store (fuel : W → nat) w :
  (∀ w, (svc_pages w ≤ fuel w)%nat) →
  wp (client_ListEntries (fuel w)) (λ r w', client_store w' = client_store w ∧
    ∀ es, r = OK es → es ≡ₚ (map_to_list (client_store w)).*2) w ∧
  (∀ e, sendable e → wp (client_CreateEntry e) (λ _ w', client_store w' = client_store w ∨
    (client_store w !! Entry_ID e = None ∧
     client_store w' = <[Entry_ID e := e]> (client_store w))) w) ∧
  (∀ e, sendable e → wp (client_UpdateEntry e) (λ r w',
    (client_store w' = client_store w ∨
     (is_Some (client_store w !! Entry_ID e) ∧
      client_store w' = <[Entry_ID e := e]> (client_store w))) ∧
    (r = None → client_store w' !! Entry_ID e = Some e)) w) ∧
  (∀ id, wp (client_DeleteEntry id) (λ r w',
    (client_store w' = client_store w ∨ client_store w' = delete id (client_store w)) ∧
    (r = None → client_store w' !! id = None)) w) ∧
  (∀ ids, wp (client_BatchDeleteEntries ids) (λ r w',
    batch_deleted (client_store w) ids r.1 (client_store w') ∧
    (r.2 = None → length r.1 = length ids)) w).
Proof.
  intros Hfuel. split_and!; intros.
  - eapply wp_mono; [by apply client_ListEntries_spec|]. intros r w' [Hst Hr].
    split; [by apply client_store_ext|done].
  - by apply client_CreateEntry_spec.
  - by apply client_UpdateEntry_spec.
  - by apply client_DeleteEntry_spec.
  - by apply client_BatchDeleteEntries_spec.
Qed.
End client.

(** The address is dialled as a Unix socket exactly when it is an absolute
    path or starts with a dot; the empty address, which the configuration
    replaces by its default, panics. *)
Theorem NewClient_target_correct (target : string) :
  NewClient_target target =
    if bool_decide (target = "") then Panic
    else Ret (if HasPrefix target "/" then "unix://" +:+ target
              else if HasPrefix target "." then "unix:" +:+ target else target).
Proof.
  destruct target as [|c s]; [done|]. rewrite bool_decide_false by done.
  simpl. destruct s; simpl; repeat case_bool_decide; simplify_eq/=; try done;
    destruct (Ascii.eqb_spec c "/"); destruct (Ascii.eqb_spec c "."); simplify_eq; done.
Qed.

(** ** Rendering *)

Section render.
Context `{!SpiffeID, !SpiffeIDLaws, !LabelSelectors, !Templates, !FloatToInt}.

(** The text a template of the specification renders to. *)
Definition renders_to (tmplStr : string) (data : TemplateData) (text : string) : Prop :=
  ∃ tmpl, Template_Parse tmplStr = OK tmpl ∧ Template_Execute tmpl data = OK text.

Lemma collect_Forall2 {A B} (f : A → result B) l l' :
  collect f l = OK l' → Forall2 (λ x y, f x = OK y) l l'.
Proof.
  revert l'. induction l as [|x l IH]; intros l'; simpl; [intros [= <-]; constructor|].
  destruct (f x) as [y|] eqn:Hx; simpl; [|done]. destruct (collect f l) as [ys|]; simpl; [|done].
  intros [= <-]. constructor; [done|by apply IH].
Qed.

Lemma render_dnsName_renders data tmplStr name :
  render_dnsName data tmplStr = OK name → renders_to tmplStr data name.
Proof.
  unfold render_dnsName. intros (tmpl & Ht%wrap_OK & Hx%wrap_OK)%result_bind_OK. by exists tmpl.
Qed.

(** C17: a rendered entry is valid and is what the identity asks for: its SPIFFE
    ID is the text of the identity's template, its DNS names are the texts of
    theirs, in order, its first selector is the pod's UID, its TTLs are the
    durations in seconds for every whole number of seconds that an [int32]
    holds, and it carries the identity's flags and names its owner. *)
Theorem RenderEntry_correct identity cluster pod node td e :
  RenderEntry identity cluster pod node td = OK e →
  let spec := WI_Spec identity in
  let data := template_data identity cluster pod node td in
  entry_valid e = true ∧ Entry_ID e = "" ∧
  renders_to (SPIFFEIDTemplate spec) data (ID_String (SPIFFEID e)) ∧
  (ParentIDTemplate spec ≠ "" → renders_to (ParentIDTemplate spec) data (ID_String (ParentID e))) ∧
  Forall2 (λ tmpl name, renders_to tmpl data name) (DNSNameTemplates spec) (DNSNames e) ∧
  head (Selectors e) = Some (pod_uid_selector pod) ∧
  (∀ s, 0 <= s < 2 ^ 31 → TTL spec = s * Second → X509SVIDTTL e = s) ∧
  (∀ s, 0 <= s < 2 ^ 31 → JWTTTL spec = s * Second → JWTSVIDTTL e = s) ∧
  Entry_Admin e = Admin spec ∧ Entry_Downstream e = Downstream spec ∧
  ∃ h, Entry_Hint e = h +:+ ";" +:+ ownerInfo identity.
Proof.
  intros He spec data. pose proof (RenderEntry_valid _ _ _ _ _ _ He) as Hv.
  unfold RenderEntry in He. rewrite !result_bind_OK in He.
  destruct He as (st & Hst%wrap_OK & He). apply result_bind_OK in He as (pt & Hpt & He).
  apply result_bind_OK in He as (stext & Hstext%wrap_OK & He).
  apply result_bind_OK in He as (sid & Hsid%wrap_OK & He).
  apply result_bind_OK in He as (ptext & Hptext%wrap_OK & He).
  apply result_bind_OK in He as (pid & Hpid%wrap_OK & He).
  apply result_bind_OK in He as (sels & _ & He).
  apply result_bind_OK in He as (dns & Hdns%collect_Forall2 & He).
  apply result_bind_OK in He as (feds & _ & [= <-]). simpl in *.
  split_and!; try done.
  - exists st. by rewrite (ID_String_FromString _ _ Hsid).
  - intros Hne. rewrite bool_decide_true in Hpt by done. exists pt.
    rewrite (ID_String_FromString _ _ Hpid). split; [by apply wrap_OK in Hpt|done].
  - eapply Forall2_impl; [exact Hdns|]. intros ??. apply render_dnsName_renders.
  - intros s Hs Ht. subst spec. rewrite Ht. by apply int32_Seconds_whole.
  - intros s Hs Ht. subst spec. rewrite Ht. by apply int32_Seconds_whole.
  - clear Hpt. unfold entry_hint. case_bool_decide; [|exists (Hint (WI_Spec identity)); reflexivity].
    exists ("workloadidentity:" +:+ WI_Name identity +:+ ":" +:+ EKS_Name cluster).
    by rewrite !string_app_assoc.
Qed.
End render.

(** C39: [parseSelector] accepts exactly the texts TYPE:VALUE with a non-empty
    type and a non-empty value, and cuts them at the first colon. *)
Theorem parseSelector_correct (text : string) (s : Sel) :
  parseSelector text = OK s ↔
    text = Sel_Type s +:+ ":" +:+ Sel_Value s ∧ ":"%char ∉ chars (Sel_Type s) ∧
    Sel_Type s ≠ "" ∧ Sel_Value s ≠ "".
Proof.
  unfold parseSelector. split.
  - destruct (SplitN2_spec text ":") as [[_ ->]|(l & r & -> & Hl & ->)]; [done|].
    repeat case_bool_decide; [done..|]. by intros [= <-].
  - intros (-> & Hc & Ht & Hv). change (":" +:+ Sel_Value s) with (String ":" (Sel_Value s)).
    rewrite SplitN2_app_sep by done. rewrite !bool_decide_false by done. by destruct s.
Qed.

(** ** Witnesses *)

Lemma runBatch_correct_witness :
  chunks 120 50 = [(0, 50); (50, 100); (100, 120)] ∧
  ∀ fn w, runBatch (W:=nat) (Z.of_nat (length (replicate 120 tt))) 50 fn w =
    run_chunks (chunks 120 50) fn w.
Proof.
  split; [reflexivity|]. intros fn w. apply (runBatch_correct (replicate 120 tt) 50 fn w).
Defined.

(** A server with one entry, read in one page. *)
Definition one_entry_server : server :=
  {[ "id" := toAPIEntry (sample_entry [sel "k8s" "ns:prod"]) ]}.

Lemma one_entry_page :
  paged "" one_entry_server 1 (OK [toAPIEntry (sample_entry [sel "k8s" "ns:prod"])]) one_entry_server.
Proof. by apply paged_last. Qed.

Lemma client_ListEntries_pages_witness :
  ∃ entries, client_ListEntries 1 one_entry_server = (Ret (OK entries), one_entry_server) ∧
    Forall2 (λ a e, fromAPIEntry a = Ret (OK e))
      [toAPIEntry (sample_entry [sel "k8s" "ns:prod"])] entries.
Proof.
  exact (client_ListEntries_pages one_entry_server 1
    (OK [toAPIEntry (sample_entry [sel "k8s" "ns:prod"])]) one_entry_server 1
    one_entry_page (le_n 1)).
Defined.

Lemma client_refines_store_witness :
  wp (client_DeleteEntry "id") (λ r w',
    (client_store w' = client_store one_entry_server ∨
     client_store w' = delete "id" (client_store one_entry_server)) ∧
    (r = None → client_store w' !! "id" = None)) one_entry_server.
Proof.
  assert (∀ w : server, (svc_pages w ≤ 1)%nat) as Hfuel by (intros w; exact (le_n 1)).
  apply (client_refines_store (λ _, 1%nat) one_entry_server Hfuel).
Defined.

Lemma RenderEntry_correct_witness :
  ∃ e, RenderEntry (sample_identity "") (sample_cluster "c1") (sample_pod "web-1" "uid-1") sample_node
      "example.org" = OK e ∧ entry_valid e = true ∧ X509SVIDTTL e = 3600 ∧
    head (Selectors e) = Some (sel "k8s" "pod-uid:uid-1").
Proof.
  destruct (RenderEntry (sample_identity "") (sample_cluster "c1") (sample_pod "web-1" "uid-1")
    sample_node "example.org") as [e|err] eqn:He; [|vm_compute in He; discriminate].
  exists e. destruct (RenderEntry_correct _ _ _ _ _ _ He) as (Hv & _ & _ & _ & _ & Hsel & Httl & _).
  split; [reflexivity|]. split; [exact Hv|]. split; [by apply Httl|exact Hsel].
Defined.

Lemma parseSelector_correct_witness : parseSelector "k8s:ns:prod" = OK (sel "k8s" "ns:prod").
Proof.
  apply (parseSelector_correct "k8s:ns:prod" (sel "k8s" "ns:prod")).
  split_and!; [reflexivity| |done|done]. compute_done.
Defined.
