(* ===== verification/Reconciler.v ===== *)
(** * internal/reconciler: the loop behind the full reconciliation

    [Run] is a loop around a [select]; [Trigger] and the passing of time happen
    beside it.  Each label below is one atomic step of one of them, so a list
    of labels is an interleaving.  [Trigger] holds the mutex throughout and
    [reconcile] holds it only to reset the flag, so both are single steps.

    The channel [stopCh] has no buffer: a non-blocking send succeeds exactly
    when [Run] is blocked in its [select].  The channel of a ticker has a
    buffer of one tick, and ticks that find it full are dropped. *)

From S2P Require Export ApiTypes.

Local Open Scope Z_scope.

Section reconciler.
Context {W : Type}.

(** The function may be nil; [Kind] is used in log messages only. *)
Record Config := { Reconcile : option (GoM W unit); Config_GCInterval : Duration }.

Inductive phase :=
| NotStarted  (** [Run] has not been called *)
| Looping     (** before the [select] *)
| Waiting     (** blocked in the [select] *)
| Entering    (** a case was chosen, [reconcile] has not yet taken the mutex *)
| Reconciling (** the flag is reset, the function runs *)
| Stopped     (** [Run] has returned *)
| Crashed.    (** a panic has ended the process *)

Record rstate := {
  config : Config;
  triggered : bool;
  ph : phase;
  tick : bool;       (** a tick is in the ticker's buffer *)
  cancelled : bool;  (** the context is done *)
  reconcileCount : Z;
  world : W;
}.

Definition set_ph (p : phase) (s : rstate) : rstate :=
  {| config := config s; triggered := triggered s; ph := p; tick := tick s;
     cancelled := cancelled s; reconcileCount := reconcileCount s; world := world s |}.
Definition set_triggered (b : bool) (s : rstate) : rstate :=
  {| config := config s; triggered := b; ph := ph s; tick := tick s;
     cancelled := cancelled s; reconcileCount := reconcileCount s; world := world s |}.
Definition set_tick (b : bool) (s : rstate) : rstate :=
  {| config := config s; triggered := triggered s; ph := ph s; tick := b;
     cancelled := cancelled s; reconcileCount := reconcileCount s; world := world s |}.
Definition set_cancelled (s : rstate) : rstate :=
  {| config := config s; triggered := triggered s; ph := ph s; tick := tick s;
     cancelled := true; reconcileCount := reconcileCount s; world := world s |}.
Definition set_world (w : W) (s : rstate) : rstate :=
  {| config := config s; triggered := triggered s; ph := ph s; tick := tick s;
     cancelled := cancelled s; reconcileCount := reconcileCount s; world := w |}.

(** [New], in a world of which the rest of the program is part. *)
Definition New (c : Config) (w : W) : rstate :=
  let c := if bool_decide (Config_GCInterval c = 0)
           then {| Reconcile := Reconcile c; Config_GCInterval := 10 * Minute |} else c in
  {| config := c; triggered := false; ph := NotStarted; tick := false; cancelled := false;
     reconcileCount := 0; world := w |}.

(** A case with a reconciliation was chosen. *)
Definition enter (s : rstate) : rstate :=
  {| config := config s; triggered := triggered s; ph := Entering; tick := tick s;
     cancelled := cancelled s; reconcileCount := reconcileCount s + 1; world := world s |}.

Definition Trigger (s : rstate) : rstate :=
  let s := set_triggered true s in
  match ph s with Waiting => enter s | _ => s end.

Inductive choice := Done | Ticker | Block.

Inductive label :=
| LRun                    (** [Run] is called and makes its ticker *)
| LSelect (c : choice)    (** [Run] evaluates its [select] *)
| LClear                  (** [reconcile] resets the flag *)
| LWork                   (** [reconcile] calls the function *)
| LTrigger
| LTick                   (** the ticker fires *)
| LCancel                 (** the context is cancelled *)
| LOther (f : W → W).     (** the rest of the program runs *)

(** [None]: the step is not possible. *)
Definition rstep (l : label) (s : rstate) : option rstate :=
  match l, ph s with
  | LRun, NotStarted =>
      Some (set_ph (if bool_decide (0 < Config_GCInterval (config s)) then Looping else Crashed) s)
  | LSelect Done, Looping => if cancelled s then Some (set_ph Stopped s) else None
  | LSelect Ticker, Looping => if tick s then Some (enter (set_tick false s)) else None
  | LSelect Block, Looping => if cancelled s || tick s then None else Some (set_ph Waiting s)
  | LClear, Entering => Some (set_ph Reconciling (set_triggered false s))
  | LWork, Reconciling =>
      match Reconcile (config s) with
      | None => Some (set_ph Looping s)
      | Some f =>
          match f (world s) with
          | (Ret _, w) => Some (set_ph Looping (set_world w s))
          | (Panic, w) => Some (set_ph Crashed (set_world w s))
          | (Diverge, _) => None
          end
      end
  | LTrigger, Crashed => None
  | LTrigger, _ => Some (Trigger s)
  | LTick, Waiting => Some (enter s)
  | LTick, (Looping | Entering | Reconciling) => Some (set_tick true s)
  | LCancel, Crashed => None
  | LCancel, Waiting => Some (set_ph Stopped (set_cancelled s))
  | LCancel, _ => Some (set_cancelled s)
  | LOther f, Crashed => None
  | LOther f, _ => Some (set_world (f (world s)) s)
  | _, _ => None
  end.

Definition rsteps (ls : list label) (s : rstate) : option rstate :=
  foldl (λ s l, s ≫= rstep l) (Some s) ls.

Lemma foldl_rstep_None ls : foldl (λ s l, s ≫= rstep l) None ls = None.
Proof. by induction ls. Qed.

Lemma rsteps_cons l ls s : rsteps (l :: ls) s = rstep l s ≫= rsteps ls.
Proof.
  unfold rsteps. simpl. destruct (rstep l s); simpl; [done|]. apply foldl_rstep_None.
Qed.

(** ** What a trigger does *)

(** Equal up to the flag [triggered]. *)
Definition same_but_flag (s s' : rstate) : Prop := set_triggered true s = set_triggered true s'.

#[export] Instance same_but_flag_equiv : Equivalence same_but_flag.
Proof. unfold same_but_flag. split; [done|by intros ??|intros ???; apply transitivity]. Qed.

Lemma rstep_same l s s' :
  same_but_flag s s' → option_Forall2 same_but_flag (rstep l s) (rstep l s').
Proof.
  destruct s as [c b p t x n w], s' as [c' b' p' t' x' n' w'].
  unfold same_but_flag, set_triggered. simpl. intros [= -> -> -> -> -> ->].
  destruct l as [|[]| | | | | |f], p'; simpl; repeat case_match; by constructor.
Qed.

Lemma rsteps_same ls s s' :
  same_but_flag s s' → option_Forall2 same_but_flag (rsteps ls s) (rsteps ls s').
Proof.
  revert s s'. induction ls as [|l ls IH]; intros s s' Hs; [by constructor|].
  rewrite !rsteps_cons. destruct (rstep_same l s s' Hs); simpl; [by apply IH|constructor].
Qed.

(** ** Counting *)

(** A label that can start a reconciliation. *)
Definition is_event (l : label) : bool :=
  match l with LTrigger | LTick => true | _ => false end.

(** Nothing has asked for a reconciliation yet. *)
Definition idle (s : rstate) : Prop :=
  reconcileCount s = 0 ∧ tick s = false ∧ ph s ≠ Entering ∧ ph s ≠ Reconciling.

Lemma rstep_idle l s s' :
  is_event l = false → idle s → rstep l s = Some s' → idle s'.
Proof.
  intros Hl (Hc & Ht & He & Hr). destruct s as [c b p t x n w]. unfold idle in *. simpl in *.
  subst t. destruct l as [|[]| | | | | |f], p; simpl; try done;
    repeat case_match; intros; simplify_eq; naive_solver.
Qed.

Lemma rsteps_idle ls s s' :
  (∀ l, l ∈ ls → is_event l = false) → idle s → rsteps ls s = Some s' → idle s'.
Proof.
  revert s. induction ls as [|l ls IH]; intros s Hls Hs; [by intros [= <-]|].
  rewrite rsteps_cons. destruct (rstep l s) as [s1|] eqn:Hl; simpl; [|done].
  apply IH; [set_solver|]. eapply rstep_idle; [|done|done]. apply Hls. by left.
Qed.

(** Ticks that are pending or under way are the ones the count may still take. *)
Lemma rstep_count l s s' :
  rstep l s = Some s' →
  reconcileCount s' + (if tick s' then 1 else 0) <=
    reconcileCount s + (if tick s then 1 else 0) + (if is_event l then 1 else 0).
Proof.
  destruct s as [c b p [|] x n w], l as [|[]| | | | | |f], p; simpl; try done;
    repeat case_match; intros; simplify_eq; simpl; lia.
Qed.

Lemma rsteps_count ls s s' :
  rsteps ls s = Some s' →
  reconcileCount s' + (if tick s' then 1 else 0) <=
    reconcileCount s + (if tick s then 1 else 0) + Z.of_nat (length (filter (λ l, is_event l = true) ls)).
Proof.
  revert s. induction ls as [|l ls IH]; intros s; [intros [= <-]; simpl; lia|].
  rewrite rsteps_cons. destruct (rstep l s) as [s1|] eqn:Hl; simpl; [|done].
  intros Hs%IH. pose proof (rstep_count _ _ _ Hl) as Hc. rewrite filter_cons.
  destruct (is_event l); case_decide; simpl; try done; lia.
Qed.
End reconciler.
Arguments Config W : clear implicits.
Arguments rstate W : clear implicits.
Arguments label W : clear implicits.
