(* ===== verification/ByObject.v ===== *)
(** * internal/spireentry/byobject.go: who an entry is from *)

From S2P Require Export ApiTypes EntriesFacts.

Local Open Scope Z_scope.

Section by_object.
Context `{!LabelSelectors}.

Record workloadIdentityBy := {
  By_identity : WorkloadIdentity;
  By_cluster : EKSClusterRegistry;
  By_pod : Pod;
  By_stats : WorkloadIdentityStats;
}.
Implicit Types (a b c : workloadIdentityBy).

Definition newWorkloadIdentityBy identity cluster pod stats : workloadIdentityBy :=
  {| By_identity := identity; By_cluster := cluster; By_pod := pod; By_stats := stats |}.

Definition GetUID b : string := UID (WI_ObjectMeta (By_identity b)).
Definition GetCreationTimestamp b : Time := CreationTimestamp (WI_ObjectMeta (By_identity b)).
Definition GetDeletionTimestamp b : option Time := DeletionTimestamp (WI_ObjectMeta (By_identity b)).

(** The counters of the statistics that [b] points to. *)
Definition IncrementEntrySuccess b : workloadIdentityBy :=
  let s := By_stats b in
  newWorkloadIdentityBy (By_identity b) (By_cluster b) (By_pod b)
    {| ClustersTargeted := ClustersTargeted s; NamespacesFound := NamespacesFound s;
       PodsSelected := PodsSelected s; EntriesRegistered := int64 (EntriesRegistered s + 1);
       EntryFailures := EntryFailures s |}.
Definition IncrementEntryFailures b : workloadIdentityBy :=
  let s := By_stats b in
  newWorkloadIdentityBy (By_identity b) (By_cluster b) (By_pod b)
    {| ClustersTargeted := ClustersTargeted s; NamespacesFound := NamespacesFound s;
       PodsSelected := PodsSelected s; EntriesRegistered := EntriesRegistered s;
       EntryFailures := int64 (EntryFailures s + 1) |}.

(** [time.Time.UnixNano]: the nanoseconds since the epoch on 64 bits. *)
Definition UnixNano (t : Time) : Z := int64 t.

Definition objectCmp a b : Z :=
  let creationDiff := int64 (UnixNano (GetCreationTimestamp a) - UnixNano (GetCreationTimestamp b)) in
  let tie_break :=
    if String.ltb (GetUID a) (GetUID b) then -1
    else if String.ltb (GetUID b) (GetUID a) then 1 else 0 in
  if bool_decide (creationDiff < 0) then -1
  else if bool_decide (creationDiff > 0) then 1
  else match GetDeletionTimestamp a, GetDeletionTimestamp b with
       | None, None => tie_break
       | Some _, None => 1
       | None, Some _ => -1
       | Some da, Some db =>
           let deleteDiff := int64 (UnixNano da - UnixNano db) in
           if bool_decide (deleteDiff < 0) then 1
           else if bool_decide (deleteDiff > 0) then -1 else tie_break
       end.

(** ** The order it stands for *)

(** No deletion first, then the later deletion. *)
Definition deletion_lt (da db : option Time) : Prop :=
  match da, db with
  | None, Some _ => True
  | Some da, Some db => db < da
  | _, None => False
  end.

(** By creation, deletion and UID. *)
Definition object_le a b : Prop :=
  GetCreationTimestamp a < GetCreationTimestamp b ∨
  GetCreationTimestamp a = GetCreationTimestamp b ∧
  (deletion_lt (GetDeletionTimestamp a) (GetDeletionTimestamp b) ∨
   GetDeletionTimestamp a = GetDeletionTimestamp b ∧ String.le (GetUID a) (GetUID b)).

(** Times whose differences fit: 146 years on either side of 1970. *)
Definition near_epoch (t : Time) : Prop := - 2 ^ 62 <= t < 2 ^ 62.
Definition in_range b : Prop :=
  near_epoch (GetCreationTimestamp b) ∧
  ∀ t, GetDeletionTimestamp b = Some t → near_epoch t.

Lemma int64_id x : - 2 ^ 63 <= x < 2 ^ 63 → int64 x = x.
Proof. intros. unfold int64, wrap_signed. rewrite Z.mod_small; lia. Qed.

Lemma UnixNano_diff s t :
  near_epoch s → near_epoch t → int64 (UnixNano s - UnixNano t) = s - t.
Proof.
  unfold near_epoch, UnixNano. intros. rewrite (int64_id s), (int64_id t) by lia.
  apply int64_id. lia.
Qed.

Lemma ltb_true s t : String.ltb s t = true ↔ ¬ String.le t s.
Proof. rewrite <-ltb_le. by destruct (String.ltb s t). Qed.

Lemma objectCmp_le a b : in_range a → in_range b → objectCmp a b <= 0 ↔ object_le a b.
Proof.
  intros [Hca Hda] [Hcb Hdb]. unfold objectCmp, object_le. rewrite UnixNano_diff by done.
  case_bool_decide; [intuition lia|]. case_bool_decide; [intuition lia|].
  assert (GetCreationTimestamp a = GetCreationTimestamp b) by lia.
  assert ((if String.ltb (GetUID a) (GetUID b) then -1
           else if String.ltb (GetUID b) (GetUID a) then 1 else 0) <= 0 ↔
          String.le (GetUID a) (GetUID b)) as Htie.
  { destruct (String.ltb (GetUID a) (GetUID b)) eqn:Hab.
    - apply ltb_true in Hab. destruct (total String.le (GetUID a) (GetUID b)); intuition lia.
    - destruct (String.ltb (GetUID b) (GetUID a)) eqn:Hba.
      + apply ltb_true in Hba. intuition lia.
      + apply ltb_le in Hba. intuition lia. }
  destruct (GetDeletionTimestamp a) as [da|], (GetDeletionTimestamp b) as [db|]; simpl.
  - rewrite UnixNano_diff by auto. case_bool_decide; [|case_bool_decide].
    + split; [lia|]. intros [|[_ [|[[= ->] _]]]]; lia.
    + split; [|lia]. intros _. right. split; [done|left; lia].
    + assert (da = db) as -> by lia. rewrite Htie. intuition (try lia; done).
  - split; [lia|]. intros [|[_ [|[? _]]]]; [lia|done|done].
  - split; [|lia]. intros _. right. by split; [|left].
  - rewrite Htie. intuition (try lia; done).
Qed.

Lemma objectCmp_antisym a b : in_range a → in_range b → objectCmp b a = - objectCmp a b.
Proof.
  intros [Hca Hda] [Hcb Hdb]. unfold objectCmp. rewrite !UnixNano_diff by done.
  assert ((if String.ltb (GetUID b) (GetUID a) then -1
           else if String.ltb (GetUID a) (GetUID b) then 1 else 0) =
          - (if String.ltb (GetUID a) (GetUID b) then -1
             else if String.ltb (GetUID b) (GetUID a) then 1 else 0)) as Htie.
  { destruct (String.ltb (GetUID a) (GetUID b)) eqn:Hab, (String.ltb (GetUID b) (GetUID a)) eqn:Hba;
      try done. apply ltb_true in Hab, Hba.
    by destruct (total String.le (GetUID a) (GetUID b)). }
  rewrite Htie.
  destruct (GetDeletionTimestamp a) as [da|], (GetDeletionTimestamp b) as [db|];
    rewrite ?UnixNano_diff by auto;
    repeat case_bool_decide; try lia; done.
Qed.

Lemma object_le_trans a b c : object_le a b → object_le b c → object_le a c.
Proof.
  unfold object_le, deletion_lt.
  intros [Hab|[Hab Hab']] [Hbc|[Hbc Hbc']]; [left; lia..|right]. split; [lia|].
  destruct (GetDeletionTimestamp a) as [da|], (GetDeletionTimestamp b) as [db|],
    (GetDeletionTimestamp c) as [dc|]; simpl in *;
    destruct Hab' as [|[Ha Hau]], Hbc' as [|[Hb Hbu]]; simplify_eq; try (left; lia || done);
    try done; right; (split; [done|by etrans]).
Qed.

Lemma object_le_antisym a b :
  object_le a b → object_le b a →
  GetCreationTimestamp a = GetCreationTimestamp b ∧
  GetDeletionTimestamp a = GetDeletionTimestamp b ∧ GetUID a = GetUID b.
Proof.
  unfold object_le, deletion_lt. intros [|[Hc Hab]] [|[Hc' Hba]]; [lia..|].
  destruct (GetDeletionTimestamp a) as [da|], (GetDeletionTimestamp b) as [db|];
    destruct Hab as [|[Hd Hau]], Hba as [|[Hd' Hbu]]; simplify_eq; try done; try lia;
    (split_and!; [done|done|by apply (anti_symm String.le)]).
Qed.
End by_object.
