(* ===== verification/Setup.v ===== *)
(** * Configuration and start-up

    api/v1alpha1/controllermanagerconfig_types.go and
    controllermanagerconfig_loader.go, and the part of cmd/main.go that turns
    the configuration into the main reconciler.  Decoding the file's text is
    apimachinery's work and a parameter; the environment and the file system are
    functions. *)

From S2P Require Export Reconciler MainReconciler SpireClient.

Local Open Scope Z_scope.

(** ** The configuration *)

Record AWSConfig := {
  AWS_Region : string;
  AccountIDs : list string;
  AWS_AssumeRoleARN : string;
}.

(** k8s.io/component-base: the leader election block *)
Record LeaderElectionConfiguration := {
  LeaderElect : option bool;
  LE_LeaseDuration : Duration;
  LE_RenewDeadline : Duration;
  LE_RetryPeriod : Duration;
  ResourceLock : string;
  ResourceName : string;
  ResourceNamespace : string;
}.

Record ControllerMetrics := { Metrics_BindAddress : string }.
Record ControllerHealth := {
  Health_HealthProbeBindAddress : string;
  Health_ReadinessEndpointName : string;
  Health_LivenessEndpointName : string;
}.
Record ControllerWebhook := { Port : option Z; Host : string; CertDir : string }.

Record ControllerManagerConfigurationSpec := {
  Spec_SyncPeriod : option Duration;
  Spec_LeaderElection : option LeaderElectionConfiguration;
  CacheNamespace : string;
  Metrics : ControllerMetrics;
  Health : ControllerHealth;
  Webhook : ControllerWebhook;
}.

Record ControllerManagerConfig := {
  CMC_Spec : ControllerManagerConfigurationSpec;
  CMC_ClusterName : string;
  CMC_TrustDomain : string;
  CMC_IgnoreNamespaces : list string;
  SPIREServerSocketPath : string;
  CMC_EntryIDPrefix : string;
  CMC_GCInterval : Duration;
  CMC_AWSConfig : AWSConfig;
}.

(** The fields of [ctrl.Options] that are set; pointers are options. *)
Record Options := {
  SyncPeriod : option Duration;
  DefaultNamespaces : option (list string);
  Metrics_Address : string;
  HealthProbeBindAddress : string;
  ReadinessEndpointName : string;
  LivenessEndpointName : string;
  LeaderElection : bool;
  LeaderElectionResourceLock : string;
  LeaderElectionNamespace : string;
  LeaderElectionID : string;
  LeaseDuration : option Duration;
  RenewDeadline : option Duration;
  RetryPeriod : option Duration;
}.

(** ** controllermanagerconfig_loader.go *)

(** [if o == "" && c != "" { o = c }] *)
Definition if_empty (o c : string) : string :=
  if bool_decide (o = "") && bool_decide (c ≠ "") then c else o.

(** [if o == nil && c != metav1.Duration{} { o = &c }] *)
Definition if_nil (o : option Duration) (c : Duration) : option Duration :=
  if bool_decide (o = None) && negb (bool_decide (c = 0)) then Some c else o.

Definition setLeaderElectionConfig (o : Options) (obj : ControllerManagerConfigurationSpec) : Options :=
  match Spec_LeaderElection obj with
  | None => o
  | Some le =>
      {| SyncPeriod := SyncPeriod o; DefaultNamespaces := DefaultNamespaces o;
         Metrics_Address := Metrics_Address o;
         HealthProbeBindAddress := HealthProbeBindAddress o;
         ReadinessEndpointName := ReadinessEndpointName o;
         LivenessEndpointName := LivenessEndpointName o;
         LeaderElection := match LeaderElect le with
                           | Some b => if negb (LeaderElection o) then b else LeaderElection o
                           | None => LeaderElection o
                           end;
         LeaderElectionResourceLock := if_empty (LeaderElectionResourceLock o) (ResourceLock le);
         LeaderElectionNamespace := if_empty (LeaderElectionNamespace o) (ResourceNamespace le);
         LeaderElectionID := if_empty (LeaderElectionID o) (ResourceName le);
         LeaseDuration := if_nil (LeaseDuration o) (LE_LeaseDuration le);
         RenewDeadline := if_nil (RenewDeadline o) (LE_RenewDeadline le);
         RetryPeriod := if_nil (RetryPeriod o) (LE_RetryPeriod le) |}
  end.

(** The error it returns is always nil. *)
Definition addOptionsFromConfigSpec (o : Options) (configSpec : ControllerManagerConfigurationSpec) :
    Options :=
  let o := setLeaderElectionConfig o configSpec in
  {| SyncPeriod := match SyncPeriod o with None => Spec_SyncPeriod configSpec | s => s end;
     DefaultNamespaces := if bool_decide (CacheNamespace configSpec ≠ "")
                          then Some [CacheNamespace configSpec] else DefaultNamespaces o;
     Metrics_Address := if_empty (Metrics_Address o) (Metrics_BindAddress (Metrics configSpec));
     HealthProbeBindAddress :=
       if_empty (HealthProbeBindAddress o) (Health_HealthProbeBindAddress (Health configSpec));
     ReadinessEndpointName :=
       if_empty (ReadinessEndpointName o) (Health_ReadinessEndpointName (Health configSpec));
     LivenessEndpointName :=
       if_empty (LivenessEndpointName o) (Health_LivenessEndpointName (Health configSpec));
     LeaderElection := LeaderElection o;
     LeaderElectionResourceLock := LeaderElectionResourceLock o;
     LeaderElectionNamespace := LeaderElectionNamespace o;
     LeaderElectionID := LeaderElectionID o;
     LeaseDuration := LeaseDuration o; RenewDeadline := RenewDeadline o;
     RetryPeriod := RetryPeriod o |}.

(** *** [os.ExpandEnv] *)

Definition isShellSpecialVar (c : ascii) : bool :=
  bool_decide (c ∈ chars "*#$@!?-0123456789").
Definition isAlphaNum (c : ascii) : bool :=
  let n := byte_of c in
  bool_decide (c = "_"%char) || bool_decide (48 <= n <= 57) ||
  bool_decide (97 <= n <= 122) || bool_decide (65 <= n <= 90).

(** What follows an opening brace, up to the closing one. *)
Definition scan_to_brace (rest : list ascii) : list ascii * nat :=
  match list_find (eq "}"%char) rest with
  | Some (0%nat, _) => ([], 2%nat)
  | Some (i, _) => (take i rest, (i + 2)%nat)
  | None => ([], 1%nat)
  end.

(** The name at the start of the text, and how many bytes it takes up. *)
Definition getShellName (s : list ascii) : list ascii * nat :=
  match s with
  | [] => ([], 0%nat)
  | c :: rest =>
      if bool_decide (c = "{"%char) then
        match rest with
        | d :: e :: _ => if isShellSpecialVar d && bool_decide (e = "}"%char) then ([d], 3%nat)
                         else scan_to_brace rest
        | _ => scan_to_brace rest
        end
      else if isShellSpecialVar c then ([c], 1%nat)
      else let n := match list_find (λ d, isAlphaNum d = false) s with
                    | Some (i, _) => i | None => length s end in
           (take n s, n)
  end.

Fixpoint Expand (fuel : nat) (mapping : string → string) (s : list ascii) : list ascii :=
  match fuel, s with
  | S fuel, c :: rest =>
      if bool_decide (c = "$"%char) && negb (bool_decide (rest = [])) then
        let '(name, w) := getShellName rest in
        (if bool_decide (name = []) then (if bool_decide (0 < w)%nat then [] else [c])
         else chars (mapping (of_chars name))) ++ Expand fuel mapping (drop w rest)
      else c :: Expand fuel mapping rest
  | _, _ => []
  end.

Definition ExpandEnv (Getenv : string → string) (s : string) : string :=
  of_chars (Expand (String.length s) Getenv (chars s)).

(** *** Loading the file *)

Section load.
Variable ReadFile : string → result string.
Variable Getenv : string → string.
(** [runtime.DecodeInto] with the scheme's universal decoder *)
Variable DecodeInto : string → ControllerManagerConfig → result ControllerManagerConfig.

Definition loadFile (path : string) (config : ControllerManagerConfig) (expandEnv : bool) :
    result ControllerManagerConfig :=
  content ← wrap ("could not read file at " +:+ path) (ReadFile path);
  let content := if expandEnv then ExpandEnv Getenv content else content in
  wrap "could not decode file into runtime.Object" (DecodeInto content config).

Definition LoadOptionsFromFile (path : string) (options : Options)
    (config : ControllerManagerConfig) (expandEnv : bool) :
    result (Options * ControllerManagerConfig) :=
  config ← loadFile path config expandEnv;
  OK (addOptionsFromConfigSpec options (CMC_Spec config), config).

(** ** cmd/main.go *)

Definition empty_Options : Options :=
  {| SyncPeriod := None; DefaultNamespaces := None; Metrics_Address := "";
     HealthProbeBindAddress := ""; ReadinessEndpointName := ""; LivenessEndpointName := "";
     LeaderElection := false; LeaderElectionResourceLock := ""; LeaderElectionNamespace := "";
     LeaderElectionID := ""; LeaseDuration := None; RenewDeadline := None; RetryPeriod := None |}.
Definition set_LeaderElectionID (id : string) (o : Options) : Options :=
  {| SyncPeriod := SyncPeriod o; DefaultNamespaces := DefaultNamespaces o;
     Metrics_Address := Metrics_Address o; HealthProbeBindAddress := HealthProbeBindAddress o;
     ReadinessEndpointName := ReadinessEndpointName o;
     LivenessEndpointName := LivenessEndpointName o; LeaderElection := LeaderElection o;
     LeaderElectionResourceLock := LeaderElectionResourceLock o;
     LeaderElectionNamespace := LeaderElectionNamespace o; LeaderElectionID := id;
     LeaseDuration := LeaseDuration o; RenewDeadline := RenewDeadline o;
     RetryPeriod := RetryPeriod o |}.

Definition empty_ControllerManagerConfig : ControllerManagerConfig :=
  {| CMC_Spec := {| Spec_SyncPeriod := None; Spec_LeaderElection := None; CacheNamespace := "";
       Metrics := {| Metrics_BindAddress := "" |};
       Health := {| Health_HealthProbeBindAddress := ""; Health_ReadinessEndpointName := "";
                    Health_LivenessEndpointName := "" |};
       Webhook := {| Port := None; Host := ""; CertDir := "" |} |};
     CMC_ClusterName := ""; CMC_TrustDomain := ""; CMC_IgnoreNamespaces := [];
     SPIREServerSocketPath := ""; CMC_EntryIDPrefix := ""; CMC_GCInterval := 0;
     CMC_AWSConfig := {| AWS_Region := ""; AccountIDs := []; AWS_AssumeRoleARN := "" |} |}.

(** The defaults for what the file leaves out. *)
Definition with_defaults (config : ControllerManagerConfig) : ControllerManagerConfig :=
  {| CMC_Spec := CMC_Spec config;
     CMC_ClusterName := if bool_decide (CMC_ClusterName config = "") then "default"
                        else CMC_ClusterName config;
     CMC_TrustDomain := CMC_TrustDomain config;
     CMC_IgnoreNamespaces := CMC_IgnoreNamespaces config;
     SPIREServerSocketPath := if bool_decide (SPIREServerSocketPath config = "")
                              then "/run/spire/sockets/server.sock"
                              else SPIREServerSocketPath config;
     CMC_EntryIDPrefix := if bool_decide (CMC_EntryIDPrefix config = "") then "eks-workload-"
                          else CMC_EntryIDPrefix config;
     CMC_GCInterval := if bool_decide (CMC_GCInterval config = 0) then 10 * Minute
                       else CMC_GCInterval config;
     CMC_AWSConfig := CMC_AWSConfig config |}.

Context `{!SpiffeID, !Regexps}.

Definition parseIgnoreNamespaces (namespaces : list string) : result (list Regexp) :=
  collect (λ ns, wrap ("invalid namespace pattern " +:+ Quote ns) (Regexp_Compile ns)) namespaces.

Record Startup C := {
  Started_options : Options;
  Started_config : ControllerManagerConfig;
  Started_client : C;
  Started_reconciler : MainReconciler;
}.

(** [main] up to the main reconciler; an error is an exit with code 1. *)
Definition setup {C} (dial : string → result C) (configFile : string) (expandEnv : bool) :
    outcome (result (Startup C)) :=
  if bool_decide (configFile = "") then Ret (ERR (ErrNew "config file is required"))
  else
    let options := set_LeaderElectionID "spire-eks-workload-registrar.spire.io" empty_Options in
    match LoadOptionsFromFile configFile options empty_ControllerManagerConfig expandEnv with
    | ERR err => Ret (ERR err)
    | OK (options, config) =>
        if bool_decide (CMC_TrustDomain config = "")
        then Ret (ERR (ErrNew "trustDomain is required in config file"))
        else match TrustDomainFromString (CMC_TrustDomain config) with
        | ERR err => Ret (ERR err)
        | OK trustDomain =>
            let config := with_defaults config in
            match parseIgnoreNamespaces (CMC_IgnoreNamespaces config) with
            | ERR err => Ret (ERR err)
            | OK ignoreNamespaces =>
                spireClient ← NewClient dial (SPIREServerSocketPath config);
                Ret (client ← spireClient;
                     OK {| Started_options := options; Started_config := config;
                           Started_client := client;
                           Started_reconciler :=
                             {| MR_TrustDomain := trustDomain;
                                MR_ClusterName := CMC_ClusterName config;
                                IgnoreNamespaces := ignoreNamespaces;
                                EntryIDPrefix := CMC_EntryIDPrefix config;
                                GCInterval := CMC_GCInterval config |} |})
            end
        end
    end.
End load.

(** [MainReconciler.SetupWithManager]: the shared reconciler, triggered once
    before [main] starts [Run]. *)
Section shared.
Context `{!SpiffeID, !LabelSelectors, !Regexps, !MapOrder, !Templates, !FloatToInt}.
Context {K S : Type} `{!Kube K, !Client S}.

Definition SetupWithManager (r : MainReconciler) (w : World K S) : rstate (World K S) :=
  Trigger (New {| Reconcile := Some (reconcileAll r); Config_GCInterval := GCInterval r |} w).
End shared.
