(* ===== verification/WebhookManager.v ===== *)
(** * pkg/webhookmanager: the certificate of the finalizer webhooks

    The manager makes a certificate authority at start-up, mints serving
    certificates with it, and keeps the authority's certificate in the webhook
    configuration.  Cryptography, the file system, the clock and the API server
    are the environment, a class. *)

From S2P Require Export ApiTypes Base64.

Local Open Scope Z_scope.

(** The fields of [x509.Certificate] that are set or read. *)
Record x509_Certificate := {
  SerialNumber : Z;
  CommonName : string;
  Organization : list string;
  NotBefore : Time;
  NotAfter : Time;
  KeyUsage : Z;
  ExtKeyUsage : list Z;
  BasicConstraintsValid : bool;
  IsCA : bool;
  Cert_DNSNames : list string;
}.

Definition KeyUsageDigitalSignature : Z := 1.
Definition KeyUsageKeyEncipherment : Z := 4.
Definition KeyUsageCertSign : Z := 32.
Definition KeyUsageCRLSign : Z := 64.
Definition ExtKeyUsageServerAuth : Z := 1.

Class WebhookEnv (X : Type) := {
  PrivateKey : Type;
  (** The rest of a [MutatingWebhook] and of a [MutatingWebhookConfiguration]. *)
  WebhookRest : Type;
  ConfigurationRest : Type;
  GenerateKey : X → result PrivateKey * X;
  (** template, parent, the key certified and the key that signs *)
  CreateCertificate : x509_Certificate → x509_Certificate → PrivateKey → PrivateKey →
    X → result string * X;
  ParseCertificate : string → result x509_Certificate;
  MarshalPKCS8PrivateKey : PrivateKey → result string;
  MkdirAll : string → X → option error * X;
  (** [os.Create], [os.OpenFile] with O_TRUNC and mode 0600, and a write *)
  Create : string → X → option error * X;
  OpenFile : string → X → option error * X;
  Write : string → string → X → option error * X;
  GetWebhookConfiguration : string → X → result (ConfigurationRest * list (WebhookRest * string)) * X;
  UpdateConfiguration : ConfigurationRest * list (WebhookRest * string) → X → option error * X;
  Time_Now : X → Time * X;
}.

(** [pem.Encode]: base64 in lines of 64. *)
Fixpoint pem_lines (fuel : nat) (l : list ascii) : list ascii :=
  match fuel, l with
  | S fuel, _ :: _ => take 64 l ++ ["010"%char] ++ pem_lines fuel (drop 64 l)
  | _, _ => []
  end.
Definition newline : string := String ("010"%char) "".
Definition pem_encode (type_ data : string) : string :=
  let body := chars (EncodeToString data) in
  "-----BEGIN " +:+ type_ +:+ "-----" +:+ newline +:+ of_chars (pem_lines (length body) body) +:+
  "-----END " +:+ type_ +:+ "-----" +:+ newline.

(** [filepath.Join] of a clean directory and a file name. *)
Definition Join (dir file : string) : string :=
  if bool_decide (dir = "") then file else dir +:+ "/" +:+ file.

(** [time.Time.Sub] saturates. *)
Definition Time_Sub (t u : Time) : Duration := Z.max (- 2 ^ 63) (Z.min (2 ^ 63 - 1) (t - u)).
Definition Unix (t : Time) : Z := t / 10 ^ 9.

Section manager.
Context {X : Type} `{!WebhookEnv X}.

(** The state of [FinalizerWebhookManager]; its SPIRE client is not used. *)
Record FinalizerWebhookManager := {
  webhookName : string;
  webhookNamespace : string;
  webhookService : string;
  certDir : string;
  currentCABundle : string;
  certificateExpiry : Time;
  caCert : option x509_Certificate;
  caKey : option PrivateKey;
}.

Definition NewFinalizerWebhookManager (name ns service dir : string) : FinalizerWebhookManager :=
  {| webhookName := name; webhookNamespace := ns; webhookService := service; certDir := dir;
     currentCABundle := ""; certificateExpiry := zero_Time; caCert := None; caKey := None |}.

Record WorldM := { env : X; mgr : FinalizerWebhookManager }.
Implicit Types (w : WorldM).

Definition set_expiry (t : Time) (m : FinalizerWebhookManager) : FinalizerWebhookManager :=
  {| webhookName := webhookName m; webhookNamespace := webhookNamespace m;
     webhookService := webhookService m; certDir := certDir m;
     currentCABundle := currentCABundle m; certificateExpiry := t;
     caCert := caCert m; caKey := caKey m |}.
Definition set_CA (bundle : string) (cert : x509_Certificate) (key : PrivateKey)
    (m : FinalizerWebhookManager) : FinalizerWebhookManager :=
  {| webhookName := webhookName m; webhookNamespace := webhookNamespace m;
     webhookService := webhookService m; certDir := certDir m;
     currentCABundle := bundle; certificateExpiry := certificateExpiry m;
     caCert := Some cert; caKey := Some key |}.

Definition on_env {A} (f : X → A * X) : GoM WorldM A :=
  λ w, let '(a, x) := f (env w) in (Ret a, {| env := x; mgr := mgr w |}).
Definition update_mgr (f : FinalizerWebhookManager → FinalizerWebhookManager) : GoM WorldM unit :=
  modify_world (λ w, {| env := env w; mgr := f (mgr w) |}).

Definition generateCA : GoM WorldM (option error) :=
  m ← get_world;
  caKey ← on_env GenerateKey;
  match wrap "failed to generate CA key" caKey with ERR err => mret (Some err) | OK caKey =>
  notBefore ← on_env Time_Now;
  now ← on_env Time_Now;
  let caTemplate :=
    {| SerialNumber := 1;
       CommonName := "webhook-ca." +:+ webhookNamespace (mgr m);
       Organization := ["SPIRE Controller"];
       NotBefore := notBefore;
       NotAfter := now + 365 * 24 * Hour;
       KeyUsage := Z.lor KeyUsageCertSign KeyUsageCRLSign;
       ExtKeyUsage := [];
       BasicConstraintsValid := true; IsCA := true; Cert_DNSNames := [] |} in
  caCertDER ← on_env (CreateCertificate caTemplate caTemplate caKey caKey);
  match wrap "failed to create CA certificate" caCertDER with ERR err => mret (Some err) | OK caCertDER =>
  match wrap "failed to parse CA certificate" (ParseCertificate caCertDER) with
  | ERR err => mret (Some err)
  | OK caCert => update_mgr (set_CA (pem_encode "CERTIFICATE" caCertDER) caCert caKey);; mret None
  end end end.

Definition dns_names (service ns : string) : list string :=
  [service; service +:+ "." +:+ ns; service +:+ "." +:+ ns +:+ ".svc";
   service +:+ "." +:+ ns +:+ ".svc.cluster.local"].

(** The two files, written one after the other. *)
Definition write_files (certPath keyPath certDER : string) (key : PrivateKey) :
    GoM WorldM (option error) :=
  err ← on_env (Create certPath);
  match err with Some err => mret (Some (ErrWrap "failed to create cert file" err)) | None =>
  err ← on_env (Write certPath (pem_encode "CERTIFICATE" certDER));
  match err with Some err => mret (Some (ErrWrap "failed to write certificate" err)) | None =>
  err ← on_env (OpenFile keyPath);
  match err with Some err => mret (Some (ErrWrap "failed to create key file" err)) | None =>
  match wrap "failed to marshal private key" (MarshalPKCS8PrivateKey key) with
  | ERR err => mret (Some err)
  | OK keyBytes =>
      err ← on_env (Write keyPath (pem_encode "PRIVATE KEY" keyBytes));
      mret match err with
           | Some err => Some (ErrWrap "failed to write private key" err) | None => None end
  end end end end.

(** Signing with a nil authority panics. *)
Definition MintCertificate : GoM WorldM (option error) :=
  m ← get_world;
  let m := mgr m in
  key ← on_env GenerateKey;
  match wrap "failed to generate private key" key with ERR err => mret (Some err) | OK key =>
  serial ← on_env Time_Now;
  notBefore ← on_env Time_Now;
  now ← on_env Time_Now;
  let template :=
    {| SerialNumber := Unix serial;
       CommonName := webhookService m +:+ "." +:+ webhookNamespace m +:+ ".svc";
       Organization := ["SPIRE Controller"];
       NotBefore := notBefore;
       NotAfter := now + 24 * Hour;
       KeyUsage := Z.lor KeyUsageKeyEncipherment KeyUsageDigitalSignature;
       ExtKeyUsage := [ExtKeyUsageServerAuth];
       BasicConstraintsValid := true; IsCA := false;
       Cert_DNSNames := dns_names (webhookService m) (webhookNamespace m) |} in
  match caCert m, caKey m with
  | Some caCert, Some caKey =>
      certDER ← on_env (CreateCertificate template caCert key caKey);
      match wrap "failed to create certificate" certDER with ERR err => mret (Some err) | OK certDER =>
      match wrap "failed to parse certificate" (ParseCertificate certDER) with
      | ERR err => mret (Some err)
      | OK cert =>
          err ← write_files (Join (certDir m) "tls.crt") (Join (certDir m) "tls.key") certDER key;
          match err with
          | Some err => mret (Some err)
          | None => update_mgr (set_expiry (NotAfter cert));; mret None
          end
      end end
  | _, _ => panic
  end end.

(** The loop that replaces the bundles; whether it replaced any. *)
Definition replace_bundles {Y} (bundle : string) (webhooks : list (Y * string)) :
    bool * list (Y * string) :=
  (existsb (λ h, negb (bool_decide (h.2 = bundle))) webhooks,
   (λ h : Y * string, if bool_decide (h.2 = bundle) then h else (h.1, bundle)) <$> webhooks).

Definition UpdateWebhookConfiguration : GoM WorldM (option error) :=
  m ← get_world;
  webhook ← on_env (GetWebhookConfiguration (webhookName (mgr m)));
  match wrap "failed to get webhook configuration" webhook with
  | ERR err => mret (Some err)
  | OK (rest, webhooks) =>
      let '(updated, webhooks) := replace_bundles (currentCABundle (mgr m)) webhooks in
      if updated : bool then
        err ← on_env (UpdateConfiguration (rest, webhooks));
        mret match err with Some err => Some (ErrWrap "failed to update webhook" err) | None => None end
      else mret None
  end.

Definition should_rotate (expiry now : Time) : bool :=
  if bool_decide (expiry = zero_Time) then true
  else
    let lifetime := Time_Sub expiry now in
    if bool_decide (lifetime < 0) then true
    else
      let totalLifetime := 24 * Hour in
      let halfLife := totalLifetime / 2 in
      let timeUntilRotation := Time_Sub expiry (now + halfLife) in
      bool_decide (timeUntilRotation <= 0).

Definition ShouldRotate : GoM WorldM bool :=
  m ← get_world;
  if bool_decide (certificateExpiry (mgr m) = zero_Time) then mret true
  else now ← on_env Time_Now; mret (should_rotate (certificateExpiry (mgr m)) now).

(** One tick of [rotationLoop]; errors are logged only. *)
Definition rotation_tick : GoM WorldM unit :=
  rotate ← ShouldRotate;
  if rotate : bool then
    err ← MintCertificate;
    match err with
    | Some _ => mret tt
    | None => UpdateWebhookConfiguration;; mret tt
    end
  else mret tt.

(** [rotationLoop], for as many ticks as come before the context is done. *)
Definition rotationLoop (ticks : nat) : GoM WorldM unit :=
  for_each (replicate ticks tt) (λ _, rotation_tick).

(** [Start], up to the start of the loop. *)
Definition Start : GoM WorldM (option error) :=
  m ← get_world;
  err ← on_env (MkdirAll (certDir (mgr m)));
  match err with Some err => mret (Some (ErrWrap "failed to create cert directory" err)) | None =>
  err ← generateCA;
  match err with Some err => mret (Some (ErrWrap "failed to generate CA" err)) | None =>
  err ← MintCertificate;
  match err with Some err => mret (Some (ErrWrap "initial certificate mint failed" err)) | None =>
  err ← UpdateWebhookConfiguration;
  mret match err with Some err => Some (ErrWrap "initial webhook update failed" err) | None => None end
  end end end.
End manager.
Arguments WorldM X {_}.
