(* ===== verification/LoopProps.v ===== *)
(** * Properties of the loops, of start-up and of the webhook's certificates *)

From S2P Require Export Setup WebhookManager ByObject TestKube MainProps.

Local Open Scope Z_scope.

(** ** The reconciliation loop *)

Section loop.
Context {W : Type}.
Implicit Types (s : rstate W) (ls : list (label W)).

(** A trigger that does not find [Run] blocked in its [select] has no
    effect at all: whatever happens afterwards, in every interleaving, happens
    exactly as without it. *)
Theorem trigger_is_lost s ls :
  ph s ≠ Waiting → ph s ≠ Crashed →
  ∃ s', rstep LTrigger s = Some s' ∧
    option_Forall2 same_but_flag (rsteps ls s) (rsteps ls s').
Proof.
  intros Hw Hc. exists (set_triggered true s). split.
  - destruct s as [c b p t x n w]. simpl in *. destruct p; done.
  - apply rsteps_same. by destruct s.
Qed.

(** C35: the reconciliation asked for at start-up does not happen: after
    [SetupWithManager] and until the first tick or a later trigger, no
    interleaving of [Run] with the rest of the program starts one. *)
Theorem initial_trigger_is_lost (c : Config W) (w : W) ls s :
  (∀ l, l ∈ ls → is_event l = false) →
  rsteps ls (Trigger (New c w)) = Some s →
  reconcileCount s = 0 ∧ ph s ≠ Entering ∧ ph s ≠ Reconciling.
Proof.
  intros Hls Hs. eapply rsteps_idle in Hs as (? & _ & ? & ?); [done|done|].
  by unfold New; case_bool_decide.
Qed.

(** A trigger or a tick that finds [Run] waiting is served: the function
    runs once, on the world as it is then, and [Run] is back at its loop;
    unless it panics, which ends the process. *)
Theorem waiting_event_is_served s f w' (o : outcome unit) (l : label W) :
  ph s = Waiting → l = LTrigger ∨ l = LTick → Reconcile (config s) = Some f →
  f (world s) = (o, w') → o ≠ Diverge →
  ∃ s', rsteps [l; LClear; LWork] s = Some s' ∧ world s' = w' ∧ triggered s' = false ∧
    reconcileCount s' = reconcileCount s + 1 ∧
    ph s' = match o with Panic => Crashed | _ => Looping end.
Proof.
  destruct s as [c b p t x n w]. simpl. intros -> Hl Hf Hw Ho.
  unfold rsteps. destruct Hl as [-> | ->]; simpl; rewrite Hf, Hw;
    (destruct o; try done; eexists; by split_and!).
Qed.

(** Reconciliations are never invented: in every interleaving there are at
    most as many as ticks and triggers together. *)
Theorem reconciliations_are_asked_for (c : Config W) (w : W) ls s :
  rsteps ls (New c w) = Some s →
  0 <= reconcileCount s <= Z.of_nat (length (filter (λ l, is_event l = true) ls)).
Proof.
  intros Hs. split.
  - assert (0 <= reconcileCount (New c w)) as H0 by done. revert H0 Hs. generalize (New c w).
    induction ls as [|l ls IH]; intros s0 H0; [by intros [= <-]|]. rewrite rsteps_cons.
    destruct (rstep l s0) as [s1|] eqn:Hl; simpl; [|done]. apply IH.
    destruct s0 as [c0 b p t x n w0]. simpl in H0.
    destruct l as [|[]| | | | | |f], p; simpl in Hl; try done; repeat case_match; simplify_eq; simpl; lia.
  - apply rsteps_count in Hs. simpl in Hs. destruct (tick s); lia.
Qed.

(** From the loop head, with the function returning. *)
Lemma looping_to_select (c : Config W) (f : GoM W unit) b t x n w :
  Reconcile c = Some f → (∀ w, ∃ w', f w = (Ret tt, w')) →
  let s := {| config := c; triggered := b; ph := Looping; tick := t; cancelled := x;
              reconcileCount := n; world := w |} in
  ∃ ls s', (length ls ≤ 4)%nat ∧ (∀ l, l ∈ ls → is_event l = false ∧ l ≠ LCancel) ∧
    rsteps ls s = Some s' ∧ (ph s' = Waiting ∨ ph s' = Stopped).
Proof.
  intros Hf Hret s. destruct x; [|destruct t].
  - exists [LSelect Done], (set_ph Stopped s). split_and!; [simpl; lia|set_solver|done|by right].
  - destruct (Hret w) as [w' Hw]. exists [LSelect Ticker; LClear; LWork; LSelect Block]. eexists.
    split_and!; [done|set_solver| |]; [unfold rsteps; simpl; by rewrite Hf, Hw|by left].
  - exists [LSelect Block], (set_ph Waiting s). split_and!; [simpl; lia|set_solver|done|by left].
Qed.

(** [Run] is never stuck: as long as the function returns and the interval
    is positive, its own steps take it from anywhere to its [select], blocked,
    or to its end, in at most six steps; an interval that is not positive
    crashes the program when [Run] starts. *)
Theorem Run_returns_to_select s f :
  Reconcile (config s) = Some f → (∀ w, ∃ w', f w = (Ret tt, w')) → ph s ≠ Crashed →
  (0 < Config_GCInterval (config s) →
   ∃ ls s', (length ls ≤ 6)%nat ∧ (∀ l, l ∈ ls → is_event l = false ∧ l ≠ LCancel) ∧
     rsteps ls s = Some s' ∧ (ph s' = Waiting ∨ ph s' = Stopped)) ∧
  (Config_GCInterval (config s) <= 0 → ph s = NotStarted →
   rstep LRun s = Some (set_ph Crashed s)).
Proof.
  destruct s as [c b p t x n w]. simpl. intros Hf Hret Hc. split.
  - intros Hpos.
    pose proof (λ b t x n w, looping_to_select c f b t x n w Hf Hret) as Hloop.
    destruct (Hret w) as [w' Hw]. destruct p; try done.
    + destruct (Hloop b t x n w) as (ls & s' & Hlen & Hls & Hs & Hp).
      exists (LRun :: ls), s'. split_and!; [simpl; lia|set_solver| |done].
      rewrite rsteps_cons. simpl. by rewrite bool_decide_true.
    + destruct (Hloop b t x n w) as (ls & s' & Hlen & Hls & Hs & Hp).
      exists ls, s'. split_and!; [lia|done..].
    + eexists [], _. split_and!; [simpl; lia|set_solver|done|by left].
    + destruct (Hloop false t x n w') as (ls & s' & Hlen & Hls & Hs & Hp).
      exists (LClear :: LWork :: ls), s'. split_and!; [simpl; lia|set_solver| |done].
      rewrite !rsteps_cons. simpl. rewrite rsteps_cons. simpl. by rewrite Hf, Hw.
    + destruct (Hloop b t x n w') as (ls & s' & Hlen & Hls & Hs & Hp).
      exists (LWork :: ls), s'. split_and!; [simpl; lia|set_solver| |done].
      rewrite !rsteps_cons. simpl. by rewrite Hf, Hw.
    + eexists [], _. split_and!; [simpl; lia|set_solver|done|by right].
  - intros Hneg ->. simpl. by rewrite bool_decide_false by lia.
Qed.
End loop.

(** ** The order of objects *)

Section by_object.
Context `{!LabelSelectors}.

(** Between times within 146 years of 1970, [objectCmp] is a total order:
    earlier creation first, then no deletion before later before earlier
    deletion, then the UID; zero means that all three agree. *)
Theorem objectCmp_correct (a b c : workloadIdentityBy) :
  in_range a → in_range b → in_range c →
  (objectCmp a b <= 0 ↔ object_le a b) ∧
  objectCmp b a = - objectCmp a b ∧
  (objectCmp a b <= 0 → objectCmp b c <= 0 → objectCmp a c <= 0) ∧
  (objectCmp a b = 0 ↔ GetCreationTimestamp a = GetCreationTimestamp b ∧
     GetDeletionTimestamp a = GetDeletionTimestamp b ∧ GetUID a = GetUID b).
Proof.
  intros Ha Hb Hc. split; [by apply objectCmp_le|]. split; [by apply objectCmp_antisym|].
  split.
  - rewrite !objectCmp_le by done. apply object_le_trans.
  - pose proof (objectCmp_antisym a b Ha Hb) as Hanti.
    pose proof (objectCmp_le a b Ha Hb) as Hab. pose proof (objectCmp_le b a Hb Ha) as Hba.
    split.
    + intros H0. apply object_le_antisym; [apply Hab; lia|apply Hba; lia].
    + intros (Hct & Hdt & Hu).
      assert (object_le a b) as H1 by (right; rewrite Hdt, Hu; auto).
      assert (object_le b a) as H2 by (right; rewrite Hdt, Hu; auto).
      apply Hab in H1. apply Hba in H2. lia.
Qed.

(** An object of which only the creation time is set. *)
Definition created (t : Time) : workloadIdentityBy :=
  let i := empty_WorkloadIdentity in
  {| By_identity := {| WI_ObjectMeta :=
       {| Name := ""; Namespace := ""; UID := ""; CreationTimestamp := t; DeletionTimestamp := None;
          Finalizers := []; Labels := ∅ |}; WI_Spec := WI_Spec i; WI_Status := WI_Status i |};
     By_cluster := empty_EKSClusterRegistry;
     By_pod := {| Pod_ObjectMeta := empty_ObjectMeta;
                  Pod_Spec := {| NodeName := ""; ServiceAccountName := "" |}; Pod_Phase := "" |};
     By_stats := empty_Stats |}.

(** Outside that range the subtraction wraps around and the order has a
    cycle: three objects created in 1779, 1970 and 2160. *)
Theorem objectCmp_has_a_cycle :
  let a := created (- 6 * 10 ^ 18) in let b := created 0 in let c := created (6 * 10 ^ 18) in
  objectCmp a b = -1 ∧ objectCmp b c = -1 ∧ objectCmp c a = -1.
Proof. vm_compute. by split_and!. Qed.
End by_object.

(** ** The webhook's certificates *)

(** Parsing a new certificate gives what was in the template, with the times
    cut to whole seconds. *)
Class WebhookEnvLaws (X : Type) `{!WebhookEnv X} : Prop := {
  Parse_Create t p k k' (x : X) der x' :
    CreateCertificate t p k k' x = (OK der, x') →
    ∃ c, ParseCertificate der = OK c ∧ NotAfter c = 10 ^ 9 * Unix (NotAfter t);
}.

Section webhook.
Context {X : Type} `{!WebhookEnv X}.
Implicit Types (w : WorldM X).

Lemma wp_on_env {A} (f : X → A * X) (Q : A → WorldM X → Prop) w :
  wp (on_env f) Q w ↔ Q (f (env w)).1 {| env := (f (env w)).2; mgr := mgr w |}.
Proof. unfold wp, on_env. by destruct (f (env w)). Qed.

Lemma ShouldRotate_wp w : wp ShouldRotate (λ _ w', mgr w' = mgr w) w.
Proof.
  unfold ShouldRotate. rewrite wp_bind, wp_get. case_bool_decide; [done|].
  by rewrite wp_bind, wp_on_env.
Qed.

(** C30: the certificate is rotated exactly when there is none or when at most
    twelve hours of it are left, for all times, saturation included. *)
Theorem ShouldRotate_correct w :
  wp ShouldRotate (λ b w', mgr w' = mgr w ∧
    (b = true ↔ certificateExpiry (mgr w) = zero_Time ∨
       certificateExpiry (mgr w) - (Time_Now (env w)).1 <= 12 * 60 * 60 * 10 ^ 9)) w.
Proof.
  unfold ShouldRotate. rewrite wp_bind, wp_get. case_bool_decide as Hz.
  - apply wp_ret. split; [done|]. split; [by left|done].
  - rewrite wp_bind, wp_on_env. apply wp_ret. split; [done|]. unfold should_rotate.
    rewrite bool_decide_false by done. destruct (Time_Now (env w)) as [now x]. simpl.
    change (24 * Hour / 2) with 43200000000000. change (12 * 60 * 60 * 10 ^ 9) with 43200000000000.
    unfold Time_Sub. case_bool_decide; [split; [right; lia|done]|]. rewrite bool_decide_eq_true.
    split; [intros; right; lia|intros [|]; [done|lia]].
Qed.

(** The certificate authority of the manager, which nothing but [generateCA] sets. *)
Definition same_CA (m m' : FinalizerWebhookManager) : Prop :=
  caCert m' = caCert m ∧ caKey m' = caKey m ∧ currentCABundle m' = currentCABundle m.

Lemma write_files_wp p1 p2 der key w :
  wp (write_files p1 p2 der key) (λ _ w', mgr w' = mgr w) w.
Proof.
  unfold write_files. rewrite wp_bind, wp_on_env. destruct (Create _ _) as [[]]; simpl; [done|].
  rewrite wp_bind, wp_on_env. destruct (Write _ _ _) as [[]]; simpl; [done|].
  rewrite wp_bind, wp_on_env. destruct (OpenFile _ _) as [[]]; simpl; [done|].
  destruct (MarshalPKCS8PrivateKey _); simpl; [|done]. by rewrite wp_bind, wp_on_env.
Qed.

Lemma MintCertificate_wp `{!WebhookEnvLaws X} ca key w :
  caCert (mgr w) = Some ca → caKey (mgr w) = Some key →
  wp MintCertificate (λ err w', same_CA (mgr w) (mgr w') ∧
    match err with
    | Some _ => mgr w' = mgr w
    | None => ∃ x, certificateExpiry (mgr w') = 10 ^ 9 * Unix ((Time_Now x).1 + 24 * Hour)
    end) w.
Proof.
  intros Hca Hkey. unfold MintCertificate. rewrite wp_bind, wp_get, wp_bind, wp_on_env.
  destruct (GenerateKey (env w)) as [[k|err] x1]; simpl; [|by split_and!].
  rewrite !wp_bind, wp_on_env. simpl. rewrite !wp_bind, wp_on_env. simpl.
  rewrite !wp_bind, wp_on_env. simpl. rewrite Hca, Hkey.
  rewrite wp_bind, wp_on_env. simpl.
  destruct (CreateCertificate _ _ _ _ _) as [[der|err] x2] eqn:Hcr; simpl; [|by split_and!].
  destruct (Parse_Create _ _ _ _ _ _ _ Hcr) as (cert & -> & Hexp). simpl.
  rewrite wp_bind. eapply wp_mono; [apply write_files_wp|]. intros [err|] w' Hm; simpl in *.
  - apply wp_ret. rewrite Hm. by split_and!.
  - rewrite wp_bind. apply wp_modify, wp_ret. simpl. rewrite Hm. split; [by split_and!|].
    rewrite Hexp. simpl. by eexists.
Qed.

(** C29: minting leaves the certificate authority alone; a failure at any point
    also leaves the expiry alone, so that the next tick tries again; a success
    records an expiry 24 hours, to the second, after a reading of the clock. *)
Theorem MintCertificate_correct `{!WebhookEnvLaws X} ca key w :
  caCert (mgr w) = Some ca → caKey (mgr w) = Some key →
  wp MintCertificate (λ err w', same_CA (mgr w) (mgr w') ∧
    match err with
    | Some _ => mgr w' = mgr w
    | None => ∃ x, certificateExpiry (mgr w') = 10 ^ 9 * Unix ((Time_Now x).1 + 24 * Hour)
    end) w.
Proof. apply MintCertificate_wp. Qed.

Lemma UpdateWebhookConfiguration_wp w :
  wp UpdateWebhookConfiguration (λ _ w', mgr w' = mgr w) w.
Proof.
  unfold UpdateWebhookConfiguration. rewrite wp_bind, wp_get, wp_bind, wp_on_env.
  destruct (GetWebhookConfiguration _ _) as [[[rest hooks]|err] x]; simpl; [|done].
  destruct (existsb _ hooks); [|done]. by rewrite wp_bind, wp_on_env.
Qed.

(** The configuration is written only if some webhook has another bundle,
    and then with the manager's bundle in every webhook, everything else in it
    unchanged and in place. *)
Theorem UpdateWebhookConfiguration_correct w rest hooks x :
  GetWebhookConfiguration (webhookName (mgr w)) (env w) = (OK (rest, hooks), x) →
  let bundle := currentCABundle (mgr w) in
  UpdateWebhookConfiguration w =
    if decide (Forall (λ h, h.2 = bundle) hooks)
    then (Ret None, {| env := x; mgr := mgr w |})
    else let '(err, x') := UpdateConfiguration (rest, (λ h, (h.1, bundle)) <$> hooks) x in
         (Ret (ErrWrap "failed to update webhook" <$> err), {| env := x'; mgr := mgr w |}).
Proof.
  intros Hget bundle. unfold UpdateWebhookConfiguration, mbind, GoM_bind, get_world, on_env.
  rewrite Hget. simpl. fold bundle.
  assert ((λ h : WebhookRest * string, if bool_decide (h.2 = bundle) then h else (h.1, bundle))
            <$> hooks = (λ h, (h.1, bundle)) <$> hooks) as ->.
  { apply list_fmap_ext. intros i [r b] _. simpl. case_bool_decide; by subst. }
  destruct (existsb _ hooks) eqn:Hex; case_decide as Hall; simpl.
  - apply existsb_exists in Hex as (h & Hin%list_elem_of_In & Hh).
    rewrite Forall_forall in Hall. by rewrite (bool_decide_true _ (Hall h Hin)) in Hh.
  - destruct (UpdateConfiguration _ x) as [[err|] x']; done.
  - done.
  - exfalso. apply Hall, Forall_forall. intros h Hin. destruct (decide (h.2 = bundle)) as [|Hne]; [done|].
    assert (existsb (λ h, negb (bool_decide (h.2 = bundle))) hooks = true) as Htrue; [|congruence].
    apply existsb_exists. exists h. rewrite <-list_elem_of_In. by rewrite bool_decide_false.
Qed.

Lemma rotation_tick_wp `{!WebhookEnvLaws X} ca key w :
  caCert (mgr w) = Some ca → caKey (mgr w) = Some key →
  wp rotation_tick (λ _ w', same_CA (mgr w) (mgr w')) w.
Proof.
  intros Hca Hkey. unfold rotation_tick. rewrite wp_bind.
  eapply wp_mono; [apply ShouldRotate_wp|]. intros b w1 Hm. simpl in Hm.
  destruct b; [|apply wp_ret; by rewrite Hm].
  rewrite wp_bind. eapply wp_mono; [by apply (MintCertificate_wp ca key); rewrite Hm|].
  intros [err|] w2 [Hsame _]; rewrite Hm in Hsame; [by apply wp_ret|].
  rewrite wp_bind. eapply wp_mono; [apply UpdateWebhookConfiguration_wp|].
  intros a w3 Hm3. simpl in Hm3. apply wp_ret. by rewrite Hm3.
Qed.

(** C40: the rotation renews serving certificates only: the certificate
    authority made at start-up, which is valid for 365 days, and the bundle
    that the API server checks them with, stay the same for ever. *)
Theorem rotation_never_renews_the_CA `{!WebhookEnvLaws X} (ticks : nat) ca key w :
  caCert (mgr w) = Some ca → caKey (mgr w) = Some key →
  wp (rotationLoop ticks) (λ _ w', caCert (mgr w') = Some ca ∧ caKey (mgr w') = Some key ∧
    currentCABundle (mgr w') = currentCABundle (mgr w)) w.
Proof.
  intros Hca Hkey. unfold rotationLoop.
  eapply wp_mono; [apply (wp_for_each (λ _ w', same_CA (mgr w) (mgr w')))|].
  - by split_and!.
  - intros _ [] _ w1 _ (Hc & Hk & Hb). eapply wp_mono;
      [apply (rotation_tick_wp ca key); congruence|].
    intros _ w2 (? & ? & ?). split_and!; congruence.
  - intros _ w' (? & ? & ?). split_and!; congruence.
Qed.
End webhook.

(** ** Start-up *)

Section setup.
Context `{!SpiffeID, !Regexps}.

(** The pattern that the [i]-th ignored namespace compiles to. *)
Lemma parseIgnoreNamespaces_OK namespaces regexes :
  parseIgnoreNamespaces namespaces = OK regexes →
  Forall2 (λ ns re, Regexp_Compile ns = OK re) namespaces regexes.
Proof.
  unfold parseIgnoreNamespaces. revert regexes.
  induction namespaces as [|ns namespaces IH]; intros regexes; simpl; [intros [= <-]; constructor|].
  destruct (Regexp_Compile ns) as [re|] eqn:Hre; simpl; [|done].
  destruct (collect _ namespaces) as [res|]; simpl; [|done]. intros [= <-].
  constructor; [done|by apply IH].
Qed.

(** A path, absolute or relative, is an address of a Unix socket. *)
Definition dial_address (target : string) : string :=
  if HasPrefix target "/" then "unix://" +:+ target
  else if HasPrefix target "." then "unix:" +:+ target else target.

Lemma NewClient_ret {C} (dial : string → result C) target :
  target ≠ "" →
  NewClient dial target = Ret (wrap "failed to dial SPIRE server" (dial (dial_address target))).
Proof.
  destruct target as [|c s]; [done|]. intros _. unfold NewClient, NewClient_target, dial_address.
  simpl. rewrite !andb_true_r.
  rewrite (bool_decide_ext (c = "/"%char) ("/"%char = c)) by done.
  rewrite (bool_decide_ext (c = "."%char) ("."%char = c)) by done.
  do 2 case_bool_decide; try done.
Qed.

Lemma setup_returns {C} ReadFile Getenv DecodeInto (dial : string → result C) configFile expandEnv :
  ∃ res, setup ReadFile Getenv DecodeInto dial configFile expandEnv = Ret res.
Proof.
  unfold setup. case_bool_decide; [by eexists|].
  destruct (LoadOptionsFromFile _ _ _ _ _ _ _) as [[options config]|err]; [|by eexists].
  case_bool_decide; [by eexists|].
  destruct (TrustDomainFromString _) as [td|err]; [|by eexists].
  destruct (parseIgnoreNamespaces _) as [regexes|err]; [|by eexists].
  rewrite NewClient_ret; [by eexists|]. simpl. by case_bool_decide.
Qed.

(** C25: start-up never panics, whatever the file says, and when it succeeds
    every setting of the main reconciler comes from what was decoded from the
    file's text (after the expansion of variables, if that is asked for): the
    trust domain, which must be given; the ignored namespaces, compiled in order;
    the entry ID prefix, the interval, the cluster name and the socket that is
    dialled, with the defaults for what the file leaves empty.  Leader election
    is on when the file says so, and its ID is always the built-in one. *)
Theorem setup_correct {C} ReadFile Getenv DecodeInto (dial : string → result C) configFile expandEnv :
  ∃ res, setup ReadFile Getenv DecodeInto dial configFile expandEnv = Ret res ∧
    ∀ s, res = OK s → ∃ text file,
      ReadFile configFile = OK text ∧
      DecodeInto (if expandEnv then ExpandEnv Getenv text else text) empty_ControllerManagerConfig
        = OK file ∧
      let r := Started_reconciler _ s in
      let or_default := λ given default : string, if decide (given = "") then default else given in
      CMC_TrustDomain file ≠ "" ∧
      TrustDomainFromString (CMC_TrustDomain file) = OK (MR_TrustDomain r) ∧
      Forall2 (λ ns re, Regexp_Compile ns = OK re) (CMC_IgnoreNamespaces file) (IgnoreNamespaces r) ∧
      EntryIDPrefix r = or_default (CMC_EntryIDPrefix file) "eks-workload-" ∧
      MR_ClusterName r = or_default (CMC_ClusterName file) "default" ∧
      GCInterval r = (if decide (CMC_GCInterval file = 0) then 10 * 60 * 10 ^ 9
                      else CMC_GCInterval file) ∧
      dial (dial_address (or_default (SPIREServerSocketPath file) "/run/spire/sockets/server.sock")) =
        OK (Started_client _ s) ∧
      LeaderElectionID (Started_options _ s) = "spire-eks-workload-registrar.spire.io" ∧
      LeaderElection (Started_options _ s) =
        from_option (λ le, default false (LeaderElect le)) false (Spec_LeaderElection (CMC_Spec file)).
Proof.
  unfold setup. case_bool_decide; [by eexists|].
  destruct (LoadOptionsFromFile _ _ _ _ _ _ _) as [[options config]|err] eqn:Hload; [|by eexists].
  case_bool_decide as Htdn; [by eexists|].
  destruct (TrustDomainFromString (CMC_TrustDomain config)) as [td|err] eqn:Htd; [|by eexists].
  destruct (parseIgnoreNamespaces _) as [regexes|err] eqn:Hre; [|by eexists].
  rewrite NewClient_ret by (simpl; by case_bool_decide).
  eexists. split; [done|]. intros s Hs.
  destruct (dial _) as [c|err] eqn:Hdial; simpl in Hs; [|done]. injection Hs as <-. simpl.
  unfold LoadOptionsFromFile, loadFile in Hload.
  destruct (ReadFile configFile) as [text|]; simpl in Hload; [|done].
  destruct (DecodeInto _ _) as [config'|] eqn:Hdec; simpl in Hload; [|done].
  assert (∀ {A B} `{EqDecision A} (x y : A) (a b : B),
    (if decide (x = y) then a else b) = if bool_decide (x = y) then a else b) as Hif.
  { intros A B Heq x y a b. case_bool_decide; [by rewrite decide_True|by rewrite decide_False]. }
  injection Hload as <- <-. exists text, config'. rewrite !Hif.
  split_and!; [done|done|done|done|by apply parseIgnoreNamespaces_OK|done|done|done|exact Hdial|..].
  - simpl. unfold setLeaderElectionConfig. by destruct (Spec_LeaderElection _).
  - simpl. unfold setLeaderElectionConfig. destruct (Spec_LeaderElection _) as [le|]; [|done].
    simpl. by destruct (LeaderElect le).
Qed.
End setup.

(** ** Witnesses *)

(** A function that counts its calls, and a loop that runs it every minute. *)
Definition count_up : GoM Z unit := modify_world (λ n, n + 1).
Definition sample_config : Config Z := {| Reconcile := Some count_up; Config_GCInterval := Minute |}.

Lemma trigger_is_lost_witness :
  let s := set_ph Reconciling (New sample_config 0) in
  ∃ s', rstep LTrigger s = Some s' ∧
    option_Forall2 same_but_flag (rsteps [LWork; LSelect Block] s) (rsteps [LWork; LSelect Block] s').
Proof. by apply (trigger_is_lost (set_ph Reconciling (New sample_config 0)) [LWork; LSelect Block]). Defined.

Lemma initial_trigger_is_lost_witness :
  ∃ s, rsteps [LRun; LSelect Block; LOther (λ n, n)] (Trigger (New sample_config 0)) = Some s ∧
    ph s = Waiting ∧ reconcileCount s = 0.
Proof.
  eexists. split; [reflexivity|]. split; [reflexivity|].
  apply (initial_trigger_is_lost sample_config 0 [LRun; LSelect Block; LOther (λ n, n)]);
    [|reflexivity].
  intros l Hl. repeat (apply elem_of_cons in Hl as [->|Hl]; [done|]). by apply not_elem_of_nil in Hl.
Defined.

Lemma waiting_event_is_served_witness :
  ∃ s', rsteps [LTrigger; LClear; LWork] (set_ph Waiting (New sample_config 41)) = Some s' ∧
    world s' = 42 ∧ triggered s' = false ∧ reconcileCount s' = 1 ∧ ph s' = Looping.
Proof.
  apply (waiting_event_is_served (set_ph Waiting (New sample_config 41)) count_up 42 (Ret tt) LTrigger);
    [done|by left|done..].
Defined.

Lemma reconciliations_are_asked_for_witness :
  ∃ s, rsteps [LRun; LTick; LTick; LSelect Ticker; LClear; LWork] (New sample_config 0) = Some s ∧
    world s = 1 ∧ 0 <= reconcileCount s <= 2.
Proof.
  eexists. split; [reflexivity|]. split; [reflexivity|].
  by apply (reconciliations_are_asked_for sample_config 0
    [LRun; LTick; LTick; LSelect Ticker; LClear; LWork]).
Defined.

Lemma Run_returns_to_select_witness :
  ∃ ls s', (length ls ≤ 6)%nat ∧ (∀ l, l ∈ ls → is_event l = false ∧ l ≠ LCancel) ∧
    rsteps ls (New sample_config 0) = Some s' ∧ (ph s' = Waiting ∨ ph s' = Stopped).
Proof.
  apply (Run_returns_to_select (New sample_config 0) count_up); [done|by intros w; eexists|done|].
  by vm_compute.
Defined.

Lemma in_range_created t : near_epoch t → in_range (created t).
Proof. by split. Qed.

Lemma objectCmp_correct_witness : objectCmp (created 1) (created 2) <= 0.
Proof.
  destruct (objectCmp_correct (created 1) (created 2) (created 3)) as [Hle _];
    [apply in_range_created; by vm_compute..|]. apply Hle. left. by vm_compute.
Defined.

(** A clock, a file system and an API server in memory; a certificate is
    written as its expiry in seconds. *)
Fixpoint pos_bits (p : positive) : string :=
  match p with xH => "" | xO p => String "0" (pos_bits p) | xI p => String "1" (pos_bits p) end.
Fixpoint bits_pos (s : string) : positive :=
  match s with
  | EmptyString => xH
  | String c s => if bool_decide (c = "1"%char) then xI (bits_pos s) else xO (bits_pos s)
  end.
Lemma bits_pos_bits p : bits_pos (pos_bits p) = p.
Proof. induction p as [p IH|p IH|]; simpl; [by rewrite IH|by rewrite IH|done]. Qed.

Definition write_Z (x : Z) : string :=
  match x with Z0 => "" | Zpos p => String "+" (pos_bits p) | Zneg p => String "-" (pos_bits p) end.
Definition read_Z (s : string) : Z :=
  match s with
  | EmptyString => 0
  | String c s => if bool_decide (c = "+"%char) then Zpos (bits_pos s) else Zneg (bits_pos s)
  end.
Lemma read_write_Z x : read_Z (write_Z x) = x.
Proof. destruct x; simpl; [done|by rewrite bits_pos_bits..]. Qed.

Definition expiring (t : Time) : x509_Certificate :=
  {| SerialNumber := 1; CommonName := "webhook-ca.spire-system"; Organization := [];
     NotBefore := 0; NotAfter := t; KeyUsage := 96; ExtKeyUsage := []; BasicConstraintsValid := true;
     IsCA := true; Cert_DNSNames := [] |}.

Record test_env := {
  te_now : Time;
  te_files : gmap string string;
  te_hooks : list (unit * string);
}.
Definition put_file (p s : string) (x : test_env) : option error * test_env :=
  (None, {| te_now := te_now x; te_files := <[p := s]> (te_files x); te_hooks := te_hooks x |}).

#[export] Instance test_WebhookEnv : WebhookEnv test_env := {|
  PrivateKey := unit; WebhookRest := unit; ConfigurationRest := unit;
  GenerateKey x := (OK tt, x);
  CreateCertificate t p k k' x := (OK (write_Z (Unix (NotAfter t))), x);
  ParseCertificate der := OK (expiring (10 ^ 9 * read_Z der));
  MarshalPKCS8PrivateKey k := OK "key";
  MkdirAll d x := (None, x);
  Create p x := put_file p "" x;
  OpenFile p x := put_file p "" x;
  Write p s x := put_file p s x;
  GetWebhookConfiguration n x := (OK (tt, te_hooks x), x);
  UpdateConfiguration c x :=
    (None, {| te_now := te_now x; te_files := te_files x; te_hooks := c.2 |});
  Time_Now x := (te_now x, x);
|}.

#[export] Instance test_WebhookEnvLaws : WebhookEnvLaws test_env.
Proof.
  split. intros t p k k' x der x' [= <- _]. eexists. split; [done|]. simpl. by rewrite read_write_Z.
Qed.

Definition sample_env : test_env :=
  {| te_now := 1000 * Hour; te_files := ∅; te_hooks := [(tt, "old"); (tt, "bundle")] |}.
Definition sample_manager : WorldM test_env :=
  {| env := sample_env;
     mgr := {| webhookName := "hook"; webhookNamespace := "spire-system"; webhookService := "svc";
       certDir := "/tmp/certs"; currentCABundle := "bundle"; certificateExpiry := 1012 * Hour + 1;
       caCert := Some (expiring (365 * 24 * Hour)); caKey := Some tt |} |}.

Lemma ShouldRotate_correct_witness :
  wp ShouldRotate (λ b w', mgr w' = mgr sample_manager ∧
    (b = true ↔ 1012 * Hour + 1 = zero_Time ∨
       1012 * Hour + 1 - 1000 * Hour <= 12 * 60 * 60 * 10 ^ 9)) sample_manager.
Proof. apply (ShouldRotate_correct sample_manager). Defined.

Lemma MintCertificate_correct_witness :
  wp MintCertificate (λ err w', same_CA (mgr sample_manager) (mgr w') ∧
    match err with
    | Some _ => mgr w' = mgr sample_manager
    | None => ∃ x, certificateExpiry (mgr w') = 10 ^ 9 * Unix ((Time_Now x).1 + 24 * Hour)
    end) sample_manager.
Proof. by eapply (MintCertificate_correct (X:=test_env)). Defined.

Lemma UpdateWebhookConfiguration_correct_witness :
  UpdateWebhookConfiguration sample_manager =
    (Ret None, {| env := {| te_now := 1000 * Hour; te_files := ∅;
                            te_hooks := [(tt, "bundle"); (tt, "bundle")] |};
                  mgr := mgr sample_manager |}).
Proof.
  etransitivity; [by eapply (UpdateWebhookConfiguration_correct (X:=test_env) sample_manager)|].
  reflexivity.
Defined.

(** Two years of ticks every thirty seconds. *)
Definition two_years : nat := Z.to_nat (2 * 365 * 24 * 60 * 2).
Lemma rotation_never_renews_the_CA_witness :
  wp (rotationLoop two_years) (λ _ w', caCert (mgr w') = Some (expiring (365 * 24 * Hour)) ∧
    caKey (mgr w') = Some tt ∧ currentCABundle (mgr w') = currentCABundle (mgr sample_manager))
    sample_manager.
Proof.
  exact (@rotation_never_renews_the_CA test_env test_WebhookEnv test_WebhookEnvLaws two_years
    (expiring (365 * 24 * Hour)) tt sample_manager eq_refl eq_refl).
Defined.

(** A file with a trust domain and one ignored namespace, read with the
    decoder reduced to what the sample needs. *)
Definition decode_sample (content : string) (c : ControllerManagerConfig) :
    result ControllerManagerConfig :=
  OK {| CMC_Spec := CMC_Spec c; CMC_ClusterName := ""; CMC_TrustDomain := content;
        CMC_IgnoreNamespaces := ["kube-"]; SPIREServerSocketPath := ""; CMC_EntryIDPrefix := "";
        CMC_GCInterval := 0; CMC_AWSConfig := CMC_AWSConfig c |}.
Definition sample_getenv (name : string) : string :=
  if bool_decide (name = "TD") then "example.org" else "".
Definition started : outcome (result (Startup string)) :=
  setup (λ _, OK "${TD}") sample_getenv decode_sample (λ t, OK t) "config.yaml" true.

Definition client_of (o : outcome (result (Startup string))) : option string :=
  match o with Ret (OK s) => Some (Started_client _ s) | _ => None end.
Lemma started_client : client_of started = Some "unix:///run/spire/sockets/server.sock".
Proof. vm_compute. reflexivity. Qed.

Lemma setup_correct_witness :
  ∃ s, started = Ret (OK s) ∧ EntryIDPrefix (Started_reconciler _ s) = "eks-workload-" ∧
    TrustDomainFromString "example.org" = OK (MR_TrustDomain (Started_reconciler _ s)).
Proof.
  destruct (setup_correct (λ _, OK "${TD}") sample_getenv decode_sample (λ t, OK t)
    "config.yaml" true) as (res & Hres & Hall).
  pose proof started_client as Hc. unfold started in Hc |- *. rewrite Hres in Hc |- *.
  destruct res as [s|err]; [|discriminate Hc].
  exists s. destruct (Hall s eq_refl) as (text & file & Htext & Hfile & _ & Htd & _ & Hp & _).
  injection Htext as <-. vm_compute in Hfile. injection Hfile as <-.
  split; [reflexivity|]. split; [exact Hp|exact Htd].
Defined.
