(* ===== verification/Interleave.v ===== *)
(** * Handlers running side by side

    The full reconciliation, the two resource controllers, the two deletion
    controllers and the pod events run in goroutines of their own and share
    the SPIRE server.  The same definitions that [MainReconciler], [Targeted],
    [Deletion] and [Controllers] give for one handler are run here over a
    [wire] instead of a server: each call to the entry service is recorded and
    takes its reply from those received so far; with none left the handler
    waits.  A pool of such handlers shares a server, and each step is one call.

    What a handler reads of Kubernetes is open in each of its own worlds; the
    state of the two managers is not shared between the handlers of a pool. *)

From S2P Require Export Controllers SpireClientFacts.

Local Open Scope Z_scope.

(** ** Calls and replies of the entry service *)

Inductive rpc :=
| RpcListEntries (pageToken : string) (pageSize : Z)
| RpcBatchCreateEntry (entries : list ApiEntry)
| RpcBatchUpdateEntry (entries : list ApiEntry)
| RpcBatchDeleteEntry (ids : list string)
| RpcClose.

Inductive reply :=
| ReEntries (r : result (list ApiEntry * string))
| ReCreated (r : result (list CreateResult))
| ReStatuses (r : result (list (option ApiStatus)))
| ReClosed (err : option error).

Record wire := { replies : list reply; asked : list rpc }.

(** A call: without a reply the caller waits. *)
Definition ask (c : rpc) : GoM wire reply := λ o,
  match replies o with
  | [] => (Diverge, {| replies := []; asked := asked o ++ [c] |})
  | a :: rs => (Ret a, {| replies := rs; asked := asked o ++ [c] |})
  end.

#[export] Instance wire_EntryService : EntryService wire := {|
  rpc_ListEntries tok n :=
    a ← ask (RpcListEntries tok n); match a with ReEntries r => mret r | _ => out_of_fuel end;
  rpc_BatchCreateEntry es :=
    a ← ask (RpcBatchCreateEntry es); match a with ReCreated r => mret r | _ => out_of_fuel end;
  rpc_BatchUpdateEntry es :=
    a ← ask (RpcBatchUpdateEntry es); match a with ReStatuses r => mret r | _ => out_of_fuel end;
  rpc_BatchDeleteEntry ids :=
    a ← ask (RpcBatchDeleteEntry ids); match a with ReStatuses r => mret r | _ => out_of_fuel end;
  conn_Close :=
    a ← ask RpcClose; match a with ReClosed r => mret r | _ => out_of_fuel end;
|}.

(** The gRPC client on the wire.  A listing asks for one page more than there
    are replies at most, so its fuel never ends before the replies do. *)
#[export] Instance wire_Client `{!SpiffeID} : Client wire :=
  client_instance (λ o, S (length (replies o))).

(** What the server does with a call. *)
Definition perform {W} `{!EntryService W} (c : rpc) : GoM W reply :=
  match c with
  | RpcListEntries tok n => r ← rpc_ListEntries tok n; mret (ReEntries r)
  | RpcBatchCreateEntry es => r ← rpc_BatchCreateEntry es; mret (ReCreated r)
  | RpcBatchUpdateEntry es => r ← rpc_BatchUpdateEntry es; mret (ReStatuses r)
  | RpcBatchDeleteEntry ids => r ← rpc_BatchDeleteEntry ids; mret (ReStatuses r)
  | RpcClose => r ← conn_Close; mret (ReClosed r)
  end.

(** ** The events the program handles *)

Inductive event :=
| FullCycle
| PodChange (action : string) (obj : object) (clusterName : string)
| IdentityChange (name : string)
| ClusterChange (name : string)
| IdentityDeletion (name : string)
| ClusterDeletion (name : string).

Section pool.
Context `{!SpiffeID, !LabelSelectors, !Regexps, !MapOrder, !Templates, !FloatToInt}.
Context {K : Type} `{!Kube K}.
Variable r : MainReconciler.

(** The handler of an event, over any implementation of the client. *)
Definition handle {S} `{!Client S} (e : event) : GoM (World K S) unit :=
  match e with
  | FullCycle => reconcileAll r
  | PodChange action obj clusterName => pod_event r (mret tt) action obj clusterName
  | IdentityChange name => WorkloadIdentity_Reconcile r name;; mret tt
  | ClusterChange name => EKSClusterRegistry_Reconcile r name;; mret tt
  | IdentityDeletion name => Deletion_ReconcileWorkloadIdentity name;; mret tt
  | ClusterDeletion name => Deletion_ReconcileEKSClusterRegistry name;; mret tt
  end.

(** A handler under way: the event, the world it was started in, and the
    replies it has received. *)
Record thread := { job : event; begin : World K wire; received : list reply }.

Definition run (t : thread) : outcome unit * World K wire :=
  handle (job t) (set_spire {| replies := received t; asked := [] |} (begin t)).

(** The call the handler waits for, if it is waiting. *)
Definition next (t : thread) : option rpc :=
  match run t with
  | (Diverge, w) =>
      if bool_decide (length (asked (spire w)) = S (length (received t)))
      then last (asked (spire w)) else None
  | _ => None
  end.

Definition receive (a : reply) (t : thread) : thread :=
  {| job := job t; begin := begin t; received := received t ++ [a] |}.

Lemma next_asked t w l c :
  run t = (Diverge, w) → asked (spire w) = l ++ [c] → length l = length (received t) →
  next t = Some c.
Proof.
  intros Hrun Hasked Hlen. unfold next. rewrite Hrun, Hasked, length_app, last_snoc.
  rewrite bool_decide_true; [done|simpl; lia].
Qed.

Definition finished (t : thread) : bool := match run t with (Ret _, _) => true | _ => false end.

(** ** The pool *)

Context {V : Type} `{!EntryService V}.

(** A handler may start at any time, for an event and in a world of which [ok]
    holds; a handler that waits may get its call through. *)
Inductive pool_step (ok : event → World K wire → Prop) : list thread * V → list thread * V → Prop :=
| step_start ts v e w :
    ok e w →
    pool_step ok (ts, v) (ts ++ [{| job := e; begin := w; received := [] |}], v)
| step_call ts v i t c a v' :
    ts !! i = Some t → next t = Some c → perform c v = (Ret a, v') →
    pool_step ok (ts, v) (<[i := receive a t]> ts, v').

Definition reachable (ok : event → World K wire → Prop) : list thread * V → list thread * V → Prop :=
  rtc (pool_step ok).

(** The pool as a program: the handlers take turns in the order of [is]. *)
Fixpoint take_turns (is_ : list nat) (p : list thread * V) : option (list thread * V) :=
  match is_ with
  | [] => Some p
  | i :: is_ =>
      t ← p.1 !! i;
      c ← next t;
      match perform c p.2 with
      | (Ret a, v) => take_turns is_ (<[i := receive a t]> p.1, v)
      | _ => None
      end
  end.

Lemma take_turns_reachable ok is_ p p' : take_turns is_ p = Some p' → reachable ok p p'.
Proof.
  revert p. induction is_ as [|i is_ IH]; intros [ts v]; simpl; [intros [= ->]; apply rtc_refl|].
  destruct (ts !! i) as [t|] eqn:Hi; [|done]. simpl. destruct (next t) as [c|] eqn:Hc; [|done]. simpl.
  destruct (perform c v) as [[a| |] v'] eqn:Hp; [|done..]. intros Hs.
  eapply rtc_l; [by eapply step_call|]. by apply IH.
Qed.

Lemma start_reachable ok ts v e w :
  ok e w → reachable ok (ts, v) (ts ++ [{| job := e; begin := w; received := [] |}], v).
Proof. intros Hw. by apply rtc_once, step_start. Qed.
End pool.

(** ** What a handler asks for

    [asks m Q w]: as long as the replies satisfy [good], every call [m] makes
    satisfies [fit], and if [m] returns, the result and the world satisfy
    [Q].  The handler may also wait, or panic. *)
Section asks.
Context `{!LabelSelectors} {K : Type} `{!Kube K}.
Variables (good : reply → Prop) (fit : rpc → Prop).

Definition guarded (o : wire) : Prop := Forall good (replies o) ∧ Forall fit (asked o).

Definition asks_wire {A} (m : GoM wire A) (Q : A → Prop) : Prop :=
  ∀ o, guarded o → let '(res, o') := m o in guarded o' ∧ ∀ a, res = Ret a → Q a.

Definition asks {A} (m : GoM (World K wire) A) (Q : A → World K wire → Prop)
    (w : World K wire) : Prop :=
  guarded (spire w) →
  let '(res, w') := m w in guarded (spire w') ∧ ∀ a, res = Ret a → Q a w'.

(** *** Rules *)

Lemma asks_wire_ret {A} (a : A) (Q : A → Prop) : Q a → asks_wire (mret a) Q.
Proof. intros HQ o Ho. split; [done|]. by intros ? [= <-]. Qed.

Lemma asks_wire_bind {A B} (m : GoM wire A) (f : A → GoM wire B) P Q :
  asks_wire m P → (∀ a, P a → asks_wire (f a) Q) → asks_wire (m ≫= f) Q.
Proof.
  intros Hm Hf o Ho. unfold mbind, GoM_bind. specialize (Hm o Ho).
  destruct (m o) as [[a| |] o'], Hm as [Ho' HP]; [|by split..].
  by apply Hf; [apply HP|].
Qed.

Lemma asks_wire_stop {A} (Q : A → Prop) : asks_wire out_of_fuel Q.
Proof. intros o Ho. by split. Qed.

Lemma asks_wire_pure {A} (o : outcome A) (Q : A → Prop) :
  (∀ a, o = Ret a → Q a) → asks_wire (pure o) Q.
Proof. intros HQ o' Ho. by split. Qed.

Lemma asks_wire_mono {A} (m : GoM wire A) (P Q : A → Prop) :
  asks_wire m P → (∀ a, P a → Q a) → asks_wire m Q.
Proof.
  intros Hm HPQ o Ho. specialize (Hm o Ho). destruct (m o) as [res o'], Hm as [? HP].
  split; [done|]. intros a Ha. by apply HPQ, HP.
Qed.

Lemma asks_wire_ask c : fit c → asks_wire (ask c) good.
Proof.
  intros Hc [rs as_] [Hrs Has]. unfold ask. simpl in *.
  assert (Forall fit (as_ ++ [c])) by (by apply Forall_app; split; [|apply Forall_singleton]).
  destruct rs as [|a rs]; [by split|]. apply Forall_cons in Hrs as [Ha Hrs].
  split; [by split|]. by intros ? [= <-].
Qed.

Lemma asks_ret {A} (a : A) (Q : A → World K wire → Prop) w : Q a w → asks (mret a) Q w.
Proof. intros HQ Ho. split; [done|]. by intros ? [= <-]. Qed.

Lemma asks_bind {A B} (m : GoM (World K wire) A) (f : A → GoM (World K wire) B) Q w :
  asks m (λ a w', asks (f a) Q w') w → asks (m ≫= f) Q w.
Proof.
  intros Hm Ho. unfold mbind, GoM_bind. specialize (Hm Ho).
  destruct (m w) as [[a| |] w'], Hm as [Ho' HP]; [|by split..]. by apply (HP a).
Qed.

Lemma asks_mono {A} (m : GoM (World K wire) A) (P Q : A → World K wire → Prop) w :
  asks m P w → (∀ a w', P a w' → Q a w') → asks m Q w.
Proof.
  intros Hm HPQ Ho. specialize (Hm Ho). destruct (m w) as [res w'], Hm as [? HP].
  split; [done|]. intros a Ha. by apply HPQ, HP.
Qed.

Lemma asks_on_spire {A} (m : GoM wire A) (P : A → Prop) (Q : A → World K wire → Prop) w :
  asks_wire m P → (∀ a o, P a → Q a (set_spire o w)) → asks (on_spire m) Q w.
Proof.
  intros Hm HQ Ho. unfold on_spire, lift. specialize (Hm (spire w) Ho).
  destruct (m (spire w)) as [res o'], Hm as [? HP]. split; [done|]. intros a Ha. by apply HQ, HP.
Qed.

Lemma asks_outside {A} (f : K → A * K) (Q : A → World K wire → Prop) w :
  Q (f (kube w)).1 (set_kube (f (kube w)).2 w) → asks (outside f) Q w.
Proof.
  unfold asks, outside. destruct (f (kube w)) as [a k]. intros HQ Ho.
  split; [done|]. by intros ? [= <-].
Qed.

Lemma asks_pure {A} (o : outcome A) (Q : A → World K wire → Prop) w :
  (∀ a, o = Ret a → Q a w) → asks (pure o) Q w.
Proof. intros HQ Ho. by split. Qed.

(** A part that makes no call. *)
Lemma asks_wp {A} (m : GoM (World K wire) A) (Q : A → World K wire → Prop) w :
  wp m (λ a w', spire w' = spire w ∧ Q a w') w → asks m Q w.
Proof.
  intros (a & w' & Hm & Hs & HQ)%wp_run Ho. rewrite Hm, Hs.
  split; [done|]. by intros ? [= <-].
Qed.

(** The same for a part that may panic, after which nothing is asked. *)
Lemma asks_wpx {A} (m : GoM (World K wire) A) (Q : A → World K wire → Prop) (P : World K wire → Prop) w :
  wpx m (λ a w', spire w' = spire w ∧ Q a w') (λ w', spire w' = spire w ∧ P w') w → asks m Q w.
Proof.
  unfold wpx. intros Hm Ho. destruct (m w) as [[a| |] w']; [|by destruct Hm as [-> _]|done].
  destruct Hm as [-> HQ]. split; [done|]. by intros ? [= <-].
Qed.

Lemma asks_get (Q : World K wire → World K wire → Prop) w : Q w w → asks get_world Q w.
Proof. intros HQ Ho. split; [done|]. by intros ? [= <-]. Qed.

Lemma asks_for_each {A} (I : World K wire → Prop) (l : list A) body w :
  I w → (∀ x w', x ∈ l → I w' → asks (body x) (λ _, I) w') →
  asks (for_each l body) (λ _, I) w.
Proof.
  revert w. induction l as [|x l IH]; intros w Hw Hbody; [by apply asks_ret|].
  cbn [for_each]. apply asks_bind. eapply asks_mono; [by apply Hbody; [left|]|].
  cbn beta. intros u w' Hw'. apply IH; [done|]. intros. apply Hbody; [by right|done].
Qed.

Lemma asks_fold_each {A T} (I : T → World K wire → Prop) (l : list A) t body w :
  I t w → (∀ x t w', x ∈ l → I t w' → asks (body x t) I w') →
  asks (fold_each l t body) I w.
Proof.
  revert t w. induction l as [|x l IH]; intros t w Hw Hbody; [by apply asks_ret|].
  cbn [fold_each]. apply asks_bind. eapply asks_mono; [by apply Hbody; [left|]|].
  intros t' w' Hw'. apply IH; [done|]. intros. apply Hbody; [by right|done].
Qed.
End asks.
