(* ===== verification/CallFacts.v ===== *)
(** * The calls the handlers make

    Each handler deletes only entries that are the registrar's own or that
    carry the hint of a resource, and creates and updates only entries
    rendered for a running pod, whatever the server replies and whatever else
    runs, as long as the server lists what is registered. *)

From S2P Require Export Interleave TargetedFacts.

Local Open Scope Z_scope.

(** What the outside hands out satisfies some predicates: the resources of the
    registrar, the pods of a cluster, by its name, the nodes, by theirs, and the
    informers, which hold the pods of the cluster they were made for.  A
    predicate may be that the API served the object at some time. *)
Class KnownResources `{!LabelSelectors} (K : Type) `{!Kube K} := {
  known_identity : WorkloadIdentity → Prop;
  known_cluster : EKSClusterRegistry → Prop;
  known_pod : string → Pod → Prop;
  known_node : string → Node → Prop;
  informs : SharedIndexInformer → string → Prop;
  known_List_WI k is_ k' : List_WorkloadIdentities k = (OK is_, k') → Forall known_identity is_;
  known_Get_WI n k i k' : Get_WorkloadIdentity n k = (OK i, k') → known_identity i;
  known_List_EKS k cs k' : List_EKSClusterRegistries k = (OK cs, k') → Forall known_cluster cs;
  known_Get_EKS n k c k' : Get_EKSClusterRegistry n k = (OK c, k') → known_cluster c;
  known_Nodes_Get c n k node k' : Nodes_Get c n k = (OK node, k') → known_node n node;
  informs_new c n k : informs (NewSharedIndexInformer c n k).1 n;
  informs_list i n k pod : informs i n → ObjPod pod ∈ (Store_List i k).1 → known_pod n pod;
}.

(** ** Parts that leave the connections alone *)

Section keeps.
Context `{!LabelSelectors} {K S : Type} `{!Kube K}.

Definition keeps {A} (m : GoM (World K S) A) : Prop := ∀ w, clusters (m w).2 = clusters w.

Lemma keeps_ret {A} (a : A) : keeps (mret a).
Proof. done. Qed.
Lemma keeps_pure {A} (o : outcome A) : keeps (pure o).
Proof. done. Qed.
Lemma keeps_get : keeps get_world.
Proof. done. Qed.
Lemma keeps_outside {A} (f : K → A * K) : keeps (outside f).
Proof. intros w. unfold outside. by destruct (f (kube w)). Qed.
Lemma keeps_on_spire {A} (m : GoM S A) : keeps (on_spire m).
Proof. intros w. unfold on_spire, lift. by destruct (m (spire w)). Qed.
Lemma keeps_bind {A B} (m : GoM (World K S) A) (f : A → GoM (World K S) B) :
  keeps m → (∀ a, keeps (f a)) → keeps (m ≫= f).
Proof.
  intros Hm Hf w. specialize (Hm w). unfold mbind, GoM_bind.
  destruct (m w) as [[a| |] w1]; [|done..]. by rewrite Hf.
Qed.
Lemma keeps_for_each {A} (l : list A) (body : A → GoM (World K S) unit) :
  (∀ x, keeps (body x)) → keeps (for_each l body).
Proof. intros Hb. induction l; simpl; [apply keeps_ret|by apply keeps_bind]. Qed.
End keeps.

Ltac solve_keeps :=
  repeat first
    [ progress intros
    | assumption
    | apply keeps_ret | apply keeps_pure | apply keeps_get | apply keeps_outside
    | apply keeps_on_spire
    | apply keeps_bind
    | apply keeps_for_each
    | case_match ].

Section calls.
Context `{!SpiffeID, !LabelSelectors, !Regexps, !MapOrder, !Templates, !FloatToInt}.
Context {K : Type} `{!Kube K, !KnownResources K}.
Variable r : MainReconciler.
(** The entries registered at the start. *)
Variable m0 : gmap string Entry.
Implicit Types (w : World K wire) (e : Entry).

(** [e] carries the hint of a resource, as one of the handlers reads it; the
    controllers also act on the empty objects. *)
Definition claimed e : Prop :=
  (∃ i, (known_identity i ∨ i = empty_WorkloadIdentity) ∧
     (entryBelongsToIdentity e i = true ∨ owned_by "WorkloadIdentity" (WI_Name i) e = true)) ∨
  (∃ c, (known_cluster c ∨ c = empty_EKSClusterRegistry) ∧
     (entryBelongsToCluster e c = true ∨ owned_by "EKSClusterRegistry" (EKS_Name c) e = true)).

Definition deletable (k : string) : Prop :=
  managed r k = true ∨ ∃ e, m0 !! k = Some e ∧ claimed e.

(** A missing pod selector selects every pod for some handlers. *)
Definition selects identity pod : Prop :=
  PodSelector (WI_Spec identity) = None ∨
  ∃ sel, LabelSelectorAsSelector (PodSelector (WI_Spec identity)) = OK sel ∧
    Matches sel (Labels (Pod_ObjectMeta pod)) = true.

(** [e] is what an identity asks for a running pod it selects, where all are
    known: the pod is one of the cluster's, and the node is the pod's. *)
Definition asked_for e : Prop := ∃ identity cluster pod node,
  known_identity identity ∧ known_cluster cluster ∧ known_pod (EKS_Name cluster) pod ∧
  known_node (NodeName (Pod_Spec pod)) node ∧ shouldProcessIdentity identity cluster = true ∧
  Pod_Namespace pod = Spec_Namespace (WI_Spec identity) ∧ selects identity pod ∧
  pod_is_placed pod = true ∧
  RenderEntry identity cluster pod node (TrustDomain_String (MR_TrustDomain r)) = OK e.

Definition intended e : Prop := ∃ e', asked_for e' ∧ e = set_ID (declared_ID (EntryIDPrefix r) e') e'.

(** An entry the registrar may see: one of its own, or one that was there. *)
Definition visible e : Prop := managed r (Entry_ID e) = true ∨ m0 !! Entry_ID e = Some e.

Definition good (a : reply) : Prop :=
  match a with
  | ReEntries (OK (es, _)) => ∀ x e, x ∈ es → fromAPIEntry x = Ret (OK e) → visible e
  | _ => True
  end.

Definition fit (c : rpc) : Prop :=
  match c with
  | RpcListEntries _ _ => True
  | RpcBatchCreateEntry es | RpcBatchUpdateEntry es => ∃ e, intended e ∧ es = [toAPIEntry e]
  | RpcBatchDeleteEntry ids => Forall deletable ids
  | RpcClose => False
  end.

#[local] Notation asks_wire := (asks_wire good fit).
#[local] Notation asks := (asks good fit).

(** ** The client *)

Lemma convert_page_visible es l tok :
  good (ReEntries (OK (es, tok))) → convert_page es = Ret (OK l) → Forall visible l.
Proof.
  simpl. revert l. induction es as [|x es IH]; intros l Hgood; simpl.
  - intros [= <-]. constructor.
  - destruct (fromAPIEntry x) as [[e|err]| |] eqn:He; simpl; [|done..].
    destruct (convert_page es) as [[l'|err]| |]; simpl; [|done..]. intros [= <-].
    constructor; [by eapply Hgood; [left|]|]. apply IH; [|done]. intros. eapply Hgood; [by right|done].
Qed.

Lemma asks_ListEntries : asks_wire ListEntries (λ res, ∀ es, res = OK es → Forall visible es).
Proof.
  intros o. cbn [ListEntries wire_Client client_instance]. generalize (S (length (replies o))).
  intros fuel. unfold client_ListEntries. revert o.
  assert (∀ tok acc, Forall visible acc →
    asks_wire (ListEntries_loop fuel tok acc) (λ res, ∀ es, res = OK es → Forall visible es))
    as Hgen; [|by apply Hgen].
  induction fuel as [|fuel IH]; intros tok acc Hacc; cbn [ListEntries_loop]; [apply asks_wire_stop|].
  eapply (asks_wire_bind _ _ _ _ (λ res, good (ReEntries res))).
  { simpl. eapply asks_wire_bind; [by apply asks_wire_ask|].
    intros [] Ha; [by apply asks_wire_ret|apply asks_wire_stop..]. }
  intros [[page tok']|err] Hgood; [|by apply asks_wire_ret].
  eapply (asks_wire_bind _ _ _ _ (λ res, ∀ es, res = OK es → Forall visible es)).
  - apply asks_wire_pure. intros res Hres es ->. by eapply convert_page_visible.
  - intros [es|err] Hes; [|by apply asks_wire_ret].
    assert (Forall visible (acc ++ es)) by (apply Forall_app; split; [done|by apply Hes]).
    case_bool_decide; [|by apply IH]. apply asks_wire_ret. by intros ? [= <-].
Qed.

(** A call with statuses in the reply, and nothing to know about the result. *)
Lemma asks_any {A B} c (f : reply → GoM wire A) (g : A → GoM wire B) :
  fit c → (∀ a, asks_wire (f a) (λ _, True)) → (∀ a, asks_wire (g a) (λ _, True)) →
  asks_wire (x ← (a ← ask c; f a); g x) (λ _, True).
Proof.
  intros Hc Hf Hg. eapply asks_wire_bind.
  - eapply asks_wire_bind; [by apply asks_wire_ask|]. intros a _. apply Hf.
  - intros x _. apply Hg.
Qed.

#[local] Hint Resolve asks_wire_stop : core.

Lemma asks_CreateEntry e : intended e → asks_wire (CreateEntry e) (λ _, True).
Proof.
  intros He. simpl. unfold client_CreateEntry. apply asks_any.
  - simpl. eauto.
  - intros []; auto using asks_wire_ret.
  - intros [[|[[st|] ?] ?]|]; simpl; try by apply asks_wire_ret.
    + do 2 (case_bool_decide; try by apply asks_wire_ret).
    + intros o Ho. by split.
Qed.

Lemma asks_UpdateEntry e : intended e → asks_wire (UpdateEntry e) (λ _, True).
Proof.
  intros He. simpl. unfold client_UpdateEntry. apply asks_any.
  - simpl. eauto.
  - intros []; auto using asks_wire_ret.
  - intros [sts|]; [by apply asks_wire_pure|by apply asks_wire_ret].
Qed.

Lemma asks_DeleteEntry k : deletable k → asks_wire (DeleteEntry k) (λ _, True).
Proof.
  intros Hk. simpl. unfold client_DeleteEntry. apply asks_any.
  - by apply Forall_singleton.
  - intros []; auto using asks_wire_ret.
  - intros [sts|]; [by apply asks_wire_pure|by apply asks_wire_ret].
Qed.

(** The loop over the statuses does not touch the wire. *)
Lemma statuses_keep_wire {A} (l : list A) (body : A → GoM (wire * list Status) unit) s :
  (∀ x s, (body x s).2.1 = s.1) → (for_each l body s).2.1 = s.1.
Proof.
  intros Hbody. revert s. induction l as [|x l IH]; intros s; [done|].
  cbn [for_each]. unfold mbind, GoM_bind. pose proof (Hbody x s) as Hx.
  destruct (body x s) as [[] s']; simpl in *; [by rewrite IH|done..].
Qed.

Lemma delete_batch_guarded ids o sts :
  Forall deletable ids → guarded good fit o → guarded good fit (delete_batch ids (o, sts)).2.1.
Proof.
  intros Hids Ho. unfold delete_batch, on_server, lift.
  assert (asks_wire (rpc_BatchDeleteEntry ids) (λ _, True)) as Hask.
  { simpl. eapply asks_wire_bind; [by apply asks_wire_ask|].
    intros [] _; auto using asks_wire_ret. }
  specialize (Hask o Ho). unfold mbind at 1, GoM_bind at 1. cbn [fst snd].
  destruct (rpc_BatchDeleteEntry ids o) as [[[results|err]| |] o'], Hask as [Ho' _]; try done.
  unfold mbind, GoM_bind. cbn [fst snd]. set (body := λ _, _).
  assert ((for_each (enumerate results) body (o', sts)).2.1 = o') as Hloop.
  { apply statuses_keep_wire. intros [i st] s. subst body.
    unfold append_status, modify_world, index_check. simpl. by case_bool_decide. }
  destruct (for_each _ _ _) as [[] [o2 sts2]]; simpl in *; by subst.
Qed.

Lemma asks_BatchDeleteEntries ids : Forall deletable ids → asks_wire (BatchDeleteEntries ids) (λ _, True).
Proof.
  intros Hids o Ho. simpl. unfold client_BatchDeleteEntries, run_batches.
  destruct (runBatch_lists (W:=wire * list Status) ids entryDeleteBatchSize delete_batch)
    as (ls & Hls & _ & Hrun). rewrite Hrun.
  assert (Forall (Forall deletable) ls) as Hall.
  { apply Forall_forall. intros l Hl. apply Forall_forall. intros k Hk.
    eapply (proj1 (Forall_forall _ _) Hids). rewrite <-Hls. apply list_elem_of_join. by exists l. }
  clear Hls Hrun. generalize (@nil Status) as sts. revert o Ho.
  induction Hall as [|l ls Hl _ IH]; intros o Ho sts; [by split|]. cbn [run_lists].
  unfold mbind, GoM_bind. pose proof (delete_batch_guarded l o sts Hl Ho) as Hg.
  destruct (delete_batch l (o, sts)) as [[[err|]| |] [o' sts']]; simpl in Hg; [by split| |by split..].
  by apply IH.
Qed.
(** ** The handlers *)

(** The connections are to known clusters, and their informers are for them. *)
Definition linked w : Prop := ∀ k conn, clusters w !! k = Some conn →
  EKS_Name (Cluster conn) = k ∧ known_cluster (Cluster conn) ∧ informs (PodInformer conn) k.

Lemma linked_ext w w' : clusters w' = clusters w → linked w → linked w'.
Proof. unfold linked. by intros ->. Qed.

Lemma asks_linked {A} (m : GoM (World K wire) A) (Q : A → World K wire → Prop) w :
  keeps m → linked w → asks m Q w → asks m (λ _, linked) w.
Proof.
  intros Hkeep Hw Hm Ho. specialize (Hm Ho). specialize (Hkeep w). destruct (m w) as [res w'].
  destruct Hm as [Ho' _]. split; [done|]. intros _ _. by eapply linked_ext.
Qed.

(** Updating a known cluster keeps the connections so. *)
Lemma only_cluster_linked cluster w w' :
  known_cluster cluster → only_cluster cluster w w' → linked w → linked w'.
Proof.
  intros Hknown (_ & _ & _ & Hother & Hthis & _) Hw k conn Hk.
  destruct (decide (k = EKS_Name cluster)) as [->|Hne].
  - destruct (Hthis conn Hk) as [Hcl [(conn0 & H0' & _ & Heq)|(k' & _ & Hinf)]]; rewrite Hcl.
    + subst conn. split_and!; [done..|]. by apply (Hw _ _ H0').
    + split_and!; [done..|]. rewrite Hinf. apply informs_new.
  - apply Hw. by rewrite <-Hother.
Qed.

Lemma asks_AddOrUpdateCluster cluster w :
  manager_wf w → linked w → known_cluster cluster →
  asks (AddOrUpdateCluster cluster) (λ _ w', manager_wf w' ∧ linked w') w.
Proof.
  intros Hwf Hl Hknown. eapply (asks_wpx _ _ _ _ (λ _, True)).
  eapply wpx_mono; [by apply AddOrUpdateCluster_wp|..].
  - intros res w' [Hpost _]. pose proof (only_cluster_linked _ _ _ Hknown Hpost Hl).
    by destruct Hpost as (? & ? & _).
  - intros w' [(_ & ? & _) _]. done.
Qed.

(** A call of the client whose result is dropped. *)
Lemma asks_call {A} (m : GoM wire A) (P : World K wire → Prop) w :
  asks_wire m (λ _, True) → (∀ o, P (set_spire o w)) → asks (on_spire m;; mret tt) (λ _, P) w.
Proof.
  intros Hm HP. apply asks_bind. eapply asks_on_spire; [done|]. intros ? ? _. by apply asks_ret.
Qed.

(** Handlers need nothing of the worlds they pass through. *)
#[local] Notation done_with := (λ _ _, True).

Lemma asks_delete_where (p : Entry → bool) w :
  (∀ e, visible e → p e = true → deletable (Entry_ID e)) → asks (delete_where p) done_with w.
Proof.
  intros Hp. unfold delete_where. apply asks_bind. eapply asks_on_spire; [apply asks_ListEntries|].
  intros [es|err] o Hes; [|by apply asks_ret]. specialize (Hes es eq_refl).
  apply (asks_for_each _ _ (λ _, True)); [done|]. intros e w' He _.
  destruct (p e) eqn:Hpe; [|by apply asks_ret]. apply asks_call; [|done].
  apply asks_DeleteEntry, Hp; [|done]. by eapply Forall_forall.
Qed.

Lemma visible_managed e : managed r (Entry_ID e) = true → deletable (Entry_ID e).
Proof. by left. Qed.

Lemma visible_claimed e : visible e → claimed e → deletable (Entry_ID e).
Proof. intros [He|He] Hc; [by left|right; eauto]. Qed.

(** *** The full cycle *)

Lemma current_managed es s k :
  is_Some (current (add_current_entries r es s) !! k) → is_Some (current s !! k) ∨ managed r k = true.
Proof.
  revert s. induction es as [|e es IH]; intros s; simpl; [by left|]. intros [Hk|]%IH; [|by right].
  rewrite shouldProcessEntry_managed in Hk. destruct (managed r (Entry_ID e)) eqn:Hm; [|by left].
  simpl in Hk. destruct (decide (k = Entry_ID e)) as [->|Hne]; [by right|].
  rewrite lookup_insert_ne in Hk by done. by left.
Qed.

Context `{!MapOrderLaws}.

Lemma declarable_asked_for w identities (k0 k1 : K) e :
  linked w → Forall known_identity identities →
  declarable r (range_map (clusters w)).*2 identities k0 k1 e → asked_for e.
Proof.
  intros Hl Hknown (conn & identity & Hconn & Hin & [Hshould _
    (sel & pod & node & kp & kn & Hsel & _ & _ & _ & Hpod & Hns & Hm & Hp & Hnode & He)]).
  apply list_elem_of_fmap in Hconn as ([k conn'] & -> & Hk%elem_of_range_map). simpl in *.
  destruct (Hl _ _ Hk) as (Hname & Hcl & Hinf).
  exists identity, (Cluster conn'), pod, node. split_and!; try done.
  - by eapply Forall_forall.
  - rewrite Hname. by eapply informs_list.
  - eapply (known_Nodes_Get _ _ kn). rewrite <-Hnode. apply surjective_pairing.
  - right. by exists sel.
Qed.

Lemma asks_applyEntryChanges es ds w :
  Forall asked_for ds → asks (applyEntryChanges (cycle_state r es ds)) done_with w.
Proof.
  intros Hds. destruct (cycle_state_keeps r es ds) as (Hwf & _ & Hcur). unfold applyEntryChanges.
  pose proof (λ e, elem_of_toCreate _ e Hwf) as Hc. pose proof (λ e, elem_of_toUpdate _ e Hwf) as Hu.
  pose proof (λ e, elem_of_toDelete _ e Hwf) as Hd.
  assert (∀ e k, declared (cycle_state r es ds) !! k = Some e → intended e) as Hint.
  { intros e k (e' & Hin & -> & ->)%declared_cycle_state. exists e'.
    split; [by eapply Forall_forall|done]. }
  destruct (GetChanges _) as [[cr up] de]. simpl in *.
  apply asks_bind. eapply asks_mono.
  { apply (asks_for_each _ _ (λ _, True)); [done|]. intros e w' [Hin _]%Hd _. apply asks_call; [|done].
    apply asks_DeleteEntry. left. rewrite Hcur in Hin.
    destruct (current_managed es (NewEntriesStateWithPrefix (EntryIDPrefix r)) (Entry_ID e)) as [Hk|];
      [eauto| |done].
    simpl in Hk. rewrite lookup_empty in Hk. by destruct Hk. }
  intros _ w1 _. apply asks_bind. eapply asks_mono.
  { apply (asks_for_each _ _ (λ _, True)); [done|]. intros e w' [Hin _]%Hc _. apply asks_call; [|done].
    by eapply asks_CreateEntry, Hint. }
  intros _ w2 _. apply (asks_for_each _ _ (λ _, True)); [done|]. intros e w' [Hin _]%Hu _.
  apply asks_call; [|done]. by eapply asks_UpdateEntry, Hint.
Qed.

Lemma asks_reconcileEntries cls w : linked w → asks (reconcileEntries r cls) done_with w.
Proof.
  intros Hl. unfold reconcileEntries. apply asks_bind, asks_outside.
  destruct (List_WorkloadIdentities (kube w)) as [[identities|err] k1] eqn:Hlist; simpl;
    [|by apply asks_ret].
  pose proof (known_List_WI _ _ _ Hlist) as Hknown.
  apply asks_bind. eapply asks_on_spire; [apply asks_ListEntries|].
  intros [es|err] o _; [|by apply asks_ret].
  apply asks_bind, asks_wp, GetAllConnections_wp. split; [done|]. apply asks_bind.
  apply asks_wp. eapply wp_mono; [apply (process_all_wp r k1); apply rtc_refl|].
  intros s w1 ([_ Hs1]%only_kube_manager & _ & ds & Hds & ->). split; [done|].
  apply asks_bind. eapply asks_mono.
  - apply asks_applyEntryChanges. eapply Forall_impl; [done|]. intros e He.
    by eapply (declarable_asked_for w).
  - intros _ w2 _. apply asks_wp. eapply wp_mono; [apply updateStatuses_only_kube|].
    by intros _ w3 [_ Hs3]%only_kube_manager.
Qed.

Lemma asks_reconcileAll w : manager_wf w → linked w → asks (reconcileAll r) done_with w.
Proof.
  intros Hwf Hl. unfold reconcileAll. apply asks_bind, asks_outside.
  destruct (List_EKSClusterRegistries (kube w)) as [[cls|err] k1] eqn:Hlist; simpl;
    [|by apply asks_ret].
  pose proof (known_List_EKS _ _ _ Hlist) as Hknown. apply asks_bind. eapply asks_mono.
  - apply (asks_for_each _ _ (λ w, manager_wf w ∧ linked w)).
    { split; [by eapply manager_wf_ext; last done|by eapply linked_ext; last done]. }
    intros cl w' Hin [Hwf' Hl']. apply asks_bind.
    eapply asks_mono; [apply asks_AddOrUpdateCluster; [done..|by eapply Forall_forall]|].
    intros res w2 Hw2. by apply asks_ret.
  - cbn beta. intros u w1 [Hwf1 Hl1]. apply asks_bind, asks_wp.
    eapply wp_mono; [by apply remove_stale_clusters_wp|]. intros _ w2 (_ & Hs2 & _ & Hc2).
    split; [done|]. apply asks_reconcileEntries. intros k conn. rewrite Hc2.
    destruct (existingClusters cls k); [apply Hl1|done].
Qed.

(** *** The targeted handlers *)

Lemma asks_reconcilePodEntry pod node identity cluster w :
  (∀ e, RenderEntry identity cluster pod node (TrustDomain_String (MR_TrustDomain r)) = OK e →
     asked_for e) →
  asks (reconcilePodEntry r pod node identity cluster) done_with w.
Proof.
  intros Hrender. unfold reconcilePodEntry. destruct (RenderEntry _ _ _ _ _) as [e|err] eqn:He;
    [|by apply asks_ret].
  assert (intended (set_ID (entry_ID_for r e) e)) as Hint by (exists e; split; [by apply Hrender|done]).
  apply asks_bind. eapply asks_on_spire; [apply asks_ListEntries|]. intros res o _.
  destruct (List.find _ _) as [existing|] eqn:Hf.
  - apply List.find_some in Hf as [_ Hid%bool_decide_eq_true]. simpl in Hid. rewrite Hid.
    case_bool_decide; [|by apply asks_ret]. apply asks_call; [|done]. by apply asks_UpdateEntry.
  - apply asks_call; [|done]. by apply asks_CreateEntry.
Qed.

Lemma asks_findMatchingClusters identity (Q : list EKSClusterRegistry → World K wire → Prop) w :
  (∀ cls w', same_manager w w' →
     (∀ c, c ∈ cls → known_cluster c ∧ shouldProcessIdentity identity c = true) → Q cls w') →
  asks (findMatchingClusters identity) Q w.
Proof.
  intros HQ. unfold findMatchingClusters, list_clusters. apply asks_bind, asks_bind, asks_outside.
  do 2 apply asks_ret. apply HQ; [done|].
  intros c [Hc Hin]%list_elem_of_filter. apply andb_true_iff in Hc as [_ Hc]. split; [|done].
  destruct (List_EKSClusterRegistries (kube w)) as [[cls|err] k] eqn:Hl; simpl in Hin; [|set_solver].
  apply known_List_EKS in Hl. by eapply Forall_forall.
Qed.

Lemma asks_list_identities (Q : list WorkloadIdentity → World K wire → Prop) w :
  (∀ is_ w', same_manager w w' → Forall known_identity is_ → Q is_ w') → asks list_identities Q w.
Proof.
  intros HQ. unfold list_identities. apply asks_bind, asks_outside, asks_ret.
  destruct (List_WorkloadIdentities (kube w)) as [[is_|err] k] eqn:Hl; simpl; apply HQ; try done.
  by eapply known_List_WI.
Qed.

Lemma asks_findIdentitiesForCluster cluster (Q : list WorkloadIdentity → World K wire → Prop) w :
  (∀ is_ w', same_manager w w' →
     Forall (λ i, known_identity i ∧ shouldProcessIdentity i cluster = true) is_ → Q is_ w') →
  asks (findIdentitiesForCluster cluster) Q w.
Proof.
  intros HQ. unfold findIdentitiesForCluster. apply asks_bind, asks_list_identities.
  intros is_ w' Hw' Hknown. apply asks_ret, HQ; [done|]. apply Forall_forall.
  intros i [Hi Hin]%list_elem_of_filter. split; [by eapply Forall_forall|done].
Qed.

(** What the pods of a store have to do with the cluster and the identity. *)
Definition pods_of (name : string) identity (pods : list Pod) : Prop :=
  Forall (λ pod, known_pod name pod ∧
    Pod_Namespace pod = Spec_Namespace (WI_Spec identity) ∧ selects identity pod) pods.

Lemma asks_getMatchingPods conn identity name (Q : list Pod → World K wire → Prop) w :
  informs (PodInformer conn) name →
  (∀ pods w', clusters w' = clusters w → pods_of name identity pods → Q pods w') →
  asks (getMatchingPods conn identity) Q w.
Proof.
  intros Hinf HQ. unfold getMatchingPods. destruct (LabelSelectorAsSelector _) as [sel|err] eqn:Hsel.
  - apply asks_bind, asks_outside, asks_ret, HQ; [done|]. apply Forall_forall.
    intros pod (Hpod & Hns & Hm)%elem_of_select_pods. split_and!; [by eapply informs_list|done|].
    right. eauto.
  - apply asks_ret, HQ; [done|constructor].
Qed.

(** A part that does not ask. *)
Lemma asks_getMatchingPods_any conn identity w : asks (getMatchingPods conn identity) done_with w.
Proof.
  unfold getMatchingPods. destruct (LabelSelectorAsSelector _); [|by apply asks_ret].
  by apply asks_bind, asks_outside, asks_ret.
Qed.

Lemma asks_reconcile_pods conn identity cluster pods w :
  known_identity identity → known_cluster cluster → shouldProcessIdentity identity cluster = true →
  pods_of (EKS_Name cluster) identity pods →
  asks (reconcile_pods r conn identity cluster pods) done_with w.
Proof.
  intros Hknown Hcl Hshould Hpods. apply (asks_for_each _ _ (λ _, True)); [done|].
  intros pod w' Hin _. destruct (pod_is_placed pod) eqn:Hp; simpl; [|by apply asks_ret].
  apply asks_bind, asks_outside.
  destruct (Nodes_Get _ _ _) as [[node|err] k] eqn:Hnode; simpl; [|by apply asks_ret].
  apply known_Nodes_Get in Hnode. apply asks_reconcilePodEntry. intros e He.
  destruct (proj1 (Forall_forall _ _) Hpods pod Hin) as (Hpod & Hns & Hsel).
  by exists identity, cluster, pod, node.
Qed.

Lemma keeps_reconcile_pods conn identity cluster pods :
  keeps (S:=wire) (reconcile_pods r conn identity cluster pods).
Proof. unfold reconcile_pods, reconcilePodEntry. solve_keeps. Qed.

Lemma asks_delete_orphans entries belongs uids w :
  Forall visible entries → (∀ e, belongs e = true → claimed e) →
  asks (delete_orphans entries belongs uids) done_with w.
Proof.
  intros Hvis Hclaim. apply (asks_for_each _ _ (λ _, True)); [done|]. intros e w' Hin _.
  destruct (belongs e) eqn:Hb; simpl; [|by apply asks_ret].
  destruct (has_valid_pod uids e); simpl; [by apply asks_ret|]. apply asks_call; [|done].
  apply asks_DeleteEntry, visible_claimed; [by eapply Forall_forall|by apply Hclaim].
Qed.

Lemma asks_valid_uids_of_identity identity w : asks (valid_uids_of_identity identity) done_with w.
Proof.
  unfold valid_uids_of_identity. apply asks_bind, asks_findMatchingClusters. intros cls w' _ _.
  apply (asks_fold_each _ _ (λ _ _, True)); [done|]. intros cl uids w1 _ _.
  apply asks_bind, asks_wp, GetClusterConnection_wp. split; [done|].
  destruct (clusters w1 !! _); [|by apply asks_ret].
  apply asks_bind. eapply asks_mono; [apply asks_getMatchingPods_any|]. intros. by apply asks_ret.
Qed.

Lemma asks_valid_uids_of_cluster cluster w : asks (valid_uids_of_cluster cluster) done_with w.
Proof.
  unfold valid_uids_of_cluster. apply asks_bind, asks_wp, GetClusterConnection_wp. split; [done|].
  destruct (clusters w !! _); [|by apply asks_ret].
  apply asks_bind, asks_findIdentitiesForCluster. intros is_ w' _ _.
  apply (asks_fold_each _ _ (λ _ _, True)); [done|]. intros i uids w1 _ _.
  apply asks_bind. eapply asks_mono; [apply asks_getMatchingPods_any|]. intros. by apply asks_ret.
Qed.

(** Both cleanups list, collect the valid pods and delete. *)
Lemma asks_cleanup uids belongs w :
  (∀ e, belongs e = true → claimed e) → (∀ w', asks uids done_with w') →
  asks (entries ← on_spire ListEntries;
        match entries with
        | ERR _ => mret tt
        | OK entries => validPodUIDs ← uids; delete_orphans entries belongs validPodUIDs
        end) done_with w.
Proof.
  intros Hclaim Huids. apply asks_bind. eapply asks_on_spire; [apply asks_ListEntries|].
  intros [es|err] o Hes; [|by apply asks_ret]. apply asks_bind.
  eapply asks_mono; [apply Huids|]. intros. by apply asks_delete_orphans; [apply Hes|].
Qed.

Lemma identity_claims i e :
  known_identity i ∨ i = empty_WorkloadIdentity → entryBelongsToIdentity e i = true → claimed e.
Proof. left. eauto. Qed.

Lemma cluster_claims c e :
  known_cluster c ∨ c = empty_EKSClusterRegistry → entryBelongsToCluster e c = true → claimed e.
Proof. right. eauto. Qed.

Lemma asks_deleteEntriesForPod pod w : asks (deleteEntriesForPod r pod) done_with w.
Proof.
  apply asks_delete_where. intros e _ [Hm _]%andb_true_iff. apply visible_managed.
  by rewrite <-shouldProcessEntry_managed.
Qed.

Lemma asks_ReconcileWorkloadIdentity identity (deleted : bool) w :
  linked w → known_identity identity ∨ (identity = empty_WorkloadIdentity ∧ deleted = true) →
  asks (ReconcileWorkloadIdentity r identity deleted) done_with w.
Proof.
  intros Hl Hk. unfold ReconcileWorkloadIdentity. destruct deleted.
  { apply asks_delete_where. intros e Hv Hb. apply visible_claimed; [done|].
    eapply identity_claims; [|done]. naive_solver. }
  destruct Hk as [Hk|[_ ?]]; [|done].
  apply asks_bind, asks_findMatchingClusters. intros cls w1 [Hc1 _] Hcls. apply asks_bind. eapply asks_mono.
  - apply (asks_for_each _ _ linked); [by eapply linked_ext|]. intros cl w2 Hin Hl2.
    apply asks_bind, asks_wp, GetClusterConnection_wp. split; [done|].
    destruct (clusters w2 !! _) as [conn|] eqn:Hconn; [|by apply asks_ret].
    destruct (Hl2 _ _ Hconn) as (_ & _ & Hinf). destruct (Hcls cl Hin).
    apply asks_bind. eapply asks_getMatchingPods; [done|]. intros pods w3 Hc3 Hpods.
    eapply asks_linked; [apply keeps_reconcile_pods|by eapply linked_ext|by apply asks_reconcile_pods].
  - intros _ w2 _. apply asks_cleanup; [|intros; apply asks_valid_uids_of_identity].
    intros e. by apply identity_claims; left.
Qed.

Lemma asks_ReconcileEKSCluster cluster (deleted : bool) w :
  manager_wf w → linked w →
  known_cluster cluster ∨ (cluster = empty_EKSClusterRegistry ∧ deleted = true) →
  asks (ReconcileEKSCluster r cluster deleted) done_with w.
Proof.
  intros Hwf Hl Hk. unfold ReconcileEKSCluster. destruct (deleted || negb (Enabled (EKS_Spec cluster))) eqn:Hdel.
  { unfold deleteEntriesForCluster, delete_where.
    apply asks_bind. apply (asks_mono _ _ _ (λ _, manager_wf)).
    - apply asks_bind. eapply asks_on_spire; [apply asks_ListEntries|].
      intros [es|err] o Hes; [|by apply asks_ret, (manager_wf_ext w)]. specialize (Hes es eq_refl).
      apply (asks_for_each _ _ manager_wf); [by apply (manager_wf_ext w)|]. intros e w' He Hwf'.
      destruct (entryBelongsToCluster e cluster) eqn:Hb; [|by apply asks_ret].
      apply asks_call; [|by intros; apply (manager_wf_ext w')].
      apply asks_DeleteEntry, visible_claimed; [by eapply Forall_forall|].
      eapply cluster_claims; [|done]. naive_solver.
    - intros _ w1 Hwf1. apply asks_wp. eapply wp_mono; [by apply RemoveCluster_wp|]. naive_solver. }
  apply orb_false_iff in Hdel as [-> _]. destruct Hk as [Hk|[_ ?]]; [|done].
  apply asks_bind. eapply asks_mono; [by apply asks_AddOrUpdateCluster|].
  intros [err|] w1 [_ Hl1]; [by apply asks_ret|].
  apply asks_bind, asks_wp, GetClusterConnection_wp. split; [done|].
  destruct (clusters w1 !! _) as [conn|] eqn:Hconn; [|by apply asks_ret].
  destruct (Hl1 _ _ Hconn) as (_ & _ & Hinf).
  apply asks_bind, asks_findIdentitiesForCluster. intros is_ w2 _ His. apply asks_bind. eapply asks_mono.
  - apply (asks_for_each _ _ (λ _, True)); [done|]. intros i w3 Hin _.
    apply asks_bind. eapply asks_getMatchingPods; [done|]. intros pods w4 _ Hpods.
    destruct (proj1 (Forall_forall _ _) His i Hin). by apply asks_reconcile_pods.
  - intros _ w3 _. apply asks_cleanup; [|intros; apply asks_valid_uids_of_cluster].
    intros e. by apply cluster_claims; left.
Qed.

(** *** Pod events, the deletion controllers and the resource controllers *)

Lemma matching_identities_Ret pod cluster is_ l :
  matching_identities pod cluster is_ = Ret l →
  Forall (λ i, i ∈ is_ ∧ Pod_Namespace pod = Spec_Namespace (WI_Spec i) ∧
    shouldProcessIdentity i cluster = true ∧ selects i pod) l.
Proof.
  revert l. induction is_ as [|i is_ IH]; intros l; [by intros [= <-]|].
  assert (∀ l, matching_identities pod cluster is_ = Ret l → Forall (λ j, j ∈ i :: is_ ∧
    Pod_Namespace pod = Spec_Namespace (WI_Spec j) ∧ shouldProcessIdentity j cluster = true ∧
    selects j pod) l) as IH'.
  { intros l' Hl. eapply Forall_impl; [by apply IH|]. intros j (? & ?). split; [by right|done]. }
  cbn [matching_identities]. case_bool_decide as Hns; [apply IH'|].
  symmetry in Hns. destruct (shouldProcessIdentity i cluster) eqn:Hshould; simpl; [|apply IH'].
  assert (∀ b rest, (b = true → selects i pod) → matching_identities pod cluster is_ = Ret rest →
    Forall (λ j, j ∈ i :: is_ ∧ Pod_Namespace pod = Spec_Namespace (WI_Spec j) ∧
      shouldProcessIdentity j cluster = true ∧ selects j pod) (if b : bool then i :: rest else rest))
    as Hcons.
  { intros [] rest Hb Hrest; [|by apply IH']. constructor; [|by apply IH'].
    split_and!; [by left|done|done|by apply Hb]. }
  destruct (PodSelector (WI_Spec i)) as [ps|] eqn:Hps.
  - destruct (LabelSelectorAsSelector (Some ps)) as [sel|] eqn:Hsel; [|done]. simpl.
    destruct (matching_identities pod cluster is_) as [rest| |] eqn:Hrest; [|done..].
    intros [= <-]. apply Hcons; [|done]. intros Hm. right. exists sel. by rewrite Hps.
  - simpl. destruct (matching_identities pod cluster is_) as [rest| |] eqn:Hrest; [|done..].
    intros [= <-]. apply (Hcons true); [|done]. intros _. by left.
Qed.

Lemma asks_ReconcileSinglePod pod cluster action w :
  known_cluster cluster → known_pod (EKS_Name cluster) pod →
  asks (ReconcileSinglePod r pod cluster action) done_with w.
Proof.
  intros Hcl Hpod. unfold ReconcileSinglePod. destruct (isNamespaceIgnored _ _); [by apply asks_ret|].
  case_bool_decide; [apply asks_deleteEntriesForPod|].
  unfold findMatchingIdentities. apply asks_bind, asks_bind, asks_list_identities.
  intros is_ w1 _ Hknown. apply asks_pure. intros ids Hids%matching_identities_Ret.
  case_bool_decide; [by apply asks_ret|].
  destruct (pod_is_placed pod) eqn:Hp; simpl; [|apply asks_deleteEntriesForPod].
  apply asks_bind, asks_wp, GetClusterConnection_wp. split; [done|].
  destruct (clusters w1 !! _); [|by apply asks_ret]. apply asks_bind, asks_outside.
  destruct (Nodes_Get _ _ _) as [[node|err] k] eqn:Hnode; simpl; [|by apply asks_ret].
  apply known_Nodes_Get in Hnode. apply (asks_for_each _ _ (λ _, True)); [done|]. intros i w2 Hin _.
  destruct (proj1 (Forall_forall _ _) Hids i Hin) as (Hi & Hns & Hshould & Hsel).
  apply asks_reconcilePodEntry. intros e He. exists i, cluster, pod, node.
  split_and!; [by eapply Forall_forall|done..].
Qed.

Lemma asks_pod_event trigger action obj name w :
  linked w → (∀ pod, pod_of_event obj = Some pod → known_pod name pod) →
  asks (pod_event r trigger action obj name) done_with w.
Proof.
  intros Hl Hpod. unfold pod_event, handlePodChange.
  destruct (pod_of_event obj) as [pod|]; [|by apply asks_ret].
  simpl. apply asks_bind, asks_wp, GetClusterConnection_wp. split; [done|].
  destruct (clusters w !! name) as [conn|] eqn:Hconn; [|by apply asks_ret].
  destruct (Hl _ _ Hconn) as (Hn & Hcl & _). apply asks_ReconcileSinglePod; [done|].
  rewrite Hn. by apply Hpod.
Qed.

Lemma asks_deleteEntriesForOwner ownerType ownerName w :
  (∀ e, owned_by ownerType ownerName e = true → claimed e) →
  asks (deleteEntriesForOwner ownerType ownerName) done_with w.
Proof.
  intros Hclaim. unfold deleteEntriesForOwner. apply asks_bind.
  eapply asks_on_spire; [apply asks_ListEntries|]. intros [es|err] o Hes; [|by apply asks_ret].
  specialize (Hes es eq_refl). case_bool_decide; [|by apply asks_ret]. apply asks_bind.
  eapply asks_on_spire; [apply asks_BatchDeleteEntries|].
  - apply Forall_forall. intros k (e & -> & [Hown Hin]%list_elem_of_filter)%list_elem_of_fmap.
    apply visible_claimed; [by eapply Forall_forall|by apply Hclaim].
  - intros [sts [err|]] o' _; [by apply asks_ret|]. apply asks_bind, asks_pure.
    intros. by apply asks_ret.
Qed.

Lemma asks_Deletion_ReconcileWorkloadIdentity name w :
  asks (Deletion_ReconcileWorkloadIdentity name) done_with w.
Proof.
  unfold Deletion_ReconcileWorkloadIdentity. apply asks_bind, asks_outside.
  destruct (Get_WorkloadIdentity name (kube w)) as [[i|err] k] eqn:Hget; simpl; [|by apply asks_ret].
  apply known_Get_WI in Hget. destruct (_ && _); [|by apply asks_ret]. apply asks_bind.
  eapply asks_mono; [apply asks_deleteEntriesForOwner; intros e He; left; eauto|].
  intros [err|] w1 _; [by apply asks_ret|by apply asks_outside].
Qed.

Lemma asks_Deletion_ReconcileEKSClusterRegistry name w :
  asks (Deletion_ReconcileEKSClusterRegistry name) done_with w.
Proof.
  unfold Deletion_ReconcileEKSClusterRegistry. apply asks_bind, asks_outside.
  destruct (Get_EKSClusterRegistry name (kube w)) as [[c|err] k] eqn:Hget; simpl; [|by apply asks_ret].
  apply known_Get_EKS in Hget. destruct (_ && _); [|by apply asks_ret]. apply asks_bind.
  eapply asks_mono; [apply asks_deleteEntriesForOwner; intros e He; right; eauto|].
  intros [err|] w1 _; [by apply asks_ret|by apply asks_outside].
Qed.

Lemma asks_WorkloadIdentity_Reconcile name w :
  linked w → asks (WorkloadIdentity_Reconcile r name) done_with w.
Proof.
  intros Hl. unfold WorkloadIdentity_Reconcile. apply asks_bind, asks_outside.
  destruct (Get_WorkloadIdentity name (kube w)) as [[i|err] k] eqn:Hget; cbn [fst snd].
  - apply known_Get_WI in Hget. destruct (negb _); [by apply asks_ret|]. apply asks_bind.
    eapply asks_mono; [apply asks_ReconcileWorkloadIdentity; [by eapply linked_ext|by left]|]. intros. by apply asks_ret.
  - apply asks_bind. case_bool_decide.
    + eapply asks_mono; [apply asks_ReconcileWorkloadIdentity; [by eapply linked_ext|by right]|]. intros. by apply asks_ret.
    + by do 2 apply asks_ret.
Qed.

Lemma asks_EKSClusterRegistry_Reconcile name w :
  manager_wf w → linked w → asks (EKSClusterRegistry_Reconcile r name) done_with w.
Proof.
  intros Hwf Hl. unfold EKSClusterRegistry_Reconcile. apply asks_bind, asks_outside.
  destruct (Get_EKSClusterRegistry name (kube w)) as [[c|err] k] eqn:Hget; cbn [fst snd].
  - apply known_Get_EKS in Hget. destruct (negb _); [by apply asks_ret|]. apply asks_bind.
    eapply asks_mono; [apply asks_ReconcileEKSCluster;
      [by apply (manager_wf_ext w)|by eapply linked_ext|by left]|].
    intros. by apply asks_ret.
  - apply asks_bind. case_bool_decide.
    + eapply asks_mono; [apply asks_ReconcileEKSCluster;
      [by apply (manager_wf_ext w)|by eapply linked_ext|by right]|].
      intros. by apply asks_ret.
    + by do 2 apply asks_ret.
Qed.

(** A world and an event a handler may start with: the manager is in order, and
    the pod of a pod event is one of the cluster the event is for. *)
Definition startable (ev : event) w : Prop :=
  manager_wf w ∧ linked w ∧
  match ev with
  | PodChange _ obj name => ∀ pod, pod_of_event obj = Some pod → known_pod name pod
  | _ => True
  end.

(** Every handler of the program. *)
Lemma asks_handle ev w : startable ev w → asks (handle r ev) done_with w.
Proof.
  intros (Hwf & Hl & Hev). destruct ev; simpl.
  - by apply asks_reconcileAll.
  - by apply asks_pod_event.
  - apply asks_bind. eapply asks_mono; [by apply asks_WorkloadIdentity_Reconcile|].
    intros. by apply asks_ret.
  - apply asks_bind. eapply asks_mono; [by apply asks_EKSClusterRegistry_Reconcile|].
    intros. by apply asks_ret.
  - apply asks_bind. eapply asks_mono; [apply asks_Deletion_ReconcileWorkloadIdentity|].
    intros. by apply asks_ret.
  - apply asks_bind. eapply asks_mono; [apply asks_Deletion_ReconcileEKSClusterRegistry|].
    intros. by apply asks_ret.
Qed.

(** The call a handler waits for is fit, if its replies so far are good. *)
Lemma next_fit t c :
  startable (job t) (begin t) → Forall good (received t) → next r t = Some c → fit c.
Proof.
  intros Hok Hgood. unfold next, run.
  assert (startable (job t) (set_spire {| replies := received t; asked := [] |} (begin t))) as Hok'.
  { destruct Hok as (Hwf & Hl & Hev). split; [by apply (manager_wf_ext (begin t))|].
    split; [by eapply linked_ext|exact Hev]. }
  pose proof (asks_handle (job t) _ Hok') as Hasks.
  specialize (Hasks (conj Hgood (Forall_nil_2 _))).
  destruct (handle r (job t) _) as [[] w'], Hasks as [[_ Hasked] _]; [done..|].
  case_bool_decide; [|done]. intros Hlast. eapply Forall_forall; [done|].
  by apply last_Some_elem_of.
Qed.
End calls.
