(* ===== verification/PoolFacts.v ===== *)
(** * The invariant of the pool

    Each call a handler makes keeps the registered entries safe, and each reply
    shows only entries that are safe; so every interleaving does. *)

From S2P Require Export CallFacts.

Local Open Scope Z_scope.

(** A page of a listing changes nothing and shows registered entries only. *)
Class PageSpec `{!SpiffeID} (W : Type) `{!EntryService W, !ServiceSpec W} : Prop :=
  svc_page tok n (v : W) : wp (rpc_ListEntries tok n) (λ r v',
    svc_store v' = svc_store v ∧
    ∀ es tok', r = OK (es, tok') → ∀ a, a ∈ es → svc_store v !! Api_Id a = Some a) v.

Section pool.
Context `{!SpiffeID, !LabelSelectors, !Regexps, !MapOrder, !Templates, !FloatToInt}.
Context `{!SpiffeIDLaws, !MapOrderLaws}.
Context {K : Type} `{!Kube K, !KnownResources K}.
Context {V : Type} `{!EntryService V, !ServiceSpec V, !PageSpec V}.
Variable r : MainReconciler.
Variable m0 : gmap string Entry.
Implicit Types (v : V) (m : gmap string Entry).

(** What the pool may make of the entries [m0]: a key holds what it held, or
    nothing if it may be deleted, or an entry asked for a running pod. *)
Definition pool_safe m : Prop := ∀ k,
  m !! k = m0 !! k ∨ (deletable r m0 k ∧ m !! k = None) ∨
  (∃ e, asked_for r e ∧ k = declared_ID (EntryIDPrefix r) e ∧ m !! k = Some (set_ID k e)).

Lemma pool_safe_visible v e k :
  pool_safe (client_store v) → client_store v !! k = Some e → visible r m0 e.
Proof.
  intros Hsafe Hk. pose proof (client_store_ids _ _ _ Hk) as <-.
  destruct (Hsafe (Entry_ID e)) as [Heq|[[_ Hn]|(e' & _ & Hid & _)]].
  - right. congruence.
  - congruence.
  - left. rewrite Hid. apply managed_declared_ID.
Qed.

Lemma intended_sendable e : intended r e → sendable e.
Proof.
  intros (e' & (i & c & p & n & _ & _ & _ & _ & _ & _ & _ & _ & He) & ->). split; [apply declared_ID_nonempty|].
  exact (RenderEntry_valid _ _ _ _ _ _ He).
Qed.

(** Registering an intended entry is safe. *)
Lemma pool_safe_put m e : intended r e → pool_safe m → pool_safe (<[Entry_ID e := e]> m).
Proof.
  intros (e' & He' & ->) Hsafe k. simpl. destruct (decide (k = declared_ID (EntryIDPrefix r) e')) as [->|Hne].
  - right; right. exists e'. by rewrite lookup_insert_eq.
  - rewrite lookup_insert_ne by done. apply Hsafe.
Qed.

Lemma perform_wp c v :
  fit r m0 c → pool_safe (client_store v) →
  wp (perform c) (λ a v', good r m0 a ∧ pool_safe (client_store v')) v.
Proof.
  intros Hc Hsafe. destruct c as [tok n|es|es|ids|]; simpl in Hc; [..|done]; apply wp_bind.
  - eapply wp_mono; [apply svc_page|]. intros res v' [Hst Hres]. apply wp_ret.
    rewrite (client_store_ext _ _ Hst). split; [|done]. destruct res as [[es tok']|]; [|done].
    intros x e Hx He. eapply (pool_safe_visible v); [done|].
    unfold client_store. rewrite lookup_omap, (Hres _ _ eq_refl x Hx). simpl. by apply conv_Some.
  - destruct Hc as (e & He & ->). destruct (intended_sendable e He) as [Hid Hv].
    eapply wp_mono; [apply (svc_create (toAPIEntry e) v Hid), convertible_toAPIEntry, Hv|].
    intros res v' [Hst _]. apply wp_ret. split; [done|].
    destruct Hst as [Hst|[_ Hst]]; [by rewrite (client_store_ext _ _ Hst)|].
    rewrite (client_store_insert v v' e) by done. by apply pool_safe_put.
  - destruct Hc as (e & He & ->). destruct (intended_sendable e He) as [Hid Hv].
    eapply wp_mono; [apply (svc_update (toAPIEntry e) v Hid), convertible_toAPIEntry, Hv|].
    intros res v' [Hst _]. apply wp_ret. split; [done|].
    destruct Hst as [Hst|[_ Hst]]; [by rewrite (client_store_ext _ _ Hst)|].
    rewrite (client_store_insert v v' e) by done. by apply pool_safe_put.
  - eapply wp_mono; [apply svc_delete|]. intros res v' (Hout & Hor & _). apply wp_ret.
    split; [done|]. intros k. destruct (Hor k) as [Heq|Hnone].
    { rewrite (client_store_lookup_eq _ _ _ Heq). apply Hsafe. }
    destruct (decide (k ∈ ids)) as [Hin|Hin].
    + right; left. split; [by eapply Forall_forall|]. by apply client_store_None.
    + rewrite (client_store_lookup_eq _ _ _ (Hout k Hin)). apply Hsafe.
Qed.

Record pool_inv (p : list thread * V) : Prop := {
  inv_threads : Forall (λ t : thread, startable (job t) (begin t) ∧ Forall (good r m0) (received t)) p.1;
  inv_store : pool_safe (client_store p.2);
}.

Lemma pool_step_inv p p' : pool_step r startable p p' → pool_inv p → pool_inv p'.
Proof.
  intros [ts v e w Hw|ts v i t c a v' Hi Hnext Hperf] [Hts Hsafe]; simpl in *; split; simpl.
  - apply Forall_app. split; [done|]. apply Forall_singleton. split; [done|constructor].
  - done.
  - pose proof (proj1 (Forall_lookup _ _) Hts i t Hi) as [Hwf Hgood].
    pose proof (perform_wp c v (next_fit r m0 t c Hwf Hgood Hnext) Hsafe) as Hwp.
    unfold wp in Hwp. rewrite Hperf in Hwp. destruct Hwp as [Ha _].
    apply Forall_insert; [done|]. split; [done|]. apply Forall_app. by split; [|apply Forall_singleton].
  - pose proof (proj1 (Forall_lookup _ _) Hts i t Hi) as [Hwf Hgood].
    pose proof (perform_wp c v (next_fit r m0 t c Hwf Hgood Hnext) Hsafe) as Hwp.
    unfold wp in Hwp. rewrite Hperf in Hwp. by destruct Hwp.
Qed.

Lemma reachable_inv p p' : reachable r startable p p' → pool_inv p → pool_inv p'.
Proof. induction 1 as [|p1 p2 p3 Hstep _ IH]; [done|]. intros Hinv. by eapply IH, pool_step_inv. Qed.
End pool.
