(* ===== verification/Mirror.v ===== *)
(** * A handler over the wire and over the server

    [mirrors m m']: whenever [m'] returns over a server, [m] over the wire asks
    the calls that [m'] made, one at a time, and given the server's replies
    returns the same.  The rules follow the program: a handler mirrors itself
    because its parts do. *)

From S2P Require Export Interleave.

Local Open Scope Z_scope.

(** The calls of [tr], performed one after the other, are answered so. *)
Fixpoint plays {V} `{!EntryService V} (tr : list (rpc * reply)) (v v' : V) : Prop :=
  match tr with
  | [] => v' = v
  | (c, a) :: tr => ∃ v1, perform c v = (Ret a, v1) ∧ plays tr v1 v'
  end.

(** A world [W2] with a server in it, and the same world with a wire there. *)
Class Wired (W1 W2 V : Type) := {
  wired : wire → W2 → W1;
  wire_of : W1 → wire;
  server_of : W2 → V;
  wire_of_wired o w : wire_of (wired o w) = o;
}.

Section mirrors.
Context {V : Type} `{!EntryService V}.

Lemma plays_app tr1 tr2 (v v1 v2 : V) : plays tr1 v v1 → plays tr2 v1 v2 → plays (tr1 ++ tr2) v v2.
Proof.
  revert v. induction tr1 as [|[c a] tr1 IH]; intros v; simpl; [by intros ->|].
  intros (v' & Hc & Hp) Hp2. exists v'. split; [done|]. by apply IH.
Qed.

Section rules.
Context {W1 W2 : Type} `{!Wired W1 W2 V}.

(** With the replies of [tr], [m] returns; with fewer it waits. *)
Definition follows {A} (m : GoM W1 A) (tr : list (rpc * reply)) (w : W2) (a : A) (w' : W2) : Prop :=
  (∀ pre rest, m (wired {| replies := tr.*2 ++ rest; asked := pre |} w) =
     (Ret a, wired {| replies := rest; asked := pre ++ tr.*1 |} w')) ∧
  (∀ pre tr1 c x tr2, tr = tr1 ++ (c, x) :: tr2 →
     ∃ w1, m (wired {| replies := tr1.*2; asked := pre |} w) = (Diverge, w1) ∧
       wire_of w1 = {| replies := []; asked := pre ++ tr1.*1 ++ [c] |}).

Definition mirrors_at {A} (m : GoM W1 A) (m' : GoM W2 A) (w : W2) : Prop :=
  ∀ a w', m' w = (Ret a, w') → ∃ tr, plays tr (server_of w) (server_of w') ∧ follows m tr w a w'.

Definition mirrors {A} (m : GoM W1 A) (m' : GoM W2 A) : Prop := ∀ w, mirrors_at m m' w.

(** No call at all. *)
Lemma mirrors_silent {A} (m : GoM W1 A) (m' : GoM W2 A) :
  (∀ w a w', m' w = (Ret a, w') → server_of w' = server_of w ∧
     ∀ o, m (wired o w) = (Ret a, wired o w')) → mirrors m m'.
Proof.
  intros Hm w a w' Hw. destruct (Hm w a w' Hw) as [Hs Ho]. exists []. split; [done|]. split.
  - intros pre rest. by rewrite Ho, app_nil_r.
  - intros pre [|[] tr1] c x tr2 [=].
Qed.

Lemma mirrors_ret {A} (a : A) : mirrors (mret a) (mret a).
Proof. apply mirrors_silent. by intros w b w' [= <- <-]. Qed.

Lemma mirrors_pure {A} (o : outcome A) : mirrors (pure o) (pure o).
Proof. apply mirrors_silent. intros w b w'. unfold pure. by intros [= -> <-]. Qed.

Lemma mirrors_panic {A} (m : GoM W1 A) : mirrors m (panic (A:=A)).
Proof. by intros w a w'. Qed.

Lemma mirrors_modify (f1 : W1 → W1) (f2 : W2 → W2) :
  (∀ o w, f1 (wired o w) = wired o (f2 w)) → (∀ w, server_of (f2 w) = server_of w) →
  mirrors (modify_world f1) (modify_world f2).
Proof.
  intros Hf Hs. apply mirrors_silent. intros w a w' [= <- <-]. split; [done|]. intros o.
  unfold modify_world. by rewrite Hf.
Qed.

(** Calls of the second part follow those of the first. *)
Lemma follows_bind {A B} (m : GoM W1 A) (f : A → GoM W1 B) tr1 tr2 w a w1 b w2 :
  follows m tr1 w a w1 → follows (f a) tr2 w1 b w2 → follows (m ≫= f) (tr1 ++ tr2) w b w2.
Proof.
  intros [Hret1 Hwait1] [Hret2 Hwait2]. unfold mbind, GoM_bind. split.
  - intros pre rest. rewrite !fmap_app, <-app_assoc, Hret1, Hret2. by rewrite <-app_assoc.
  - intros pre tr c x tr' Heq. apply app_eq_inv in Heq as [([|y l] & Htr & Heq)|(l & -> & Heq)].
    + rewrite app_nil_r in Htr. subst tr1. simpl in Heq.
      destruct (Hwait2 (pre ++ tr.*1) [] c x tr') as (wd & Hd & Hwd); [done|].
      exists wd. rewrite <-(app_nil_r (tr.*2)), Hret1. simpl in Hd. by rewrite Hd, Hwd, <-app_assoc.
    + simplify_eq/=. destruct (Hwait1 pre tr c x l) as (wd & Hd & Hwd); [done|].
      exists wd. by rewrite Hd.
    + destruct (Hwait2 (pre ++ tr1.*1) l c x tr') as (wd & Hd & Hwd); [done|].
      exists wd. by rewrite !fmap_app, Hret1, Hd, Hwd, <-!app_assoc.
Qed.

Lemma mirrors_bind_at {A B} (m : GoM W1 A) m' (f : A → GoM W1 B) (f' : A → GoM W2 B) w :
  mirrors_at m m' w → (∀ a, mirrors (f a) (f' a)) → mirrors_at (m ≫= f) (m' ≫= f') w.
Proof.
  intros Hm Hf b w2. unfold mbind at 1, GoM_bind at 1. destruct (m' w) as [[a| |] w1] eqn:Hw; [|done..].
  intros Hb. destruct (Hm a w1 Hw) as (tr1 & Hp1 & Hf1).
  destruct (Hf a w1 b w2 Hb) as (tr2 & Hp2 & Hf2). exists (tr1 ++ tr2).
  split; [by eapply plays_app|by eapply follows_bind].
Qed.

Lemma mirrors_bind {A B} (m : GoM W1 A) m' (f : A → GoM W1 B) (f' : A → GoM W2 B) :
  mirrors m m' → (∀ a, mirrors (f a) (f' a)) → mirrors (m ≫= f) (m' ≫= f').
Proof. intros Hm Hf w. by apply mirrors_bind_at. Qed.

(** Reading the world: the rest must not read the wire. *)
Lemma mirrors_get {B} (g : W2 → GoM W1 B) (f : W1 → GoM W1 B) (f' : W2 → GoM W2 B) :
  (∀ o w, f (wired o w) = g w) → (∀ w, mirrors (g w) (f' w)) →
  mirrors (get_world ≫= f) (get_world ≫= f').
Proof.
  intros Hget Hf w b w' Hw. destruct (Hf w w b w' Hw) as (tr & Hp & Hret & Hwait). exists tr.
  split; [done|]. unfold mbind, GoM_bind, get_world. split.
  - intros. rewrite Hget. apply Hret.
  - intros. rewrite Hget. by eapply Hwait.
Qed.

Lemma mirrors_for_each {A} (l : list A) (body : A → GoM W1 unit) (body' : A → GoM W2 unit) :
  (∀ x, mirrors (body x) (body' x)) → mirrors (for_each l body) (for_each l body').
Proof.
  intros Hb. induction l as [|x l IH]; [apply mirrors_ret|]. apply mirrors_bind; [done|].
  intros _. apply IH.
Qed.

Lemma mirrors_fold_each {A T} (l : list A) (t : T) (body : A → T → GoM W1 T)
    (body' : A → T → GoM W2 T) :
  (∀ x t, mirrors (body x t) (body' x t)) → mirrors (fold_each l t body) (fold_each l t body').
Proof.
  intros Hb. revert t. induction l as [|x l IH]; intros t; [apply mirrors_ret|].
  apply mirrors_bind; [done|]. intros t'. apply IH.
Qed.
End rules.

(** A part of the world, run on the whole of it. *)
Lemma mirrors_lift {X1 X2 W1 W2 A} `{!Wired X1 X2 V, !Wired W1 W2 V}
    (get1 : W1 → X1) put1 (get2 : W2 → X2) put2 (m : GoM X1 A) (m' : GoM X2 A) :
  (∀ o w, get1 (wired o w) = wired o (get2 w)) →
  (∀ o o' x w, put1 (wired o' x) (wired o w) = wired o' (put2 x w)) →
  (∀ x w, wire_of (put1 x w) = wire_of x) →
  (∀ w, server_of (get2 w) = server_of w) → (∀ x w, server_of (put2 x w) = server_of x) →
  mirrors m m' → mirrors (lift get1 put1 m) (lift get2 put2 m').
Proof.
  intros Hget Hput Hwire Hs Hs' Hm w a w'. unfold lift.
  destruct (m' (get2 w)) as [res x] eqn:Hx. intros [= -> <-].
  destruct (Hm _ _ _ Hx) as (tr & Hp & Hret & Hwait). exists tr. split; [by rewrite Hs', <-Hs|]. split.
  - intros pre rest. by rewrite Hget, Hret, Hput.
  - intros pre tr1 c y tr2 Htr. destruct (Hwait pre tr1 c y tr2 Htr) as (x1 & Hx1 & Hw1).
    rewrite Hget, Hx1. eexists. split; [done|]. by rewrite Hwire.
Qed.
End mirrors.
