(* ===== verification/MirrorFacts.v ===== *)
(** * Every handler mirrors itself

    From the gRPC client upwards: each operation over the wire asks the calls
    that the same operation makes of a server. *)

From S2P Require Export Mirror.

Local Open Scope Z_scope.

#[export] Instance wired_bare {V} : Wired wire V V := {|
  wired o _ := o; wire_of o := o; server_of v := v; wire_of_wired _ _ := eq_refl |}.
#[export] Instance wired_batch {V} : Wired (wire * list Status) (V * list Status) V := {|
  wired o s := (o, s.2); wire_of s := s.1; server_of s := s.1; wire_of_wired _ _ := eq_refl |}.
#[export] Instance wired_world `{!LabelSelectors} {K V} `{!Kube K} :
    Wired (World K wire) (World K V) V := {|
  wired o w := {| kube := kube w; spire := o; clusters := clusters w; clients := clients w;
                  next_ch := next_ch w; closed := closed w |};
  wire_of := spire; server_of := spire; wire_of_wired _ _ := eq_refl |}.

Create HintDb mirrors.

(** ** The gRPC client *)

Section client.
Context `{!SpiffeID} {V : Type} `{!EntryService V}.

Lemma mirrors_ask {A} c (f : reply → GoM wire A) (m : GoM V A) (g : A → reply) :
  (∀ v, perform c v = (a ← m; mret (g a)) v) → (∀ a, f (g a) = mret a) →
  mirrors (a ← ask c; f a) m.
Proof.
  intros Hc Hf v a v' Hm. assert (perform c v = (Ret (g a), v')) as Hp.
  { rewrite Hc. unfold mbind, GoM_bind. by rewrite Hm. }
  exists [(c, g a)]. split; [by exists v'|]. unfold mbind, GoM_bind. split.
  - intros pre rest. simpl. by rewrite Hf.
  - intros pre [|y [|]] c' x tr2 Heq; simplify_eq/=. by eexists.
Qed.

Lemma mirrors_rpc_ListEntries tok n :
  mirrors (rpc_ListEntries (W:=wire) tok n) (rpc_ListEntries (W:=V) tok n).
Proof. by apply (mirrors_ask (RpcListEntries tok n) _ _ ReEntries). Qed.
Lemma mirrors_rpc_BatchCreateEntry es :
  mirrors (rpc_BatchCreateEntry (W:=wire) es) (rpc_BatchCreateEntry (W:=V) es).
Proof. by apply (mirrors_ask (RpcBatchCreateEntry es) _ _ ReCreated). Qed.
Lemma mirrors_rpc_BatchUpdateEntry es :
  mirrors (rpc_BatchUpdateEntry (W:=wire) es) (rpc_BatchUpdateEntry (W:=V) es).
Proof. by apply (mirrors_ask (RpcBatchUpdateEntry es) _ _ ReStatuses). Qed.
Lemma mirrors_rpc_BatchDeleteEntry ids :
  mirrors (rpc_BatchDeleteEntry (W:=wire) ids) (rpc_BatchDeleteEntry (W:=V) ids).
Proof. by apply (mirrors_ask (RpcBatchDeleteEntry ids) _ _ ReStatuses). Qed.

(** The listing has as many rounds as there are pages; the fuel on the wire is
    one more than the replies that are left. *)
Definition lists (tok : string) (acc : list Entry) (tr : list (rpc * reply)) (a : result (list Entry)) : Prop :=
  (∀ n pre rest, (length tr ≤ n)%nat →
     ListEntries_loop (W:=wire) n tok acc {| replies := tr.*2 ++ rest; asked := pre |} =
       (Ret a, {| replies := rest; asked := pre ++ tr.*1 |})) ∧
  (∀ n pre tr1 c x tr2, tr = tr1 ++ (c, x) :: tr2 → (length tr1 < n)%nat →
     ListEntries_loop (W:=wire) n tok acc {| replies := tr1.*2; asked := pre |} =
       (Diverge, {| replies := []; asked := pre ++ tr1.*1 ++ [c] |})).

(** One round, given what comes after it. *)
Definition list_round (acc : list Entry) (res : result (list ApiEntry * string))
    (more : string → list Entry → GoM wire (result (list Entry))) : GoM wire (result (list Entry)) :=
  match res with
  | ERR err => mret (ERR (ErrWrap "failed to list entries" err))
  | OK (page, next) =>
      res ← pure (convert_page page);
      match res with
      | ERR err => mret (ERR err)
      | OK es => if bool_decide (next = "") then mret (OK (acc ++ es)) else more next (acc ++ es)
      end
  end.

Lemma lists_cons tok acc res tr a :
  (∀ n pre rest, (length tr ≤ n)%nat →
     list_round acc res (ListEntries_loop n) {| replies := tr.*2 ++ rest; asked := pre |} =
       (Ret a, {| replies := rest; asked := pre ++ tr.*1 |})) →
  (∀ n pre tr1 c x tr2, tr = tr1 ++ (c, x) :: tr2 → (length tr1 < n)%nat →
     list_round acc res (ListEntries_loop n) {| replies := tr1.*2; asked := pre |} =
       (Diverge, {| replies := []; asked := pre ++ tr1.*1 ++ [c] |})) →
  lists tok acc ((RpcListEntries tok 1000, ReEntries res) :: tr) a.
Proof.
  intros Hret Hwait. split.
  - intros [|n] pre rest Hn; simpl in Hn; [lia|].
    transitivity (list_round acc res (ListEntries_loop n)
      {| replies := tr.*2 ++ rest; asked := pre ++ [RpcListEntries tok 1000] |}); [done|].
    rewrite Hret by lia. by rewrite <-app_assoc.
  - intros [|n] pre [|y tr1] c x tr2 Heq Hn; simplify_eq/=; try lia; [done|].
    transitivity (list_round acc res (ListEntries_loop n)
      {| replies := tr1.*2; asked := pre ++ [RpcListEntries tok 1000] |}); [done|].
    erewrite Hwait by (done || lia). by rewrite <-app_assoc.
Qed.

(** A last round that returns whatever the rest is. *)
Lemma lists_last tok acc res a :
  (∀ more o, list_round acc res more o = (Ret a, o)) →
  lists tok acc [(RpcListEntries tok 1000, ReEntries res)] a.
Proof.
  intros Hround. apply lists_cons.
  - intros n pre rest _. by rewrite Hround, app_nil_r.
  - intros n pre [|] c x tr2 [=].
Qed.

Lemma ListEntries_loop_mirrors fuel tok acc (v v' : V) a :
  ListEntries_loop fuel tok acc v = (Ret a, v') → ∃ tr, plays tr v v' ∧ lists tok acc tr a.
Proof.
  revert tok acc v v' a. induction fuel as [|fuel IH]; intros tok acc v v' a; [done|]. cbn [ListEntries_loop].
  unfold mbind at 1, GoM_bind at 1. destruct (rpc_ListEntries tok 1000 v) as [[res| |] v1] eqn:Hrpc; [|done..].
  assert (perform (RpcListEntries tok 1000) v = (Ret (ReEntries res), v1)) as Hp.
  { cbn [perform]. unfold mbind, GoM_bind. by rewrite Hrpc. }
  destruct res as [[page next]|err].
  2: { unfold mret, GoM_ret. intros; simplify_eq. exists [(RpcListEntries tok 1000, ReEntries (ERR err))].
       split; [by eexists|]. by apply lists_last. }
  unfold pure, mbind, GoM_bind. destruct (convert_page page) as [[es|err]| |] eqn:Hconv; [| |done..].
  2: { unfold mret, GoM_ret. intros; simplify_eq. exists [(RpcListEntries tok 1000, ReEntries (OK (page, next)))].
       split; [by eexists|]. apply lists_last.
       intros more o. simpl. unfold mbind, GoM_bind, pure. by rewrite Hconv. }
  destruct (bool_decide (next = "")) eqn:Hnext.
  { unfold mret, GoM_ret. intros; simplify_eq. exists [(RpcListEntries tok 1000, ReEntries (OK (page, next)))].
    split; [by eexists|]. apply lists_last.
    intros more o. simpl. unfold mbind, GoM_bind, pure. by rewrite Hconv, Hnext. }
  intros (tr & Hplays & Hret & Hwait)%IH.
  assert (∀ more o, list_round acc (OK (page, next)) more o = more next (acc ++ es) o) as Hround.
  { intros more o. simpl. unfold mbind, GoM_bind, pure. by rewrite Hconv, Hnext. }
  exists ((RpcListEntries tok 1000, ReEntries (OK (page, next))) :: tr).
  split; [by exists v1|]. apply lists_cons; intros; rewrite Hround; by eauto.
Qed.

Variable fuel : V → nat.
#[local] Instance server_Client : Client V := client_instance fuel.

Lemma mirrors_ListEntries : mirrors (ListEntries (W:=wire)) (ListEntries (W:=V)).
Proof.
  intros v a v' Hv. destruct (ListEntries_loop_mirrors (fuel v) "" [] v v' a Hv) as (tr & Hp & Hret & Hwait).
  exists tr. split; [done|]. split.
  - intros pre rest. apply Hret. simpl. rewrite length_app, length_fmap. lia.
  - intros pre tr1 c x tr2 Heq. eexists. split; [|done]. eapply Hwait; [done|].
    simpl. rewrite length_fmap. lia.
Qed.

Lemma mirrors_CreateEntry e : mirrors (CreateEntry (W:=wire) e) (CreateEntry (W:=V) e).
Proof.
  apply mirrors_bind; [apply mirrors_rpc_BatchCreateEntry|].
  intros [[|[[st|] ?] ?]|err]; [apply mirrors_ret| |apply mirrors_panic|apply mirrors_ret]. simpl.
  do 2 (case_bool_decide; try apply mirrors_ret).
Qed.

Lemma mirrors_UpdateEntry e : mirrors (UpdateEntry (W:=wire) e) (UpdateEntry (W:=V) e).
Proof.
  apply mirrors_bind; [apply mirrors_rpc_BatchUpdateEntry|].
  intros [sts|err]; [apply mirrors_pure|apply mirrors_ret].
Qed.

Lemma mirrors_DeleteEntry k : mirrors (DeleteEntry (W:=wire) k) (DeleteEntry (W:=V) k).
Proof.
  apply mirrors_bind; [apply mirrors_rpc_BatchDeleteEntry|].
  intros [sts|err]; [apply mirrors_pure|apply mirrors_ret].
Qed.

Lemma mirrors_delete_batch ids : mirrors (delete_batch (W:=wire) ids) (delete_batch (W:=V) ids).
Proof.
  apply mirrors_bind.
  - by apply mirrors_lift, mirrors_rpc_BatchDeleteEntry.
  - intros [results|err]; [|apply mirrors_ret]. apply mirrors_bind; [|intros _; apply mirrors_ret].
    apply mirrors_for_each. intros [i st]. apply mirrors_bind; [by apply mirrors_modify|].
    intros _. unfold index_check. case_bool_decide; [apply mirrors_ret|apply mirrors_panic].
Qed.

Lemma mirrors_runBatch {W1 W2} `{!Wired W1 W2 V} size batch
    (f : Z → Z → GoM W1 (option error)) (g : Z → Z → GoM W2 (option error)) :
  (∀ s e, mirrors (f s e) (g s e)) → mirrors (runBatch size batch f) (runBatch size batch g).
Proof.
  intros Hf. unfold runBatch. generalize 0 (S (Z.to_nat size)).
  generalize (if bool_decide (batch < 1) then size else batch) as b.
  intros b i n. revert i. induction n as [|n IH]; intros i; [by intros w a w'|]. cbn [runBatch_loop].
  case_bool_decide; [|apply mirrors_ret]. apply mirrors_bind; [apply Hf|].
  intros [err|]; [apply mirrors_ret|apply IH].
Qed.

Lemma mirrors_BatchDeleteEntries ids :
  mirrors (BatchDeleteEntries (W:=wire) ids) (BatchDeleteEntries (W:=V) ids).
Proof.
  assert (mirrors
    (runBatch (Z.of_nat (length ids)) entryDeleteBatchSize (λ s e, delete_batch (W:=wire) (slice s e ids)))
    (runBatch (Z.of_nat (length ids)) entryDeleteBatchSize (λ s e, delete_batch (W:=V) (slice s e ids))))
    as Hrun by (apply mirrors_runBatch; intros; apply mirrors_delete_batch).
  intros v [sts err] v'. simpl. unfold client_BatchDeleteEntries, run_batches.
  destruct (runBatch _ _ _ (v, [])) as [[err'| |] [v1 sts1]] eqn:Hv; [|done..]. intros [= <- <- <-].
  destruct (Hrun _ _ _ Hv) as (tr & Hp & Hret & Hwait). exists tr. split; [done|]. split.
  - intros pre rest. cbn [wired wired_bare]. specialize (Hret pre rest). cbn [wired wired_batch snd] in Hret.
    by rewrite Hret.
  - intros pre tr1 c x tr2 Heq. destruct (Hwait pre tr1 c x tr2 Heq) as ([o sts2] & Hd & Ho).
    cbn [wired wired_batch snd] in Hd. cbn [wired wired_bare]. rewrite Hd. by eexists.
Qed.
End client.

(** The operations the handlers use, mirrored. *)
Class MirroredClient `{!SpiffeID} (V : Type) `{!EntryService V, !Client V} : Prop := {
  mirrored_List : mirrors (ListEntries (W:=wire)) (ListEntries (W:=V));
  mirrored_Create e : mirrors (CreateEntry (W:=wire) e) (CreateEntry (W:=V) e);
  mirrored_Update e : mirrors (UpdateEntry (W:=wire) e) (UpdateEntry (W:=V) e);
  mirrored_Delete k : mirrors (DeleteEntry (W:=wire) k) (DeleteEntry (W:=V) k);
  mirrored_BatchDelete ids : mirrors (BatchDeleteEntries (W:=wire) ids) (BatchDeleteEntries (W:=V) ids);
}.

Definition client_mirrored `{!SpiffeID} {V} `{!EntryService V} (fuel : V → nat) :
    @MirroredClient _ V _ (client_instance fuel) :=
  Build_MirroredClient _ V _ (client_instance fuel) (mirrors_ListEntries fuel)
    (mirrors_CreateEntry fuel) (mirrors_UpdateEntry fuel) (mirrors_DeleteEntry fuel)
    (mirrors_BatchDeleteEntries fuel).

#[export] Hint Resolve mirrors_ret mirrors_pure mirrors_panic : mirrors.

(** ** The handlers *)

Section handlers.
Context `{!SpiffeID, !LabelSelectors, !Regexps, !MapOrder, !Templates, !FloatToInt}.
Context {K V : Type} `{!Kube K, !EntryService V, !Client V, !MirroredClient V}.

#[local] Notation same m := (mirrors (m : GoM (World K wire) _) (m : GoM (World K V) _)).

Lemma mirrors_outside {A} (f : K → A * K) : same (outside f).
Proof.
  apply mirrors_silent. intros w a w'. unfold outside. simpl. destruct (f (kube w)) as [b k].
  by intros [= <- <-].
Qed.

Lemma mirrors_on_spire {A} (m : GoM wire A) (m' : GoM V A) :
  mirrors m m' → mirrors (W1:=World K wire) (W2:=World K V) (on_spire m) (on_spire m').
Proof. by apply mirrors_lift. Qed.

(** Reading the connections and the clients of the managers. *)
Lemma mirrors_get_world {B} (f : World K wire → GoM (World K wire) B) (f' : World K V → GoM (World K V) B) :
  (∀ o o' w, f (wired (V:=V) o w) = f (wired (V:=V) o' w)) →
  (∀ w, mirrors (f (wired (V:=V) {| replies := []; asked := [] |} w)) (f' w)) →
  mirrors (get_world ≫= f) (get_world ≫= f').
Proof. intros Hf. apply mirrors_get. intros o w. apply Hf. Qed.

Lemma mirrors_make_chan : same make_chan.
Proof. apply mirrors_silent. by intros w a w' [= <- <-]. Qed.

Lemma mirrors_close_chan ch : same (close_chan ch).
Proof.
  apply mirrors_silent. intros w a w'. unfold close_chan. simpl.
  case_bool_decide; [done|]. by intros [= <- <-].
Qed.

#[local] Hint Resolve mirrors_outside mirrors_make_chan mirrors_close_chan : mirrors.

(** Follows the program: the parts by the hint database, the rest by the
    rules. *)
Ltac mirror_step :=
  lazymatch goal with
  | |- mirrors (get_world ≫= _) _ =>
      apply mirrors_get_world; [done|intros ?; simpl clusters; simpl clients]
  | |- mirrors (_ ≫= _) _ => apply mirrors_bind; [|intros ?]
  | |- mirrors (on_spire _) _ => apply mirrors_on_spire;
      first [apply mirrored_List|apply mirrored_Create|apply mirrored_Update|apply mirrored_Delete
            |apply mirrored_BatchDelete]
  | |- mirrors (for_each _ _) _ => apply mirrors_for_each; intros ?
  | |- mirrors (fold_each _ _ _) _ => apply mirrors_fold_each; intros ? ?
  | |- mirrors (match _ with _ => _ end) _ => progress case_match
  | |- _ => solve [auto 2 with mirrors nocore]
  end.
Ltac mirror := repeat mirror_step.

Lemma mirrors_put_conn name conn : same (put_conn name conn).
Proof. by apply mirrors_modify. Qed.
Lemma mirrors_delete_conn name : same (delete_conn name).
Proof. by apply mirrors_modify. Qed.
Lemma mirrors_put_client name c now : same (put_client name c now).
Proof. by apply mirrors_modify. Qed.
#[local] Hint Resolve mirrors_put_conn mirrors_delete_conn mirrors_put_client : mirrors.

Lemma mirrors_createClusterClient cluster : same (createClusterClient cluster).
Proof. unfold createClusterClient. mirror. Qed.
#[local] Hint Resolve mirrors_createClusterClient : mirrors.

Lemma mirrors_GetClusterClient cluster : same (GetClusterClient cluster).
Proof. unfold GetClusterClient. mirror. Qed.
#[local] Hint Resolve mirrors_GetClusterClient : mirrors.

Lemma mirrors_AddOrUpdateCluster cluster : same (AddOrUpdateCluster cluster).
Proof.
  unfold AddOrUpdateCluster, createClusterConnection, createK8sClient, createPodInformer,
    stopClusterConnection. mirror.
Qed.

Lemma mirrors_RemoveCluster name : same (RemoveCluster name).
Proof. unfold RemoveCluster, stopClusterConnection. mirror. Qed.

Lemma mirrors_GetClusterConnection name : same (GetClusterConnection name).
Proof. unfold GetClusterConnection. mirror. Qed.
Lemma mirrors_GetAllConnections : same GetAllConnections.
Proof. unfold GetAllConnections. mirror. Qed.
Lemma mirrors_IsConnected name : same (IsConnected name).
Proof. unfold IsConnected. mirror. Qed.
#[local] Hint Resolve mirrors_AddOrUpdateCluster mirrors_RemoveCluster mirrors_GetClusterConnection
  mirrors_GetAllConnections mirrors_IsConnected : mirrors.

(** *** The full cycle *)

Variable r : MainReconciler.

Lemma mirrors_getPodsFromInformer conn identity : same (getPodsFromInformer conn identity).
Proof. unfold getPodsFromInformer. mirror. Qed.
#[local] Hint Resolve mirrors_getPodsFromInformer : mirrors.

Lemma mirrors_processCluster conn identities state : same (processCluster r conn identities state).
Proof. unfold processCluster, processWorkloadIdentity, processPod. mirror. Qed.

Lemma mirrors_applyEntryChanges state : same (applyEntryChanges state).
Proof. unfold applyEntryChanges. mirror. Qed.

Lemma mirrors_updateStatuses identities cls state : same (updateStatuses identities cls state).
Proof. unfold updateStatuses, calculateIdentityStats, updateClusterConditions. mirror. Qed.
#[local] Hint Resolve mirrors_processCluster mirrors_applyEntryChanges mirrors_updateStatuses : mirrors.

Lemma mirrors_reconcileAll : same (reconcileAll r).
Proof. unfold reconcileAll, remove_stale_clusters, reconcileEntries. mirror. Qed.

(** *** The targeted handlers *)

Lemma mirrors_reconcilePodEntry pod node identity cluster :
  same (reconcilePodEntry r pod node identity cluster).
Proof. unfold reconcilePodEntry. mirror. Qed.

Lemma mirrors_delete_where p : same (delete_where p).
Proof. unfold delete_where. mirror. Qed.

Lemma mirrors_list_identities : same list_identities.
Proof. unfold list_identities. mirror. Qed.

Lemma mirrors_list_clusters : same list_clusters.
Proof. unfold list_clusters. mirror. Qed.

Lemma mirrors_getMatchingPods conn identity : same (getMatchingPods conn identity).
Proof. unfold getMatchingPods. mirror. Qed.

Lemma mirrors_delete_orphans entries belongs uids : same (delete_orphans entries belongs uids).
Proof. unfold delete_orphans. mirror. Qed.
#[local] Hint Resolve mirrors_reconcilePodEntry mirrors_delete_where mirrors_list_identities
  mirrors_list_clusters mirrors_getMatchingPods mirrors_delete_orphans : mirrors.

Lemma mirrors_reconcile_pods conn identity cluster pods :
  same (reconcile_pods r conn identity cluster pods).
Proof. unfold reconcile_pods. mirror. Qed.
#[local] Hint Resolve mirrors_reconcile_pods : mirrors.

Lemma mirrors_ReconcileSinglePod pod cluster action : same (ReconcileSinglePod r pod cluster action).
Proof. unfold ReconcileSinglePod, deleteEntriesForPod, findMatchingIdentities. mirror. Qed.

Lemma mirrors_ReconcileWorkloadIdentity identity deleted :
  same (ReconcileWorkloadIdentity r identity deleted).
Proof.
  unfold ReconcileWorkloadIdentity, deleteEntriesForIdentity, cleanupOrphanedEntriesForIdentity,
    valid_uids_of_identity, findMatchingClusters. mirror.
Qed.

Lemma mirrors_ReconcileEKSCluster cluster deleted : same (ReconcileEKSCluster r cluster deleted).
Proof.
  unfold ReconcileEKSCluster, deleteEntriesForCluster, cleanupOrphanedEntriesForCluster,
    valid_uids_of_cluster, findIdentitiesForCluster. mirror.
Qed.

Lemma mirrors_deleteEntriesForOwner ownerType ownerName :
  same (deleteEntriesForOwner ownerType ownerName).
Proof. unfold deleteEntriesForOwner. mirror. Qed.
#[local] Hint Resolve mirrors_reconcileAll mirrors_ReconcileSinglePod mirrors_ReconcileWorkloadIdentity
  mirrors_ReconcileEKSCluster mirrors_deleteEntriesForOwner : mirrors.

(** *** Every event *)

Lemma mirrors_handle ev : same (handle r ev).
Proof.
  destruct ev; cbn [handle]; unfold pod_event, handlePodChange, WorkloadIdentity_Reconcile,
    EKSClusterRegistry_Reconcile, Deletion_ReconcileWorkloadIdentity,
    Deletion_ReconcileEKSClusterRegistry; cbn [podReconciler SetPodReconciler]; mirror.
Qed.
End handlers.
