(* ===== verification/InterleaveProps.v ===== *)
(** * Properties of handlers that interleave *)

From S2P Require Export PoolFacts MirrorFacts ClusterProps TargetedProps.

Local Open Scope Z_scope.

Section props.
Context `{!SpiffeID, !LabelSelectors, !Regexps, !MapOrder, !Templates, !FloatToInt}.
Context `{!SpiffeIDLaws, !MapOrderLaws}.
Context {K : Type} `{!Kube K}.
Context {V : Type} `{!EntryService V}.
Variable r : MainReconciler.


(** A handler that has the server to itself does in the pool, one call at a
    time, what the handler as a whole does: it ends with the same result, in the
    same world, with the server in the same state. *)
Theorem handler_alone_is_sequential `{!Client V, !MirroredClient V} ev (w w' : World K V) o ts i ok :
  handle r ev w = (Ret tt, w') →
  ts !! i = Some {| job := ev; begin := wired (V:=V) o w; received := [] |} →
  ∃ t calls, reachable r ok (ts, spire w) (<[i := t]> ts, spire w') ∧
    run r t = (Ret tt, wired (V:=V) {| replies := []; asked := calls |} w').
Proof.
  intros Hrun Hi. destruct (mirrors_handle (V:=V) r ev w tt w' Hrun) as (tr & Hplays & Hret & Hwait).
  set (after := λ l : list (rpc * reply),
    {| job := ev; begin := wired (V:=V) o w; received := l.*2 |}).
  exists (after tr), (tr.*1). split.
  - assert (∀ tr2 tr1 v, tr = tr1 ++ tr2 → plays tr2 v (spire w') →
      reachable r ok (<[i := after tr1]> ts, v) (<[i := after tr]> ts, spire w')) as Hgen.
    + induction tr2 as [|[c a] tr2 IH]; intros tr1 v Heq.
      * intros ->. rewrite Heq, app_nil_r. apply rtc_refl.
      * intros (v1 & Hperf & Hplays'). destruct (Hwait [] tr1 c a tr2 Heq) as (wd & Hd & Hwd).
        eapply rtc_l.
        { apply (step_call r ok _ _ i (after tr1) c a v1); [|..|done].
          - apply list_lookup_insert_eq. by eapply lookup_lt_Some.
          - apply (next_asked _ _ wd (tr1.*1)); [exact Hd| |].
            + simpl in Hwd. by rewrite Hwd.
            + simpl. by rewrite !length_fmap. }
        rewrite list_insert_insert_eq. replace (receive a (after tr1)) with (after (tr1 ++ [(c, a)])).
        -- apply IH; [by rewrite <-app_assoc|done].
        -- unfold after, receive. simpl. by rewrite fmap_app.
    + specialize (Hgen tr [] (spire w) eq_refl Hplays). by rewrite list_insert_id in Hgen.
  - unfold run. specialize (Hret [] []). by rewrite app_nil_r in Hret.
Qed.

(** C10: whatever an interleaving of handlers has left behind, a full cycle that
    then finds a server that does what it is asked, identities that can be
    listed and clusters that stay as they are makes the registrar's
    own IDs exactly what the clusters ask for: under each desired ID the desired
    entry or one that compares equal to it, under the others nothing.  Only a
    desired entry of which the server had a like before any handler ran may be
    missing, and no entry the handlers registered is in the way.  The IDs that
    are not the registrar's hold what they held at the start, or nothing, if
    that entry carried the hint of a resource. *)
Theorem cycle_repairs `{!KnownResources K, !ServiceSpec V, !PageSpec V, !Client V,
    !ClientSpec V, !ReliableClient V, !QuietKube K} cls identities (v0 : V) ts (w : World K V) :
  (∀ v : V, store v = client_store v) →
  reachable r startable ([], v0) (ts, spire w) →
  healthy (spire w) → (List_WorkloadIdentities (kube w)).1 = OK identities →
  let ds := desired r w identities in
  wp (reconcileEntries r cls) (λ _ w', ∀ k,
    if managed r k then
      match registered w' !! k with
      | Some e => ∃ d, d ∈ ds ∧ declared_ID (EntryIDPrefix r) d = k ∧
          (e = set_ID k d ∨ registered w !! k = Some e ∧ entriesEqual e (set_ID k d) = true)
      | None => ∀ d, d ∈ ds → declared_ID (EntryIDPrefix r) d = k →
          ∃ d', d' ∈ ds ∧ declared_ID (EntryIDPrefix r) d' = k ∧ taken d' (client_store v0)
      end
    else registered w' !! k = client_store v0 !! k ∨
      (∃ e, client_store v0 !! k = Some e ∧ claimed e) ∧ registered w' !! k = None) w.
Proof.
  intros Hstore Hreach Hh Hlist ds.
  assert (pool_safe r (client_store v0) (registered w)) as Hsafe.
  { eapply (reachable_inv r (client_store v0)) in Hreach as [_ Hs].
    - unfold registered. rewrite Hstore. exact Hs.
    - split; [constructor|by left]. }
  eapply wp_mono; [by apply (reconcileEntries_converged r cls identities w)|].
  intros _ w' (_ & _ & Hconv) k. destruct (Hconv k) as [Hout Hin].
  destruct (managed r k) eqn:Hm.
  - specialize (Hin eq_refl). destruct (registered w' !! k) as [e|].
    + destruct Hin as (d & ? & ? & [[? _]|?]); eauto.
    + intros d Hd Hk. destruct Hin as [Hno|(Hnone & d' & Hd' & Hk' & k2 & e & He & Hs & _)];
        [by destruct (Hno d Hd)|]. exists d'. split_and!; [done..|]. exists k2, e. split; [|done].
      destruct (Hsafe k2) as [Heq|[[_ Hn]|(e' & _ & -> & Hreg)]]; [congruence|congruence|].
      exfalso. rewrite Hreg in He. injection He as <-.
      assert (declared_ID (EntryIDPrefix r) d' = declared_ID (EntryIDPrefix r) e') as Hid
        by (destruct Hs as (? & ? & ?); unfold declared_ID, MakeEntryKey; by rewrite (makeEntryKey_perm d' e')).
      rewrite <-Hk', Hid in Hnone. congruence.
  - rewrite Hout by done. destruct (Hsafe k) as [?|[[[?|?] ?]|(e' & _ & -> & _)]];
      [by left|congruence|by right|]. by rewrite managed_declared_ID in Hm.
Qed.
End props.

(** ** Sample pools *)

#[export] Instance test_KnownResources : KnownResources test_kube.
Proof.
  by refine {| known_identity := λ _, True; known_cluster := λ _, True; known_pod := λ _ _, True;
    known_node := λ _ _, True; informs := λ i n, i = n |}; intros; try apply Forall_true.
Defined.

#[export] Instance test_PageSpec : PageSpec server.
Proof.
  intros tok n m. split; [done|]. intros es tok' [= <- <-] a Ha.
  apply list_elem_of_fmap in Ha as ([k a'] & -> & Hin%elem_of_map_to_list). simpl.
  pose proof Hin as [_ [Hid _]]%map_lookup_filter_Some. simpl in Hid. by rewrite Hid.
Qed.

#[export] Instance test_MirroredClient : MirroredClient server := client_mirrored (λ _, 1%nat).

Definition empty_wire : wire := {| replies := []; asked := [] |}.
Definition start (ev : event) : @thread _ test_kube _ :=
  {| job := ev; begin := wired (V:=server) empty_wire (connected_world ∅); received := [] |}.
Definition pod_deleted : event := PodChange "delete" (ObjPod (sample_pod "web-1" "uid-1")) "c1".

Definition pool (evs : list event) (m : server) : list (@thread _ test_kube _) * server :=
  (start <$> evs, m).

Lemma sample_informers :
  forallb (λ p, bool_decide (PodInformer p.2 = p.1)) (map_to_list (clusters (connected_world ∅))) = true.
Proof. vm_compute. reflexivity. Qed.

Lemma start_ok ev : startable ev (begin (start ev)).
Proof.
  assert (manager_wf (begin (start ev))) as Hwf by (by destruct (connected_world_wf ∅); split).
  split; [exact Hwf|]. split; [|by destruct ev].
  intros k conn Hk. split; [by eapply (wf_name _ Hwf)|]. split; [done|].
  pose proof (proj1 (forallb_forall _ _) sample_informers (k, conn)) as Hin.
  apply (bool_decide_eq_true (PodInformer conn = k)), Hin, list_elem_of_In, elem_of_map_to_list, Hk.
Qed.

Lemma pool_reachable r evs m : reachable r startable ([], m) (pool evs m).
Proof.
  unfold pool. induction evs as [|ev evs IH] using rev_ind; [apply rtc_refl|]. rewrite fmap_app.
  etransitivity; [exact IH|]. apply start_reachable. exact (start_ok ev).
Qed.

Definition has_entry_of (pod : Pod) (m : server) : bool :=
  existsb (has_pod_selector pod) (map_to_list (client_store m)).*2.

(** A full cycle and the event of a deleted pod do not exclude each other: here
    the event is handled between the cycle's listing and its creations, both
    finish, and the entry of the pod that is gone is registered. *)
Lemma cycle_revives_deleted_pod :
  match take_turns (sample_reconciler "eks-") [0; 1; 0]%nat (pool [FullCycle; pod_deleted] ∅) with
  | Some (ts, v) =>
      forallb (finished (sample_reconciler "eks-")) ts = true ∧
      has_entry_of (sample_pod "web-1" "uid-1") v = true
  | None => False
  end.
Proof. vm_compute. split; reflexivity. Qed.

(** ** Witnesses *)

Definition took {A} (o : option A) : bool := match o with Some _ => true | None => false end.
Lemma took_Some {A} (o : option A) : took o = true → ∃ x, o = Some x.
Proof. destruct o; [eauto|done]. Qed.

Lemma empty_turns_run :
  took (take_turns (sample_reconciler "eks-") [0; 1; 0]%nat (pool [FullCycle; pod_deleted] ∅)) = true.
Proof. vm_compute. reflexivity. Qed.

Lemma sample_turns_reachable evs is_ m ts v :
  take_turns (sample_reconciler "eks-") is_ (pool evs m) = Some (ts, v) →
  reachable (sample_reconciler "eks-") startable ([], m) (ts, v).
Proof. intros Hrun. etransitivity; [apply pool_reachable|by eapply take_turns_reachable]. Qed.


Definition cycle_run := handle (S:=server) (sample_reconciler "eks-") FullCycle (connected_world ∅).

Lemma cycle_run_returns : cycle_run = (Ret tt, cycle_run.2).
Proof.
  assert (cycle_run.1 = Ret tt) as Hret by (vm_compute; reflexivity).
  rewrite <-Hret. apply surjective_pairing.
Qed.

Lemma handler_alone_is_sequential_witness :
  ∃ t calls,
    reachable (sample_reconciler "eks-") startable ([start FullCycle], spire (connected_world ∅))
      (<[0%nat := t]> [start FullCycle], spire cycle_run.2) ∧
    run (sample_reconciler "eks-") t =
      (Ret tt, wired (V:=server) {| replies := []; asked := calls |} cycle_run.2).
Proof.
  exact (handler_alone_is_sequential (sample_reconciler "eks-") FullCycle (connected_world ∅)
    cycle_run.2 empty_wire [start FullCycle] 0 startable cycle_run_returns eq_refl).
Defined.

(** The cycle of a registrar whose clusters still ask for the pod. *)
Lemma cycle_repairs_witness :
  ∃ ts v, take_turns (sample_reconciler "eks-") [0; 1; 0]%nat
      (pool [FullCycle; pod_deleted] ∅) = Some (ts, v) ∧
    let w := set_spire v (connected_world ∅) in
    let ds := desired (sample_reconciler "eks-") w [sample_identity ""] in
    wp (reconcileEntries (sample_reconciler "eks-") []) (λ _ w', ∀ k,
      if managed (sample_reconciler "eks-") k then
        match registered w' !! k with
        | Some e => ∃ d, d ∈ ds ∧ declared_ID "eks-" d = k ∧
            (e = set_ID k d ∨ registered w !! k = Some e ∧ entriesEqual e (set_ID k d) = true)
        | None => ∀ d, d ∈ ds → declared_ID "eks-" d = k →
            ∃ d', d' ∈ ds ∧ declared_ID "eks-" d' = k ∧ taken d' (client_store (∅ : server))
        end
      else registered w' !! k = client_store (∅ : server) !! k ∨
        (∃ e, client_store (∅ : server) !! k = Some e ∧ claimed (K:=test_kube) e) ∧
        registered w' !! k = None) w.
Proof.
  destruct (took_Some _ empty_turns_run) as [[ts v] Hrun].
  exists ts, v. split; [exact Hrun|].
  exact (cycle_repairs (sample_reconciler "eks-") [] [sample_identity ""] ∅ ts
    (set_spire v (connected_world ∅)) (λ _, eq_refl) (sample_turns_reachable _ _ _ _ _ Hrun) I eq_refl).
Defined.
