(* ===== verification/Memory.v ===== *)
(** * Memory, and what it means to copy a value deeply

    The rest of the development treats Go values as immutable.  The copies of
    api/v1alpha1/zz_generated.deepcopy.go are what allows that, and here they
    are modelled over a memory: slices, maps and pointers are locations, a
    struct is its fields with such references in them.

    [Copies T V] is the interface of a type with a deep copy: the value [V] a
    [T] stands for in a memory, the locations it reaches, and the copy.
    [CopiesLaws] says that the copy has the same value and shares nothing. *)

From S2P Require Export ApiTypes.
From stdpp Require Export fin_map_dom.

Local Open Scope Z_scope.

Abbreviation loc := positive (only parsing).

(** A computation over a memory with cells [C]: [None] is a reference that
    does not point where its type says, which no Go program can build. *)
Definition Mem (C A : Type) : Type := gmap loc C → option (A * gmap loc C).

#[export] Instance Mem_ret {C} : MRet (Mem C) := λ A a h, Some (a, h).
#[export] Instance Mem_bind {C} : MBind (Mem C) := λ A B f m h,
  match m h with Some (a, h') => f a h' | None => None end.

(** [new] and [make]: a location that is not in use. *)
Definition alloc {C} (c : C) : Mem C loc := λ h,
  let l := fresh (dom h) in Some (l, <[l := c]> h).

(** Reading through a reference. *)
Definition load {C} (l : loc) : Mem C C := λ h, (λ c, (c, h)) <$> h !! l.

(** A value that is there, whatever the memory. *)
Definition get {C A} (o : option A) : Mem C A := λ h, (λ a, (a, h)) <$> o.

(** A slice: its array, and where in it the slice starts and how long it is. *)
Record Slice := { s_array : loc; s_start : nat; s_length : nat }.

Definition window {A} (s : Slice) (l : list A) : list A := take (s_length s) (drop (s_start s) l).

(** ** The interface *)

Class Copies (C T V : Type) := {
  value : gmap loc C → T → option V;
  reach : gmap loc C → T → gset loc;
  copy : T → Mem C T;
}.

Class CopiesLaws (C T V : Type) `{!Copies C T V} : Prop := {
  reach_dom h x v : value h x = Some v → reach h x ⊆ dom h;
  value_local h h' x v : value h x = Some v → (∀ l, l ∈ reach h x → h' !! l = h !! l) →
    value h' x = Some v ∧ reach h' x = reach h x;
  copy_ok h x v : value h x = Some v → ∃ y h', copy x h = Some (y, h') ∧ h ⊆ h' ∧
    value h' y = Some v ∧ reach h' y ## dom h;
}.

(** How the values of a type sit in a cell. *)
Class Stored (C T : Type) := {
  to_cell : T → C;
  of_cell : C → option T;
  of_to_cell x : of_cell (to_cell x) = Some x;
}.

Section copies.
Context {C : Type}.
Implicit Types (h : gmap loc C).

Lemma value_mono {T V} `{!Copies C T V, !CopiesLaws C T V} h h' x v :
  value h x = Some v → h ⊆ h' → value h' x = Some v ∧ reach h' x = reach h x.
Proof.
  intros Hv Hsub. apply value_local; [done|]. intros l Hl. apply (reach_dom _ _ _ Hv) in Hl.
  apply elem_of_dom in Hl as [c Hc]. rewrite Hc. by eapply lookup_weaken.
Qed.

(** The copy and the original share nothing: whatever happens to the memory
    of one, the other keeps its value. *)
Lemma copy_independent {T V} `{!Copies C T V, !CopiesLaws C T V} h x v :
  value h x = Some v → ∃ y h', copy x h = Some (y, h') ∧ h ⊆ h' ∧
    value h' y = Some v ∧ reach h' x = reach h x ∧ reach h' y ## dom h ∧
    (∀ h'', (∀ l, l ∉ dom h → h'' !! l = h' !! l) → value h'' y = Some v) ∧
    (∀ h'', (∀ l, l ∈ dom h → h'' !! l = h' !! l) → value h'' x = Some v).
Proof.
  intros Hv. destruct (copy_ok h x v Hv) as (y & h' & Hc & Hsub & Hv' & Hr).
  destruct (value_mono h h' x v Hv Hsub) as [Hvx Hrx].
  exists y, h'. split_and!; [done..| |].
  - intros h'' Heq. eapply value_local; [done|]. intros l Hl. apply Heq. set_solver.
  - intros h'' Heq. eapply value_local; [done|]. intros l Hl. apply Heq.
    rewrite Hrx in Hl. by eapply reach_dom.
Qed.

(** *** Plain data *)

Definition flat_Copies T : Copies C T T := {|
  value _ x := Some x; reach _ _ := ∅; copy x := mret x |}.
Lemma flat_laws T : @CopiesLaws C T T (flat_Copies T).
Proof.
  split; simpl; [done|done|]. intros h x v [= ->]. exists v, h. split_and!; [done|done|done|set_solver].
Qed.

(** *** Two parts, one after the other *)

#[export] Instance pair_Copies {T1 V1 T2 V2} `{!Copies C T1 V1, !Copies C T2 V2} :
    Copies C (T1 * T2) (V1 * V2) := {|
  value h x := v1 ← value h x.1; v2 ← value h x.2; Some (v1, v2);
  reach h x := reach h x.1 ∪ reach h x.2;
  copy x := y1 ← copy x.1; y2 ← copy x.2; mret (y1, y2) |}.

#[export] Instance pair_laws {T1 V1 T2 V2} `{!Copies C T1 V1, !Copies C T2 V2}
    `{!CopiesLaws C T1 V1, !CopiesLaws C T2 V2} : CopiesLaws C (T1 * T2) (V1 * V2).
Proof.
  split; intros h.
  - intros [x1 x2] v. simpl. intros (v1 & H1' & (v2 & H2' & [= <-])%bind_Some)%bind_Some.
    apply reach_dom in H1', H2'. set_solver.
  - intros h' [x1 x2] v. simpl. intros (v1 & H1' & (v2 & H2' & [= <-])%bind_Some)%bind_Some Heq.
    destruct (value_local h h' x1 v1 H1') as [-> ->]; [set_solver|].
    destruct (value_local h h' x2 v2 H2') as [-> ->]; [set_solver|]. done.
  - intros [x1 x2] v. simpl. intros (v1 & H1' & (v2 & H2' & [= <-])%bind_Some)%bind_Some.
    destruct (copy_ok h x1 v1 H1') as (y1 & h1 & Hc1 & Hs1 & Hv1 & Hr1).
    destruct (value_mono h h1 x2 v2 H2' Hs1) as [H2'' _].
    destruct (copy_ok h1 x2 v2 H2'') as (y2 & h2 & Hc2 & Hs2 & Hv2 & Hr2).
    destruct (value_mono h1 h2 y1 v1 Hv1 Hs2) as [Hv1' Hr1'].
    exists (y1, y2), h2. unfold mbind, Mem_bind. rewrite Hc1, Hc2. simpl. rewrite Hv1', Hv2, Hr1'.
    split_and!; [done|by etransitivity|done|]. apply subseteq_dom in Hs1. set_solver.
Qed.

(** *** A struct is copied by copying its references

    [refs] are the references of a struct, [put] the struct with others in
    their place, [build] the value, from the plain fields and the values of the
    references. *)
Definition struct_Copies {T V R W} `{!Copies C R W} (refs : T → R) (build : T → W → V)
    (cp : T → Mem C T) : Copies C T V := {|
  value h x := build x <$> value h (refs x); reach h x := reach h (refs x); copy := cp |}.

Lemma struct_laws {T V R W} `{!Copies C R W, !CopiesLaws C R W} (refs : T → R) (put : T → R → T)
    (build : T → W → V) (cp : T → Mem C T) :
  (∀ x y, refs (put x y) = y) → (∀ x y, build (put x y) = build x) →
  (∀ x h, cp x h = '(y, h') ← copy (refs x) h; Some (put x y, h')) →
  @CopiesLaws C T V (struct_Copies refs build cp).
Proof.
  intros Hrefs Hbuild Hcp. split; simpl; intros h.
  - intros x v (w & Hw & ->)%fmap_Some. by eapply reach_dom.
  - intros h' x v (w & Hw & ->)%fmap_Some Heq. by destruct (value_local h h' (refs x) w Hw Heq) as [-> ->].
  - intros x v (w & Hw & ->)%fmap_Some. destruct (copy_ok h (refs x) w Hw) as (y & h' & Hc & Hs & Hv & Hr).
    exists (put x y), h'. rewrite Hcp, Hc. simpl. rewrite Hrefs, Hv, Hbuild. done.
Qed.

(** *** Pointers

    A pointer that is not nil becomes one to a new copy of what it points to;
    this is also what the method [DeepCopy] does with its receiver. *)
Section pointer.
Context {T V : Type} `{!Stored C T, !Copies C T V}.

Definition copy_pointer (p : option loc) : Mem C (option loc) :=
  match p with
  | None => mret None
  | Some l =>
      c ← load l; x ← get (of_cell c);
      y ← copy x;
      l' ← alloc (to_cell y); mret (Some l')
  end.

#[export] Instance pointer_Copies : Copies C (option loc) (option V) := {|
  value h p := match p with
               | None => Some None
               | Some l => Some <$> (c ← h !! l; x ← of_cell c; value h x)
               end;
  reach h p := match p with
               | None => ∅
               | Some l => {[l]} ∪ default ∅ (c ← h !! l; x ← of_cell c; Some (reach h x))
               end;
  copy := copy_pointer |}.

Lemma value_pointer h l (v : option V) :
  value h (Some l) = Some v ↔ ∃ c x w, h !! l = Some c ∧ of_cell c = Some x ∧ value h x = Some w ∧
    v = Some w.
Proof.
  simpl. split.
  - intros (w & (c & Hc & (x & Hx & Hw)%bind_Some)%bind_Some & ->)%fmap_Some. by exists c, x, w.
  - intros (c & x & w & -> & Hx & Hw & ->). simpl. by rewrite Hx; simpl; rewrite Hw.
Qed.

#[export] Instance pointer_laws `{!CopiesLaws C T V} : CopiesLaws C (option loc) (option V).
Proof.
  split; intros h.
  - intros [l|] v; [|simpl; set_solver].
    intros (c & x & w & Hc & Hx & Hw & ->)%value_pointer. simpl. rewrite Hc. simpl. rewrite Hx. simpl.
    apply reach_dom in Hw. apply elem_of_dom_2 in Hc. set_solver.
  - intros h' [l|] v; [|by intros [= <-]].
    intros (c & x & w & Hc & Hx & Hw & ->)%value_pointer. simpl. rewrite Hc. simpl. rewrite Hx. simpl.
    intros Heq. rewrite (Heq l), Hc by set_solver. simpl. rewrite Hx. simpl.
    destruct (value_local h h' x w Hw) as [-> ->]; [set_solver|done].
  - intros [l|] v.
    + intros (c & x & w & Hc & Hx & Hw & ->)%value_pointer.
      destruct (copy_ok h x w Hw) as (y & h1 & Hcp & Hs & Hv & Hr).
      simpl. unfold mbind, Mem_bind, load, get, alloc. rewrite Hc. simpl. rewrite Hx. simpl. rewrite Hcp.
      set (l' := fresh (dom h1)). assert (l' ∉ dom h1) as Hl' by apply is_fresh.
      assert (h1 ⊆ <[l' := to_cell y]> h1) as Hs'.
      { apply insert_subseteq. by apply not_elem_of_dom. }
      destruct (value_mono h1 _ y w Hv Hs') as [Hv' Hr'].
      eexists _, _. split; [done|]. split; [by etransitivity|]. simpl.
      rewrite lookup_insert_eq. simpl. rewrite of_to_cell. simpl. rewrite Hv', Hr'. split; [done|].
      apply subseteq_dom in Hs. set_solver.
    + simpl. intros [= <-]. exists None, h. split_and!; [done..|set_solver].
Qed.
End pointer.

(** *** Slices

    A new array of the slice's length, then [copy] of plain elements or a loop
    that copies each struct into its place.  A nil slice stays nil. *)
Section slice.
Context {T V : Type} `{!Copies C T V}.

Fixpoint copy_elements (l : list T) : Mem C (list T) :=
  match l with
  | [] => mret []
  | x :: l => y ← copy x; ys ← copy_elements l; mret (y :: ys)
  end.

#[export] Instance list_Copies : Copies C (list T) (list V) := {|
  value h l := mapM (value h) l;
  reach h l := ⋃ (reach h <$> l);
  copy := copy_elements |}.

Lemma reach_cons h x l : reach h (x :: l) = reach h x ∪ reach h l.
Proof. done. Qed.

Lemma value_cons h x l v :
  value h (x :: l) = Some v ↔ ∃ w ws, value h x = Some w ∧ value h l = Some ws ∧ v = w :: ws.
Proof.
  cbn [value list_Copies mapM]. split.
  - intros (w & Hw & (ws & Hws & [= <-])%bind_Some)%bind_Some. by exists w, ws.
  - intros (w & ws & -> & Hws & ->). cbn. by rewrite Hws.
Qed.

Lemma list_laws `{!CopiesLaws C T V} : CopiesLaws C (list T) (list V).
Proof.
  assert (∀ h h' l v, value h l = Some v → (∀ k, k ∈ reach h l → h' !! k = h !! k) →
    value h' l = Some v ∧ reach h' l = reach h l) as Hlocal.
  { intros h h' l. induction l as [|x l IH]; intros v; [done|].
    rewrite value_cons, !reach_cons. intros (w & ws & Hw & Hws & ->) Heq.
    destruct (value_local h h' x w Hw) as [Hw' ->]; [set_solver|].
    destruct (IH ws Hws) as [Hws' ->]; [set_solver|]. split; [|done]. apply value_cons. eauto. }
  assert (∀ h l v, value h l = Some v → reach h l ⊆ dom h) as Hdom.
  { intros h l. induction l as [|x l IH]; intros v; [cbn; set_solver|].
    rewrite value_cons, reach_cons. intros (w & ws & Hw%reach_dom & Hws%IH & ->). set_solver. }
  split; [done..|]. intros h l. revert h. induction l as [|x l IH]; intros h v.
  { intros [= <-]. exists [], h. split_and!; [done..|cbn; set_solver]. }
  rewrite value_cons. intros (w & ws & Hw & Hws & ->).
  destruct (copy_ok h x w Hw) as (y & h1 & Hc1 & Hs1 & Hv1 & Hr1).
  assert (value h1 l = Some ws) as Hws1.
  { eapply (Hlocal h h1); [done|]. intros k Hk%(Hdom h l ws Hws). apply elem_of_dom in Hk as [c Hc].
    rewrite Hc. by eapply lookup_weaken. }
  destruct (IH h1 ws Hws1) as (ys & h2 & Hc2 & Hs2 & Hv2 & Hr2).
  destruct (value_mono h1 h2 y w Hv1 Hs2) as [Hv1' Hr1'].
  exists (y :: ys), h2. cbn [copy list_Copies copy_elements] in *. unfold mbind, Mem_bind.
  rewrite Hc1, Hc2, reach_cons, Hr1'. split_and!; [done|by etransitivity|apply value_cons; eauto|].
  apply subseteq_dom in Hs1. set_solver.
Qed.

Context `{!Stored C (list T)}.

Definition copy_slice (s : option Slice) : Mem C (option Slice) :=
  match s with
  | None => mret None
  | Some s =>
      c ← load (s_array s); l ← get (of_cell c);
      ys ← copy_elements (window s l);
      a ← alloc (to_cell ys);
      mret (Some {| s_array := a; s_start := 0; s_length := s_length s |})
  end.

#[export] Instance slice_Copies : Copies C (option Slice) (list V) := {|
  value h s := match s with
               | None => Some []
               | Some s => c ← h !! s_array s; l ← of_cell c; value h (window s l)
               end;
  reach h s := match s with
               | None => ∅
               | Some s => {[s_array s]} ∪
                   default ∅ (c ← h !! s_array s; l ← of_cell c; Some (reach h (window s l)))
               end;
  copy := copy_slice |}.

Lemma value_slice h s v :
  value h (Some s) = Some v ↔ ∃ c l, h !! s_array s = Some c ∧ of_cell c = Some l ∧
    value h (window s l) = Some v.
Proof.
  simpl. split.
  - intros (c & Hc & (l & Hl & Hv)%bind_Some)%bind_Some. by exists c, l.
  - intros (c & l & -> & Hl & Hv). simpl. by rewrite Hl.
Qed.

Lemma reach_slice h s c l :
  h !! s_array s = Some c → of_cell c = Some l →
  reach h (Some s) = {[s_array s]} ∪ reach h (window s l).
Proof. intros Hc Hl. simpl. rewrite Hc. simpl. by rewrite Hl. Qed.

Lemma copy_elements_length h l ys h' :
  copy l h = Some (ys, h') → length ys = length l.
Proof.
  revert h ys. induction l as [|x l IH]; intros h ys; [by intros [= <- _]|].
  cbn. unfold mbind, Mem_bind. destruct (copy x h) as [[y h1]|]; [|done].
  destruct (copy_elements l h1) as [[ys' h2]|] eqn:Hl; [|done]. intros [= <- <-]. simpl.
  f_equal. by eapply IH.
Qed.

#[export] Instance slice_laws `{!CopiesLaws C T V} : CopiesLaws C (option Slice) (list V).
Proof.
  pose proof list_laws as Hlist. split; intros h.
  - intros [s|] v; [|simpl; set_solver]. intros (c & l & Hc & Hl & Hv)%value_slice.
    rewrite (reach_slice h s c l) by done. apply reach_dom in Hv. apply elem_of_dom_2 in Hc. set_solver.
  - intros h' [s|] v; [|done]. intros (c & l & Hc & Hl & Hv)%value_slice.
    rewrite (reach_slice h s c l) by done. intros Heq.
    assert (h' !! s_array s = Some c) as Hc' by (rewrite (Heq (s_array s)) by set_solver; done).
    destruct (value_local h h' (window s l) v Hv) as [Hv' Hr]; [set_solver|].
    rewrite (reach_slice h' s c l), Hr by done. split; [|done]. apply value_slice. by exists c, l.
  - intros [s|] v.
    2: { intros [= <-]. exists None, h. split_and!; [done..|simpl; set_solver]. }
    intros (c & l & Hc & Hl & Hv)%value_slice.
    destruct (copy_ok h (window s l) v Hv) as (ys & h1 & Hcp & Hs & Hv1 & Hr1).
    set (a := fresh (dom h1)). assert (a ∉ dom h1) as Ha by apply is_fresh.
    assert (h1 ⊆ <[a := to_cell ys]> h1) as Hs'.
    { apply insert_subseteq. by apply not_elem_of_dom. }
    destruct (value_mono h1 _ ys v Hv1 Hs') as [Hv' Hr'].
    set (s' := {| s_array := a; s_start := 0; s_length := s_length s |}).
    assert (window s' ys = ys) as Hwin.
    { unfold window. simpl. rewrite drop_0. apply take_ge.
      rewrite (copy_elements_length _ _ _ _ Hcp). unfold window. rewrite length_take. lia. }
    exists (Some s'), (<[a := to_cell ys]> h1). split.
    { simpl. unfold mbind, Mem_bind, load, get, alloc. rewrite Hc. simpl. rewrite Hl. simpl.
      simpl in Hcp. by rewrite Hcp. }
    split; [by etransitivity|]. rewrite (reach_slice _ s' (to_cell ys) ys), Hwin, Hr'.
    + split; [|simpl; apply subseteq_dom in Hs; set_solver]. apply value_slice.
      exists (to_cell ys), ys. rewrite Hwin. split_and!; [apply lookup_insert_eq|apply of_to_cell|done].
    + apply lookup_insert_eq.
    + apply of_to_cell.
Qed.
End slice.

(** *** Maps of strings

    A new map, then one assignment for each pair, in the order in which Go
    visits the map. *)
Section map.
Context `{!MapOrder, !Stored C (gmap string string)}.

Definition put_all (l : list (string * string)) : gmap string string :=
  foldl (λ m p, <[p.1 := p.2]> m) ∅ l.

Definition copy_map (p : option loc) : Mem C (option loc) :=
  match p with
  | None => mret None
  | Some l =>
      c ← load l; m ← get (of_cell c);
      l' ← alloc (to_cell (put_all (range_map m))); mret (Some l')
  end.

Definition map_Copies : Copies C (option loc) (gmap string string) := {|
  value h p := match p with None => Some ∅ | Some l => c ← h !! l; of_cell c end;
  reach h p := match p with None => ∅ | Some l => {[l]} end;
  copy := copy_map |}.

Lemma put_all_range `{!MapOrderLaws} (m : gmap string string) : put_all (range_map m) = m.
Proof.
  unfold put_all. assert (∀ l m0, NoDup l.*1 → (∀ k, k ∈ l.*1 → m0 !! k = None) →
    foldl (λ (m : gmap string string) p, <[p.1 := p.2]> m) m0 l = list_to_map l ∪ m0) as Hgen.
  { induction l as [|[k v] l IH]; intros m0; simpl; [by rewrite (left_id_L ∅ (∪))|].
    intros [Hk Hnd]%NoDup_cons Hm0. rewrite IH; [|done|].
    - rewrite <-insert_union_l, insert_union_r; [done|]. by apply not_elem_of_list_to_map_1.
    - intros k' Hk'. rewrite lookup_insert_ne; [apply Hm0; set_solver|]. by intros ->. }
  assert (range_map m ≡ₚ map_to_list m) as Hp by apply range_map_perm.
  rewrite Hgen, (right_id_L ∅ (∪)).
  - rewrite (list_to_map_proper _ (map_to_list m)); [apply list_to_map_to_list| |done].
    rewrite Hp. apply NoDup_fst_map_to_list.
  - rewrite Hp. apply NoDup_fst_map_to_list.
  - intros. apply lookup_empty.
Qed.

Lemma map_laws `{!MapOrderLaws} : @CopiesLaws C _ _ map_Copies.
Proof.
  split; intros h; cbn [value reach copy map_Copies].
  - intros [l|] v; [|set_solver]. intros (c & Hc & _)%bind_Some. apply elem_of_dom_2 in Hc. set_solver.
  - intros h' [l|] v; [|done]. intros (c & Hc & Hv)%bind_Some Heq.
    by rewrite (Heq l), Hc by set_solver.
  - intros [l|] v; cbn [copy_map].
    + intros (c & Hc & Hv)%bind_Some. unfold mbind, Mem_bind, load, get, alloc. rewrite Hc. simpl.
      rewrite Hv. simpl. rewrite put_all_range. set (l' := fresh (dom h)).
      assert (l' ∉ dom h) as Hl' by apply is_fresh.
      eexists _, _. split; [done|]. split; [apply insert_subseteq; by apply not_elem_of_dom|].
      rewrite lookup_insert_eq. cbn. rewrite of_to_cell. split; [done|set_solver].
    + intros [= <-]. exists None, h. split_and!; [done..|set_solver].
Qed.
End map.
End copies.
