(* ===== verification/DeepCopy.v ===== *)
(** * api/v1alpha1/zz_generated.deepcopy.go: deep copies

    The structs as they lie in memory, with slices, maps and pointers as
    references, and their methods [DeepCopyInto], [DeepCopy] and
    [DeepCopyObject].  [DeepCopyInto(out)] assigns the whole struct first and
    then a copy of each reference; it is modelled as the computation of what is
    assigned to [out].  The deep copies of apimachinery's own structs are
    parameters. *)

From S2P Require Export Memory Setup.

Local Open Scope Z_scope.

(** ** Structs of apimachinery *)

Record TypeMeta := { TM_Kind : string; TM_APIVersion : string }.

(** What their fields refer to is in cells of their own. *)
Class ApiMachinery := {
  ext_cell : Type;
  ObjectMeta_mem : Type;
  ListMeta_mem : Type;
  Condition_mem : Type;
  LabelSelector_mem : Type;
  LeaderElectionConfiguration_mem : Type;
  ListMeta : Type;
}.

Section structs.
Context `{!LabelSelectors, !ApiMachinery}.

(** ** The structs in memory: [m_X] is the field X *)

Record AWSConfig_mem := {
  m_AWS_Region : string;
  m_AccountIDs : option Slice;
  m_AWS_AssumeRoleARN : string;
}.

Record ControllerWebhook_mem := { m_Port : option loc; m_Host : string; m_CertDir : string }.

Record ControllerManagerConfigurationSpec_mem := {
  m_SyncPeriod : option loc;
  m_LeaderElection : option loc;
  m_CacheNamespace : string;
  m_Metrics : ControllerMetrics;
  m_Health : ControllerHealth;
  m_Webhook : ControllerWebhook_mem;
}.

Record ControllerManagerConfig_mem := {
  m_CMC_TypeMeta : TypeMeta;
  m_CMC_Spec : ControllerManagerConfigurationSpec_mem;
  m_CMC_ClusterName : string;
  m_CMC_TrustDomain : string;
  m_CMC_IgnoreNamespaces : option Slice;
  m_SPIREServerSocketPath : string;
  m_CMC_EntryIDPrefix : string;
  m_CMC_GCInterval : Duration;
  m_CMC_AWSConfig : AWSConfig_mem;
}.

Record EKSClusterRegistrySpec_mem := {
  m_ClusterName : string;
  m_Region : string;
  m_AccountID : string;
  m_Enabled : bool;
  m_AssumeRoleARN : string;
  m_Labels : option loc;
}.

Record EKSClusterRegistryStatus_mem := {
  m_LastSync : option loc;
  m_Conditions : option Slice;
  m_NamespaceCount : Z;
  m_Cluster_EntriesRegistered : Z;
}.

Record EKSClusterRegistry_mem := {
  m_EKS_TypeMeta : TypeMeta;
  m_EKS_ObjectMeta : ObjectMeta_mem;
  m_EKS_Spec : EKSClusterRegistrySpec_mem;
  m_EKS_Status : EKSClusterRegistryStatus_mem;
}.

Record EKSClusterRegistryList_mem := {
  m_EKSL_TypeMeta : TypeMeta;
  m_EKSL_ListMeta : ListMeta_mem;
  m_EKSL_Items : option Slice;
}.

Record WorkloadIdentitySpec_mem := {
  m_ApplicationName : string;
  m_Spec_Namespace : string;
  m_SPIFFEIDTemplate : string;
  m_ParentIDTemplate : string;
  m_PodSelector : option loc;
  m_TTL : Duration;
  m_JWTTTL : Duration;
  m_DNSNameTemplates : option Slice;
  m_WorkloadSelectorTemplates : option Slice;
  m_FederatesWith : option Slice;
  m_Admin : bool;
  m_Downstream : bool;
  m_AutoPopulateDNSNames : bool;
  m_ClusterSelector : option loc;
  m_Hint : string;
}.

Record WorkloadIdentityStatus_mem := {
  m_Stats : WorkloadIdentityStats;
  m_LastReconciliation : option loc;
}.

Record WorkloadIdentity_mem := {
  m_WI_TypeMeta : TypeMeta;
  m_WI_ObjectMeta : ObjectMeta_mem;
  m_WI_Spec : WorkloadIdentitySpec_mem;
  m_WI_Status : WorkloadIdentityStatus_mem;
}.

Record WorkloadIdentityList_mem := {
  m_WIL_TypeMeta : TypeMeta;
  m_WIL_ListMeta : ListMeta_mem;
  m_WIL_Items : option Slice;
}.

(** ** Cells: what a reference can point to *)

Inductive cell :=
| CellExt (c : ext_cell)
| CellNumber (n : Z)            (* an int, a time or a duration *)
| CellStrings (l : list string)
| CellMap (m : gmap string string)
| CellSelector (s : LabelSelector_mem)
| CellLeaderElection (c : LeaderElectionConfiguration_mem)
| CellConditions (l : list Condition_mem)
| CellClusters (l : list EKSClusterRegistry_mem)
| CellIdentities (l : list WorkloadIdentity_mem)
| CellAWSConfig (x : AWSConfig_mem)
| CellMetrics (x : ControllerMetrics)
| CellHealth (x : ControllerHealth)
| CellWebhook (x : ControllerWebhook_mem)
| CellConfigSpec (x : ControllerManagerConfigurationSpec_mem)
| CellConfig (x : ControllerManagerConfig_mem)
| CellClusterSpec (x : EKSClusterRegistrySpec_mem)
| CellClusterStatus (x : EKSClusterRegistryStatus_mem)
| CellCluster (x : EKSClusterRegistry_mem)
| CellClusterList (x : EKSClusterRegistryList_mem)
| CellIdentitySpec (x : WorkloadIdentitySpec_mem)
| CellStats (x : WorkloadIdentityStats)
| CellIdentityStatus (x : WorkloadIdentityStatus_mem)
| CellIdentity (x : WorkloadIdentity_mem)
| CellIdentityList (x : WorkloadIdentityList_mem).
End structs.

(** A cell of each kind holds the values of one type. *)
Section stored.
Context `{!LabelSelectors, !ApiMachinery}.

#[export] Instance stored_number : Stored cell Z := {|
  to_cell := CellNumber; of_to_cell _ := eq_refl;
  of_cell c := match c with CellNumber x => Some x | _ => None end |}.
#[export] Instance stored_strings : Stored cell (list string) := {|
  to_cell := CellStrings; of_to_cell _ := eq_refl;
  of_cell c := match c with CellStrings x => Some x | _ => None end |}.
#[export] Instance stored_map : Stored cell (gmap string string) := {|
  to_cell := CellMap; of_to_cell _ := eq_refl;
  of_cell c := match c with CellMap x => Some x | _ => None end |}.
#[export] Instance stored_selector : Stored cell LabelSelector_mem := {|
  to_cell := CellSelector; of_to_cell _ := eq_refl;
  of_cell c := match c with CellSelector x => Some x | _ => None end |}.
#[export] Instance stored_leader : Stored cell LeaderElectionConfiguration_mem := {|
  to_cell := CellLeaderElection; of_to_cell _ := eq_refl;
  of_cell c := match c with CellLeaderElection x => Some x | _ => None end |}.
#[export] Instance stored_conditions : Stored cell (list Condition_mem) := {|
  to_cell := CellConditions; of_to_cell _ := eq_refl;
  of_cell c := match c with CellConditions x => Some x | _ => None end |}.
#[export] Instance stored_clusters : Stored cell (list EKSClusterRegistry_mem) := {|
  to_cell := CellClusters; of_to_cell _ := eq_refl;
  of_cell c := match c with CellClusters x => Some x | _ => None end |}.
#[export] Instance stored_identities : Stored cell (list WorkloadIdentity_mem) := {|
  to_cell := CellIdentities; of_to_cell _ := eq_refl;
  of_cell c := match c with CellIdentities x => Some x | _ => None end |}.
#[export] Instance stored_AWSConfig : Stored cell AWSConfig_mem := {|
  to_cell := CellAWSConfig; of_to_cell _ := eq_refl;
  of_cell c := match c with CellAWSConfig x => Some x | _ => None end |}.
#[export] Instance stored_Metrics : Stored cell ControllerMetrics := {|
  to_cell := CellMetrics; of_to_cell _ := eq_refl;
  of_cell c := match c with CellMetrics x => Some x | _ => None end |}.
#[export] Instance stored_Health : Stored cell ControllerHealth := {|
  to_cell := CellHealth; of_to_cell _ := eq_refl;
  of_cell c := match c with CellHealth x => Some x | _ => None end |}.
#[export] Instance stored_Webhook : Stored cell ControllerWebhook_mem := {|
  to_cell := CellWebhook; of_to_cell _ := eq_refl;
  of_cell c := match c with CellWebhook x => Some x | _ => None end |}.
#[export] Instance stored_ConfigSpec : Stored cell ControllerManagerConfigurationSpec_mem := {|
  to_cell := CellConfigSpec; of_to_cell _ := eq_refl;
  of_cell c := match c with CellConfigSpec x => Some x | _ => None end |}.
#[export] Instance stored_Config : Stored cell ControllerManagerConfig_mem := {|
  to_cell := CellConfig; of_to_cell _ := eq_refl;
  of_cell c := match c with CellConfig x => Some x | _ => None end |}.
#[export] Instance stored_ClusterSpec : Stored cell EKSClusterRegistrySpec_mem := {|
  to_cell := CellClusterSpec; of_to_cell _ := eq_refl;
  of_cell c := match c with CellClusterSpec x => Some x | _ => None end |}.
#[export] Instance stored_ClusterStatus : Stored cell EKSClusterRegistryStatus_mem := {|
  to_cell := CellClusterStatus; of_to_cell _ := eq_refl;
  of_cell c := match c with CellClusterStatus x => Some x | _ => None end |}.
#[export] Instance stored_Cluster : Stored cell EKSClusterRegistry_mem := {|
  to_cell := CellCluster; of_to_cell _ := eq_refl;
  of_cell c := match c with CellCluster x => Some x | _ => None end |}.
#[export] Instance stored_ClusterList : Stored cell EKSClusterRegistryList_mem := {|
  to_cell := CellClusterList; of_to_cell _ := eq_refl;
  of_cell c := match c with CellClusterList x => Some x | _ => None end |}.
#[export] Instance stored_IdentitySpec : Stored cell WorkloadIdentitySpec_mem := {|
  to_cell := CellIdentitySpec; of_to_cell _ := eq_refl;
  of_cell c := match c with CellIdentitySpec x => Some x | _ => None end |}.
#[export] Instance stored_Stats : Stored cell WorkloadIdentityStats := {|
  to_cell := CellStats; of_to_cell _ := eq_refl;
  of_cell c := match c with CellStats x => Some x | _ => None end |}.
#[export] Instance stored_IdentityStatus : Stored cell WorkloadIdentityStatus_mem := {|
  to_cell := CellIdentityStatus; of_to_cell _ := eq_refl;
  of_cell c := match c with CellIdentityStatus x => Some x | _ => None end |}.
#[export] Instance stored_Identity : Stored cell WorkloadIdentity_mem := {|
  to_cell := CellIdentity; of_to_cell _ := eq_refl;
  of_cell c := match c with CellIdentity x => Some x | _ => None end |}.
#[export] Instance stored_IdentityList : Stored cell WorkloadIdentityList_mem := {|
  to_cell := CellIdentityList; of_to_cell _ := eq_refl;
  of_cell c := match c with CellIdentityList x => Some x | _ => None end |}.
End stored.

(** The deep copies of apimachinery, and what they document. *)
Class ApiMachineryCopies `{!LabelSelectors, !ApiMachinery} := {
  ObjectMeta_Copies :: Copies cell ObjectMeta_mem ObjectMeta;
  ListMeta_Copies :: Copies cell ListMeta_mem ListMeta;
  Condition_Copies :: Copies cell Condition_mem Condition;
  LabelSelector_Copies :: Copies cell LabelSelector_mem LabelSelector;
  LeaderElection_Copies :: Copies cell LeaderElectionConfiguration_mem LeaderElectionConfiguration;
}.

Class ApiMachineryLaws `{!LabelSelectors, !ApiMachinery, !ApiMachineryCopies} : Prop := {
  ObjectMeta_laws :: CopiesLaws cell ObjectMeta_mem ObjectMeta;
  ListMeta_laws :: CopiesLaws cell ListMeta_mem ListMeta;
  Condition_laws :: CopiesLaws cell Condition_mem Condition;
  LabelSelector_laws :: CopiesLaws cell LabelSelector_mem LabelSelector;
  LeaderElection_laws :: CopiesLaws cell LeaderElectionConfiguration_mem LeaderElectionConfiguration;
}.

(** ** The methods *)

Section deepcopy.
Context `{!LabelSelectors, !MapOrder, !ApiMachinery, !ApiMachineryCopies}.

#[export] Instance number_Copies : Copies cell Z Z := flat_Copies Z.
#[export] Instance string_Copies : Copies cell string string := flat_Copies string.
#[export] Instance TypeMeta_Copies : Copies cell TypeMeta TypeMeta := flat_Copies TypeMeta.
#[export] Instance labels_Copies : Copies cell (option loc) (gmap string string) := map_Copies.

(** The copy of a slice of strings. *)
Abbreviation copy_strings := (copy_slice (T:=string) (V:=string)).

(** *** The configuration *)

Definition AWSConfig_DeepCopyInto (in_ : AWSConfig_mem) : Mem cell AWSConfig_mem :=
  accountIDs ← copy_strings (m_AccountIDs in_);
  mret {| m_AWS_Region := m_AWS_Region in_; m_AccountIDs := accountIDs;
          m_AWS_AssumeRoleARN := m_AWS_AssumeRoleARN in_ |}.

(** Structs without references: the assignment is the copy. *)
Definition ControllerHealth_DeepCopyInto (in_ : ControllerHealth) : Mem cell ControllerHealth := mret in_.
Definition ControllerMetrics_DeepCopyInto (in_ : ControllerMetrics) : Mem cell ControllerMetrics := mret in_.
Definition WorkloadIdentityStats_DeepCopyInto (in_ : WorkloadIdentityStats) :
    Mem cell WorkloadIdentityStats := mret in_.

Definition ControllerWebhook_DeepCopyInto (in_ : ControllerWebhook_mem) : Mem cell ControllerWebhook_mem :=
  port ← copy_pointer (T:=Z) (V:=Z) (m_Port in_);
  mret {| m_Port := port; m_Host := m_Host in_; m_CertDir := m_CertDir in_ |}.

Definition ControllerManagerConfigurationSpec_DeepCopyInto (in_ : ControllerManagerConfigurationSpec_mem) :
    Mem cell ControllerManagerConfigurationSpec_mem :=
  syncPeriod ← copy_pointer (T:=Z) (V:=Z) (m_SyncPeriod in_);
  leaderElection ← copy_pointer (T:=LeaderElectionConfiguration_mem) (m_LeaderElection in_);
  webhook ← ControllerWebhook_DeepCopyInto (m_Webhook in_);
  mret {| m_SyncPeriod := syncPeriod; m_LeaderElection := leaderElection;
          m_CacheNamespace := m_CacheNamespace in_; m_Metrics := m_Metrics in_;
          m_Health := m_Health in_; m_Webhook := webhook |}.

Definition ControllerManagerConfig_DeepCopyInto (in_ : ControllerManagerConfig_mem) :
    Mem cell ControllerManagerConfig_mem :=
  spec ← ControllerManagerConfigurationSpec_DeepCopyInto (m_CMC_Spec in_);
  ignoreNamespaces ← copy_strings (m_CMC_IgnoreNamespaces in_);
  awsConfig ← AWSConfig_DeepCopyInto (m_CMC_AWSConfig in_);
  mret {| m_CMC_TypeMeta := m_CMC_TypeMeta in_; m_CMC_Spec := spec;
          m_CMC_ClusterName := m_CMC_ClusterName in_; m_CMC_TrustDomain := m_CMC_TrustDomain in_;
          m_CMC_IgnoreNamespaces := ignoreNamespaces;
          m_SPIREServerSocketPath := m_SPIREServerSocketPath in_;
          m_CMC_EntryIDPrefix := m_CMC_EntryIDPrefix in_; m_CMC_GCInterval := m_CMC_GCInterval in_;
          m_CMC_AWSConfig := awsConfig |}.

(** *** EKSClusterRegistry *)

Definition EKSClusterRegistrySpec_DeepCopyInto (in_ : EKSClusterRegistrySpec_mem) :
    Mem cell EKSClusterRegistrySpec_mem :=
  labels ← copy_map (m_Labels in_);
  mret {| m_ClusterName := m_ClusterName in_; m_Region := m_Region in_;
          m_AccountID := m_AccountID in_; m_Enabled := m_Enabled in_;
          m_AssumeRoleARN := m_AssumeRoleARN in_; m_Labels := labels |}.

Definition EKSClusterRegistryStatus_DeepCopyInto (in_ : EKSClusterRegistryStatus_mem) :
    Mem cell EKSClusterRegistryStatus_mem :=
  lastSync ← copy_pointer (T:=Z) (V:=Z) (m_LastSync in_);
  conditions ← copy_slice (T:=Condition_mem) (m_Conditions in_);
  mret {| m_LastSync := lastSync; m_Conditions := conditions;
          m_NamespaceCount := m_NamespaceCount in_;
          m_Cluster_EntriesRegistered := m_Cluster_EntriesRegistered in_ |}.

Definition EKSClusterRegistry_DeepCopyInto (in_ : EKSClusterRegistry_mem) : Mem cell EKSClusterRegistry_mem :=
  objectMeta ← copy (m_EKS_ObjectMeta in_);
  spec ← EKSClusterRegistrySpec_DeepCopyInto (m_EKS_Spec in_);
  status ← EKSClusterRegistryStatus_DeepCopyInto (m_EKS_Status in_);
  mret {| m_EKS_TypeMeta := m_EKS_TypeMeta in_; m_EKS_ObjectMeta := objectMeta;
          m_EKS_Spec := spec; m_EKS_Status := status |}.

(** *** WorkloadIdentity *)

Definition WorkloadIdentitySpec_DeepCopyInto (in_ : WorkloadIdentitySpec_mem) :
    Mem cell WorkloadIdentitySpec_mem :=
  podSelector ← copy_pointer (T:=LabelSelector_mem) (m_PodSelector in_);
  dnsNameTemplates ← copy_strings (m_DNSNameTemplates in_);
  workloadSelectorTemplates ← copy_strings (m_WorkloadSelectorTemplates in_);
  federatesWith ← copy_strings (m_FederatesWith in_);
  clusterSelector ← copy_pointer (T:=LabelSelector_mem) (m_ClusterSelector in_);
  mret {| m_ApplicationName := m_ApplicationName in_; m_Spec_Namespace := m_Spec_Namespace in_;
          m_SPIFFEIDTemplate := m_SPIFFEIDTemplate in_; m_ParentIDTemplate := m_ParentIDTemplate in_;
          m_PodSelector := podSelector; m_TTL := m_TTL in_; m_JWTTTL := m_JWTTTL in_;
          m_DNSNameTemplates := dnsNameTemplates;
          m_WorkloadSelectorTemplates := workloadSelectorTemplates;
          m_FederatesWith := federatesWith; m_Admin := m_Admin in_; m_Downstream := m_Downstream in_;
          m_AutoPopulateDNSNames := m_AutoPopulateDNSNames in_;
          m_ClusterSelector := clusterSelector; m_Hint := m_Hint in_ |}.

Definition WorkloadIdentityStatus_DeepCopyInto (in_ : WorkloadIdentityStatus_mem) :
    Mem cell WorkloadIdentityStatus_mem :=
  lastReconciliation ← copy_pointer (T:=Z) (V:=Z) (m_LastReconciliation in_);
  mret {| m_Stats := m_Stats in_; m_LastReconciliation := lastReconciliation |}.

Definition WorkloadIdentity_DeepCopyInto (in_ : WorkloadIdentity_mem) : Mem cell WorkloadIdentity_mem :=
  objectMeta ← copy (m_WI_ObjectMeta in_);
  spec ← WorkloadIdentitySpec_DeepCopyInto (m_WI_Spec in_);
  status ← WorkloadIdentityStatus_DeepCopyInto (m_WI_Status in_);
  mret {| m_WI_TypeMeta := m_WI_TypeMeta in_; m_WI_ObjectMeta := objectMeta;
          m_WI_Spec := spec; m_WI_Status := status |}.

(** *** What the structs stand for: the records of the rest of the development *)

#[export] Instance Health_Copies : Copies cell ControllerHealth ControllerHealth := {|
  value _ x := Some x; reach _ _ := ∅; copy := ControllerHealth_DeepCopyInto |}.
#[export] Instance Metrics_Copies : Copies cell ControllerMetrics ControllerMetrics := {|
  value _ x := Some x; reach _ _ := ∅; copy := ControllerMetrics_DeepCopyInto |}.
#[export] Instance Stats_Copies : Copies cell WorkloadIdentityStats WorkloadIdentityStats := {|
  value _ x := Some x; reach _ _ := ∅; copy := WorkloadIdentityStats_DeepCopyInto |}.

#[export] Instance AWSConfig_Copies : Copies cell AWSConfig_mem AWSConfig :=
  struct_Copies m_AccountIDs (λ x accountIDs,
    {| AWS_Region := m_AWS_Region x; AccountIDs := accountIDs;
       AWS_AssumeRoleARN := m_AWS_AssumeRoleARN x |}) AWSConfig_DeepCopyInto.

#[export] Instance Webhook_Copies : Copies cell ControllerWebhook_mem ControllerWebhook :=
  struct_Copies m_Port (λ x port, {| Port := port; Host := m_Host x; CertDir := m_CertDir x |})
    ControllerWebhook_DeepCopyInto.

#[export] Instance ConfigSpec_Copies :
    Copies cell ControllerManagerConfigurationSpec_mem ControllerManagerConfigurationSpec :=
  struct_Copies (λ x, (m_SyncPeriod x, (m_LeaderElection x, m_Webhook x)))
    (λ x '(syncPeriod, (leaderElection, webhook)),
      {| Spec_SyncPeriod := syncPeriod; Spec_LeaderElection := leaderElection;
         CacheNamespace := m_CacheNamespace x; Metrics := m_Metrics x; Health := m_Health x;
         Webhook := webhook |}) ControllerManagerConfigurationSpec_DeepCopyInto.

#[export] Instance Config_Copies :
    Copies cell ControllerManagerConfig_mem (TypeMeta * ControllerManagerConfig) :=
  struct_Copies (λ x, (m_CMC_Spec x, (m_CMC_IgnoreNamespaces x, m_CMC_AWSConfig x)))
    (λ x '(spec, (ignoreNamespaces, awsConfig)), (m_CMC_TypeMeta x,
      {| CMC_Spec := spec; CMC_ClusterName := m_CMC_ClusterName x;
         CMC_TrustDomain := m_CMC_TrustDomain x; CMC_IgnoreNamespaces := ignoreNamespaces;
         SPIREServerSocketPath := m_SPIREServerSocketPath x;
         CMC_EntryIDPrefix := m_CMC_EntryIDPrefix x; CMC_GCInterval := m_CMC_GCInterval x;
         CMC_AWSConfig := awsConfig |})) ControllerManagerConfig_DeepCopyInto.

#[export] Instance ClusterSpec_Copies : Copies cell EKSClusterRegistrySpec_mem EKSClusterRegistrySpec :=
  struct_Copies m_Labels (λ x labels,
    {| ClusterName := m_ClusterName x; Region := m_Region x; AccountID := m_AccountID x;
       Enabled := m_Enabled x; AssumeRoleARN := m_AssumeRoleARN x; Cluster_Labels := labels |})
    EKSClusterRegistrySpec_DeepCopyInto.

#[export] Instance ClusterStatus_Copies :
    Copies cell EKSClusterRegistryStatus_mem EKSClusterRegistryStatus :=
  struct_Copies (λ x, (m_LastSync x, m_Conditions x)) (λ x '(lastSync, conditions),
    {| LastSync := lastSync; Conditions := conditions; NamespaceCount := m_NamespaceCount x;
       Cluster_EntriesRegistered := m_Cluster_EntriesRegistered x |})
    EKSClusterRegistryStatus_DeepCopyInto.

#[export] Instance Cluster_Copies : Copies cell EKSClusterRegistry_mem (TypeMeta * EKSClusterRegistry) :=
  struct_Copies (λ x, (m_EKS_ObjectMeta x, (m_EKS_Spec x, m_EKS_Status x)))
    (λ x '(meta, (spec, status)), (m_EKS_TypeMeta x,
      {| EKS_ObjectMeta := meta; EKS_Spec := spec; EKS_Status := status |}))
    EKSClusterRegistry_DeepCopyInto.

#[export] Instance IdentitySpec_Copies : Copies cell WorkloadIdentitySpec_mem WorkloadIdentitySpec :=
  struct_Copies (λ x, (m_PodSelector x, (m_DNSNameTemplates x, (m_WorkloadSelectorTemplates x,
      (m_FederatesWith x, m_ClusterSelector x)))))
    (λ x '(podSelector, (dns, (selectors, (federates, clusterSelector)))),
      {| ApplicationName := m_ApplicationName x; Spec_Namespace := m_Spec_Namespace x;
         SPIFFEIDTemplate := m_SPIFFEIDTemplate x; ParentIDTemplate := m_ParentIDTemplate x;
         PodSelector := podSelector; TTL := m_TTL x; JWTTTL := m_JWTTTL x; DNSNameTemplates := dns;
         WorkloadSelectorTemplates := selectors; FederatesWith := federates; Admin := m_Admin x;
         Downstream := m_Downstream x; AutoPopulateDNSNames := m_AutoPopulateDNSNames x;
         ClusterSelector := clusterSelector; Hint := m_Hint x |}) WorkloadIdentitySpec_DeepCopyInto.

#[export] Instance IdentityStatus_Copies :
    Copies cell WorkloadIdentityStatus_mem WorkloadIdentityStatus :=
  struct_Copies m_LastReconciliation (λ x lastReconciliation,
    {| Stats := m_Stats x; LastReconciliation := lastReconciliation |})
    WorkloadIdentityStatus_DeepCopyInto.

#[export] Instance Identity_Copies : Copies cell WorkloadIdentity_mem (TypeMeta * WorkloadIdentity) :=
  struct_Copies (λ x, (m_WI_ObjectMeta x, (m_WI_Spec x, m_WI_Status x)))
    (λ x '(meta, (spec, status)), (m_WI_TypeMeta x,
      {| WI_ObjectMeta := meta; WI_Spec := spec; WI_Status := status |}))
    WorkloadIdentity_DeepCopyInto.

(** *** The lists *)

Definition EKSClusterRegistryList_DeepCopyInto (in_ : EKSClusterRegistryList_mem) :
    Mem cell EKSClusterRegistryList_mem :=
  listMeta ← copy (m_EKSL_ListMeta in_);
  items ← copy_slice (T:=EKSClusterRegistry_mem) (m_EKSL_Items in_);
  mret {| m_EKSL_TypeMeta := m_EKSL_TypeMeta in_; m_EKSL_ListMeta := listMeta; m_EKSL_Items := items |}.

Definition WorkloadIdentityList_DeepCopyInto (in_ : WorkloadIdentityList_mem) :
    Mem cell WorkloadIdentityList_mem :=
  listMeta ← copy (m_WIL_ListMeta in_);
  items ← copy_slice (T:=WorkloadIdentity_mem) (m_WIL_Items in_);
  mret {| m_WIL_TypeMeta := m_WIL_TypeMeta in_; m_WIL_ListMeta := listMeta; m_WIL_Items := items |}.

#[export] Instance ClusterList_Copies :
    Copies cell EKSClusterRegistryList_mem (TypeMeta * (ListMeta * list (TypeMeta * EKSClusterRegistry))) :=
  struct_Copies (λ x, (m_EKSL_ListMeta x, m_EKSL_Items x)) (λ x y, (m_EKSL_TypeMeta x, y))
    EKSClusterRegistryList_DeepCopyInto.

#[export] Instance IdentityList_Copies :
    Copies cell WorkloadIdentityList_mem (TypeMeta * (ListMeta * list (TypeMeta * WorkloadIdentity))) :=
  struct_Copies (λ x, (m_WIL_ListMeta x, m_WIL_Items x)) (λ x y, (m_WIL_TypeMeta x, y))
    WorkloadIdentityList_DeepCopyInto.

(** *** [DeepCopy]: a new struct for a receiver that is not nil *)

Definition AWSConfig_DeepCopy := copy_pointer (T:=AWSConfig_mem).
Definition ControllerHealth_DeepCopy := copy_pointer (T:=ControllerHealth).
Definition ControllerManagerConfig_DeepCopy := copy_pointer (T:=ControllerManagerConfig_mem).
Definition ControllerManagerConfigurationSpec_DeepCopy :=
  copy_pointer (T:=ControllerManagerConfigurationSpec_mem).
Definition ControllerMetrics_DeepCopy := copy_pointer (T:=ControllerMetrics).
Definition ControllerWebhook_DeepCopy := copy_pointer (T:=ControllerWebhook_mem).
Definition EKSClusterRegistry_DeepCopy := copy_pointer (T:=EKSClusterRegistry_mem).
Definition EKSClusterRegistryList_DeepCopy := copy_pointer (T:=EKSClusterRegistryList_mem).
Definition EKSClusterRegistrySpec_DeepCopy := copy_pointer (T:=EKSClusterRegistrySpec_mem).
Definition EKSClusterRegistryStatus_DeepCopy := copy_pointer (T:=EKSClusterRegistryStatus_mem).
Definition WorkloadIdentity_DeepCopy := copy_pointer (T:=WorkloadIdentity_mem).
Definition WorkloadIdentityList_DeepCopy := copy_pointer (T:=WorkloadIdentityList_mem).
Definition WorkloadIdentitySpec_DeepCopy := copy_pointer (T:=WorkloadIdentitySpec_mem).
Definition WorkloadIdentityStats_DeepCopy := copy_pointer (T:=WorkloadIdentityStats).
Definition WorkloadIdentityStatus_DeepCopy := copy_pointer (T:=WorkloadIdentityStatus_mem).

(** *** [DeepCopyObject]: a [runtime.Object], which is nil for a nil receiver *)

Inductive Object :=
| OConfig (p : loc)
| OCluster (p : loc)
| OClusterList (p : loc)
| OIdentity (p : loc)
| OIdentityList (p : loc).

Definition ControllerManagerConfig_DeepCopyObject (in_ : option loc) : Mem cell (option Object) :=
  c ← ControllerManagerConfig_DeepCopy in_;
  match c with Some c => mret (Some (OConfig c)) | None => mret None end.
Definition EKSClusterRegistry_DeepCopyObject (in_ : option loc) : Mem cell (option Object) :=
  c ← EKSClusterRegistry_DeepCopy in_;
  match c with Some c => mret (Some (OCluster c)) | None => mret None end.
Definition EKSClusterRegistryList_DeepCopyObject (in_ : option loc) : Mem cell (option Object) :=
  c ← EKSClusterRegistryList_DeepCopy in_;
  match c with Some c => mret (Some (OClusterList c)) | None => mret None end.
Definition WorkloadIdentity_DeepCopyObject (in_ : option loc) : Mem cell (option Object) :=
  c ← WorkloadIdentity_DeepCopy in_;
  match c with Some c => mret (Some (OIdentity c)) | None => mret None end.
Definition WorkloadIdentityList_DeepCopyObject (in_ : option loc) : Mem cell (option Object) :=
  c ← WorkloadIdentityList_DeepCopy in_;
  match c with Some c => mret (Some (OIdentityList c)) | None => mret None end.

(** ** The copies are copies *)

Context `{!MapOrderLaws, !ApiMachineryLaws}.

#[export] Instance number_laws : CopiesLaws cell Z Z := flat_laws Z.
#[export] Instance string_laws : CopiesLaws cell string string := flat_laws string.
#[export] Instance Health_laws : CopiesLaws cell ControllerHealth ControllerHealth := flat_laws _.
#[export] Instance Metrics_laws : CopiesLaws cell ControllerMetrics ControllerMetrics := flat_laws _.
#[export] Instance Stats_laws : CopiesLaws cell WorkloadIdentityStats WorkloadIdentityStats := flat_laws _.
#[export] Instance labels_laws : CopiesLaws cell (option loc) (gmap string string) := map_laws.

(** The generated method copies the references in order and puts them back. *)
Ltac struct_copy :=
  intros x h; simpl; unfold mbind, Mem_bind, mret, Mem_ret, option_bind; simpl;
  repeat case_match; simplify_eq; done.

#[export] Instance AWSConfig_laws : CopiesLaws cell AWSConfig_mem AWSConfig.
Proof.
  apply (struct_laws m_AccountIDs (λ x y,
    {| m_AWS_Region := m_AWS_Region x; m_AccountIDs := y; m_AWS_AssumeRoleARN := m_AWS_AssumeRoleARN x |}));
    [done|done|]. unfold AWSConfig_DeepCopyInto. struct_copy.
Qed.

#[export] Instance Webhook_laws : CopiesLaws cell ControllerWebhook_mem ControllerWebhook.
Proof.
  apply (struct_laws m_Port (λ x port,
    {| m_Port := port; m_Host := m_Host x; m_CertDir := m_CertDir x |}));
    [done|done|]. unfold ControllerWebhook_DeepCopyInto. struct_copy.
Qed.

#[export] Instance ConfigSpec_laws : CopiesLaws cell ControllerManagerConfigurationSpec_mem ControllerManagerConfigurationSpec.
Proof.
  apply (struct_laws (λ x, (m_SyncPeriod x, (m_LeaderElection x, m_Webhook x))) (λ x '(s, (l, h)),
    {| m_SyncPeriod := s; m_LeaderElection := l; m_CacheNamespace := m_CacheNamespace x;
       m_Metrics := m_Metrics x; m_Health := m_Health x; m_Webhook := h |}));
    [by intros ? (?&?&?)|by intros ? (?&?&?)|]. unfold ControllerManagerConfigurationSpec_DeepCopyInto. struct_copy.
Qed.

#[export] Instance Config_laws : CopiesLaws cell ControllerManagerConfig_mem (TypeMeta * ControllerManagerConfig).
Proof.
  apply (struct_laws (λ x, (m_CMC_Spec x, (m_CMC_IgnoreNamespaces x, m_CMC_AWSConfig x))) (λ x '(s, (i, a)),
    {| m_CMC_TypeMeta := m_CMC_TypeMeta x; m_CMC_Spec := s; m_CMC_ClusterName := m_CMC_ClusterName x;
       m_CMC_TrustDomain := m_CMC_TrustDomain x; m_CMC_IgnoreNamespaces := i;
       m_SPIREServerSocketPath := m_SPIREServerSocketPath x;
       m_CMC_EntryIDPrefix := m_CMC_EntryIDPrefix x; m_CMC_GCInterval := m_CMC_GCInterval x;
       m_CMC_AWSConfig := a |}));
    [by intros ? (?&?&?)|by intros ? (?&?&?)|]. unfold ControllerManagerConfig_DeepCopyInto. struct_copy.
Qed.

#[export] Instance ClusterSpec_laws : CopiesLaws cell EKSClusterRegistrySpec_mem EKSClusterRegistrySpec.
Proof.
  apply (struct_laws m_Labels (λ x l,
    {| m_ClusterName := m_ClusterName x; m_Region := m_Region x; m_AccountID := m_AccountID x;
       m_Enabled := m_Enabled x; m_AssumeRoleARN := m_AssumeRoleARN x; m_Labels := l |}));
    [done|done|]. unfold EKSClusterRegistrySpec_DeepCopyInto. struct_copy.
Qed.

#[export] Instance ClusterStatus_laws : CopiesLaws cell EKSClusterRegistryStatus_mem EKSClusterRegistryStatus.
Proof.
  apply (struct_laws (λ x, (m_LastSync x, m_Conditions x)) (λ x '(t, c),
    {| m_LastSync := t; m_Conditions := c; m_NamespaceCount := m_NamespaceCount x;
       m_Cluster_EntriesRegistered := m_Cluster_EntriesRegistered x |}));
    [by intros ? []|by intros ? []|]. unfold EKSClusterRegistryStatus_DeepCopyInto. struct_copy.
Qed.

#[export] Instance Cluster_laws : CopiesLaws cell EKSClusterRegistry_mem (TypeMeta * EKSClusterRegistry).
Proof.
  apply (struct_laws (λ x, (m_EKS_ObjectMeta x, (m_EKS_Spec x, m_EKS_Status x))) (λ x '(o, (s, t)),
    {| m_EKS_TypeMeta := m_EKS_TypeMeta x; m_EKS_ObjectMeta := o; m_EKS_Spec := s; m_EKS_Status := t |}));
    [by intros ? (?&?&?)|by intros ? (?&?&?)|]. unfold EKSClusterRegistry_DeepCopyInto. struct_copy.
Qed.

#[export] Instance IdentitySpec_laws : CopiesLaws cell WorkloadIdentitySpec_mem WorkloadIdentitySpec.
Proof.
  apply (struct_laws (λ x, (m_PodSelector x, (m_DNSNameTemplates x,
    (m_WorkloadSelectorTemplates x, (m_FederatesWith x, m_ClusterSelector x))))) (λ x '(p, (d, (w, (f, c)))),
    {| m_ApplicationName := m_ApplicationName x; m_Spec_Namespace := m_Spec_Namespace x;
       m_SPIFFEIDTemplate := m_SPIFFEIDTemplate x; m_ParentIDTemplate := m_ParentIDTemplate x;
       m_PodSelector := p; m_TTL := m_TTL x; m_JWTTTL := m_JWTTTL x; m_DNSNameTemplates := d;
       m_WorkloadSelectorTemplates := w; m_FederatesWith := f; m_Admin := m_Admin x;
       m_Downstream := m_Downstream x; m_AutoPopulateDNSNames := m_AutoPopulateDNSNames x;
       m_ClusterSelector := c; m_Hint := m_Hint x |}));
    [by intros ? (?&?&?&?&?)|by intros ? (?&?&?&?&?)|]. unfold WorkloadIdentitySpec_DeepCopyInto. struct_copy.
Qed.

#[export] Instance IdentityStatus_laws : CopiesLaws cell WorkloadIdentityStatus_mem WorkloadIdentityStatus.
Proof.
  apply (struct_laws m_LastReconciliation (λ x t,
    {| m_Stats := m_Stats x; m_LastReconciliation := t |}));
    [done|done|]. unfold WorkloadIdentityStatus_DeepCopyInto. struct_copy.
Qed.

#[export] Instance Identity_laws : CopiesLaws cell WorkloadIdentity_mem (TypeMeta * WorkloadIdentity).
Proof.
  apply (struct_laws (λ x, (m_WI_ObjectMeta x, (m_WI_Spec x, m_WI_Status x))) (λ x '(o, (s, t)),
    {| m_WI_TypeMeta := m_WI_TypeMeta x; m_WI_ObjectMeta := o; m_WI_Spec := s; m_WI_Status := t |}));
    [by intros ? (?&?&?)|by intros ? (?&?&?)|]. unfold WorkloadIdentity_DeepCopyInto. struct_copy.
Qed.

#[export] Instance ClusterList_laws : CopiesLaws cell EKSClusterRegistryList_mem (TypeMeta * (ListMeta * list (TypeMeta * EKSClusterRegistry))).
Proof.
  apply (struct_laws (λ x, (m_EKSL_ListMeta x, m_EKSL_Items x)) (λ x '(o, i),
    {| m_EKSL_TypeMeta := m_EKSL_TypeMeta x; m_EKSL_ListMeta := o; m_EKSL_Items := i |}));
    [by intros ? []|by intros ? []|]. unfold EKSClusterRegistryList_DeepCopyInto. struct_copy.
Qed.

#[export] Instance IdentityList_laws : CopiesLaws cell WorkloadIdentityList_mem (TypeMeta * (ListMeta * list (TypeMeta * WorkloadIdentity))).
Proof.
  apply (struct_laws (λ x, (m_WIL_ListMeta x, m_WIL_Items x)) (λ x '(o, i),
    {| m_WIL_TypeMeta := m_WIL_TypeMeta x; m_WIL_ListMeta := o; m_WIL_Items := i |}));
    [by intros ? []|by intros ? []|]. unfold WorkloadIdentityList_DeepCopyInto. struct_copy.
Qed.
End deepcopy.
