(* ===== verification/DeepCopyProps.v ===== *)
(** * Properties of the deep copies *)

From S2P Require Export DeepCopy TestLibs.

Local Open Scope Z_scope.

(** What a deep copy of the pointer [p] owes: a pointer to an equal value; the
    memory that was there is as it was; and from then on each of the two keeps
    its value whatever is written to what the other reaches. *)
Definition deep_copied {C V} `{!Copies C (option loc) V} (dc : option loc → Mem C (option loc))
    (h : gmap loc C) (p : option loc) (v : V) : Prop :=
  ∃ q h', dc p h = Some (q, h') ∧ h ⊆ h' ∧ value h' q = Some v ∧
    (∀ h'', (∀ l, l ∉ reach h p → h'' !! l = h' !! l) → value h'' q = Some v) ∧
    (∀ h'', (∀ l, l ∉ reach h' q → h'' !! l = h' !! l) → value h'' p = Some v).

Lemma deep_copied_intro {C V} `{!Copies C (option loc) V, !CopiesLaws C (option loc) V} h p (v : V) :
  value h p = Some v → deep_copied copy h p v.
Proof.
  intros Hv. destruct (copy_independent h p v Hv) as (q & h' & Hc & Hs & Hv' & Hr & Hfresh & _).
  pose proof (reach_dom _ _ _ Hv) as Hdom. destruct (value_mono h h' p v Hv Hs) as [Hvp _].
  exists q, h'. split_and!; [done..| |]; intros h'' Heq.
  - eapply value_local; [done|]. intros l Hl. apply Heq. set_solver.
  - eapply value_local; [done|]. rewrite Hr. intros l Hl. apply Heq. set_solver.
Qed.

Section props.
Context `{!LabelSelectors, !MapOrder, !MapOrderLaws}.
Context `{!ApiMachinery, !ApiMachineryCopies, !ApiMachineryLaws}.

(** C14: the generated deep copies are copies: of a resource, a list of
    resources or a configuration, [DeepCopy] makes an equal value in memory of
    its own, so that the value semantics used for [cluster.DeepCopy()] and
    everywhere else in this development is the program's.  A nil pointer gives
    a nil pointer. *)
Theorem DeepCopy_correct (h : gmap loc cell) p :
  (∀ v : option (TypeMeta * EKSClusterRegistry),
     value h p = Some v → deep_copied EKSClusterRegistry_DeepCopy h p v) ∧
  (∀ v : option (TypeMeta * WorkloadIdentity),
     value h p = Some v → deep_copied WorkloadIdentity_DeepCopy h p v) ∧
  (∀ v : option (TypeMeta * (ListMeta * list (TypeMeta * EKSClusterRegistry))),
     value h p = Some v → deep_copied EKSClusterRegistryList_DeepCopy h p v) ∧
  (∀ v : option (TypeMeta * (ListMeta * list (TypeMeta * WorkloadIdentity))),
     value h p = Some v → deep_copied WorkloadIdentityList_DeepCopy h p v) ∧
  (∀ v : option (TypeMeta * ControllerManagerConfig),
     value h p = Some v → deep_copied ControllerManagerConfig_DeepCopy h p v).
Proof. split_and!; intros v Hv; exact (deep_copied_intro h p v Hv). Qed.

(** A [runtime.Object] is never a typed nil pointer. *)
Lemma DeepCopyObject_nil (h : gmap loc cell) :
  EKSClusterRegistry_DeepCopyObject None h = Some (None, h) ∧
  WorkloadIdentity_DeepCopyObject None h = Some (None, h).
Proof. done. Qed.
End props.

(** ** Witness: a cluster with labels and a condition *)

#[export] Instance test_ApiMachinery : ApiMachinery := {|
  ext_cell := Empty_set; ObjectMeta_mem := ObjectMeta; ListMeta_mem := string;
  Condition_mem := Condition; LabelSelector_mem := LabelSelector;
  LeaderElectionConfiguration_mem := LeaderElectionConfiguration; ListMeta := string |}.
#[export] Instance test_ApiMachineryCopies : ApiMachineryCopies := {|
  ObjectMeta_Copies := flat_Copies _; ListMeta_Copies := flat_Copies _;
  Condition_Copies := flat_Copies _; LabelSelector_Copies := flat_Copies _;
  LeaderElection_Copies := flat_Copies _ |}.
#[export] Instance test_ApiMachineryLaws : ApiMachineryLaws.
Proof. split; apply flat_laws. Qed.

Definition sample_cluster_mem : EKSClusterRegistry_mem := {|
  m_EKS_TypeMeta := {| TM_Kind := "EKSClusterRegistry"; TM_APIVersion := "spirev1alpha1" |};
  m_EKS_ObjectMeta := empty_ObjectMeta;
  m_EKS_Spec := {| m_ClusterName := "prod"; m_Region := "eu-west-1"; m_AccountID := "1";
    m_Enabled := true; m_AssumeRoleARN := ""; m_Labels := Some 2%positive |};
  m_EKS_Status := {| m_LastSync := Some 3%positive; m_Conditions := None; m_NamespaceCount := 0;
    m_Cluster_EntriesRegistered := 0 |} |}.
Definition sample_memory : gmap loc cell :=
  {[ 1%positive := CellCluster sample_cluster_mem; 2%positive := CellMap {[ "env" := "prod" ]};
     3%positive := CellNumber 1000 ]}.

Lemma DeepCopy_correct_witness :
  ∃ v : option (TypeMeta * EKSClusterRegistry), value sample_memory (Some 1%positive) = Some v ∧
    deep_copied EKSClusterRegistry_DeepCopy sample_memory (Some 1%positive) v.
Proof.
  eexists. split; [vm_compute; reflexivity|].
  apply (DeepCopy_correct sample_memory (Some 1%positive)). vm_compute. reflexivity.
Defined.
