(* ===== verification/MainProgram.v ===== *)
(** * cmd/main.go: the process

    [main] from the flags to the end of the process, as a program over the
    operations it asks for: calls of controller-runtime, client-go and the AWS
    session, [Start] of the webhook manager, the goroutines it starts and the
    calls it defers.  An operation is run by [perform], which is the only thing
    that changes what is outside, and which records the operation with the
    answer it got.  [os.Exit] ends the process at once, without what is
    deferred; a return or a panic runs it in reverse order. *)

From S2P Require Export Setup WebhookManager.

Local Open Scope Z_scope.

Inductive goroutine := GoRotationLoop | GoCleanupLoop | GoSharedReconciler.

(** A registration with controller-runtime: for a controller its name, which
    is that of the resource unless it is given one. *)
Inductive registration :=
| RegController (resource name : string)
| RegWebhook (resource : string)
| RegHealthz (name : string)
| RegReadyz (name : string).

Inductive cleanup := CloseClient | RemoveAll (dir : string) | ShutdownClusters.

(** [webhook.Options], less the minimal TLS version. *)
Record WebhookServer := { Server_Port : Z; Server_CertDir : string; Server_CertName : string; Server_KeyName : string }.

(** What controller-runtime, client-go, the AWS session and the runtime answer. *)
Class MainEnv (X : Type) `{!WebhookEnv X} := {
  rest_Config : Type;
  (** [rest.Config] is a struct and has a zero value. *)
  rest_Config_inhabited :: Inhabited rest_Config;
  (** [os.MkdirTemp] in the default directory *)
  os_MkdirTemp : string → X → result string * X;
  (** [ctrl.GetConfigOrDie] exits with code 1 when there is none. *)
  ctrl_GetConfigOrDie : X → option rest_Config * X;
  kubernetes_NewForConfig : rest_Config → X → option error * X;
  ctrl_NewManager : rest_Config → Options → WebhookServer → X → option error * X;
  ctrl_SetupSignalHandler : X → unit * X;
  time_Sleep : Duration → X → unit * X;
  session_NewSession : X → option error * X;
  mgr_Register : registration → X → option error * X;
  (** [mgr.Start] returns when the context is done. *)
  mgr_Start : X → option error * X;
  run_cleanup : cleanup → X → unit * X;
}.

(** A step of [main] goes on, ends the process with a code, or panics. *)
Inductive progress (A : Type) := Next (a : A) | Exit (code : Z) | Crash.
Arguments Next {A} a.
Arguments Exit {A} code.
Arguments Crash {A}.

Section program.
Context {X : Type} `{!WebhookEnv X, !MainEnv X}.

(** The operations of [main], by the type of their answer. *)
Inductive operation : Type → Type :=
| MkdirTemp (prefix : string) : operation (result string)
| GetConfigOrDie : operation (option rest_Config)
| Kube_NewForConfig (config : rest_Config) : operation (option error)
| NewManager (config : rest_Config) (options : Options) (server : WebhookServer) : operation (option error)
| SetupSignalHandler : operation unit
| StartWebhookManager (m : FinalizerWebhookManager) : operation (outcome (option error))
| Go (g : goroutine) : operation unit
| Sleep (d : Duration) : operation unit
| NewSession : operation (option error)
| TriggerShared : operation unit
| Register (what : registration) : operation (option error)
| ManagerStart : operation (option error)
| Clean (c : cleanup) : operation unit.

(** An operation that was run, with its answer. *)
Inductive answered := Answered (A : Type) (op : operation A) (a : A).

(** What an operation answers, and does to the outside.  A goroutine that is
    started and the request on the channel of the shared reconciler change
    nothing [main] looks at; what they lead to is the subject of the other
    files. *)
Definition answer {A} (op : operation A) : X → A * X :=
  match op in operation A return X → A * X with
  | MkdirTemp prefix => os_MkdirTemp prefix
  | GetConfigOrDie => ctrl_GetConfigOrDie
  | Kube_NewForConfig config => kubernetes_NewForConfig config
  | NewManager config options server => ctrl_NewManager config options server
  | SetupSignalHandler => ctrl_SetupSignalHandler
  | StartWebhookManager m => λ x,
      let '(o, w) := Start {| env := x; mgr := m |} in (o, env w)
  | Go _ => λ x, (tt, x)
  | Sleep d => time_Sleep d
  | NewSession => session_NewSession
  | TriggerShared => λ x, (tt, x)
  | Register what => mgr_Register what
  | ManagerStart => mgr_Start
  | Clean c => run_cleanup c
  end.

Record process := { penv : X; deferred : list cleanup; trace : list answered }.

Definition Proc (A : Type) : Type := process → progress A * process.

#[export] Instance Proc_ret : MRet Proc := λ A a p, (Next a, p).
#[export] Instance Proc_bind : MBind Proc := λ A B f m p,
  match m p with
  | (Next a, p) => f a p
  | (Exit code, p) => (Exit code, p)
  | (Crash, p) => (Crash, p)
  end.

Definition perform {A} (op : operation A) : Proc A := λ p,
  let '(a, x) := answer op (penv p) in
  (Next a, {| penv := x; deferred := deferred p; trace := trace p ++ [Answered _ op a] |}).
Definition os_Exit {A} (code : Z) : Proc A := λ p, (Exit code, p).
Definition crash {A} : Proc A := λ p, (Crash, p).
Definition defer (c : cleanup) : Proc unit := λ p,
  (Next tt, {| penv := penv p; deferred := c :: deferred p; trace := trace p |}).

(** [if err := f(); err != nil { os.Exit(1) }] *)
Definition must (op : operation (option error)) : Proc unit :=
  err ← perform op; match err with Some _ => os_Exit 1 | None => mret tt end.
Definition must_get {A} (op : operation (result A)) : Proc A :=
  r ← perform op; match r with ERR _ => os_Exit 1 | OK a => mret a end.
Definition must_config : Proc rest_Config :=
  r ← perform GetConfigOrDie; match r with None => os_Exit 1 | Some config => mret config end.

(** [webhookManager.Start], which starts the rotation when nothing failed. *)
Definition start_webhook_manager (m : FinalizerWebhookManager) : Proc unit :=
  o ← perform (StartWebhookManager m);
  match o with
  | Ret None => perform (Go GoRotationLoop)
  | Ret (Some _) => os_Exit 1
  | Panic | Diverge => crash
  end.

(** [SetupWithManager] of the controllers and [SetupWebhookWithManager] of the
    webhooks; the second registration of the deletion controller fails without
    undoing the first. *)
Definition EKSClusterRegistryReconciler_SetupWithManager : Proc unit :=
  must (Register (RegController "EKSClusterRegistry" "eksclusterregistry")).
Definition WorkloadIdentityReconciler_SetupWithManager : Proc unit :=
  must (Register (RegController "WorkloadIdentity" "workloadidentity")).
Definition DeletionReconciler_SetupWithManager : Proc unit :=
  must (Register (RegController "WorkloadIdentity" "workloadidentity-finalizer"));;
  must (Register (RegController "EKSClusterRegistry" "eksclusterregistry-finalizer")).
Definition WorkloadIdentityFinalizerWebhook_SetupWebhookWithManager : Proc unit :=
  must (Register (RegWebhook "WorkloadIdentity")).
Definition EKSClusterRegistryFinalizerWebhook_SetupWebhookWithManager : Proc unit :=
  must (Register (RegWebhook "EKSClusterRegistry")).

(** [cluster.NewManager]: only the AWS session can fail. *)
Definition cluster_NewManager : Proc unit := must NewSession.

Context `{!SpiffeID, !Regexps}.

(** What [main] does once the configuration is there. *)
Definition main_run {C} (s : Startup C) : Proc unit :=
  defer CloseClient;;
  certDir ← must_get (MkdirTemp "spire-controller-finalizer-");
  defer (RemoveAll certDir);;
  config ← must_config;
  must (Kube_NewForConfig config);;
  let webhookServer := {| Server_Port := 9443; Server_CertDir := certDir; Server_CertName := "tls.crt"; Server_KeyName := "tls.key" |} in
  config ← must_config;
  must (NewManager config (Started_options _ s) webhookServer);;
  let webhookManager := NewFinalizerWebhookManager "spire-controller-finalizer-webhook"
    "spire-system" "spire-controller-webhook-service" certDir in
  perform SetupSignalHandler;;
  start_webhook_manager webhookManager;;
  perform (Sleep (5 * Second));;
  cluster_NewManager;;
  defer ShutdownClusters;;
  perform TriggerShared;;
  perform (Go GoCleanupLoop);;
  perform (Go GoSharedReconciler);;
  EKSClusterRegistryReconciler_SetupWithManager;;
  WorkloadIdentityReconciler_SetupWithManager;;
  DeletionReconciler_SetupWithManager;;
  WorkloadIdentityFinalizerWebhook_SetupWebhookWithManager;;
  EKSClusterRegistryFinalizerWebhook_SetupWebhookWithManager;;
  must (Register (RegHealthz "healthz"));;
  must (Register (RegReadyz "readyz"));;
  must ManagerStart.

(** [setup] reads files and the environment, and dials; neither is part of [X]. *)
Definition main_body {C} (ReadFile : string → result string) (Getenv : string → string)
    (DecodeInto : string → ControllerManagerConfig → result ControllerManagerConfig)
    (dial : string → result C) (configFile : string) (expandEnv : bool) : Proc unit :=
  match setup ReadFile Getenv DecodeInto dial configFile expandEnv with
  | Ret (OK s) => main_run s
  | Ret (ERR _) => os_Exit 1
  | Panic | Diverge => crash
  end.

(** The deferred calls, the last one first. *)
Fixpoint run_deferred (cs : list cleanup) : Proc unit :=
  match cs with
  | [] => mret tt
  | c :: cs => perform (Clean c);; run_deferred cs
  end.

(** The process: its exit code, and what it has done. *)
Definition main_process {C} ReadFile Getenv DecodeInto (dial : string → result C) configFile expandEnv
    (x : X) : Z * process :=
  match main_body ReadFile Getenv DecodeInto dial configFile expandEnv
          {| penv := x; deferred := []; trace := [] |} with
  | (Next _, p) => (0, (run_deferred (deferred p) p).2)
  | (Exit code, p) => (code, p)
  | (Crash, p) => (2, (run_deferred (deferred p) p).2)
  end.
End program.
Arguments operation X {_ _} _.
Arguments answered X {_ _}.
Arguments Answered {X _ _ A} op a.
Arguments process X {_ _}.
Arguments Proc X {_ _} A.
