(* ===== verification/StartupProps.v ===== *)
(** * Properties of the process *)

From S2P Require Export MainProgram LoopProps.

Local Open Scope Z_scope.

Section props.
Context {X : Type} `{!WebhookEnv X, !WebhookEnvLaws X, !MainEnv X, !SpiffeID, !Regexps}.

(** The operations of a start-up that succeeds, in order, with the answers
    that let it go on.  The directory and the two configurations are answers,
    and go into the operations that follow. *)
Definition startup {C} (s : Startup C) (dir : string) (config1 config2 : rest_Config) : list (answered X) :=
  [Answered (MkdirTemp "spire-controller-finalizer-") (OK dir);
   Answered GetConfigOrDie (Some config1);
   Answered (Kube_NewForConfig config1) None;
   Answered GetConfigOrDie (Some config2);
   Answered (NewManager config2 (Started_options _ s)
     {| Server_Port := 9443; Server_CertDir := dir; Server_CertName := "tls.crt"; Server_KeyName := "tls.key" |}) None;
   Answered SetupSignalHandler tt;
   Answered (StartWebhookManager (NewFinalizerWebhookManager "spire-controller-finalizer-webhook"
     "spire-system" "spire-controller-webhook-service" dir)) (Ret None);
   Answered (Go GoRotationLoop) tt;
   Answered (Sleep (5 * 10 ^ 9)) tt;
   Answered NewSession None;
   Answered TriggerShared tt;
   Answered (Go GoCleanupLoop) tt;
   Answered (Go GoSharedReconciler) tt;
   Answered (Register (RegController "EKSClusterRegistry" "eksclusterregistry")) None;
   Answered (Register (RegController "WorkloadIdentity" "workloadidentity")) None;
   Answered (Register (RegController "WorkloadIdentity" "workloadidentity-finalizer")) None;
   Answered (Register (RegController "EKSClusterRegistry" "eksclusterregistry-finalizer")) None;
   Answered (Register (RegWebhook "WorkloadIdentity")) None;
   Answered (Register (RegWebhook "EKSClusterRegistry")) None;
   Answered (Register (RegHealthz "healthz")) None;
   Answered (Register (RegReadyz "readyz")) None;
   Answered ManagerStart None].

(** The deferred calls of a run that returns, the last one first. *)
Definition cleaned_up_by_main (dir : string) : list (answered X) :=
  [Answered (Clean ShutdownClusters) tt; Answered (Clean (RemoveAll dir)) tt; Answered (Clean CloseClient) tt].

(** The answers that are failures. *)
Definition failed {A} (op : operation X A) : A → Prop :=
  match op in operation _ A return A → Prop with
  | MkdirTemp _ => λ r, ∃ err, r = ERR err
  | GetConfigOrDie => λ r, r = None
  | Kube_NewForConfig _ | NewManager _ _ _ | NewSession | Register _ | ManagerStart => λ r, ∃ err, r = Some err
  | StartWebhookManager _ => λ r, ∃ err, r = Ret (Some err)
  | SetupSignalHandler | Go _ | Sleep _ | TriggerShared | Clean _ => λ _, False
  end.

(** What was done is the beginning of [script], up to an operation that
    failed. *)
Definition stops_in (script t : list (answered X)) : Prop :=
  ∃ before after A (op : operation X A) good bad,
    script = before ++ Answered op good :: after ∧ t = before ++ [Answered op bad] ∧ failed op bad.

(** The answers in [t] are those of the outside, which is [x] before it and
    [y] after it. *)
Fixpoint replays (x : X) (t : list (answered X)) (y : X) : Prop :=
  match t with
  | [] => x = y
  | Answered op a :: t => ∃ x', answer op x = (a, x') ∧ replays x' t y
  end.

Lemma replays_app x t1 t2 y :
  replays x (t1 ++ t2) y ↔ ∃ z, replays x t1 z ∧ replays z t2 y.
Proof.
  revert x. induction t1 as [|[A op a] t1 IH]; intros x; simpl.
  - split; [by exists x|by intros (z & -> & ?)].
  - split.
    + intros (x' & ? & (z & ? & ?)%IH). eauto 6.
    + intros (z & (x' & ? & ?) & ?). exists x'. split; [done|]. apply IH. eauto.
Qed.

(** [Start] makes the authority before it signs with it. *)
Lemma Start_wp m (x : X) : wp Start (λ _ _, True) {| env := x; mgr := m |}.
Proof.
  unfold Start. rewrite wp_bind, wp_get, wp_bind, wp_on_env.
  destruct (MkdirAll _ _) as [[err|] x1]; simpl; [done|]. rewrite wp_bind.
  eapply (wp_mono _ (λ err w, err = None → is_Some (caCert (mgr w)) ∧ is_Some (caKey (mgr w)))).
  - unfold generateCA. rewrite wp_bind, wp_get, wp_bind, wp_on_env.
    destruct (GenerateKey _) as [[key|err] x2]; simpl; [|done].
    rewrite !wp_bind, wp_on_env. simpl. rewrite !wp_bind, wp_on_env. simpl.
    rewrite !wp_bind, wp_on_env. destruct (CreateCertificate _ _ _ _ _) as [[der|err] x3]; simpl; [|done].
    destruct (ParseCertificate der); simpl; [|done]. rewrite wp_bind. apply wp_modify, wp_ret. simpl. eauto.
  - intros [err|] w Hca; simpl; [done|]. destruct (Hca eq_refl) as [[ca Hc] [key Hk]]. rewrite wp_bind.
    eapply wp_mono; [by apply (MintCertificate_wp ca key)|]. intros [err|] w2 _; simpl; [done|].
    rewrite wp_bind. eapply wp_mono; [apply UpdateWebhookConfiguration_wp|]. done.
Qed.

(** *** Nothing is recorded that was not done *)

(** [m] only adds operations with the answers they got. *)
Definition honest {A} (m : Proc X A) : Prop :=
  ∀ x p, replays x (trace p) (penv p) → replays x (trace (m p).2) (penv (m p).2).

Lemma honest_perform {A} (op : operation X A) : honest (perform op).
Proof.
  intros x p Hp. unfold perform. destruct (answer op (penv p)) as [a y] eqn:Ha. simpl.
  apply replays_app. exists (penv p). split; [done|]. by exists y.
Qed.

Lemma honest_bind {A B} (m : Proc X A) (f : A → Proc X B) :
  honest m → (∀ a, honest (f a)) → honest (mbind (M:=Proc X) f m).
Proof.
  intros Hm Hf x p Hp. specialize (Hm x p Hp). unfold mbind, Proc_bind.
  destruct (m p) as [[a|code|] p']; [by apply Hf|done|done].
Qed.

Lemma honest_run_deferred cs : honest (run_deferred cs).
Proof.
  induction cs as [|c cs IH]; [by intros ? ? ?|]. by apply honest_bind; [apply honest_perform|].
Qed.

Local Ltac honest_steps := repeat first
  [ apply honest_perform | apply honest_bind; [|intros ?]
  | match goal with |- honest (match ?o with _ => _ end) => destruct o end
  | progress (unfold must, must_get, must_config, start_webhook_manager) | by intros ? ? ? ].

Lemma main_run_honest {C} (s : Startup C) : honest (main_run s).
Proof. unfold main_run. honest_steps. Qed.

Lemma run_deferred_trace cs (p : process X) :
  trace (run_deferred cs p).2 = trace p ++ ((λ c, Answered (Clean c) tt) <$> cs).
Proof.
  revert p. induction cs as [|c cs IH]; intros p; simpl; [by rewrite app_nil_r|].
  unfold mbind, Proc_bind, perform. destruct (answer (Clean c) (penv p)) as [[] x].
  rewrite IH. simpl. by rewrite <-app_assoc.
Qed.

(** *** Rules for the steps of [main] *)

(** The process may end with code 1 when what it has done satisfies [E]. *)
Definition steps {A} (E : list (answered X) → Prop) (m : Proc X A) (Q : A → process X → Prop)
    (p : process X) : Prop :=
  match m p with
  | (Next a, p') => Q a p'
  | (Exit code, p') => code = 1 ∧ E (trace p')
  | (Crash, _) => False
  end.

Section rules.
Variable E : list (answered X) → Prop.
Implicit Types (cs : list cleanup) (t : list (answered X)).

Lemma steps_bind {A B} (m : Proc X A) (f : A → Proc X B) Q p :
  steps E m (λ a, steps E (f a) Q) p → steps E (mbind (M:=Proc X) f m) Q p.
Proof. unfold steps, mbind, Proc_bind. by destruct (m p) as [[]]. Qed.

Lemma steps_defer c Q x cs t :
  Q tt {| penv := x; deferred := c :: cs; trace := t |} →
  steps E (defer c) Q {| penv := x; deferred := cs; trace := t |}.
Proof. done. Qed.

Lemma steps_perform {A} (op : operation X A) Q x cs t :
  (∀ a x', answer op x = (a, x') → Q a {| penv := x'; deferred := cs; trace := t ++ [Answered op a] |}) →
  steps E (perform op) Q {| penv := x; deferred := cs; trace := t |}.
Proof. intros HQ. unfold steps, perform. simpl. destruct (answer op x) eqn:Ha. by apply HQ. Qed.

(** The operations whose only answer is that they were done. *)
Lemma steps_unit (op : operation X unit) Q x cs t :
  (∀ x', Q tt {| penv := x'; deferred := cs; trace := t ++ [Answered op tt] |}) →
  steps E (perform op) Q {| penv := x; deferred := cs; trace := t |}.
Proof. intros HQ. apply steps_perform. intros [] x' _. apply HQ. Qed.

Lemma steps_must (op : operation X (option error)) Q x cs t :
  (∀ err, E (t ++ [Answered op (Some err)])) →
  (∀ x', Q tt {| penv := x'; deferred := cs; trace := t ++ [Answered op None] |}) →
  steps E (must op) Q {| penv := x; deferred := cs; trace := t |}.
Proof. intros HE HQ. apply steps_bind, steps_perform. intros [err|] x' _; [exact (conj eq_refl (HE err))|apply HQ]. Qed.

Lemma steps_must_get {A} (op : operation X (result A)) Q x cs t :
  (∀ err, E (t ++ [Answered op (ERR err)])) →
  (∀ a x', Q a {| penv := x'; deferred := cs; trace := t ++ [Answered op (OK a)] |}) →
  steps E (must_get op) Q {| penv := x; deferred := cs; trace := t |}.
Proof. intros HE HQ. apply steps_bind, steps_perform. intros [a|err] x' _; [apply HQ|exact (conj eq_refl (HE err))]. Qed.

Lemma steps_must_config Q x cs t :
  E (t ++ [Answered GetConfigOrDie None]) →
  (∀ c x', Q c {| penv := x'; deferred := cs; trace := t ++ [Answered GetConfigOrDie (Some c)] |}) →
  steps E must_config Q {| penv := x; deferred := cs; trace := t |}.
Proof. intros HE HQ. apply steps_bind, steps_perform. intros [c|] x' _; [apply HQ|exact (conj eq_refl HE)]. Qed.

Lemma steps_webhook_manager m Q x cs t :
  (∀ err, E (t ++ [Answered (StartWebhookManager m) (Ret (Some err))])) →
  (∀ x', Q tt {| penv := x'; deferred := cs;
    trace := (t ++ [Answered (StartWebhookManager m) (Ret None)]) ++ [Answered (Go GoRotationLoop) tt] |}) →
  steps E (start_webhook_manager m) Q {| penv := x; deferred := cs; trace := t |}.
Proof.
  intros HE HQ. apply steps_bind, steps_perform. intros o x' Ha. simpl in Ha.
  destruct (proj1 (wp_run _ _ _) (Start_wp m x)) as (err & w & Hrun & _). rewrite Hrun in Ha.
  injection Ha as <- _. destruct err as [err|]; [exact (conj eq_refl (HE err))|apply steps_unit, HQ].
Qed.
End rules.

(** The ways [main] may stop before [mgr.Start] has returned. *)
Definition on_the_way {C} (s : Startup C) (t : list (answered X)) : Prop :=
  ∃ dir config1 config2, stops_in (startup s dir config1 config2) t.

(** One step of [main_run]; a failure leaves it on the way, with what was
    answered so far. *)
Local Ltac fails_on_the_way dir c1 c2 :=
  intros; exists dir, c1, c2;
  lazymatch goal with |- stops_in _ (?before ++ [Answered ?op ?bad]) =>
    exists before; do 2 eexists; exists op; eexists; exists bad
  end; split_and!; [reflexivity|reflexivity|simpl; eauto].

Local Ltac main_step dir c1 c2 :=
  lazymatch goal with
  | |- steps _ (mbind _ _) _ _ => apply steps_bind
  | |- steps _ (defer _) _ _ => apply steps_defer
  | |- steps _ (must _) _ _ => apply steps_must; [fails_on_the_way dir c1 c2|intros ?]
  | |- steps _ (start_webhook_manager _) _ _ =>
      apply steps_webhook_manager; [fails_on_the_way dir c1 c2|intros ?]
  | |- steps _ (perform _) _ _ => apply steps_unit; intros ?
  end.

Lemma main_run_steps {C} (s : Startup C) x :
  steps (on_the_way s) (main_run s) (λ _ p, ∃ dir config1 config2,
      trace p = startup s dir config1 config2 ∧
      deferred p = [ShutdownClusters; RemoveAll dir; CloseClient])
    {| penv := x; deferred := []; trace := [] |}.
Proof.
  pose (c0 := inhabitant : rest_Config). unfold main_run.
  do 3 main_step "" c0 c0. apply steps_must_get; [fails_on_the_way "" c0 c0|]. intros dir x1.
  do 3 main_step dir c0 c0. apply steps_must_config; [fails_on_the_way dir c0 c0|]. intros config1 x2.
  do 3 main_step dir config1 c0. apply steps_must_config; [fails_on_the_way dir config1 c0|]. intros config2 x3.
  unfold cluster_NewManager, EKSClusterRegistryReconciler_SetupWithManager,
    WorkloadIdentityReconciler_SetupWithManager, DeletionReconciler_SetupWithManager,
    WorkloadIdentityFinalizerWebhook_SetupWebhookWithManager,
    EKSClusterRegistryFinalizerWebhook_SetupWebhookWithManager.
  repeat main_step dir config1 config2. by exists dir, config1, config2.
Qed.

(** C15: [main] does the operations of start-up in this order and no other,
    each with the answers of the ones before it: the webhook manager is
    started, and its certificates are in the directory the webhook server
    reads, before any controller or webhook is registered; everything is
    registered before the manager starts; the full reconciliation runs in a
    goroutine of its own, outside the manager and its leader election.  The
    answers are those of the outside, in the order in which it was asked.
    When the configuration is refused nothing is done and the code is 1.  When
    an operation fails it is the last one: the code is 1 and none of the
    deferred calls is made, so the connection is not closed, the clusters are
    not shut down and the directory with the private key stays.  When none
    fails the code is 0, and the deferred calls are made in reverse order.
    Nothing panics. *)
Theorem main_correct {C} ReadFile Getenv DecodeInto (dial : string → result C) configFile expandEnv (x : X) code p :
  main_process ReadFile Getenv DecodeInto dial configFile expandEnv x = (code, p) →
  replays x (trace p) (penv p) ∧
  match setup ReadFile Getenv DecodeInto dial configFile expandEnv with
  | Ret (OK s) => ∃ dir config1 config2,
      (code = 0 ∧ trace p = startup s dir config1 config2 ++ cleaned_up_by_main dir) ∨
      (code = 1 ∧ stops_in (startup s dir config1 config2) (trace p))
  | _ => code = 1 ∧ trace p = []
  end.
Proof.
  unfold main_process, main_body.
  destruct (setup_returns ReadFile Getenv DecodeInto dial configFile expandEnv) as [res ->].
  destruct res as [s|err]; [|by intros [= <- <-]].
  pose proof (main_run_honest s x {| penv := x; deferred := []; trace := [] |} eq_refl) as Hhonest.
  pose proof (main_run_steps s x) as Hsteps. unfold steps in Hsteps.
  destruct (main_run s _) as [[[]|code'|] p']; [|..|done]; intros [= <- <-].
  - split; [by apply honest_run_deferred|]. destruct Hsteps as (dir & c1 & c2 & Ht & Hd).
    exists dir, c1, c2. left. split; [done|]. by rewrite run_deferred_trace, Ht, Hd.
  - split; [done|]. destruct Hsteps as (-> & dir & c1 & c2 & Hstop). exists dir, c1, c2. by right.
Qed.
End props.

(** ** Witness: a run that ends well, and one whose manager fails *)

(** An environment in which only the manager may fail. *)
Definition sample_MainEnv (manager : option error) : MainEnv test_env := {|
  rest_Config := unit;
  os_MkdirTemp prefix x := (OK ("/tmp/" +:+ prefix +:+ "1"), x);
  ctrl_GetConfigOrDie x := (Some tt, x);
  kubernetes_NewForConfig _ x := (None, x);
  ctrl_NewManager _ _ _ x := (None, x);
  ctrl_SetupSignalHandler x := (tt, x);
  time_Sleep _ x := (tt, x);
  session_NewSession x := (None, x);
  mgr_Register _ x := (None, x);
  mgr_Start x := (manager, x);
  run_cleanup _ x := (tt, x);
|}.

Abbreviation sample_run manager :=
  (@main_process test_env test_WebhookEnv (sample_MainEnv manager) _ _ string (λ _, OK "${TD}")
     sample_getenv decode_sample (λ t, OK t) "config.yaml" true sample_env).

Lemma sample_run_codes :
  (sample_run None).1 = 0 ∧ length (trace (sample_run None).2) = 25%nat ∧
  (sample_run (Some (ErrExt "lost lease"))).1 = 1 ∧
  length (trace (sample_run (Some (ErrExt "lost lease"))).2) = 22%nat.
Proof. vm_compute. split_and!; reflexivity. Qed.

(** The hypothesis is an equation for the run; in the witness the manager is
    started and fails, so the code is 1. *)
Lemma main_correct_witness :
  let run := sample_run (Some (ErrExt "lost lease")) in
  run.1 = 1 ∧ replays sample_env (trace run.2) (penv run.2).
Proof.
  intros run. split; [vm_compute; reflexivity|].
  exact (proj1 (@main_correct test_env test_WebhookEnv test_WebhookEnvLaws
    (sample_MainEnv (Some (ErrExt "lost lease"))) _ _ string (λ _, OK "${TD}") sample_getenv
    decode_sample (λ t, OK t) "config.yaml" true sample_env run.1 run.2 (surjective_pairing run))).
Defined.
